(* ===== verification/_CoqProject ===== *)
-Q . S2P
Prelude.v
Text.v
External.v
Store.v
Tx.v
Demo.v
Subscriptions.v
Runs.v
Reports.v
Progress.v
Inbox.v
Intake.v
IntakeSpec.v
Manifest.v
ManifestSpec.v
Revisions.v
Provider.v
ProviderSpec.v
Acquisition.v
AcquisitionSpec.v
Coordinator.v
Settlement.v
Schedule.v
Executor.v
ExecutorSpec.v
Bus.v
BusSpec.v
Reaper.v
ReaperSpec.v
Maintenance.v
MaintenanceSpec.v
Registration.v
RegistrationSpec.v
Delta.v
Units.v
ResultReader.v
Api.v
System.v
Queue.v
Staged.v
Safety.v
ApiSpec.v
Journey.v
Config.v
ConfigSpec.v
Session.v
Supervision.v
SupervisionSpec.v
Advance.v
EmptyDigest.v
Liveness.v
Readiness.v
Process.v
Redaction.v
