(* ===== verification/Prelude.v ===== *)
(** * Ratatoskr channel digests: a verification library

    The program is a service that follows public Telegram channels for its users and has a digest of
    their posts written: it takes subscription and run commands from a bus, reads the subscribed
    channels, commits a manifest of the selected posts, asks another service for a recap, settles the
    run with the recap's outcome and reports every step to the platform.  Its state is a PostgreSQL
    database; every worker changes it in transactions.

    ** How the program is modelled

    - The database is a record of finite maps, one per table of [src/schema.sql]; a SQL statement is
      a function on it that enforces the CHECK, unique and foreign-key constraints the table declares
      ([Store], and the statements next to the code that runs them).
    - A handler is a program of a state and error monad over a world: the database, the transaction
      clock, a schedule of storage faults that may hit any statement, [begin] or [commit], and a
      source of fresh UUIDs ([Tx]).  Errors are values of the source's error enums.
    - What the program calls outside [src/] (SHA-256, JSON, timestamps, the contract crates, casts of
      the server, address and URI grammars, the file system and the cipher of the session) is a field
      of the classes [External], [BusExternal], [HttpExternal], [ApiExternal], [ConfigExternal] and
      [SessionExternal].  The laws a theorem needs of it are classes too: [ExternalLaws] (UUIDs print
      injectively and hold no colon, a digest has 64 characters, the two SHA-256 calls agree, statuses
      print differently), [EnvelopeLaws] (a typed payload decodes from its own JSON, a UUID from its
      text), [ReportLaws] (a consistent report in plain labels is accepted by its contract),
      [RequestLaws] (so is a recap request within its bounds) and [ApiLaws].  [Demo] is one concrete instance, used only to evaluate witnesses.
    - What the Telegram provider answers, what the broker acknowledges, what the bus delivers, which
      branch a select takes, the clocks and the faults are arguments, so every theorem holds for all
      of them.

    ** The files

    Vocabulary: [Prelude] (results, sort keys, list lemmas), [Text] (trimming, decimal texts, UTF-8),
    [External], [Store], [Tx] with [Progress] (postconditions of runs that no fault strikes), [Demo].

    Components, each with its operations under the names of the source:
    - [Subscriptions]: [subscriptions.rs] and [set_subscription] of the schema.
    - [Runs]: [runs.rs], [create_digest_run], [transition_run], [normalized_window], [acquire_lease];
      the order of run states.
    - [Reports]: [reports.rs], the operation reports and the outbox they are queued in.
    - [Inbox], [Intake] with [IntakeSpec]: [intake.rs], message deduplication and the two commands.
    - [Manifest] with [ManifestSpec]: [manifest.rs].
    - [Revisions], [Provider] with [ProviderSpec], [Acquisition] with [AcquisitionSpec]:
      [revisions.rs], [provider.rs], [acquisition.rs].
    - [Coordinator] with [Settlement] and [Schedule]: [coordinator.rs].
    - [Executor] with [ExecutorSpec]: [executor.rs].
    - [Bus] with [BusSpec]: one delivery and one publication of [bus.rs], and [envelopes.rs].
    - [Reaper] with [ReaperSpec]: [reaper.rs].
    - [Maintenance] with [MaintenanceSpec]: [maintenance.rs] and [retention.rs].
    - [Registration] with [RegistrationSpec]: [registration.rs].
    - [ResultReader], [Api] with [ApiSpec]: [result_reader.rs] and [api.rs], the owner API.
    - [Config] with [ConfigSpec]: [config.rs], from the entries of the environment to a
      configuration.
    - [Session]: [session.rs], the encrypted session of the provider.
    - [Supervision] with [SupervisionSpec]: [runtime.rs], [database.rs] and the loops of [bus.rs]
      and [retention.rs]: the pool and the schema, the connection to the broker, the start of both
      processes and their four supervised tasks.
    - [Readiness]: the flags of [runtime.rs] as its tasks change them, atomic step by atomic step.
    - [Process]: the two [main] functions and the log subscriber of [telemetry.rs].
    - [Redaction]: the [Debug] implementations of everything that holds a secret.

    The whole program:
    - [Delta] is the abstract specification of one atomic unit, a preorder on databases: runs move
      forward, rows others rely on stay, and whatever is new carries its evidence.
    - [Units] proves every transaction, and every statement outside one, to be a [delta].
    - [System] defines the step relation (one unit of one worker, with any arguments) and proves each
      handler to be a sequence of steps; workers interleave at their transactions.
      [SupervisionSpec.supervisors_refine] extends this to the loops that call the handlers.
    - [Queue] is a second invariant of the same units: a row of the outbox was serialized from a
      typed message.
    - [Staged] is a third: a run that may still be executed has no manifest and no recap request.
    - [Safety] draws the theorems about every reachable database from it.
    - [Liveness] composes the reaper and the publisher, [Advance] and [EmptyDigest] the executor with
      the walks and the coordinator, and [Journey] the bus, the coordinator, the other workers and the owner API, into
      theorems about what is bound to happen.

    ** What the theorems show

    - Of every execution ([Safety]): settled runs are final, every settled on-demand run is reported,
      results and waiting runs have their evidence, a handled message has no second effect, withdrawn
      and expired content is gone, and the schema's limits hold.
    - Of each handler, on every branch, errors and storage faults included: what it did when it
      succeeded, and that it changed nothing when it did not ([Settlement], [Schedule],
      [IntakeSpec], [ReaperSpec], [MaintenanceSpec], [RegistrationSpec], [AcquisitionSpec]); and that
      commands, facts, occurrences and overdue runs are acted upon when no fault strikes.
    - Of what is bound to happen: past the deadline the reaper settles every run and the publisher
      drains the outbox, so every operation is answered ([Liveness.operations_answered]); whatever the
      provider answers, a call of the executor settles the run it takes, commits its manifest or stores
      the provider's wait, and as many calls as there are pending runs leave none
      ([Advance.run_advances]); a recap that was written, or the reason it was not, is settled, reported
      and shown to the owner of its run and to nobody else, whatever the workers do meanwhile, and no
      later fact about the run changes anything ([Journey.recap_delivered]).
    - Of the selection and the manifest: a digest holds the newest eligible posts, is marked
      truncated exactly when one was left out, is empty only when every walk ran to its end and there
      was nothing ([EmptyDigest]), and its bytes do not depend on the order of the selection
      ([ExecutorSpec], [ManifestSpec]).
    - Of the walk over a channel: it is bounded, resumable and respects the provider's waits
      ([AcquisitionSpec], [ProviderSpec]).
    - Of the bus: only authorized deliveries have effects, publication is at least once and never
      before its acknowledgement ([BusSpec]); every message the program queues decodes to the typed
      message it was queued as, is published when the broker accepts it, and under one identity
      however often that is ([Queue]).
    - Of the owner API ([ApiSpec], [ResultReader]): no request without the bearer and no owner route
      without an owner is served; an answer depends on the rows of its owner alone; lists, manifests
      and results are exactly the stored ones, in order and within the page; a result of another
      service is shown only when it is the one the settled run names.
    - Of the configuration and the start ([ConfigSpec], [Session], [SupervisionSpec]): an environment
      is accepted exactly when its entries are valid assignments and the role's settings are there,
      and a number exactly when it is in its range; an accepted configuration obeys every bound, does
      not depend on the order of the environment, starts its role without a composition error, and
      keeps a body longer than any window that may read it (a timestamp text is read back by the
      server rounded to a microsecond); every loop of the worker does what its branches ask, until
      the drain, and nothing else;
      a process whose [check-config] succeeds starts, and fails as its check did ([Process]); and
      environments and sessions that differ in their secrets alone are indistinguishable by what is
      formatted, printed or refused ([Redaction]).
    - Of readiness ([SupervisionSpec], [Readiness]): between updates it says exactly that bus and
      provider are up, it says so only under the exact topology of consumers, and after the signal
      every schedule of the tasks ends with all of them joined and readiness off.
      [Readiness.readiness_stale] gives two schedules on which it is wrong for a while.

    ** Fuel and bounds

    No function has fuel.  [Acquisition.page_loop] is recursive on the accessibility of the number of
    pages a request may still read, which the condition of the loop makes smaller; the supervised loops
    are recursive on the branches their selects take, the others on the lists they run through.  Counters of the retention metrics wrap
    at 64 bits; counts, identities and configuration numbers that the source parses or converts
    between widths fail where it fails ([i32], [i64], [u32], [u64], [usize] at 64 bits).

    ** What is not modelled

    - One handler sees one clock reading, and a transaction is atomic: the isolation of PostgreSQL
      and its row locks are assumed, the interleaving of transactions is modelled.  The atomics of
      readiness are sequentially consistent.
    - What tokio, axum, async-nats, reqwest and grammers do themselves: scheduling, timers, sockets,
      TLS, route tables, body limits, signals.  Their answers are arguments.
    - Log lines and their format, the connections inside the pool and its closing, the wiping of
      secrets, and the layout [core::fmt] gives a formatted value: [Redaction] models what is formatted.
    - The table [provider_status] of the schema, which no code reads or writes.
    - [RunRepository] and [SubscriptionRepository] are modelled in [Runs] and [Subscriptions]; no
      worker calls them, so they are not steps of [System]. *)

From stdpp Require Export base gmap strings list fin_maps sorting pretty.
From stdpp Require Export ssreflect.
From Stdlib Require Export ZArith Lia.

Set Default Proof Using "Type".
#[global] Open Scope Z_scope.

(** ** Fallible values: Rust's [Result] *)

Inductive result (E A : Type) : Type :=
| Ok (value : A)
| Err (error : E).
Arguments Ok {E A} value.
Arguments Err {E A} error.

#[export] Instance result_ret {E} : MRet (result E) := λ A a, Ok a.

#[export] Instance result_bind {E} : MBind (result E) := λ A B f r,
  match r with Ok a => f a | Err e => Err e end.

(** [map_err(|_| e)] followed by the question mark operator. *)
Definition ok_or {E A} (e : E) (o : option A) : result E A :=
  match o with Some a => Ok a | None => Err e end.

Definition map_err {E F A} (f : E → F) (r : result E A) : result F A :=
  match r with Ok a => Ok a | Err e => Err (f e) end.

Definition is_ok {E A} (r : result E A) : bool :=
  match r with Ok _ => true | Err _ => false end.

(** [iter().map(f).collect::<Result<Vec<_>, _>>()] *)
Fixpoint collect_results {E A B} (f : A → result E B) (l : list A) : result E (list B) :=
  match l with
  | [] => Ok []
  | x :: l' =>
      y ← f x; ys ← collect_results f l'; Ok (y :: ys)
  end.

(** ** Sort keys: lists of integers compared lexicographically

    Every [ORDER BY] and every [sort_by] of the program orders rows by a tuple of instants,
    identities, integers and texts.  A tuple is one list of integers here: an identity is its value,
    a descending column is negated, and a text is its bytes, each plus one, closed by a zero. *)

Fixpoint lexleb (a b : list Z) : bool :=
  match a, b with
  | [], _ => true
  | _ :: _, [] => false
  | x :: a', y :: b' => if x <? y then true else if y <? x then false else lexleb a' b'
  end.

Definition text_key (s : string) : list Z :=
  ((λ c, Z.of_N (Ascii.N_of_ascii c) + 1) <$> String.list_ascii_of_string s) ++ [0].

(** Stable insertion sort, executable and generic in the order. *)
Fixpoint insert_by {A} (leb : A → A → bool) (x : A) (l : list A) : list A :=
  match l with
  | [] => [x]
  | y :: l' => if leb x y then x :: y :: l' else y :: insert_by leb x l'
  end.

Definition sort_by {A} (leb : A → A → bool) (l : list A) : list A :=
  foldr (insert_by leb) [] l.

Definition sort_on {A} (key : A → list Z) (l : list A) : list A :=
  sort_by (λ a b, lexleb (key a) (key b)) l.

(** ** Lemmas on results *)

Lemma collect_results_Ok {E A B} (f : A → result E B) l ys :
  collect_results f l = Ok ys ↔ Forall2 (λ x y, f x = Ok y) l ys.
Proof.
  revert ys; induction l as [|x l IH]; intros ys; simpl.
  - split; [by intros [= <-] | by inversion 1].
  - destruct (f x) as [y|e] eqn:Hx; simpl.
    + destruct (collect_results f l) as [ys'|e] eqn:Hl; simpl.
      * split.
        -- intros [= <-]. constructor; [done|]. by apply IH.
        -- intros (y'&ys2&?&H2&->)%Forall2_cons_inv_l. apply IH in H2. congruence.
      * split; [done|]. intros (y'&ys2&?&H2&->)%Forall2_cons_inv_l. apply IH in H2. congruence.
    + split; [done|]. intros (y'&ys2&?&H2&->)%Forall2_cons_inv_l. congruence.
Qed.

Lemma result_bind_Ok {E A B} (r : result E A) (k : A → result E B) b :
  (r ≫= k) = Ok b ↔ ∃ a, r = Ok a ∧ k a = Ok b.
Proof. destruct r; simpl; naive_solver. Qed.

Lemma ok_or_Ok {E A} (e : E) (o : option A) a : ok_or e o = Ok a → o = Some a.
Proof. destruct o; simpl; congruence. Qed.

(** ** Lemmas on sort keys *)

Lemma lexleb_refl a : lexleb a a = true.
Proof. induction a as [|x a IH]; simpl; [done|]. by rewrite Z.ltb_irrefl. Qed.

Lemma lexleb_total a b : lexleb a b = true ∨ lexleb b a = true.
Proof.
  revert b; induction a as [|x a IH]; intros [|y b]; simpl; auto.
  destruct (Z.ltb_spec x y), (Z.ltb_spec y x); auto; lia.
Qed.

Lemma lexleb_trans a b c : lexleb a b = true → lexleb b c = true → lexleb a c = true.
Proof.
  revert b c; induction a as [|x a IH]; intros [|y b] [|z c]; simpl; try done.
  destruct (Z.ltb_spec x y), (Z.ltb_spec y x), (Z.ltb_spec y z), (Z.ltb_spec z y),
    (Z.ltb_spec x z), (Z.ltb_spec z x); try done; try lia; eauto.
Qed.

Lemma lexleb_antisym a b : lexleb a b = true → lexleb b a = true → a = b.
Proof.
  revert b; induction a as [|x a IH]; intros [|y b]; simpl; try done.
  destruct (Z.ltb_spec x y), (Z.ltb_spec y x); try done; try lia.
  intros H1 H2. rewrite (IH b H1 H2). f_equal. lia.
Qed.

Lemma lexleb_cons x a y b : lexleb (x :: a) (y :: b) = true → x ≤ y.
Proof. simpl. destruct (Z.ltb_spec x y), (Z.ltb_spec y x); try done; lia. Qed.

Lemma lexleb_app_eq a b c : lexleb (a ++ b) (a ++ c) = lexleb b c.
Proof. induction a as [|x a IH]; simpl; [done|]. by rewrite Z.ltb_irrefl. Qed.

Lemma StronglySorted_weaken {A} (R R' : A → A → Prop) l :
  (∀ a b, R a b → R' a b) → StronglySorted R l → StronglySorted R' l.
Proof. intros HR. induction 1 as [|a l _ IH Ha]; constructor; [done|]. eapply Forall_impl; [exact Ha|auto]. Qed.

#[export] Instance lexleb_Total {A} (key : A → list Z) :
  Total (λ a b, lexleb (key a) (key b) = true).
Proof. intros a b. apply lexleb_total. Qed.

#[export] Instance lexleb_Transitive {A} (key : A → list Z) :
  Transitive (λ a b, lexleb (key a) (key b) = true).
Proof. intros a b c. apply lexleb_trans. Qed.

Lemma ascii_key_inj c d : Z.of_N (Ascii.N_of_ascii c) + 1 = Z.of_N (Ascii.N_of_ascii d) + 1 → c = d.
Proof.
  intros H. rewrite -(Ascii.ascii_N_embedding c) -(Ascii.ascii_N_embedding d). f_equal. lia.
Qed.

(** A text key is self-delimiting, so a tuple that starts with a text is decomposed uniquely. *)
Lemma text_key_app_inj s t a b : text_key s ++ a = text_key t ++ b → s = t ∧ a = b.
Proof.
  rewrite /text_key. revert t; induction s as [|c s IH]; intros [|d t]; simpl.
  - by intros [= ->].
  - intros [= ? ?]; lia.
  - intros [= ? ?]; lia.
  - intros [= Hcd Hrest]. destruct (IH t Hrest) as [-> ->].
    split; [|done]. f_equal. by apply ascii_key_inj; lia.
Qed.

(** ** Lemmas on sorting *)

Section Sorting.
Context {A : Type} (leb : A → A → bool).
#[local] Notation R := (λ x y, leb x y = true).

Lemma insert_by_perm x l : insert_by leb x l ≡ₚ x :: l.
Proof.
  induction l as [|y l IH]; simpl; [done|].
  case_match; [done|]. rewrite IH. apply Permutation_swap.
Qed.

Lemma sort_by_perm l : sort_by leb l ≡ₚ l.
Proof.
  induction l as [|x l IH]; simpl; [done|].
  rewrite insert_by_perm. by apply Permutation_cons.
Qed.

Lemma length_sort_by l : length (sort_by leb l) = length l.
Proof. by rewrite sort_by_perm. Qed.

Lemma elem_of_sort_by x l : x ∈ sort_by leb l ↔ x ∈ l.
Proof. by rewrite sort_by_perm. Qed.

Context `{HT : !Total R, Htr : !Transitive R}.

Lemma insert_by_sorted x l : StronglySorted R l → StronglySorted R (insert_by leb x l).
Proof using HT Htr.
  induction 1 as [|y l Hl IH Hy]; simpl; [by repeat constructor|].
  destruct (leb x y) eqn:Hxy.
  - constructor; [by constructor|]. constructor; [done|].
    eapply Forall_impl; [exact Hy|]. intros z Hz. by apply (Htr x y z).
  - constructor; [done|]. rewrite insert_by_perm. constructor; [|done].
    destruct (HT x y) as [?|?]; [congruence|done].
Qed.

Lemma sort_by_sorted l : StronglySorted R (sort_by leb l).
Proof using HT Htr. induction l as [|x l IH]; simpl; [constructor|by apply insert_by_sorted]. Qed.
End Sorting.

Section SortOn.
Context {A : Type} (key : A → list Z).

Lemma sort_on_perm l : sort_on key l ≡ₚ l.
Proof. apply sort_by_perm. Qed.

Lemma length_sort_on l : length (sort_on key l) = length l.
Proof. apply length_sort_by. Qed.

Lemma elem_of_sort_on x l : x ∈ sort_on key l ↔ x ∈ l.
Proof. apply elem_of_sort_by. Qed.

Lemma sort_on_sorted l :
  StronglySorted (λ a b, lexleb (key a) (key b) = true) (sort_on key l).
Proof. unfold sort_on. apply sort_by_sorted; apply _. Qed.

(** Sorting by a key that separates the elements does not depend on their order. *)
Lemma sort_on_perm_eq l1 l2 :
  l1 ≡ₚ l2 →
  (∀ x y, x ∈ l1 → y ∈ l1 → key x = key y → x = y) →
  sort_on key l1 = sort_on key l2.
Proof.
  intros Hp Hinj. eapply StronglySorted_unique_strong.
  - intros x y Hx Hy Hxy Hyx. rewrite elem_of_sort_on in Hx. rewrite elem_of_sort_on -Hp in Hy. 
    apply (Hinj x y Hx Hy). exact (lexleb_antisym _ _ Hxy Hyx).
  - apply sort_on_sorted.
  - apply sort_on_sorted.
  - by rewrite !sort_on_perm.
Qed.

(** The first [n] of a sorted list are below every one that was cut off. *)
Lemma take_sort_on_below n l x y :
  x ∈ take n (sort_on key l) → y ∈ drop n (sort_on key l) → lexleb (key x) (key y) = true.
Proof.
  intros Hx Hy. pose proof (sort_on_sorted l) as Hs. rewrite -(take_drop n (sort_on key l)) in Hs.
  revert Hs Hx Hy. generalize (take n (sort_on key l)) (drop n (sort_on key l)).
  clear l. intros l1 l2. induction l1 as [|a l1 IH]; simpl; [by intros ? ?%elem_of_nil|].
  inversion 1 as [|? ? Hs' Ha]; subst. intros [->|Hx]%elem_of_cons Hy; [|by apply IH].
  rewrite Forall_forall in Ha. apply Ha, elem_of_app; auto.
Qed.

Lemma elem_of_take_sort_on n l x : x ∈ take n (sort_on key l) → x ∈ l.
Proof.
  intros Hx. apply elem_of_sort_on. rewrite -(take_drop n (sort_on key l)). apply elem_of_app; auto.
Qed.

Lemma NoDup_take_sort_on n l : NoDup l → NoDup (take n (sort_on key l)).
Proof.
  intros Hnd. assert (NoDup (sort_on key l)) as Hs by by rewrite sort_on_perm.
  rewrite -(take_drop n (sort_on key l)) in Hs. by apply NoDup_app in Hs as [? _].
Qed.

(** What a batch leaves over. *)
Lemma length_after_batch n l l' :
  NoDup l' → (∀ x, x ∈ l' → x ∈ l ∧ x ∉ take n (sort_on key l)) → (length l' ≤ length l - n)%nat.
Proof.
  intros Hnd Hin. rewrite -(length_sort_on l) -length_drop.
  apply submseteq_length, NoDup_submseteq; [done|]. intros x [Hx Hn]%Hin.
  apply elem_of_sort_on in Hx. rewrite -(take_drop n (sort_on key l)) in Hx.
  by apply elem_of_app in Hx as [?|?].
Qed.
End SortOn.

(** ** Texts joined by a separator *)

Definition colon : Ascii.ascii := Eval compute in Ascii.ascii_of_N 58.

Fixpoint text_has (c : Ascii.ascii) (s : string) : bool :=
  match s with
  | EmptyString => false
  | String d s' => Ascii.eqb c d || text_has c s'
  end.

Lemma text_app_cons x (a b : string) : (String x a +:+ b)%string = String x (a +:+ b)%string.
Proof. reflexivity. Qed.

Lemma text_app_nil (b : string) : (EmptyString +:+ b)%string = b.
Proof. reflexivity. Qed.

Lemma text_app_assoc (a b c : string) : ((a +:+ b) +:+ c)%string = (a +:+ (b +:+ c))%string.
Proof. induction a as [|x a IH]; [done|]. by rewrite !text_app_cons IH. Qed.

Lemma text_app_inj_l (a b c : string) : (a +:+ b)%string = (a +:+ c)%string → b = c.
Proof. induction a as [|x a IH]; [done|]. rewrite !text_app_cons. by intros [= ?%IH]. Qed.

(** When neither prefix holds the separator, a joined text splits in one way. *)
Lemma text_sep_inj c (a a' b b' : string) :
  text_has c a = false → text_has c a' = false →
  (a +:+ String c b)%string = (a' +:+ String c b')%string → a = a' ∧ b = b'.
Proof.
  revert a'; induction a as [|x a IH]; intros [|x' a'];
    rewrite ?text_app_cons ?text_app_nil /=.
  - by intros _ _ [= ->].
  - intros _ Hh [= -> _]. by rewrite Ascii.eqb_refl in Hh.
  - intros Hh _ [= -> _]. by rewrite Ascii.eqb_refl in Hh.
  - rewrite !orb_false_iff. intros [_ ?] [_ ?] [= -> Heq].
    destruct (IH a') as [-> ->]; auto.
Qed.

(** ** Automation *)

Create HintDb digest.
#[export] Hint Rewrite @lookup_insert_eq @lookup_delete_eq @lookup_empty : digest.

(** Case analysis on the scrutinee of a match in a hypothesis or the goal, then clean up. *)
Ltac split_match :=
  repeat first
    [ progress simplify_eq/=
    | case_match ].

Ltac inv H := inversion H; subst; clear H.
