(* ===== verification/Text.v ===== *)
(** * Text: the string operations of Rust's standard library the program uses, on UTF-8 bytes *)

From Stdlib Require Import DecimalString DecimalZ DecimalPos.
From S2P Require Import Prelude.

Definition byte_of (c : Ascii.ascii) : N := Ascii.N_of_ascii c.

Definition is_cont (c : Ascii.ascii) : bool := ((128 <=? byte_of c) && (byte_of c <=? 191))%N.

Definition in_range (lo hi : N) (c : Ascii.ascii) : bool := ((lo <=? byte_of c) && (byte_of c <=? hi))%N.

(** [String::from_utf8] succeeds. *)
Fixpoint utf8_valid (s : string) : bool :=
  match s with
  | EmptyString => true
  | String c s1 =>
      if in_range 0 127 c then utf8_valid s1
      else match s1 with
      | EmptyString => false
      | String c2 s2 =>
          if in_range 194 223 c then is_cont c2 && utf8_valid s2
          else match s2 with
          | EmptyString => false
          | String c3 s3 =>
              if in_range 224 224 c then in_range 160 191 c2 && is_cont c3 && utf8_valid s3
              else if in_range 237 237 c then in_range 128 159 c2 && is_cont c3 && utf8_valid s3
              else if in_range 225 239 c then is_cont c2 && is_cont c3 && utf8_valid s3
              else match s3 with
              | EmptyString => false
              | String c4 s4 =>
                  (if in_range 240 240 c then in_range 144 191 c2
                   else if in_range 241 243 c then is_cont c2
                   else in_range 244 244 c && in_range 128 143 c2) &&
                  is_cont c3 && is_cont c4 && utf8_valid s4
              end
          end
      end
  end.

(** [str::chars], each character as its bytes: a continuation byte belongs to the character before
    it. *)
Fixpoint chars (s : string) : list string :=
  match s with
  | EmptyString => []
  | String c s' =>
      match chars s' with
      | (String d _ as t) :: rest =>
          if is_cont d then String c t :: rest else String c EmptyString :: t :: rest
      | l => String c EmptyString :: l
      end
  end.

Definition of_bytes (l : list N) : string := foldr (λ n s, String (Ascii.ascii_of_N n) s) EmptyString l.

(** [char::is_whitespace]: the Unicode White_Space characters. *)
Definition white_space : list string :=
  of_bytes <$>
    ([[9]; [10]; [11]; [12]; [13]; [32]; [194; 133]; [194; 160]; [225; 154; 128]] ++
     ((λ n, [226; 128; 128 + n]) <$> [0; 1; 2; 3; 4; 5; 6; 7; 8; 9; 10]) ++
     [[226; 128; 168]; [226; 128; 169]; [226; 128; 175]; [226; 129; 159]; [227; 128; 128]])%N.

Definition is_white (c : string) : bool := bool_decide (c ∈ white_space).

Fixpoint drop_white (l : list string) : list string :=
  match l with
  | [] => []
  | c :: l' => if is_white c then drop_white l' else l
  end.

(** [str::trim] *)
Definition trim_chars (l : list string) : list string := reverse (drop_white (reverse (drop_white l))).

Definition join (l : list string) : string := foldr String.append EmptyString l.

Definition trim (s : string) : string := join (trim_chars (chars s)).

(** [s.chars().take(n).collect::<String>()] *)
Definition take_chars (n : nat) (s : string) : string := join (take n (chars s)).

(** [i64::to_string] *)
Definition int_text (n : Z) : string := NilZero.string_of_int (Z.to_int n).

(** [str::parse::<u128>] on a text [to_string] produced. *)
Definition parse_u128 (s : string) : option Z :=
  match NilZero.int_of_string s with
  | Some (Decimal.Pos d) =>
      let n := Z.of_int (Decimal.Pos d) in if n <? 2 ^ 128 then Some n else None
  | _ => None
  end.

(** [str::strip_prefix] *)
Fixpoint strip_prefix (p s : string) : option string :=
  match p, s with
  | EmptyString, _ => Some s
  | String a p', String b s' => if Ascii.eqb a b then strip_prefix p' s' else None
  | _, EmptyString => None
  end.

(** [s.split(c).next()], which is never absent. *)
Fixpoint before (c : Ascii.ascii) (s : string) : string :=
  match s with
  | EmptyString => EmptyString
  | String d s' => if Ascii.eqb c d then EmptyString else String d (before c s')
  end.

Definition ascii_lower (c : Ascii.ascii) : Ascii.ascii :=
  if in_range 65 90 c then Ascii.ascii_of_N (byte_of c + 32) else c.

Fixpoint to_lower (s : string) : string :=
  match s with EmptyString => EmptyString | String c s' => String (ascii_lower c) (to_lower s') end.

(** [str::eq_ignore_ascii_case] *)
Definition eq_ignore_ascii_case (s t : string) : bool := bool_decide (to_lower s = to_lower t).

(** [s.bytes().all(p)] *)
Fixpoint all_bytes (p : Ascii.ascii → bool) (s : string) : bool :=
  match s with EmptyString => true | String c s' => p c && all_bytes p s' end.

(** [str::len] *)
Definition byte_len (s : string) : Z := Z.of_nat (String.length s).

(** ** Lemmas *)

Lemma join_chars s : join (chars s) = s.
Proof.
  induction s as [|c s IH]; [done|]. simpl. destruct (chars s) as [|t rest]; simpl in *.
  - by rewrite -IH.
  - destruct t as [|d t]; simpl in *; [by rewrite -IH|]. destruct (is_cont d); simpl.
    + by rewrite -IH.
    + by rewrite -IH.
Qed.

(** A character is at least one byte, so a label is never longer in characters than in bytes. *)
Lemma length_chars s : (length (chars s) ≤ String.length s)%nat.
Proof.
  induction s as [|c s IH]; simpl; [done|]. destruct (chars s) as [|[|d t] rest]; simpl in *; try lia.
  destruct (is_cont d); simpl; lia.
Qed.

Lemma int_text_to_int n : NilZero.int_of_string (int_text n) = Some (Z.to_int n).
Proof.
  rewrite /int_text. apply NilZero.isi; destruct n; simpl; try done.
  all: intros [= Heq]; by apply (DecimalPos.Unsigned.to_uint_nonnil p).
Qed.

Lemma parse_u128_int_text n : 0 ≤ n < 2 ^ 128 → parse_u128 (int_text n) = Some n.
Proof.
  intros Hn. rewrite /parse_u128 int_text_to_int. destruct (Z.to_int n) as [d|d] eqn:Hd.
  - pose proof (DecimalZ.of_to n) as Hr. rewrite Hd in Hr. rewrite Hr.
    destruct (Z.ltb_spec n (2 ^ 128)); [done|lia].
  - destruct n; simpl in Hd; try done. lia.
Qed.

#[export] Instance int_text_inj : Inj (=) (=) int_text.
Proof.
  intros a b Hab. pose proof (int_text_to_int a) as Ha. rewrite Hab int_text_to_int in Ha.
  simplify_eq. rewrite -(DecimalZ.of_to a) -(DecimalZ.of_to b). congruence.
Qed.

Lemma strip_prefix_Some p s r : strip_prefix p s = Some r ↔ s = (p +:+ r)%string.
Proof.
  revert s; induction p as [|a p IH]; intros [|b s]; rewrite ?text_app_cons ?text_app_nil /=.
  - split; [by intros [= <-]|by intros <-].
  - split; [by intros [= <-]|by intros <-].
  - by split.
  - destruct (Ascii.eqb_spec a b) as [->|Hne]; simpl.
    + rewrite IH. split; [by intros ->|by intros [= ->]].
    + split; [done|]. intros [= -> _]. done.
Qed.

Lemma length_text_app (s t : string) : String.length (s +:+ t) = (String.length s + String.length t)%nat.
Proof. induction s as [|c s IH]; [done|]. rewrite text_app_cons /=. by rewrite IH. Qed.

Lemma byte_len_app (s t : string) : byte_len (s +:+ t) = byte_len s + byte_len t.
Proof. rewrite /byte_len length_text_app. lia. Qed.

Lemma byte_len_nonneg s : 0 ≤ byte_len s.
Proof. rewrite /byte_len. lia. Qed.

Lemma text_app_nil_r (s : string) : (s +:+ EmptyString)%string = s.
Proof. induction s as [|c s IH]; [done|]. by rewrite text_app_cons IH. Qed.

Lemma join_nil : join [] = EmptyString.
Proof. done. Qed.

Lemma join_cons c l : join (c :: l) = (c +:+ join l)%string.
Proof. done. Qed.
