(* ===== verification/External.v ===== *)
(** * External: the code outside the repository that the program calls

    The contract crates ([ratatoskr-*]), the [uuid], [sha2], [jiff] and [serde_json] crates and the
    text conversions of PostgreSQL are not part of the repository.  Each function of theirs that the
    program calls is one field of the class [External]; nothing is assumed of a field here.  The
    class [ExternalLaws] states the documented behaviour some theorems rely on.  Contract newtypes
    are represented by their wire text, identities by their 128-bit value, a [jiff::Timestamp] by
    its nanoseconds and a [timestamptz] by its microseconds. *)

From S2P Require Import Prelude.

Abbreviation uuid := N.

(** [serde_json::Value] *)
Inductive json : Type :=
| JNull
| JBool (b : bool)
| JNum (n : Z)
| JStr (s : string)
| JArr (items : list json)
| JObj (members : list (string * json)).

(** [Value::get] on an object; anything else has no member. *)
Definition json_get (key : string) (v : json) : option json :=
  match v with
  | JObj members =>
      snd <$> head (filter (λ kv : string * json, kv.1 = key) members)
  | _ => None
  end.

Definition json_as_str (v : json) : option string :=
  match v with JStr s => Some s | _ => None end.

Definition json_as_u64 (v : json) : option Z :=
  match v with JNum n => if (0 <=? n) && (n <? 2 ^ 64) then Some n else None | _ => None end.

(** ** Enumerations of the contract crates, with the constructors the program names *)

Module OutputLanguage.
Inductive t := Ru | En.
#[export] Instance eq_dec : EqDecision t.
Proof. solve_decision. Defined.
End OutputLanguage.
Export (hints) OutputLanguage.

Module OperationStatus.
Inductive t := Queued | Running | Succeeded | PartiallySucceeded | Failed.
#[export] Instance eq_dec : EqDecision t.
Proof. solve_decision. Defined.
End OperationStatus.
Export (hints) OperationStatus.

(** The match of the program on this enumeration has no wildcard, so the list is complete. *)
Module RecapFailureCode.
Inductive t :=
| ManifestUnavailable | ManifestIntegrity | UnsupportedLanguage | ContextBudget
| ProviderUnavailable | ProviderTimeout | InvalidOutput | CostBudget | Cancelled.
End RecapFailureCode.

(** ** Contract values the program builds or reads *)

Record error_envelope := ErrorEnvelope {
  err_code : string; err_message : string; err_retryable : bool }.

Record warning_envelope := WarningEnvelope { warn_code : string; warn_message : string }.

Record result_ref := ResultRef { ref_kind : string; ref_target : string }.

(** [OperationReported]: the struct literal of [reports.rs] names every member. *)
Record operation_reported := OperationReported {
  rep_operation : uuid;
  rep_status : OperationStatus.t;
  rep_stage : option string;
  rep_progress_percent : option Z;
  rep_results : list result_ref;
  rep_error : option error_envelope;
  rep_warnings : list warning_envelope }.

(** Typed commands and facts: the members the program reads; [*_rest] stands for the members only
    the contract crate's own validation reads. *)
Record subscription_command := SubscriptionCommand {
  sc_operation : uuid;
  sc_owner : string;
  sc_idempotency_key : string;
  sc_username : string;
  sc_active : bool;
  sc_rest : string }.

Record run_command := RunCommand {
  rc_operation : uuid;
  rc_owner : string;
  rc_idempotency_key : string;
  rc_run : uuid;
  rc_on_demand : bool;
  rc_start_at : Z;
  rc_end_at : Z;
  rc_language : OutputLanguage.t;
  rc_rest : string }.

Record recap_request := RecapRequest { rq_operation : uuid; rq_run : uuid; rq_rest : json }.

Record recap_completed := RecapCompleted {
  fc_owner : string;
  fc_run : uuid;
  fc_result : uuid;
  fc_analysis_ref : string;
  fc_result_ref : string;
  fc_result_digest_hex : string;
  fc_manifest_digest_hex : string;
  fc_selected_count : Z;
  fc_channel_count : Z;
  fc_included_count : Z;
  fc_omitted_count : Z;
  fc_rest : string }.

Record recap_failed := RecapFailed {
  ff_owner : string;
  ff_run : uuid;
  ff_manifest_digest_hex : string;
  ff_code : RecapFailureCode.t;
  ff_rest : string }.

(** One source of a contract manifest, and the manifest itself: struct literals of [manifest.rs]. *)
Record contract_source := ContractSource {
  cs_revision_ref : string;
  cs_channel_ref : string;
  cs_channel_label : string;
  cs_message_id : string;
  cs_published_at : Z;
  cs_content : string;
  cs_content_digest_hex : string;
  cs_public_link : option string;
  cs_revision : Z }.

Record contract_manifest := ContractManifest {
  cm_manifest_ref : string;
  cm_owner : string;
  cm_run : uuid;
  cm_window : Z * Z;
  cm_sources : list contract_source }.

(** [PlatformScheduleRegistrationRequested]: a struct literal of [registration.rs]. *)
Record schedule_registration := ScheduleRegistration {
  reg_service_name : string;
  reg_name : string;
  reg_owner : uuid;
  reg_cron : string;
  reg_command_type : string;
  reg_operation_kind : string;
  reg_enabled : bool }.

(** [ChannelDigestScheduleOccurrenceRequested] *)
Record occurrence_command := OccurrenceCommand {
  oc_ref : string;
  oc_previous_due_at : Z;
  oc_due_at : Z;
  oc_rest : string }.

(** [EntityRef]: its wire text, kind and UUID, when it holds one. *)
Record entity_ref := EntityRefOf { er_text : string; er_kind : string; er_uuid : option uuid }.

(** A decoded envelope: a [CommandEnvelope] or an [EventEnvelope]. *)
Record inbound_envelope := InboundEnvelope {
  ie_id : uuid;
  ie_type : string;
  ie_producer : string;
  ie_aggregate : string;
  ie_correlation : entity_ref;
  ie_tenant : option string;
  ie_payload : json }.

(** The typed payload of an envelope the program builds. *)
Inductive outbound_payload :=
| ReportPayload (r : operation_reported)
| RecapPayload (r : recap_request)
| RegistrationPayload (r : schedule_registration).

(** An envelope the program builds: the struct literals of [envelopes.rs]. *)
Record outbound_envelope := OutboundEnvelope {
  oe_id : uuid;
  oe_at : Z;
  oe_producer : string;
  oe_aggregate : string;
  oe_correlation : string;
  oe_causation : option string;
  oe_tenant : string;
  oe_payload : outbound_payload }.

(** ** The functions *)

Class External := {
  (* uuid *)
  uuid_text : uuid → string;
  uuid_parse : string → option uuid;
  (* sha2, and the contract crate's own digest function *)
  sha256_digest_hex : string → string;
  sha256_hex : string → string;
  (* jiff and the contract timestamp *)
  jiff_parse : string → option Z;
  jiff_text : Z → string;
  jiff_checked_sub : Z → Z → option Z;
  wire_parse : string → option Z;
  wire_text : Z → string;
  (* PostgreSQL: ::timestamptz, to_char at second precision, lower, the sort key of a text *)
  pg_timestamptz : string → option Z;
  pg_to_char_seconds : Z → string;
  pg_lower : string → string;
  pg_text_key : string → list Z;
  (* serde_json *)
  json_to_vec : json → option string;
  (* ratatoskr-identifiers *)
  tenant_user : string → uuid;
  tenant_of_user : uuid → string;
  operation_id_of_value : json → option uuid;
  tenant_of_value : json → option string;
  parse_digest_hex : string → option string;
  parse_entity_ref : string → option string;
  parse_safe_message : string → option string;
  (* ratatoskr-operation-contracts and ratatoskr-error-contracts *)
  status_text : OperationStatus.t → string;
  parse_operation_stage : string → option string;
  parse_result_kind : string → option string;
  parse_error_code : string → option string;
  validate_operation_reported : operation_reported → bool;
  operation_reported_value : operation_reported → option json;
  parse_registration_label : string → option string;
  parse_cron : string → option string;
  parse_operation_kind : string → option string;
  registration_value : schedule_registration → option json;
  OCCURRENCE_COMMAND_TYPE : string;
  (* ratatoskr-channel-digest-contracts *)
  decode_subscription_set : string → option subscription_command;
  validate_subscription_set : subscription_command → bool;
  decode_run_requested : string → option run_command;
  validate_run_requested : run_command → bool;
  decode_recap_requested : string → option recap_request;
  validate_recap_requested : recap_request → bool;
  recap_requested_value : recap_request → option json;
  decode_recap_completed : string → option recap_completed;
  validate_recap_completed : recap_completed → bool;
  decode_recap_failed : string → option recap_failed;
  validate_recap_failed : recap_failed → bool;
  MAX_SOURCES : nat;
  MAX_CHANNELS : nat;
  MAX_CONTENT_BYTES : nat;
  digest_window_valid : Z → Z → bool;
  parse_manifest_ref : string → option string;
  parse_run_id : string → option uuid;
  manifest_canonical_bytes : contract_manifest → option string;
}.

(** The envelope crate, used by the message bus alone. *)
Class BusExternal := {
  SUBSCRIPTION_COMMAND_TYPE : string;
  RUN_COMMAND_TYPE : string;
  RECAP_COMMAND_TYPE : string;
  REGISTRATION_COMMAND_TYPE : string;
  COMPLETED_EVENT_TYPE : string;
  FAILED_EVENT_TYPE : string;
  decode_command_envelope : string → option inbound_envelope;
  decode_event_envelope : string → option inbound_envelope;
  subscription_of_payload : json → option subscription_command;
  run_of_payload : json → option run_command;
  occurrence_of_payload : json → option occurrence_command;
  completed_of_payload : json → option recap_completed;
  failed_of_payload : json → option recap_failed;
  subscription_to_vec : subscription_command → option string;
  run_to_vec : run_command → option string;
  occurrence_to_vec : occurrence_command → option string;
  completed_to_vec : recap_completed → option string;
  failed_to_vec : recap_failed → option string;
  validate_occurrence : occurrence_command → bool;
  tenant_user_id : string → uuid;
  parse_producer_name : string → option string;
  report_of_json : json → option operation_reported;
  recap_of_json : json → option recap_request;
  registration_of_json : json → option schedule_registration;
  outbound_to_vec : outbound_envelope → option string;
  pg_to_char_micros : Z → string;
}.

(** Documented behaviour of that code: a UUID prints injectively and holds no colon, a lowercase
    hexadecimal SHA-256 is 64 bytes whichever crate computes it, the status names differ. *)
Class ExternalLaws `{External} : Prop := {
  uuid_text_inj : Inj (=) (=) uuid_text;
  uuid_text_no_colon u : text_has colon (uuid_text u) = false;
  sha256_digest_length s : String.length (sha256_digest_hex s) = 64%nat;
  sha256_agree s : sha256_hex s = sha256_digest_hex s;
  status_text_inj : Inj (=) (=) status_text;
}.
#[export] Existing Instance uuid_text_inj.
#[export] Existing Instance status_text_inj.
