(* ===== verification/Store.v ===== *)
(** * Store: the tables of [schema.sql] and the statement vocabulary

    A table is a finite map from its primary key to a row record; a statement reads the transaction
    instant and the database and either returns a value with the new database or fails.  The generic
    operators ([select_where], [update_where], ...) carry the lemmas every component uses. *)

From S2P Require Import Prelude External.

(** ** Closed vocabularies of the CHECK constraints *)

Module RunTrigger.
Inductive t := OnDemand | Scheduled.
#[export] Instance eq_dec : EqDecision t.
Proof. solve_decision. Defined.
Definition as_str (x : t) : string :=
  match x with OnDemand => "on_demand" | Scheduled => "scheduled" end.
End RunTrigger.
Export (hints) RunTrigger.

Module RunState.
Inductive t := Accepted | Acquiring | WaitingRecap | Completed | Partial | Failed.
#[export] Instance eq_dec : EqDecision t.
Proof. solve_decision. Defined.
Definition as_str (x : t) : string :=
  match x with
  | Accepted => "accepted"
  | Acquiring => "acquiring"
  | WaitingRecap => "waiting_recap"
  | Completed => "completed"
  | Partial => "partial"
  | Failed => "failed"
  end.
End RunState.
Export (hints) RunState.

Module InboxState.
Inductive t := Processing | Completed | Failed.
#[export] Instance eq_dec : EqDecision t.
Proof. solve_decision. Defined.
End InboxState.
Export (hints) InboxState.

Module Outcome.
Inductive t := Completed | Partial | Failed.
#[export] Instance eq_dec : EqDecision t.
Proof. solve_decision. Defined.
Definition as_str (x : t) : string :=
  match x with Completed => "completed" | Partial => "partial" | Failed => "failed" end.
(** The outcome text of a result is also the state text of its run. *)
Definition run_state (x : t) : RunState.t :=
  match x with
  | Completed => RunState.Completed | Partial => RunState.Partial | Failed => RunState.Failed
  end.
End Outcome.
Export (hints) Outcome.

(** ** Rows *)

Record channel_row := ChannelRow { ch_username : string; ch_display_name : option string }.

Record subscription_row := SubscriptionRow {
  sub_owner : uuid; sub_channel : uuid; sub_first_activated_at : Z;
  sub_enabled : bool; sub_updated_at : Z }.

Record revision_row := RevisionRow {
  rev_channel : uuid; rev_message : Z; rev_sha256 : string; rev_body : option string;
  rev_published_at : Z; rev_observed_at : Z; rev_link : string;
  rev_deleted_at : option Z; rev_minimized_at : option Z }.

Record run_row := RunRow {
  run_owner : uuid; run_operation : uuid; run_trigger : RunTrigger.t;
  run_idempotency_key : string; run_window_start : Z; run_window_end : Z;
  run_language : OutputLanguage.t; run_state : RunState.t; run_failure_class : option string;
  run_incomplete : bool; run_created_at : Z; run_updated_at : Z }.

Record manifest_row := ManifestRow {
  man_run : uuid; man_owner : uuid; man_sha256 : string; man_source_count : Z;
  man_channel_count : Z; man_text : option string; man_minimized_at : option Z;
  man_created_at : Z }.

Record result_row := ResultRow {
  res_run : uuid; res_manifest : uuid; res_owner : uuid; res_outcome : Outcome.t;
  res_recap : option uuid; res_digest_hex : option string; res_citations : Z;
  res_failure_class : option string; res_created_at : Z }.

Record inbox_row := InboxRow {
  in_subject : string; in_semantic_key : string; in_sha256 : string; in_state : InboxState.t;
  in_received_at : Z; in_completed_at : option Z; in_failure_class : option string }.

Record outbox_row := OutboxRow {
  out_subject : string; out_semantic_key : string; out_owner : uuid; out_operation : option uuid;
  out_causation : option string; out_payload : json; out_created_at : Z;
  out_published_at : option Z; out_attempts : Z; out_next_attempt_at : Z;
  out_failure_class : option string }.

(** The checkpoint object [jsonb_build_object] writes; its absence is the default empty object. *)
Record checkpoint := Checkpoint {
  ck_before : option Z; ck_pages : Z; ck_revisions : Z; ck_state : string }.

Record lease_row := LeaseRow {
  lease_holder : uuid; lease_acquired_at : Z; lease_expires_at : Z;
  lease_checkpoint : option checkpoint }.

Record db := Db {
  channels : gmap uuid channel_row;
  subscriptions : gmap uuid subscription_row;
  revisions : gmap uuid revision_row;
  runs : gmap uuid run_row;
  manifests : gmap uuid manifest_row;
  manifest_sources : gset (uuid * uuid * Z);
  results : gmap uuid result_row;
  inbox : gmap uuid inbox_row;
  outbox : gmap uuid outbox_row;
  leases : gmap (string * uuid) lease_row }.

Definition empty_db : db := Db ∅ ∅ ∅ ∅ ∅ ∅ ∅ ∅ ∅ ∅.

Definition with_channels d x :=
  Db x (subscriptions d) (revisions d) (runs d) (manifests d) (manifest_sources d) (results d)
    (inbox d) (outbox d) (leases d).
Definition with_subscriptions d x :=
  Db (channels d) x (revisions d) (runs d) (manifests d) (manifest_sources d) (results d)
    (inbox d) (outbox d) (leases d).
Definition with_revisions d x :=
  Db (channels d) (subscriptions d) x (runs d) (manifests d) (manifest_sources d) (results d)
    (inbox d) (outbox d) (leases d).
Definition with_runs d x :=
  Db (channels d) (subscriptions d) (revisions d) x (manifests d) (manifest_sources d) (results d)
    (inbox d) (outbox d) (leases d).
Definition with_manifests d x :=
  Db (channels d) (subscriptions d) (revisions d) (runs d) x (manifest_sources d) (results d)
    (inbox d) (outbox d) (leases d).
Definition with_manifest_sources d x :=
  Db (channels d) (subscriptions d) (revisions d) (runs d) (manifests d) x (results d)
    (inbox d) (outbox d) (leases d).
Definition with_results d x :=
  Db (channels d) (subscriptions d) (revisions d) (runs d) (manifests d) (manifest_sources d) x
    (inbox d) (outbox d) (leases d).
Definition with_inbox d x :=
  Db (channels d) (subscriptions d) (revisions d) (runs d) (manifests d) (manifest_sources d)
    (results d) x (outbox d) (leases d).
Definition with_outbox d x :=
  Db (channels d) (subscriptions d) (revisions d) (runs d) (manifests d) (manifest_sources d)
    (results d) (inbox d) x (leases d).
Definition with_leases d x :=
  Db (channels d) (subscriptions d) (revisions d) (runs d) (manifests d) (manifest_sources d)
    (results d) (inbox d) (outbox d) x.

(** ** Generic statements *)

(** A statement fails because the server or a constraint refuses it, or with a raised code. *)
Inductive sql_error := SqlUnavailable | SqlConstraint | SqlRaised (code : string).

(** One statement at a transaction instant. *)
Definition stmt (A : Type) : Type := Z → db → result sql_error (A * db).

Definition read {A} (f : db → A) : stmt A := λ _ d, Ok (f d, d).

Section Table.
Context {A : Type}.
Implicit Types (p : uuid → A → bool) (t : gmap uuid A).

Definition select_where p t : list (uuid * A) :=
  filter (λ kv : uuid * A, p kv.1 kv.2 = true) (map_to_list t).

Definition find_where p t : option (uuid * A) := head (select_where p t).

Definition any_where p t : bool :=
  match find_where p t with Some _ => true | None => false end.

Definition count_where p t : nat := length (select_where p t).

Definition update_where p (f : A → A) t : gmap uuid A :=
  map_imap (λ k v, Some (if p k v then f v else v)) t.

Lemma elem_of_select_where p t k v :
  (k, v) ∈ select_where p t ↔ t !! k = Some v ∧ p k v = true.
Proof. rewrite /select_where list_elem_of_filter elem_of_map_to_list /=. tauto. Qed.

Lemma NoDup_fst_select_where p t : NoDup (select_where p t).*1.
Proof.
  rewrite /select_where. pose proof (NoDup_fst_map_to_list t) as Hnd. revert Hnd.
  generalize (map_to_list t). induction l as [|[k v] l IH]; intros Hnd; [constructor|].
  inv Hnd. rewrite filter_cons. case_decide; [|by apply IH].
  simpl. constructor; [|by apply IH]. intros [[k' v'] [-> Hin]]%list_elem_of_fmap.
  apply list_elem_of_filter in Hin as [_ Hin]. apply H1, list_elem_of_fmap. by exists (k', v').
Qed.

Lemma NoDup_select_where p t : NoDup (select_where p t).
Proof. eapply NoDup_fmap_1, NoDup_fst_select_where. Qed.

Lemma select_where_ext p q t :
  (∀ k v, t !! k = Some v → p k v = q k v) → select_where p t = select_where q t.
Proof.
  intros Hpq. rewrite /select_where.
  assert (∀ kv, kv ∈ map_to_list t → p kv.1 kv.2 = q kv.1 kv.2) as Hl.
  { intros [k v] Hk%elem_of_map_to_list. by apply Hpq. }
  revert Hl. generalize (map_to_list t). induction l as [|kv l IH]; intros Hl; [done|].
  rewrite !filter_cons IH; [|intros; apply Hl; by right]. rewrite (Hl kv); [done|by left].
Qed.

Lemma find_where_Some p t k v : find_where p t = Some (k, v) → t !! k = Some v ∧ p k v = true.
Proof.
  rewrite /find_where. intros H. apply elem_of_select_where.
  destruct (select_where p t); simplify_eq/=. apply elem_of_cons; auto.
Qed.

Lemma find_where_None p t : find_where p t = None ↔ ∀ k v, t !! k = Some v → p k v = false.
Proof.
  rewrite /find_where. split.
  - intros H k v Hk. destruct (p k v) eqn:Hp; [|done].
    assert ((k, v) ∈ select_where p t) as Hin by by apply elem_of_select_where.
    destruct (select_where p t); [by apply elem_of_nil in Hin|done].
  - intros H. destruct (select_where p t) as [|[k v] l] eqn:Hs; [done|].
    assert ((k, v) ∈ select_where p t) as Hin by (rewrite Hs; apply elem_of_cons; auto).
    apply elem_of_select_where in Hin as [Hk Hp]. rewrite (H k v Hk) in Hp. done.
Qed.

Lemma any_where_true p t : any_where p t = true ↔ ∃ k v, t !! k = Some v ∧ p k v = true.
Proof.
  rewrite /any_where. destruct (find_where p t) as [[k v]|] eqn:Hf.
  - apply find_where_Some in Hf. naive_solver.
  - rewrite find_where_None in Hf. split; [done|]. intros (k & v & Hk & Hp).
    by rewrite (Hf k v Hk) in Hp.
Qed.

Lemma any_where_false p t : any_where p t = false ↔ ∀ k v, t !! k = Some v → p k v = false.
Proof.
  rewrite -find_where_None /any_where. by destruct (find_where p t).
Qed.

Lemma count_where_pos p t : count_where p t ≠ 0%nat ↔ ∃ k v, t !! k = Some v ∧ p k v = true.
Proof.
  rewrite -any_where_true /any_where /find_where /count_where.
  by destruct (select_where p t).
Qed.

Lemma lookup_update_where p f t k :
  update_where p f t !! k = (λ v, if p k v then f v else v) <$> t !! k.
Proof. rewrite /update_where map_lookup_imap. by destruct (t !! k). Qed.

Lemma lookup_update_where_Some p f t k v :
  update_where p f t !! k = Some v ↔
    ∃ v0, t !! k = Some v0 ∧ v = if p k v0 then f v0 else v0.
Proof. rewrite lookup_update_where fmap_Some. naive_solver. Qed.

Lemma update_where_none p f t :
  (∀ k v, t !! k = Some v → p k v = false) → update_where p f t = t.
Proof.
  intros H. apply map_eq; intros k. rewrite lookup_update_where.
  destruct (t !! k) as [v|] eqn:Hk; simpl; [|done]. by rewrite (H k v Hk).
Qed.

Lemma dom_update_where p f t k : is_Some (update_where p f t !! k) ↔ is_Some (t !! k).
Proof. rewrite lookup_update_where fmap_is_Some. done. Qed.

(** An update that names one primary key. *)
Lemma update_where_key p f t k :
  (∀ k' v, p k' v = true → k' = k) →
  update_where p f t = match t !! k with
                       | Some v => if p k v then <[k:=f v]> t else t
                       | None => t
                       end.
Proof.
  intros Hp. apply map_eq; intros k'. rewrite lookup_update_where.
  destruct (decide (k' = k)) as [->|Hne].
  - destruct (t !! k) as [v|] eqn:Hk; simpl; [|by rewrite Hk].
    destruct (p k v); [by rewrite lookup_insert_eq|by rewrite Hk].
  - transitivity (t !! k').
    + destruct (t !! k') as [v|]; simpl; [|done].
      destruct (p k' v) eqn:Hpv; [|done]. by apply Hp in Hpv.
    + destruct (t !! k) as [v|]; [|done]. destruct (p k v); [|done].
      rewrite lookup_insert_ne; [congruence|done].
Qed.

(** The number of rows an update of one primary key affects. *)
Lemma count_where_key p t k :
  (∀ k' v, p k' v = true → k' = k) →
  count_where p t = match t !! k with
                    | Some v => if p k v then 1%nat else 0%nat
                    | None => 0%nat
                    end.
Proof.
  intros Hp. destruct (decide (count_where p t = 0%nat)) as [H0|H0].
  - rewrite H0. destruct (t !! k) as [v|] eqn:Hk; [|done]. destruct (p k v) eqn:Hpv; [|done].
    exfalso. apply (proj2 (count_where_pos p t)); [naive_solver|done].
  - pose proof H0 as Hpos. apply count_where_pos in Hpos as (k' & v & Hk & Hpv).
    pose proof (Hp k' v Hpv) as ->. rewrite Hk Hpv.
    rewrite /count_where. rewrite /count_where in H0.
    pose proof (NoDup_fst_select_where p t) as Hnd.
    destruct (select_where p t) as [|[k1 v1] [|[k2 v2] l]] eqn:Hs; [done|done|].
    assert ((k1, v1) ∈ select_where p t) as [_ H1]%elem_of_select_where
      by (rewrite Hs; set_solver).
    assert ((k2, v2) ∈ select_where p t) as [_ H2]%elem_of_select_where
      by (rewrite Hs; set_solver).
    apply Hp in H1 as ->. apply Hp in H2 as ->.
    simpl in Hnd. inv Hnd. set_solver.
Qed.

Lemma count_where_insert_None p t k v :
  t !! k = None →
  count_where p (<[k:=v]> t) = ((if p k v then 1 else 0) + count_where p t)%nat.
Proof.
  intros Hk. rewrite /count_where /select_where map_to_list_insert; [|done].
  rewrite filter_cons /=. destruct (p k v); case_decide; done.
Qed.

Lemma count_where_insert_Some p t k v0 v :
  t !! k = Some v0 →
  ((if p k v0 then 1 else 0) + count_where p (<[k:=v]> t) =
   (if p k v then 1 else 0) + count_where p t)%nat.
Proof.
  intros Hk. rewrite -(insert_delete_id t k v0) // -(insert_delete_eq (<[k:=v0]> _) k v).
  rewrite delete_insert_eq delete_delete_eq.
  rewrite !count_where_insert_None ?lookup_delete_eq //. lia.
Qed.

Lemma count_where_mono p q t :
  (∀ k v, t !! k = Some v → p k v = true → q k v = true) →
  (count_where p t ≤ count_where q t)%nat.
Proof.
  intros Hpq. rewrite /count_where /select_where.
  assert (∀ kv, kv ∈ map_to_list t → p kv.1 kv.2 = true → q kv.1 kv.2 = true) as H.
  { intros [k v] Hin. apply elem_of_map_to_list in Hin. by apply Hpq. }
  clear Hpq. revert H. generalize (map_to_list t). induction l as [|kv l IH]; intros H; [done|].
  rewrite !filter_cons. pose proof (H kv ltac:(set_solver)) as Hkv.
  assert (length (filter (λ kv, p kv.1 kv.2 = true) l)
          ≤ length (filter (λ kv, q kv.1 kv.2 = true) l))%nat by (apply IH; set_solver).
  repeat case_decide; simpl; try lia. naive_solver.
Qed.
End Table.

(** [$n::timestamptz] on a bound text. *)
Definition cast_timestamptz `{External} (text : string) : result sql_error Z :=
  ok_or SqlConstraint (pg_timestamptz text).

(** A statement that casts a bound text first. *)
Definition with_cast `{External} {A} (text : string) (s : Z → stmt A) : stmt A :=
  λ now d, t ← cast_timestamptz text; s t now d.

Lemma with_cast_Ok `{External} {A} text (s : Z → stmt A) now d a d' :
  with_cast text s now d = Ok (a, d') →
  ∃ t, pg_timestamptz text = Some t ∧ s t now d = Ok (a, d').
Proof.
  rewrite /with_cast /cast_timestamptz. destruct (pg_timestamptz text); simpl; [|done]. eauto.
Qed.
