(* ===== verification/Tx.v ===== *)
(** * Tx: the state and error monad of the handlers, and transactions

    A handler runs in a world: the database, the clock, a schedule of injected storage faults and a
    source of fresh UUIDs.  Every statement, [begin], [commit] and [rollback] draws one fault, so a
    theorem about an arbitrary world covers a storage failure at every point of the handler.  A
    transaction that fails, rolls back or is dropped leaves the database as it found it.  Inside one
    handler the clock does not move, and a transaction is atomic with respect to the others. *)

From S2P Require Import Prelude External Store.

Record world := World {
  w_db : db;
  w_now : Z;
  w_faults : list bool;
  w_uuids : nat → uuid;
  w_drawn : nat;
  w_metrics : Z * Z }.

Definition set_db (w : world) (d : db) : world :=
  World d (w_now w) (w_faults w) (w_uuids w) (w_drawn w) (w_metrics w).

Definition M (E A : Type) : Type := world → result E A * world.

#[export] Instance M_ret {E} : MRet (M E) := λ A a w, (Ok a, w).

#[export] Instance M_bind {E} : MBind (M E) := λ A B k m w,
  match m w with
  | (Ok a, w') => k a w'
  | (Err e, w') => (Err e, w')
  end.

Definition fail {E A} (e : E) : M E A := λ w, (Err e, w).

(** A pure fallible step inside a handler. *)
Definition lift {E A} (r : result E A) : M E A := λ w, (r, w).

(** [Uuid::now_v7()] *)
Definition now_v7 {E} : M E uuid := λ w,
  (Ok (w_uuids w (w_drawn w)),
   World (w_db w) (w_now w) (w_faults w) (w_uuids w) (S (w_drawn w)) (w_metrics w)).

(** The process-wide counters of [RetentionCounter]: bodies and manifests, each a [u64] that
    wraps as [fetch_add] does.  They are memory, so no rollback touches them. *)
Definition u64_add (a b : Z) : Z := (a + b) mod 2 ^ 64.

Definition add_bodies {E} (count : Z) : M E unit := λ w,
  (Ok tt, World (w_db w) (w_now w) (w_faults w) (w_uuids w) (w_drawn w)
            (u64_add (w_metrics w).1 count, (w_metrics w).2)).

Definition add_manifests {E} (count : Z) : M E unit := λ w,
  (Ok tt, World (w_db w) (w_now w) (w_faults w) (w_uuids w) (w_drawn w)
            ((w_metrics w).1, u64_add (w_metrics w).2 count)).

Definition draw_fault (w : world) : bool * world :=
  match w_faults w with
  | [] => (false, w)
  | f :: fs => (f, World (w_db w) (w_now w) fs (w_uuids w) (w_drawn w) (w_metrics w))
  end.

(** One statement whose failure the caller inspects. *)
Definition try_sql {E A} (s : stmt A) : M E (result sql_error A) := λ w,
  let '(f, w1) := draw_fault w in
  if f then (Ok (Err SqlUnavailable), w1)
  else match s (w_now w1) (w_db w1) with
       | Ok (a, d) => (Ok (Ok a), set_db w1 d)
       | Err e => (Ok (Err e), w1)
       end.

(** One statement with [.map_err(|_| e)?]. *)
Definition sql {E A} (e : E) (s : stmt A) : M E A := λ w,
  let '(f, w1) := draw_fault w in
  if f then (Err e, w1)
  else match s (w_now w1) (w_db w1) with
       | Ok (a, d) => (Ok a, set_db w1 d)
       | Err _ => (Err e, w1)
       end.

(** Maps the error of a callee, as [map_err] or a [From] conversion does. *)
Definition on_err {E F A} (f : E → F) (m : M E A) : M F A := λ w,
  match m w with (Ok a, w') => (Ok a, w') | (Err e, w') => (Err (f e), w') end.

(** Observes a callee's result, as a [match] on the awaited call does. *)
Definition observe {E F A} (m : M E A) : M F (result E A) := λ w,
  let '(r, w') := m w in (Ok r, w').

(** How a transaction body ends without an error: [commit], an explicit [rollback], or the
    transaction dropped by an early return. *)
Inductive txn (A : Type) := Commit (a : A) | Rollback (a : A) | Abandon (a : A).
Arguments Commit {A} a.
Arguments Rollback {A} a.
Arguments Abandon {A} a.

Definition transact {E A} (e : E) (body : M E (txn A)) : M E A := λ w,
  let '(f, w1) := draw_fault w in
  if f then (Err e, w1)
  else match body w1 with
       | (Ok (Commit a), w2) =>
           let '(g, w3) := draw_fault w2 in
           if g then (Err e, set_db w3 (w_db w)) else (Ok a, w3)
       | (Ok (Rollback a), w2) =>
           let '(g, w3) := draw_fault w2 in
           (if g then Err e else Ok a, set_db w3 (w_db w))
       | (Ok (Abandon a), w2) => (Ok a, set_db w2 (w_db w))
       | (Err e', w2) => (Err e', set_db w2 (w_db w))
       end.

(** [for x in l { f(x)?; }] *)
Fixpoint for_each {E A} (l : list A) (f : A → M E unit) : M E unit :=
  match l with
  | [] => mret tt
  | x :: l' => f x ≫= λ _, for_each l' f
  end.

(** ** Inversion of successful runs *)

Lemma draw_fault_spec w f w' :
  draw_fault w = (f, w') →
  w_db w' = w_db w ∧ w_now w' = w_now w ∧ w_uuids w' = w_uuids w ∧ w_drawn w' = w_drawn w.
Proof. unfold draw_fault. destruct (w_faults w); intros; by simplify_eq/=. Qed.

Lemma draw_fault_none w : w_faults w = [] → draw_fault w = (false, w).
Proof. unfold draw_fault. by intros ->. Qed.

Lemma bind_inv {E A B} (m : M E A) (k : A → M E B) w r w' :
  (m ≫= k) w = (r, w') →
  (∃ a w1, m w = (Ok a, w1) ∧ k a w1 = (r, w')) ∨ (∃ e, m w = (Err e, w') ∧ r = Err e).
Proof.
  rewrite /mbind /M_bind. destruct (m w) as [[a|e] w1]; intros H; [left; eauto|right].
  simplify_eq. eauto.
Qed.

Lemma bind_Ok_inv {E A B} (m : M E A) (k : A → M E B) w b w' :
  (m ≫= k) w = (Ok b, w') → ∃ a w1, m w = (Ok a, w1) ∧ k a w1 = (Ok b, w').
Proof. intros [H|(e&_&?)]%bind_inv; [done|done]. Qed.

Lemma ret_inv {E A} (a b : A) w w' : (mret a : M E A) w = (Ok b, w') → b = a ∧ w' = w.
Proof. rewrite /mret /M_ret. intros; by simplify_eq. Qed.

Lemma fail_inv {E A} (e : E) (b : A) w w' : fail e w = (Ok b, w') → False.
Proof. rewrite /fail. intros; by simplify_eq. Qed.

Lemma lift_inv {E A} (r : result E A) a w w' : lift r w = (Ok a, w') → r = Ok a ∧ w' = w.
Proof. rewrite /lift. intros; by simplify_eq. Qed.

Lemma now_v7_inv {E} u w w' :
  (now_v7 : M E uuid) w = (Ok u, w') →
  w_db w' = w_db w ∧ w_now w' = w_now w ∧ u = w_uuids w (w_drawn w).
Proof. rewrite /now_v7. intros; by simplify_eq/=. Qed.

Lemma add_bodies_inv {E} n u w w' :
  (add_bodies n : M E unit) w = (Ok u, w') →
  w_db w' = w_db w ∧ w_now w' = w_now w ∧
  w_metrics w' = (u64_add (w_metrics w).1 n, (w_metrics w).2).
Proof. rewrite /add_bodies. intros; by simplify_eq/=. Qed.

Lemma add_manifests_inv {E} n u w w' :
  (add_manifests n : M E unit) w = (Ok u, w') →
  w_db w' = w_db w ∧ w_now w' = w_now w ∧
  w_metrics w' = ((w_metrics w).1, u64_add (w_metrics w).2 n).
Proof. rewrite /add_manifests. intros; by simplify_eq/=. Qed.

Lemma sql_inv {E A} (e : E) (s : stmt A) w a w' :
  sql e s w = (Ok a, w') →
  s (w_now w) (w_db w) = Ok (a, w_db w') ∧ w_now w' = w_now w.
Proof.
  rewrite /sql. destruct (draw_fault w) as [f w1] eqn:Hd.
  apply draw_fault_spec in Hd as (Hdb & Hnow & _). rewrite Hdb Hnow.
  destruct f; [done|]. destruct (s (w_now w) (w_db w)) as [[a' d]|]; intros; by simplify_eq/=.
Qed.

Lemma sql_metrics {E A} (e : E) (s : stmt A) w r w' : sql e s w = (r, w') → w_metrics w' = w_metrics w.
Proof.
  rewrite /sql /draw_fault. destruct (w_faults w) as [|[] fs]; simpl;
    [|intros; by simplify_eq|]; destruct (s _ _) as [[a d]|]; intros; by simplify_eq/=.
Qed.

Lemma on_err_inv {E F A} (f : E → F) (m : M E A) w a w' :
  on_err f m w = (Ok a, w') → m w = (Ok a, w').
Proof. rewrite /on_err. destruct (m w) as [[]]; intros; by simplify_eq. Qed.

Lemma sql_Err_db {E A} (e : E) (s : stmt A) w e' w' :
  sql e s w = (Err e', w') → w_db w' = w_db w ∧ e' = e.
Proof.
  rewrite /sql. destruct (draw_fault w) as [f w1] eqn:Hd.
  apply draw_fault_spec in Hd as (Hdb & Hnow & _).
  destruct f; [intros; by simplify_eq|].
  destruct (s (w_now w1) (w_db w1)) as [[a' d]|]; intros; by simplify_eq/=.
Qed.

Lemma try_sql_inv {E A} (s : stmt A) w (r : result E (result sql_error A)) w' :
  try_sql s w = (r, w') →
  w_now w' = w_now w ∧
  ((∃ a, r = Ok (Ok a) ∧ s (w_now w) (w_db w) = Ok (a, w_db w')) ∨
   (r = Ok (Err SqlUnavailable) ∧ w_db w' = w_db w) ∨
   (∃ e, r = Ok (Err e) ∧ s (w_now w) (w_db w) = Err e ∧ w_db w' = w_db w)).
Proof.
  rewrite /try_sql. destruct (draw_fault w) as [f w1] eqn:Hd.
  apply draw_fault_spec in Hd as (Hdb & Hnow & _). rewrite Hdb Hnow.
  destruct f; [intros; simplify_eq; naive_solver|].
  destruct (s (w_now w) (w_db w)) as [[a' d]|]; intros; simplify_eq/=; naive_solver.
Qed.

(** A transaction commits its body's database or leaves the database untouched. *)
Lemma transact_inv {E A} (e : E) (body : M E (txn A)) w r w' :
  transact e body w = (r, w') →
  (∃ a w1 w2, r = Ok a ∧ w_db w1 = w_db w ∧ w_now w1 = w_now w ∧
     body w1 = (Ok (Commit a), w2) ∧ w_db w' = w_db w2) ∨
  (w_db w' = w_db w ∧
     ((∃ a w1 w2, r = Ok a ∧ w_db w1 = w_db w ∧ w_now w1 = w_now w ∧
         (body w1 = (Ok (Rollback a), w2) ∨ body w1 = (Ok (Abandon a), w2))) ∨
      (∃ e', r = Err e'))).
Proof.
  rewrite /transact. destruct (draw_fault w) as [f w1] eqn:Hd.
  apply draw_fault_spec in Hd as (Hdb & Hnow & _).
  destruct f; [intros; simplify_eq; rewrite Hdb; eauto 10|].
  destruct (body w1) as [[[a|a|a]|e'] w2] eqn:Hb.
  - destruct (draw_fault w2) as [g w3] eqn:Hd3. apply draw_fault_spec in Hd3 as (Hdb3 & _).
    destruct g; intros; simplify_eq/=; [eauto 10|]. left. by exists a, w1, w2.
  - destruct (draw_fault w2) as [g w3] eqn:Hd3.
    destruct g; intros; simplify_eq/=; [eauto 10|]. right. split; [done|]. left.
    exists a, w1, w2. auto.
  - intros; simplify_eq/=. right. split; [done|]. left. exists a, w1, w2. auto.
  - intros; simplify_eq/=. right. eauto.
Qed.

Lemma transact_Err {E A} (e : E) (body : M E (txn A)) w e' w' :
  transact e body w = (Err e', w') → w_db w' = w_db w.
Proof. intros [(?&?&?&?&_)|[? _]]%transact_inv; done. Qed.

(** ** Calls that read *)

(** The database and the clock are what they were. *)
Definition quiet {E A} (m : M E A) : Prop :=
  ∀ w r w', m w = (r, w') → w_db w' = w_db w ∧ w_now w' = w_now w.

Lemma quiet_lift {E A} (r : result E A) : quiet (lift r).
Proof. intros w r' w'. rewrite /lift. intros; by simplify_eq. Qed.

Lemma quiet_now_v7 {E} : quiet (now_v7 : M E uuid).
Proof. intros w r w'. rewrite /now_v7. intros; by simplify_eq/=. Qed.

Lemma quiet_sql {E A} (e : E) (s : stmt A) :
  (∀ now d a d', s now d = Ok (a, d') → d' = d) → quiet (sql e s).
Proof.
  intros Hs w r w'. rewrite /sql. destruct (draw_fault w) as [f w1] eqn:Hd.
  apply draw_fault_spec in Hd as (Hdb & Hnow & _). destruct f; [intros; by simplify_eq|].
  destruct (s (w_now w1) (w_db w1)) as [[a d]|] eqn:He; intros; simplify_eq/=; [|done].
  split; [|done]. rewrite -Hdb. by eapply Hs.
Qed.

Lemma quiet_read {E A} (e : E) (f : db → A) : quiet (sql e (read f)).
Proof. apply quiet_sql. rewrite /read. by intros ???? [= _ <-]. Qed.

Lemma quiet_on_err {E F A} (f : E → F) (m : M E A) : quiet m → quiet (on_err f m).
Proof.
  intros Hm w r w'. rewrite /on_err. destruct (m w) as [x w1] eqn:Hw. apply Hm in Hw.
  destruct x; intros; by simplify_eq.
Qed.

(** A reading call first: it fails and nothing has happened, or the rest runs from its world. *)
Lemma bind_quiet {E A B} (m : M E A) (k : A → M E B) w r w' :
  quiet m → (m ≫= k) w = (r, w') →
  (∃ a w1, m w = (Ok a, w1) ∧ w_db w1 = w_db w ∧ w_now w1 = w_now w ∧ k a w1 = (r, w')) ∨
  (w_db w' = w_db w ∧ ∃ e, r = Err e).
Proof.
  intros Hq [(a&w1&Hm&Hk)|(e&Hm&->)]%bind_inv; pose proof (Hq _ _ _ Hm) as [? ?]; [left|right]; eauto 10.
Qed.

Lemma ret_eq {E A} (a : A) w r w' : (mret a : M E A) w = (r, w') → r = Ok a ∧ w' = w.
Proof. rewrite /mret /M_ret. intros; by simplify_eq. Qed.

Lemma fail_eq {E A} (e : E) w (r : result E A) w' : fail e w = (r, w') → r = Err e ∧ w' = w.
Proof. rewrite /fail. intros; by simplify_eq. Qed.

(** ** The clock of one handler stands still *)

Definition timeless {E A} (m : M E A) : Prop := ∀ w r w', m w = (r, w') → w_now w' = w_now w.

Lemma timeless_quiet {E A} (m : M E A) : quiet m → timeless m.
Proof. by intros Hq w r w' [_ ?]%Hq. Qed.

Lemma timeless_ret {E A} (a : A) : timeless (mret a : M E A).
Proof. by intros w r w' [_ ->]%ret_eq. Qed.

Lemma timeless_fail {E A} (e : E) : timeless (fail e : M E A).
Proof. by intros w r w' [_ ->]%fail_eq. Qed.

Lemma timeless_lift {E A} (r : result E A) : timeless (lift r).
Proof. apply timeless_quiet, quiet_lift. Qed.

Lemma timeless_now_v7 {E} : timeless (now_v7 : M E uuid).
Proof. apply timeless_quiet, quiet_now_v7. Qed.

Lemma timeless_bind {E A B} (m : M E A) (k : A → M E B) :
  timeless m → (∀ a, timeless (k a)) → timeless (m ≫= k).
Proof.
  intros Hm Hk w r w' [(a&w1&H1&H2)|(e&H1&_)]%bind_inv; [|by eapply Hm].
  transitivity (w_now w1); [by eapply Hk|by eapply Hm].
Qed.

Lemma timeless_sql {E A} (e : E) (s : stmt A) : timeless (sql e s).
Proof.
  intros w r w'. rewrite /sql. destruct (draw_fault w) as [f w1] eqn:Hd.
  apply draw_fault_spec in Hd as (_ & Hnow & _). destruct f; [intros; by simplify_eq|].
  destruct (s (w_now w1) (w_db w1)) as [[a d]|]; intros; by simplify_eq/=.
Qed.

Lemma timeless_try_sql {E A} (s : stmt A) : timeless (try_sql s : M E _).
Proof. by intros w r w' [? _]%try_sql_inv. Qed.

Lemma timeless_on_err {E F A} (f : E → F) (m : M E A) : timeless m → timeless (on_err f m).
Proof.
  intros Hm w r w'. rewrite /on_err. destruct (m w) as [x w1] eqn:Hw. apply Hm in Hw.
  destruct x; intros; by simplify_eq.
Qed.

Lemma timeless_transact {E A} (e : E) (body : M E (txn A)) :
  timeless body → timeless (transact e body).
Proof.
  intros Hb w r w'. rewrite /transact. destruct (draw_fault w) as [f w1] eqn:Hd.
  apply draw_fault_spec in Hd as (_ & Hnow & _). destruct f; [intros; by simplify_eq|].
  destruct (body w1) as [x w2] eqn:Hw. apply Hb in Hw. destruct (draw_fault w2) as [g w3] eqn:Hd3.
  apply draw_fault_spec in Hd3 as (_ & Hnow3 & _).
  destruct x as [[]|]; [destruct g|destruct g| |]; intros; simplify_eq/=; congruence.
Qed.

Lemma timeless_for_each {E A} (l : list A) (f : A → M E unit) :
  (∀ x, timeless (f x)) → timeless (for_each l f).
Proof.
  intros Hf. induction l as [|x l IH]; simpl; [apply timeless_ret|by apply timeless_bind].
Qed.

Create HintDb timeless.

(** Decomposes a handler to its statements, which all stand still. *)
Ltac still :=
  repeat first
    [ progress intros
    | solve [auto with timeless]
    | apply timeless_ret | apply timeless_fail | apply timeless_lift | apply timeless_now_v7
    | apply timeless_sql | apply timeless_try_sql
    | apply timeless_transact | apply timeless_on_err | apply timeless_for_each
    | apply timeless_bind
    | case_match ].

(** ** Runs without a storage fault *)

Definition calm (w : world) : Prop := w_faults w = [].

Lemma sql_calm {E A} (e : E) (s : stmt A) w :
  calm w →
  sql e s w = match s (w_now w) (w_db w) with
              | Ok (a, d) => (Ok a, set_db w d)
              | Err _ => (Err e, w)
              end.
Proof. intros Hc. by rewrite /sql (draw_fault_none w Hc). Qed.

Lemma try_sql_calm {E A} (s : stmt A) w :
  calm w →
  (try_sql s : M E _) w = match s (w_now w) (w_db w) with
                          | Ok (a, d) => (Ok (Ok a), set_db w d)
                          | Err x => (Ok (Err x), w)
                          end.
Proof. intros Hc. by rewrite /try_sql (draw_fault_none w Hc). Qed.

(** The world after a fresh identity. *)
Definition drawn (w : world) : world :=
  World (w_db w) (w_now w) (w_faults w) (w_uuids w) (S (w_drawn w)) (w_metrics w).

Lemma bind_sql_calm {E A B} (e : E) (s : stmt A) (k : A → M E B) w a d :
  calm w → s (w_now w) (w_db w) = Ok (a, d) → (sql e s ≫= k) w = k a (set_db w d).
Proof. intros Hc Hs. by rewrite /mbind /M_bind (sql_calm _ _ _ Hc) Hs. Qed.

Lemma bind_Ok {E A B} (m : M E A) (k : A → M E B) w a w1 :
  m w = (Ok a, w1) → (m ≫= k) w = k a w1.
Proof. intros Hm. by rewrite /mbind /M_bind Hm. Qed.

Lemma bind_lift_Ok {E A B} (a : A) (k : A → M E B) w : (lift (Ok a) ≫= k) w = k a w.
Proof. done. Qed.

Lemma bind_now_v7 {E B} (k : uuid → M E B) w :
  (now_v7 ≫= k) w = k (w_uuids w (w_drawn w)) (drawn w).
Proof. done. Qed.

Lemma transact_calm {E A} (e : E) (body : M E (txn A)) w a w' :
  calm w → body w = (Ok (Commit a), w') → calm w' → transact e body w = (Ok a, w').
Proof.
  intros Hc Hb Hc'. by rewrite /transact (draw_fault_none w Hc) Hb (draw_fault_none w' Hc').
Qed.

Lemma transact_calm_rollback {E A} (e : E) (body : M E (txn A)) w a w' :
  calm w → body w = (Ok (Rollback a), w') → calm w' →
  transact e body w = (Ok a, set_db w' (w_db w)).
Proof.
  intros Hc Hb Hc'. by rewrite /transact (draw_fault_none w Hc) Hb (draw_fault_none w' Hc').
Qed.

(** ** Relations a handler respects

    [evolves R m]: whatever happens, the database after [m] is [R]-related to the one before. *)

Section Evolves.
Context (R : db → db → Prop) `{HR : !PreOrder R}.

Definition evolves {E A} (m : M E A) : Prop := ∀ w, R (w_db w) (w_db (m w).2).

Definition stmt_evolves {A} (s : stmt A) : Prop :=
  ∀ now d a d', s now d = Ok (a, d') → R d d'.

Lemma evolves_elim {E A} (m : M E A) w r w' :
  evolves m → m w = (r, w') → R (w_db w) (w_db w').
Proof. intros Hm Hw. specialize (Hm w). by rewrite Hw in Hm. Qed.

Lemma evolves_ret {E A} (a : A) : evolves (mret a : M E A).
Proof using HR. intros w. by simpl. Qed.

Lemma evolves_fail {E A} (e : E) : evolves (fail e : M E A).
Proof using HR. intros w. by simpl. Qed.

Lemma evolves_lift {E A} (r : result E A) : evolves (lift r).
Proof using HR. intros w. by simpl. Qed.

Lemma evolves_now_v7 {E} : evolves (now_v7 : M E uuid).
Proof using HR. intros w. by simpl. Qed.

Lemma evolves_add_bodies {E} n : evolves (add_bodies n : M E unit).
Proof using HR. intros w. by simpl. Qed.

Lemma evolves_add_manifests {E} n : evolves (add_manifests n : M E unit).
Proof using HR. intros w. by simpl. Qed.

Lemma evolves_bind {E A B} (m : M E A) (k : A → M E B) :
  evolves m → (∀ a, evolves (k a)) → evolves (m ≫= k).
Proof using HR.
  intros Hm Hk w. rewrite /mbind /M_bind. specialize (Hm w).
  destruct (m w) as [[a|e] w1]; simpl in *; [|done]. etrans; [exact Hm|apply Hk].
Qed.

Lemma evolves_sql {E A} (e : E) (s : stmt A) : stmt_evolves s → evolves (sql e s).
Proof using HR.
  intros Hs w. destruct (sql e s w) as [[a|e'] w'] eqn:Hw; simpl.
  - apply sql_inv in Hw as [Hw _]. eapply Hs, Hw.
  - apply sql_Err_db in Hw as [-> _]. done.
Qed.

Lemma evolves_try_sql {E A} (s : stmt A) :
  stmt_evolves s → evolves (try_sql s : M E _).
Proof using HR.
  intros Hs w. destruct (try_sql s w) as [r w'] eqn:Hw; simpl.
  apply try_sql_inv in Hw as [_ [(a&_&Hw)|[[_ ->]|(?&_&_&->)]]]; [|done|done].
  eapply Hs, Hw.
Qed.

(** Only the committed database has to be related. *)
Lemma evolves_transact_commit {E A} (e : E) (body : M E (txn A)) :
  (∀ w a w', body w = (Ok (Commit a), w') → R (w_db w) (w_db w')) →
  evolves (transact e body).
Proof using HR.
  intros Hb w. destruct (transact e body w) as [r w'] eqn:Hw; simpl.
  apply transact_inv in Hw as [(a&w1&w2&_&Hdb&_&Hc&->)|[-> _]]; [|done].
  rewrite -Hdb. by eapply Hb.
Qed.

Lemma evolves_transact {E A} (e : E) (body : M E (txn A)) :
  evolves body → evolves (transact e body).
Proof using HR.
  intros Hb. apply evolves_transact_commit. intros w a w' Hw. by eapply evolves_elim.
Qed.

Lemma evolves_on_err {E F A} (f : E → F) (m : M E A) : evolves m → evolves (on_err f m).
Proof.
  intros Hm w. rewrite /on_err. specialize (Hm w). by destruct (m w) as [[a|e] w1].
Qed.

Lemma evolves_observe {E F A} (m : M E A) : evolves m → evolves (observe m : M F _).
Proof. intros Hm w. rewrite /observe. specialize (Hm w). by destruct (m w) as [r w1]. Qed.

Lemma evolves_for_each {E A} (l : list A) (f : A → M E unit) :
  (∀ x, evolves (f x)) → evolves (for_each l f).
Proof using HR.
  intros Hf. induction l as [|x l IH]; simpl; [apply evolves_ret|by apply evolves_bind].
Qed.

Lemma stmt_evolves_read {A} (f : db → A) : stmt_evolves (read f).
Proof using HR. intros now d a d' [= _ <-]. done. Qed.

Lemma stmt_evolves_cast `{External} {A} text (s : Z → stmt A) :
  (∀ t, stmt_evolves (s t)) → stmt_evolves (with_cast text s).
Proof using HR. intros Hs now d a d' (t&_&Ha)%with_cast_Ok. by eapply Hs. Qed.
End Evolves.

Create HintDb evolves.
#[export] Hint Resolve evolves_ret evolves_fail evolves_lift evolves_now_v7 evolves_bind evolves_sql
  evolves_try_sql evolves_transact evolves_on_err evolves_observe evolves_for_each
  stmt_evolves_read stmt_evolves_cast : evolves.

(** Decomposes a handler along its structure, leaving the statements. *)
Ltac evolve_step :=
  first
    [ progress intros
    | apply evolves_bind; [apply _| |]
    | apply evolves_ret; apply _
    | apply evolves_fail; apply _
    | apply evolves_lift; apply _
    | apply evolves_now_v7; apply _
    | apply evolves_add_bodies; apply _
    | apply evolves_add_manifests; apply _
    | apply evolves_transact; [apply _|]
    | apply evolves_observe
    | apply evolves_on_err
    | apply evolves_for_each; [apply _|]
    | solve [eauto with evolves typeclass_instances]
    | apply evolves_sql; [apply _|]
    | apply evolves_try_sql; [apply _|]
    | case_match ].

Ltac evolve := repeat evolve_step.

(** One step of a successful run: the value and the world after the first call. *)
Tactic Notation "step" hyp(H) "as" simple_intropattern(a) ident(w1) simple_intropattern(Hm) :=
  apply bind_Ok_inv in H as (a & w1 & Hm & H).

(** One statement of a successful run: its value, the world after it and its equation. *)
Tactic Notation "step_sql" hyp(H) "as" simple_intropattern(a) ident(w1) ident(Hm) ident(Hn) :=
  apply bind_Ok_inv in H as (a & w1 & Hm & H); apply sql_inv in Hm as [Hm Hn].

(** Decomposes a hypothesis [m w = (Ok a, w')] along the structure of [m]. *)
Ltac run_inv :=
  repeat match goal with
  | H : (_ ≫= _) _ = (Ok _, _) |- _ =>
      apply bind_Ok_inv in H; destruct H as (? & ? & ? & H)
  | H : mret _ _ = (Ok _, _) |- _ => apply ret_inv in H; destruct H as [? ?]; simplify_eq
  | H : fail _ _ = (Ok _, _) |- _ => by apply fail_inv in H
  | H : lift _ _ = (Ok _, _) |- _ => apply lift_inv in H; destruct H as [? ?]; simplify_eq
  | H : add_bodies _ _ = (Ok _, _) |- _ => apply add_bodies_inv in H; destruct H as (? & ? & ?)
  | H : add_manifests _ _ = (Ok _, _) |- _ => apply add_manifests_inv in H; destruct H as (? & ? & ?)
  | H : now_v7 _ = (Ok _, _) |- _ => apply now_v7_inv in H; destruct H as (? & ? & ?)
  | H : sql _ _ _ = (Ok _, _) |- _ => apply sql_inv in H; destruct H as [H ?]
  end.
