(* ===== verification/Demo.v ===== *)
(** * Demo: a concrete instance of [External] for the witnesses

    Identities print in decimal, instants print in microseconds, a digest is the first 64
    characters of the padded text, a command or a fact decodes when it is one of the named fixtures,
    the messages of the outbox have a JSON codec that round-trips, and JSON prints as the bits of its
    tree and is read back from them.  No theorem of the
    development is about this instance. *)

From Stdlib Require Import DecimalString DecimalZ DecimalPos.
From stdpp Require Import countable.
From S2P Require Import Prelude Text External Store Tx.

Module Demo.

Definition uuid_text (u : uuid) : string := int_text (Z.of_N u).

Definition int_of (s : string) : option Z := Z.of_int <$> NilZero.int_of_string s.

Definition uuid_parse (s : string) : option uuid := Z.to_N <$> int_of s.

Fixpoint fit (n : nat) (s : string) : string :=
  match n with
  | O => EmptyString
  | S n' =>
      match s with
      | EmptyString => String (Ascii.ascii_of_N 48) (fit n' EmptyString)
      | String c s' => String c (fit n' s')
      end
  end.

Definition digest (s : string) : string := fit 64 s.

Definition instant_parse (s : string) : option Z := (λ n, n * 1000) <$> int_of s.
Definition instant_text (n : Z) : string := int_text (n / 1000).

Definition tenant_user (s : string) : uuid :=
  if String.prefix "user:" s
  then default 0%N (uuid_parse (String.substring 5 (String.length s - 5) s)) else 0%N.

Definition tenant_of_user (u : uuid) : string := ("user:" +:+ uuid_text u)%string.

Definition status_text (s : OperationStatus.t) : string :=
  match s with
  | OperationStatus.Queued => "queued"
  | OperationStatus.Running => "running"
  | OperationStatus.Succeeded => "succeeded"
  | OperationStatus.PartiallySucceeded => "partially_succeeded"
  | OperationStatus.Failed => "failed"
  end.

(** ** Fixtures: owner 7, operation 50, run 60, window (1000000, 2000000) in microseconds *)

Definition subscription_fixture (active : bool) : subscription_command :=
  SubscriptionCommand 40 "user:7" "sub-key" "rustlang" active "".

Definition run_fixture : run_command :=
  RunCommand 50 "user:7" "run-key" 60 true 1000000000 2000000000 OutputLanguage.En "".

Definition recap_value (manifest : uuid) (hex : string) : json :=
  JObj [("owner", JStr "user:7"); ("digest_run_id", JStr "60");
        ("manifest_ref", JStr ("channel-digest-manifest:" +:+ uuid_text manifest)%string);
        ("manifest_digest", JObj [("hex", JStr hex)]);
        ("source_count", JNum 1); ("channel_count", JNum 1)].

Definition recap_fixture : recap_request := RecapRequest 50 60 (recap_value 70 (digest "aa")).

Definition completed_fixture (omitted : Z) : recap_completed :=
  RecapCompleted "user:7" 60 80 "analysis:90" "channel-digest-result:80" (digest "bb") (digest "aa")
    1 1 1 omitted "".

Definition failed_fixture : recap_failed :=
  RecapFailed "user:7" 60 (digest "aa") RecapFailureCode.ProviderTimeout "".

Definition when {A} (payload name : string) (value : A) : option A :=
  if bool_decide (payload = name) then Some value else None.

(** ** A codec for the queued messages *)

Definition encode_option {A} (f : A → json) (o : option A) : json :=
  match o with None => JNull | Some a => JArr [f a] end.

Definition decode_option {A} (g : json → option A) (v : json) : option (option A) :=
  match v with JNull => Some None | JArr [x] => Some <$> g x | _ => None end.

Definition decode_num (v : json) : option Z := match v with JNum n => Some n | _ => None end.

Definition encode_status (s : OperationStatus.t) : json := JStr (status_text s).

Definition decode_status (v : json) : option OperationStatus.t :=
  v ← json_as_str v;
  head (filter (λ s, status_text s = v)
    [OperationStatus.Queued; OperationStatus.Running; OperationStatus.Succeeded;
     OperationStatus.PartiallySucceeded; OperationStatus.Failed]).

Definition encode_result (r : result_ref) : json := JArr [JStr (ref_kind r); JStr (ref_target r)].
Definition decode_result (v : json) : option result_ref :=
  match v with JArr [JStr k; JStr t] => Some (ResultRef k t) | _ => None end.

Definition encode_error (e : error_envelope) : json :=
  JArr [JStr (err_code e); JStr (err_message e); JBool (err_retryable e)].
Definition decode_error (v : json) : option error_envelope :=
  match v with JArr [JStr c; JStr m; JBool r] => Some (ErrorEnvelope c m r) | _ => None end.

Definition encode_warning (w : warning_envelope) : json := JArr [JStr (warn_code w); JStr (warn_message w)].
Definition decode_warning (v : json) : option warning_envelope :=
  match v with JArr [JStr c; JStr m] => Some (WarningEnvelope c m) | _ => None end.

Definition encode_report (r : operation_reported) : json :=
  JArr [JNum (Z.of_N (rep_operation r)); encode_status (rep_status r);
        encode_option JStr (rep_stage r); encode_option JNum (rep_progress_percent r);
        JArr (encode_result <$> rep_results r); encode_option encode_error (rep_error r);
        JArr (encode_warning <$> rep_warnings r)].

Definition decode_report (v : json) : option operation_reported :=
  match v with
  | JArr [JNum op; status; stage; progress; JArr results; error; JArr warnings] =>
      status ← decode_status status;
      stage ← decode_option json_as_str stage;
      progress ← decode_option decode_num progress;
      results ← mapM decode_result results;
      error ← decode_option decode_error error;
      warnings ← mapM decode_warning warnings;
      Some (OperationReported (Z.to_N op) status stage progress results error warnings)
  | _ => None
  end.

(** The members a request was read with, behind the two the program reads. *)
Definition encode_recap (q : recap_request) : json :=
  let ids := [("operation_id", JNum (Z.of_N (rq_operation q))); ("run_id", JNum (Z.of_N (rq_run q)))] in
  match rq_rest q with JObj members => JObj (ids ++ members) | rest => JArr [JObj ids; rest] end.

Definition decode_recap (v : json) : option recap_request :=
  match v with
  | JObj ((_, JNum op) :: (_, JNum run) :: members) =>
      Some (RecapRequest (Z.to_N op) (Z.to_N run) (JObj members))
  | JArr [JObj [(_, JNum op); (_, JNum run)]; rest] => Some (RecapRequest (Z.to_N op) (Z.to_N run) rest)
  | _ => None
  end.

Definition encode_registration (r : schedule_registration) : json :=
  JArr [JStr (reg_service_name r); JStr (reg_name r); JNum (Z.of_N (reg_owner r)); JStr (reg_cron r);
        JStr (reg_command_type r); JStr (reg_operation_kind r); JBool (reg_enabled r)].

Definition decode_registration (v : json) : option schedule_registration :=
  match v with
  | JArr [JStr service; JStr name; JNum owner; JStr cron; JStr command; JStr kind; JBool enabled] =>
      Some (ScheduleRegistration service name (Z.to_N owner) cron command kind enabled)
  | _ => None
  end.

Lemma decode_encode_option {A} f g (o : option A) :
  (∀ a, g (f a) = Some a) → decode_option g (encode_option f o) = Some o.
Proof. intros Hg. destruct o as [a|]; simpl; [by rewrite Hg|done]. Qed.

Lemma decode_encode_list {A} (f : A → json) g (l : list A) :
  (∀ a, g (f a) = Some a) → mapM g (f <$> l) = Some l.
Proof. intros Hg. induction l as [|a l IH]; simpl; [done|by rewrite Hg /= IH]. Qed.

Lemma decode_encode_report r : decode_report (encode_report r) = Some r.
Proof.
  destruct r as [op st stage pr results err warns]. rewrite /decode_report /encode_report /=.
  rewrite N2Z.id !decode_encode_option //=; [|by intros []]. rewrite !decode_encode_list; [|by intros []..].
  by destruct st.
Qed.

Lemma decode_encode_recap q : decode_recap (encode_recap q) = Some q.
Proof. destruct q as [op run []]; by rewrite /decode_recap /= !N2Z.id. Qed.

Lemma decode_encode_registration r : decode_registration (encode_registration r) = Some r.
Proof. destruct r; by rewrite /decode_registration /= N2Z.id. Qed.

(** ** A text for JSON values *)

Definition leaf : Type := (bool + Z) + string.

Fixpoint tree_of_json (v : json) : gen_tree leaf :=
  match v with
  | JNull => GenNode 0 []
  | JBool b => GenLeaf (inl (inl b))
  | JNum n => GenLeaf (inl (inr n))
  | JStr s => GenLeaf (inr s)
  | JArr l => GenNode 1 (tree_of_json <$> l)
  | JObj members =>
      GenNode 2 ((λ kv : string * json, GenNode 3 [GenLeaf (inr kv.1); tree_of_json kv.2]) <$> members)
  end.

Fixpoint json_of_tree (t : gen_tree leaf) : json :=
  match t with
  | GenLeaf (inl (inl b)) => JBool b
  | GenLeaf (inl (inr n)) => JNum n
  | GenLeaf (inr s) => JStr s
  | GenNode 1 l => JArr (json_of_tree <$> l)
  | GenNode 2 l => JObj ((λ t, match t with
      | GenNode _ [GenLeaf (inr k); t'] => (k, json_of_tree t')
      | _ => (EmptyString, JNull)
      end) <$> l)
  | _ => JNull
  end.

Lemma json_of_tree_of_json : ∀ v, json_of_tree (tree_of_json v) = v.
Proof.
  fix IH 1. intros [|b|n|s|l|members]; simpl; [done..| |].
  - f_equal. induction l as [|v l IHl]; simpl; [done|]. f_equal; [apply IH|exact IHl].
  - f_equal. induction members as [|[k v] l IHl]; simpl; [done|]. f_equal; [by rewrite IH|exact IHl].
Qed.

(** The characters 0, 1 and the brace. *)
Definition zero : Ascii.ascii := Ascii.ascii_of_N 48.
Definition one : Ascii.ascii := Ascii.ascii_of_N 49.
Definition brace : Ascii.ascii := Ascii.ascii_of_N 123.

Fixpoint bits_text (p : positive) : string :=
  match p with
  | xH => EmptyString
  | xO p => String zero (bits_text p)
  | xI p => String one (bits_text p)
  end.

Fixpoint text_bits (s : string) : positive :=
  match s with
  | EmptyString => xH
  | String c s => if bool_decide (c = zero) then xO (text_bits s) else xI (text_bits s)
  end.

Lemma text_bits_text p : text_bits (bits_text p) = p.
Proof. induction p as [p IH|p IH|]; simpl; by rewrite ?IH. Qed.

Definition json_text (v : json) : string := String brace (bits_text (encode (tree_of_json v))).

Definition text_json (s : string) : option json :=
  match s with
  | String c s => if bool_decide (c = brace) then json_of_tree <$> decode (text_bits s) else None
  | EmptyString => None
  end.

Lemma text_json_text v : text_json (json_text v) = Some v.
Proof. by rewrite /text_json /json_text bool_decide_eq_true_2 // text_bits_text decode_encode /= json_of_tree_of_json. Qed.

(** A request is read from its object. *)
Definition request_of_text (p : string) : option recap_request :=
  v ← text_json p;
  op ← (json_get "operation_id" v ≫= json_as_str) ≫= uuid_parse;
  run ← (json_get "digest_run_id" v ≫= json_as_str) ≫= uuid_parse;
  Some (RecapRequest op run v).

Definition external : External := {|
  External.uuid_text := uuid_text;
  External.uuid_parse := uuid_parse;
  sha256_digest_hex := digest;
  sha256_hex := digest;
  jiff_parse := instant_parse;
  jiff_text := instant_text;
  jiff_checked_sub a b := if - 2 ^ 62 <? a - b then Some (a - b) else None;
  wire_parse := instant_parse;
  wire_text := instant_text;
  pg_timestamptz := int_of;
  pg_to_char_seconds t := int_text (t / 1000000 * 1000000);
  pg_lower s := s;
  pg_text_key := text_key;
  json_to_vec v := Some (json_text v);
  External.tenant_user := tenant_user;
  External.tenant_of_user := tenant_of_user;
  operation_id_of_value v := json_as_str v ≫= uuid_parse;
  tenant_of_value := json_as_str;
  parse_digest_hex := Some;
  parse_entity_ref := Some;
  parse_safe_message := Some;
  External.status_text := status_text;
  parse_operation_stage := Some;
  parse_result_kind := Some;
  parse_error_code := Some;
  validate_operation_reported _ := true;
  operation_reported_value r := Some (encode_report r);
  parse_registration_label := Some;
  parse_cron := Some;
  parse_operation_kind := Some;
  registration_value r := Some (encode_registration r);
  OCCURRENCE_COMMAND_TYPE := "channel_digest.schedule.occurrence_requested.v1";
  decode_subscription_set p :=
    match when p "subscribe" (subscription_fixture true) with
    | Some c => Some c
    | None => when p "unsubscribe" (subscription_fixture false)
    end;
  validate_subscription_set _ := true;
  decode_run_requested p := when p "run" run_fixture;
  validate_run_requested _ := true;
  decode_recap_requested p :=
    match when p "recap" recap_fixture with Some q => Some q | None => request_of_text p end;
  validate_recap_requested _ := true;
  recap_requested_value r := Some (encode_recap r);
  decode_recap_completed p :=
    match when p "completed" (completed_fixture 0) with
    | Some f => Some f
    | None => when p "omitted" (completed_fixture 2)
    end;
  validate_recap_completed _ := true;
  decode_recap_failed p := when p "failed" failed_fixture;
  validate_recap_failed _ := true;
  MAX_SOURCES := 100;
  MAX_CHANNELS := 20;
  MAX_CONTENT_BYTES := 16384;
  digest_window_valid a b := a <? b;
  parse_manifest_ref := Some;
  parse_run_id := uuid_parse;
  manifest_canonical_bytes m :=
    Some (foldr (λ s t, (cs_content s +:+ t)%string) "" (cm_sources m));
|}.

#[local] Existing Instance external.

Lemma no_colon_uint d : text_has colon (NilZero.string_of_uint d) = false.
Proof.
  assert (∀ d, text_has colon (NilEmpty.string_of_uint d) = false) as Hd
    by (intros d'; induction d'; simpl; auto).
  destruct d; [done|apply (Hd (Decimal.D0 d))|apply (Hd (Decimal.D1 d))|apply (Hd (Decimal.D2 d))
    |apply (Hd (Decimal.D3 d))|apply (Hd (Decimal.D4 d))|apply (Hd (Decimal.D5 d))
    |apply (Hd (Decimal.D6 d))|apply (Hd (Decimal.D7 d))|apply (Hd (Decimal.D8 d))
    |apply (Hd (Decimal.D9 d))].
Qed.

Lemma int_of_text n : int_of (int_text n) = Some n.
Proof.
  rewrite /int_of /int_text NilZero.isi /=; [by rewrite DecimalZ.of_to|destruct n as [|p|p]; [done|..]..];
    intros [= Hn]; by eapply DecimalPos.Unsigned.to_uint_nonnil.
Qed.

Lemma uuid_parse_text u : uuid_parse (uuid_text u) = Some u.
Proof. by rewrite /uuid_parse /uuid_text int_of_text /= N2Z.id. Qed.

Lemma length_fit n s : String.length (fit n s) = n.
Proof. revert s; induction n as [|n IH]; intros [|c s]; simpl; auto. Qed.

Lemma laws : ExternalLaws.
Proof.
  split; simpl.
  - intros a b Hab. apply (inj int_text) in Hab. lia.
  - intros u. rewrite /uuid_text /int_text. destruct (Z.to_int (Z.of_N u)) as [d|d] eqn:Hd; simpl.
    + apply no_colon_uint.
    + by destruct u.
  - intros s. apply length_fit.
  - done.
  - by intros [] [].
Qed.

(** ** Rows and worlds *)

Definition run_row_in (s : RunState.t) : run_row :=
  RunRow 7 50 RunTrigger.OnDemand "run-key" 1000000 2000000 OutputLanguage.En s None false 5 5.

Definition manifest_row_of : manifest_row :=
  ManifestRow 60 7 (digest "aa") 1 1 (Some "text") None 6.

(** Run 60 in the state, with its manifest 70 when it waits for its recap. *)
Definition db_with (s : RunState.t) : db :=
  let d := with_runs empty_db {[60%N := run_row_in s]} in
  match s with
  | RunState.WaitingRecap => with_manifests d {[70%N := manifest_row_of]}
  | _ => d
  end.

(** No storage fault; fresh identities from 1000 on. *)
Definition world (d : db) : world := World d 10 [] (λ n, 1000 + N.of_nat n)%N 0 (0, 0).

End Demo.
