(* ===== verification/Subscriptions.v ===== *)
(** * Subscriptions: [src/src/subscriptions.rs] over [set_subscription] of [src/schema.sql] *)

From S2P Require Import Prelude External Store Tx.

(** The active-subscription limit of [set_subscription]. *)
Definition active_limit : nat := 20.

(** Rust's [to_ascii_lowercase]. *)
Definition ascii_lower (c : Ascii.ascii) : Ascii.ascii :=
  let n := Ascii.N_of_ascii c in
  if ((65 <=? n) && (n <=? 90))%N then Ascii.ascii_of_N (n + 32) else c.

Fixpoint to_ascii_lowercase (s : string) : string :=
  match s with EmptyString => EmptyString | String c s' => String (ascii_lower c) (to_ascii_lowercase s') end.

Module SubscriptionError.
Inductive t := Limit | Storage.
End SubscriptionError.

Record subscription := Subscription {
  subscription_id : uuid;
  channel_username : string;
  first_activated_at : string;
  enabled : bool }.

Section Subscriptions.
Context `{External}.

Definition has_username (username : string) (_ : uuid) (c : channel_row) : bool :=
  bool_decide (ch_username c = username).

Definition owned_active (owner : uuid) (_ : uuid) (s : subscription_row) : bool :=
  bool_decide (sub_owner s = owner) && sub_enabled s.

Definition owned_channel (owner channel : uuid) (_ : uuid) (s : subscription_row) : bool :=
  bool_decide (sub_owner s = owner) && bool_decide (sub_channel s = channel).

(** [insert into channels ... on conflict (username) do nothing], then the selected channel. *)
Definition ensure_channel (requested_channel_id : uuid) (canonical : string) (d : db)
    : result sql_error (uuid * db) :=
  if negb (bool_decide (canonical = pg_lower canonical)) then Err SqlConstraint
  else match find_where (has_username canonical) (channels d) with
       | Some (channel_id, _) => Ok (channel_id, d)
       | None =>
           match channels d !! requested_channel_id with
           | Some _ => Err SqlConstraint
           | None =>
               Ok (requested_channel_id,
                   with_channels d (<[requested_channel_id := ChannelRow canonical None]> (channels d)))
           end
       end.

Definition limit_reached (owner : uuid) (d : db) : bool :=
  (active_limit <=? count_where (owned_active owner) (subscriptions d))%nat.

Definition set_subscription (requested_subscription_id requested_channel_id owner : uuid)
    (username : string) (requested_enabled : bool) (requested_at : Z) : stmt (uuid * Z * bool) :=
  λ _ d,
    '(channel_id, d) ← ensure_channel requested_channel_id (pg_lower username) d;
    match find_where (owned_channel owner channel_id) (subscriptions d) with
    | Some (existing_id, existing) =>
        if requested_enabled && negb (sub_enabled existing) && limit_reached owner d
        then Err (SqlRaised "P0001")
        else
          Ok ((existing_id, sub_first_activated_at existing, requested_enabled),
              with_subscriptions d
                (<[existing_id := SubscriptionRow (sub_owner existing) (sub_channel existing)
                     (sub_first_activated_at existing) requested_enabled requested_at]>
                   (subscriptions d)))
    | None =>
        if requested_enabled && limit_reached owner d
        then Err (SqlRaised "P0001")
        else match subscriptions d !! requested_subscription_id with
             | Some _ => Err SqlConstraint
             | None =>
                 Ok ((requested_subscription_id, requested_at, requested_enabled),
                     with_subscriptions d
                       (<[requested_subscription_id :=
                            SubscriptionRow owner channel_id requested_at requested_enabled
                              requested_at]> (subscriptions d)))
             end
    end.

(** [is_limit_error] of [intake.rs] and the test of [map_error]. *)
Definition is_limit_error (e : sql_error) : bool :=
  match e with SqlRaised code => bool_decide (code = "P0001") | _ => false end.

Definition map_error (e : sql_error) : SubscriptionError.t :=
  if is_limit_error e then SubscriptionError.Limit else SubscriptionError.Storage.

(** [SubscriptionRepository::set] *)
Definition set (owner : uuid) (username : string) (requested_enabled : bool) (requested_at : string)
    : M SubscriptionError.t subscription :=
  subscription_id ← now_v7;
  channel_id ← now_v7;
  row ← try_sql (with_cast requested_at (λ at_,
          set_subscription subscription_id channel_id owner username requested_enabled at_));
  match row with
  | Ok (id, activated, enabled) =>
      mret (Subscription id (to_ascii_lowercase username) (pg_to_char_seconds activated) enabled)
  | Err e => fail (map_error e)
  end.

(** [SubscriptionRepository::get] *)
Definition get (owner : uuid) (username : string) : M SubscriptionError.t (option subscription) :=
  sql SubscriptionError.Storage (read (λ d,
    '(channel_id, c) ← find_where (has_username (pg_lower username)) (channels d);
    '(id, s) ← find_where (owned_channel owner channel_id) (subscriptions d);
    Some (Subscription id (ch_username c) (pg_to_char_seconds (sub_first_activated_at s))
            (sub_enabled s)))).

(** ** Well-formed subscription tables *)

(** Usernames and (owner, channel) pairs are unique, every subscription names a stored channel, and
    no owner has more than twenty active subscriptions. *)
Record subscriptions_wf (d : db) : Prop := {
  username_unique k1 k2 c1 c2 :
    channels d !! k1 = Some c1 → channels d !! k2 = Some c2 →
    ch_username c1 = ch_username c2 → k1 = k2;
  owner_channel_unique k1 k2 s1 s2 :
    subscriptions d !! k1 = Some s1 → subscriptions d !! k2 = Some s2 →
    sub_owner s1 = sub_owner s2 → sub_channel s1 = sub_channel s2 → k1 = k2;
  channel_present k s :
    subscriptions d !! k = Some s → is_Some (channels d !! sub_channel s);
  active_bounded owner :
    (count_where (owned_active owner) (subscriptions d) ≤ active_limit)%nat }.

Lemma subscriptions_wf_empty : subscriptions_wf empty_db.
Proof.
  split; simpl; intros; simplify_map_eq. rewrite /count_where /select_where map_to_list_empty /=.
  rewrite /active_limit. lia.
Qed.

Lemma ensure_channel_spec req canonical d channel d' :
  ensure_channel req canonical d = Ok (channel, d') →
  ∃ c, channels d' !! channel = Some c ∧ ch_username c = canonical ∧
    (d' = d ∨
     (channel = req ∧ channels d !! req = None ∧
      (∀ k c, channels d !! k = Some c → ch_username c ≠ canonical) ∧
      d' = with_channels d (<[req := ChannelRow canonical None]> (channels d)))).
Proof.
  rewrite /ensure_channel. case_match; [done|].
  destruct (find_where _ _) as [[k c]|] eqn:Hf.
  - apply find_where_Some in Hf as [Hk Hp]. rewrite /has_username bool_decide_eq_true in Hp.
    intros; simplify_eq. eauto.
  - rewrite find_where_None in Hf. destruct (channels d !! req) eqn:Hr; [done|].
    intros; simplify_eq/=. exists (ChannelRow canonical None).
    rewrite lookup_insert_eq. split_and!; [done..|]. right. split_and!; [done..| |done].
    intros k c Hk. apply Hf in Hk. by rewrite /has_username bool_decide_eq_false in Hk.
Qed.

(** A username change of [ensure_channel] keeps the tables well formed. *)
Lemma ensure_channel_wf req canonical d channel d' :
  ensure_channel req canonical d = Ok (channel, d') →
  subscriptions_wf d →
  subscriptions_wf d' ∧ subscriptions d' = subscriptions d ∧ is_Some (channels d' !! channel).
Proof.
  intros (c&Hc&Hu&[->|(->&Hnone&Hnew&->)])%ensure_channel_spec Hwf; [by eauto|].
  destruct Hwf as [Hun Hoc Hpres Hact]. simpl in *. split_and!; [|done|eauto].
  split; simpl; [|done| |done].
  - intros k1 k2 c1 c2. rewrite !lookup_insert_Some.
    intros [[<- <-]|[? H1]] [[<- <-]|[? H2]] Heq; simpl in *; [done| | |eauto].
    + by destruct (Hnew _ _ H2).
    + by destruct (Hnew _ _ H1).
  - intros k s Hs. destruct (Hpres k s Hs) as [c' Hc'].
    destruct (decide (req = sub_channel s)) as [->|?]; [rewrite Hc' in Hnone; done|].
    rewrite lookup_insert_ne; eauto.
Qed.

Lemma find_owned_channel d owner channel k s :
  find_where (owned_channel owner channel) (subscriptions d) = Some (k, s) →
  subscriptions d !! k = Some s ∧ sub_owner s = owner ∧ sub_channel s = channel.
Proof.
  intros [Hk Hp]%find_where_Some. rewrite /owned_channel in Hp.
  apply andb_prop in Hp as [?%bool_decide_eq_true ?%bool_decide_eq_true]. done.
Qed.

Lemma find_owned_channel_none d owner channel :
  find_where (owned_channel owner channel) (subscriptions d) = None →
  ∀ k s, subscriptions d !! k = Some s → sub_owner s = owner → sub_channel s ≠ channel.
Proof.
  rewrite find_where_None. intros Hn k s Hk Ho Hc. specialize (Hn k s Hk).
  by rewrite /owned_channel !bool_decide_true in Hn.
Qed.

(** [set_subscription] either replaces the owner's subscription of the channel, keeping identity and
    first activation, or adds one; it never takes the owner past the limit. *)
Lemma set_subscription_spec sid cid owner username en at_ now d id act en' d' :
  set_subscription sid cid owner username en at_ now d = Ok ((id, act, en'), d') →
  en' = en ∧
  ∃ channel d1 s', ensure_channel cid (pg_lower username) d = Ok (channel, d1) ∧
    d' = with_subscriptions d1 (<[id := s']> (subscriptions d1)) ∧
    s' = SubscriptionRow owner channel act en at_ ∧
    ((∃ s, subscriptions d1 !! id = Some s ∧ sub_owner s = owner ∧ sub_channel s = channel ∧
        act = sub_first_activated_at s ∧
        (en = true → sub_enabled s = false →
           count_where (owned_active owner) (subscriptions d1) < active_limit)%nat) ∨
     (subscriptions d1 !! id = None ∧ act = at_ ∧
        (∀ k s, subscriptions d1 !! k = Some s → sub_owner s = owner → sub_channel s ≠ channel) ∧
        (en = true →
           count_where (owned_active owner) (subscriptions d1) < active_limit)%nat)).
Proof.
  rewrite /set_subscription /mbind /result_bind. destruct (ensure_channel _ _ _) as [[channel d1]|] eqn:He; [|done].
  destruct (find_where _ _) as [[k s]|] eqn:Hf.
  - apply find_owned_channel in Hf as (Hk&Ho&Hc). case_match eqn:Hlim; [done|].
    intros; simplify_eq. split; [done|]. eexists _, _, _. split_and!; [done..|]. left.
    exists s. split_and!; [done..|]. intros -> Hs. rewrite Hs in Hlim. cbn [andb negb] in Hlim.
    by apply Nat.leb_gt in Hlim.
  - pose proof (find_owned_channel_none _ _ _ Hf) as Hnone. case_match eqn:Hlim; [done|].
    destruct (subscriptions d1 !! sid) eqn:Hsid; [done|].
    intros; simplify_eq. split; [done|]. eexists _, _, _. split_and!; [done..|]. right.
    split_and!; [done..|]. intros ->. cbn [andb] in Hlim. by apply Nat.leb_gt in Hlim.
Qed.

Lemma set_subscription_wf sid cid owner username en at_ now d r d' :
  set_subscription sid cid owner username en at_ now d = Ok (r, d') →
  subscriptions_wf d → subscriptions_wf d'.
Proof.
  destruct r as [[id act] en']. intros (->&channel&d1&s'&He&->&->&Hcase)%set_subscription_spec Hwf.
  apply ensure_channel_wf in He as ([Hun Hoc Hpres Hact]&Hs1&Hch); [|done].
  clear Hwf Hs1. split; simpl; [done| | |].
  - intros k1 k2 s1 s2. rewrite !lookup_insert_Some.
    destruct Hcase as [(s&Hid&Ho&Hc&_)|(Hid&_&Hnew&_)];
      intros [[<- <-]|[? H1]] [[<- <-]|[? H2]]; simpl; intros; subst; eauto; exfalso; eauto.
    all: naive_solver.
  - intros k s. rewrite lookup_insert_Some. intros [[_ <-]|[_ Hk]]; simpl; eauto.
  - intros o. specialize (Hact o).
    destruct Hcase as [(s&Hid&Ho&Hc&->&Hlt)|(Hid&->&Hnew&Hlt)].
    + pose proof (count_where_insert_Some (owned_active o) _ _ s
        (SubscriptionRow owner channel (sub_first_activated_at s) en at_) Hid) as Hcount.
      unfold owned_active at 1 3 in Hcount; simpl in Hcount. rewrite Ho in Hcount.
      destruct (decide (owner = o)) as [<-|Hne].
      * rewrite bool_decide_eq_true_2 // in Hcount.
        destruct en, (sub_enabled s); simpl in *; try (specialize (Hlt eq_refl eq_refl)); lia.
      * rewrite bool_decide_eq_false_2 // in Hcount. simpl in Hcount. lia.
    + rewrite count_where_insert_None //. unfold owned_active at 1; simpl.
      destruct (decide (owner = o)) as [<-|Hne].
      * rewrite bool_decide_eq_true_2 //. destruct en; simpl; [specialize (Hlt eq_refl); lia|lia].
      * rewrite bool_decide_eq_false_2 //=.
Qed.
End Subscriptions.
