(* ===== verification/Runs.v ===== *)
(** * Runs: [src/src/runs.rs] over [create_digest_run], [transition_run], [normalized_window] and
    [acquire_lease] of [src/schema.sql], and the order in which a run may change state *)

From S2P Require Import Prelude External Store Tx.

(** ** The run state order *)

Definition terminal (s : RunState.t) : bool :=
  match s with
  | RunState.Completed | RunState.Partial | RunState.Failed => true
  | _ => false
  end.

Definition state_rank (s : RunState.t) : nat :=
  match s with
  | RunState.Accepted => 0
  | RunState.Acquiring => 1
  | RunState.WaitingRecap => 2
  | _ => 3
  end.

(** A state may stay, or move forward unless it is terminal. *)
Definition state_le (s s' : RunState.t) : Prop :=
  s = s' ∨ (state_rank s < state_rank s')%nat.

#[export] Instance state_le_preorder : PreOrder state_le.
Proof.
  split; [by left|]. intros a b c [->|Hab] [<-|Hbc]; rewrite /state_le; auto.
  right. lia.
Qed.

Lemma state_le_terminal s s' : terminal s = true → state_le s s' → s' = s.
Proof. intros Ht [->|Hlt]; [done|]. by destruct s, s'; simpl in *; try lia. Qed.

(** What a run keeps for ever, and the order of its state. *)
Record run_le (r r' : run_row) : Prop := {
  keep_owner : run_owner r' = run_owner r;
  keep_operation : run_operation r' = run_operation r;
  keep_trigger : run_trigger r' = run_trigger r;
  keep_key : run_idempotency_key r' = run_idempotency_key r;
  keep_start : run_window_start r' = run_window_start r;
  keep_end : run_window_end r' = run_window_end r;
  keep_created : run_created_at r' = run_created_at r;
  state_forward : state_le (run_state r) (run_state r') }.

#[export] Instance run_le_preorder : PreOrder run_le.
Proof.
  split; [by split|]. intros a b c [] []. split; try congruence. by etrans.
Qed.

(** No run disappears and every run moves forward. *)
Definition runs_le (d d' : db) : Prop :=
  ∀ k r, runs d !! k = Some r → ∃ r', runs d' !! k = Some r' ∧ run_le r r'.

#[export] Instance runs_le_preorder : PreOrder runs_le.
Proof.
  split; [intros d k r Hk; by exists r|]. intros a b c Hab Hbc k r Hk.
  destruct (Hab k r Hk) as (r1&H1&?). destruct (Hbc k r1 H1) as (r2&?&?).
  exists r2. split; [done|]. by etrans.
Qed.

Lemma runs_le_same d d' : runs d' = runs d → runs_le d d'.
Proof. intros H k r Hk. rewrite H. by exists r. Qed.

(** ** Statements *)

Definition natural_key (owner : uuid) (trigger : RunTrigger.t) (key : string) (start end_ : Z)
    (_ : uuid) (r : run_row) : bool :=
  bool_decide (run_owner r = owner) && bool_decide (run_trigger r = trigger) &&
  bool_decide (run_idempotency_key r = key) && bool_decide (run_window_start r = start) &&
  bool_decide (run_window_end r = end_).

(** [insert into digest_runs ... on conflict (owner_id, trigger, idempotency_key, window_start,
    window_end) do nothing]: whether a row was inserted.  The CHECK comes before the conflict, and
    a second row under the primary key is an error the conflict clause does not cover. *)
Definition insert_run (run_id : uuid) (row : run_row) (d : db) : result sql_error (bool * db) :=
  if negb (run_window_start row <? run_window_end row) then Err SqlConstraint
  else if any_where (natural_key (run_owner row) (run_trigger row) (run_idempotency_key row)
                       (run_window_start row) (run_window_end row)) (runs d)
  then Ok (false, d)
  else match runs d !! run_id with
       | Some _ => Err SqlConstraint
       | None => Ok (true, with_runs d (<[run_id := row]> (runs d)))
       end.

Definition new_run (owner operation : uuid) (trigger : RunTrigger.t) (key : string)
    (start end_ : Z) (language : OutputLanguage.t) (now : Z) : run_row :=
  RunRow owner operation trigger key start end_ language RunState.Accepted None false now now.

(** The function [create_digest_run]: the inserted identity, or the one the natural key already
    has. *)
Definition create_digest_run (run_id owner operation : uuid) (trigger : RunTrigger.t)
    (key : string) (start end_ : Z) : stmt uuid := λ now d,
  '(inserted, d') ← insert_run run_id
     (new_run owner operation trigger key start end_ OutputLanguage.Ru now) d;
  if inserted : bool then Ok (run_id, d')
  else match find_where (natural_key owner trigger key start end_) (runs d) with
       | Some (existing, _) => Ok (existing, d')
       | None => Err SqlConstraint
       end.

(** [update digest_runs set ... where ...]: the affected rows. *)
Definition update_runs (p : uuid → run_row → bool) (f : Z → run_row → run_row) : stmt nat :=
  λ now d, Ok (count_where p (runs d), with_runs d (update_where p (f now) (runs d))).

Definition set_state (s : RunState.t) (now : Z) (r : run_row) : run_row :=
  RunRow (run_owner r) (run_operation r) (run_trigger r) (run_idempotency_key r)
    (run_window_start r) (run_window_end r) (run_language r) s (run_failure_class r)
    (run_incomplete r) (run_created_at r) now.

Definition set_failed (class : string) (now : Z) (r : run_row) : run_row :=
  RunRow (run_owner r) (run_operation r) (run_trigger r) (run_idempotency_key r)
    (run_window_start r) (run_window_end r) (run_language r) RunState.Failed (Some class)
    (run_incomplete r) (run_created_at r) now.

Definition set_language (l : OutputLanguage.t) (_ : Z) (r : run_row) : run_row :=
  RunRow (run_owner r) (run_operation r) (run_trigger r) (run_idempotency_key r)
    (run_window_start r) (run_window_end r) l (run_state r) (run_failure_class r)
    (run_incomplete r) (run_created_at r) (run_updated_at r).

Definition set_incomplete (b : bool) (_ : Z) (r : run_row) : run_row :=
  RunRow (run_owner r) (run_operation r) (run_trigger r) (run_idempotency_key r)
    (run_window_start r) (run_window_end r) (run_language r) (run_state r) (run_failure_class r)
    b (run_created_at r) (run_updated_at r).

(** [where run_id = $ and owner_id = $ and state in (...)] *)
Definition run_in (run_id owner : uuid) (states : list RunState.t) (k : uuid) (r : run_row) : bool :=
  bool_decide (k = run_id) && bool_decide (run_owner r = owner) &&
  bool_decide (run_state r ∈ states).

(** The function [transition_run]. *)
Definition transition_run (run_id : uuid) (expected target : RunState.t)
    (failure_class : option string) : stmt bool := λ now d,
  let p k r := bool_decide (k = run_id) && bool_decide (run_state r = expected) &&
               negb (terminal (run_state r)) in
  Ok (negb (count_where p (runs d) =? 0)%nat,
      with_runs d (update_where p (λ r,
        RunRow (run_owner r) (run_operation r) (run_trigger r) (run_idempotency_key r)
          (run_window_start r) (run_window_end r) (run_language r) target failure_class
          (run_incomplete r) (run_created_at r) now) (runs d))).

(** The function [normalized_window], instants in microseconds. *)
Definition hours (n : Z) : Z := n * 3600 * 1000000.

Definition normalized_window (scheduled : bool) (activation_at : Z) (prior : option Z) (end_at : Z)
    : Z * Z :=
  (Z.max activation_at
     (if scheduled
      then Z.max (default (end_at - hours 168) prior) (end_at - hours 168)
      else end_at - hours 24),
   end_at).

(** The function [acquire_lease]. *)
Definition acquire_lease (kind : string) (resource holder : uuid) (requested_at expires_at : Z)
    : stmt bool := λ _ d,
  if negb (requested_at <? expires_at) then Err SqlConstraint
  else match leases d !! (kind, resource) with
       | None =>
           Ok (true, with_leases d
             (<[(kind, resource) := LeaseRow holder requested_at expires_at None]> (leases d)))
       | Some l =>
           if (lease_expires_at l <=? requested_at) || bool_decide (lease_holder l = holder)
           then Ok (true, with_leases d
             (<[(kind, resource) := LeaseRow holder requested_at expires_at (lease_checkpoint l)]>
                (leases d)))
           else Ok (false, d)
       end.

Module RunError.
Inductive t := Unavailable.
End RunError.

Section Repository.
Context `{External}.

(** [RunRepository::create] *)
Definition create (owner operation : uuid) (trigger : RunTrigger.t) (key start end_ : string)
    : M RunError.t uuid :=
  run_id ← now_v7;
  sql RunError.Unavailable (with_cast start (λ s, with_cast end_ (λ e,
    create_digest_run run_id owner operation trigger key s e))).

(** [RunRepository::transition] *)
Definition transition (run_id : uuid) (expected target : RunState.t) (class : option string)
    : M RunError.t bool :=
  sql RunError.Unavailable (transition_run run_id expected target class).
End Repository.

(** ** Well-formed run tables *)

Record runs_wf (d : db) : Prop := {
  window_ordered k r : runs d !! k = Some r → run_window_start r < run_window_end r;
  natural_key_unique k1 k2 r1 r2 :
    runs d !! k1 = Some r1 → runs d !! k2 = Some r2 →
    natural_key (run_owner r1) (run_trigger r1) (run_idempotency_key r1) (run_window_start r1)
      (run_window_end r1) k2 r2 = true → k1 = k2 }.

(** ** Lemmas *)

Lemma natural_key_true owner trigger key start end_ k r :
  natural_key owner trigger key start end_ k r = true ↔
    run_owner r = owner ∧ run_trigger r = trigger ∧ run_idempotency_key r = key ∧
    run_window_start r = start ∧ run_window_end r = end_.
Proof. rewrite /natural_key !andb_true_iff !bool_decide_eq_true. tauto. Qed.

Lemma run_in_true run_id owner states k r :
  run_in run_id owner states k r = true ↔
    k = run_id ∧ run_owner r = owner ∧ run_state r ∈ states.
Proof. rewrite /run_in !andb_true_iff !bool_decide_eq_true. tauto. Qed.

Lemma run_in_key run_id owner states k r : run_in run_id owner states k r = true → k = run_id.
Proof. rewrite run_in_true. tauto. Qed.

(** A guarded update of one run that reports one affected row. *)
Lemma update_run_in_one run_id owner states f now d n d' :
  update_runs (run_in run_id owner states) f now d = Ok (n, d') →
  n = 1%nat →
  ∃ r, runs d !! run_id = Some r ∧ run_owner r = owner ∧ run_state r ∈ states ∧
    d' = with_runs d (<[run_id := f now r]> (runs d)).
Proof.
  rewrite /update_runs. intros [= <- <-]. rewrite (count_where_key _ _ run_id); [|apply run_in_key].
  rewrite (update_where_key _ _ _ run_id); [|apply run_in_key].
  destruct (runs d !! run_id) as [r|] eqn:Hr; [|done].
  destruct (run_in run_id owner states run_id r) eqn:Hp; [|done].
  apply run_in_true in Hp as (_&?&?). eauto.
Qed.

Lemma insert_run_spec run_id row d b d' :
  insert_run run_id row d = Ok (b, d') →
  run_window_start row < run_window_end row ∧
  ((b = false ∧ d' = d ∧ ∃ k r, runs d !! k = Some r ∧
      natural_key (run_owner row) (run_trigger row) (run_idempotency_key row)
        (run_window_start row) (run_window_end row) k r = true) ∨
   (b = true ∧ runs d !! run_id = None ∧ d' = with_runs d (<[run_id := row]> (runs d)) ∧
      ∀ k r, runs d !! k = Some r →
        natural_key (run_owner row) (run_trigger row) (run_idempotency_key row)
          (run_window_start row) (run_window_end row) k r = false)).
Proof.
  rewrite /insert_run. case_match eqn:Hw; [done|]. apply negb_false_iff, Z.ltb_lt in Hw.
  destruct (any_where _ _) eqn:Ha.
  - intros; simplify_eq. split; [done|]. left. by apply any_where_true in Ha.
  - rewrite any_where_false in Ha. destruct (runs d !! run_id) eqn:Hr; [done|].
    intros; simplify_eq. split; [done|]. right. done.
Qed.

Lemma insert_run_wf run_id row d b d' :
  insert_run run_id row d = Ok (b, d') → runs_wf d → runs_wf d'.
Proof.
  intros (Hw&[(_&->&_)|(_&Hn&->&Hnew)])%insert_run_spec Hwf; [done|].
  destruct Hwf as [Hord Huniq]. split; simpl.
  - intros k r. rewrite lookup_insert_Some. intros [[_ <-]|[_ Hk]]; eauto.
  - intros k1 k2 r1 r2. rewrite !lookup_insert_Some.
    intros [[<- <-]|[? H1]] [[<- <-]|[? H2]] Hk; [done| | |eauto].
    + by rewrite (Hnew _ _ H2) in Hk.
    + apply natural_key_true in Hk as (?&?&?&?&?).
      pose proof (Hnew _ _ H1) as Hf. exfalso. apply not_true_iff_false in Hf. apply Hf.
      by apply natural_key_true.
Qed.

Lemma insert_run_le run_id row d b d' : insert_run run_id row d = Ok (b, d') → runs_le d d'.
Proof.
  intros (_&[(_&->&_)|(_&Hn&->&_)])%insert_run_spec; [done|]. intros k r Hk. exists r.
  split; [|done]. simpl. rewrite lookup_insert_ne; [done|]. congruence.
Qed.

Lemma create_digest_run_cases run_id owner operation trigger key start end_ now d sel d' :
  create_digest_run run_id owner operation trigger key start end_ now d = Ok (sel, d') →
  start < end_ ∧
  ((sel = run_id ∧ runs d !! run_id = None ∧
      d' = with_runs d (<[run_id := new_run owner operation trigger key start end_
                                      OutputLanguage.Ru now]> (runs d))) ∨
   (d' = d ∧ ∃ r, runs d !! sel = Some r ∧ natural_key owner trigger key start end_ sel r = true)).
Proof.
  rewrite /create_digest_run /mbind /result_bind.
  destruct (insert_run _ _ _) as [[b d1]|] eqn:Hi; [|done].
  apply insert_run_spec in Hi as (Hw&[(->&->&Hex)|(->&Hn&->&_)]); simpl in *.
  - destruct (find_where _ _) as [[k r]|] eqn:Hf; [|done]. apply find_where_Some in Hf as [??].
    intros; simplify_eq. eauto 10.
  - intros; simplify_eq. eauto 10.
Qed.

(** An update of existing runs that keeps identities and moves states forward. *)
Lemma update_runs_le p f :
  (∀ now k r, p k r = true → run_le r (f now r)) → stmt_evolves runs_le (update_runs p f).
Proof.
  intros Hf now d n d' [= _ <-] k r Hk. simpl. rewrite lookup_update_where Hk /=.
  eexists. split; [done|]. destruct (p k r) eqn:Hp; [by eapply Hf|done].
Qed.

Lemma run_le_set_state s now r : state_le (run_state r) s → run_le r (set_state s now r).
Proof. by split. Qed.

Lemma run_le_set_failed c now r :
  state_le (run_state r) RunState.Failed → run_le r (set_failed c now r).
Proof. by split. Qed.

Lemma run_le_set_language l now r : run_le r (set_language l now r).
Proof. by split. Qed.

Lemma run_le_set_incomplete b now r : run_le r (set_incomplete b now r).
Proof. by split. Qed.

Lemma update_runs_wf p f now d n d' :
  update_runs p f now d = Ok (n, d') →
  (∀ now r, run_le r (f now r) ∨
     (run_owner (f now r) = run_owner r ∧ run_trigger (f now r) = run_trigger r ∧
      run_idempotency_key (f now r) = run_idempotency_key r ∧
      run_window_start (f now r) = run_window_start r ∧
      run_window_end (f now r) = run_window_end r)) →
  runs_wf d → runs_wf d'.
Proof.
  intros [= _ <-] Hf [Hord Huniq].
  assert (∀ k r, update_where p (f now) (runs d) !! k = Some r → ∃ r0, runs d !! k = Some r0 ∧
    run_owner r = run_owner r0 ∧ run_trigger r = run_trigger r0 ∧
    run_idempotency_key r = run_idempotency_key r0 ∧ run_window_start r = run_window_start r0 ∧
    run_window_end r = run_window_end r0) as Hkeep.
  { intros k r (r0&Hk&->)%lookup_update_where_Some. exists r0. split; [done|].
    destruct (p k r0); [|done]. destruct (Hf now r0) as [[]|?]; tauto. }
  split; simpl.
  - intros k r (r0&Hk&_&_&_&->&->)%Hkeep. eauto.
  - intros k1 k2 r1 r2 (r10&H1&->&->&->&->&->)%Hkeep (r20&H2&Ho&Ht&Hi&Hs&He)%Hkeep.
    rewrite natural_key_true Ho Ht Hi Hs He -(natural_key_true _ _ _ _ _ k2). by apply Huniq.
Qed.
