(* ===== verification/Reports.v ===== *)
(** * Reports: [src/src/reports.rs], the typed operation reports and the outbox they are queued in *)

From S2P Require Import Prelude External Store Tx Runs.

Module ReportError.
Inductive t := Invalid | Storage.
End ReportError.

Definition REPORT_SUBJECT : string := "platform.operation.reported.v1".
Definition RECAP_SUBJECT : string := "knowledge.channel_digest_recap.requested.v1".
Definition REGISTRATION_SUBJECT : string := "platform.schedule.registration_requested.v1".
Definition RESULT_KIND : string := "channel_digest.result".

(** ** Outbox statements *)

(** The CHECK of [outbox_messages.subject]. *)
Definition outbox_subject_allowed (subject : string) : bool :=
  bool_decide (subject ∈ [RECAP_SUBJECT; REPORT_SUBJECT; REGISTRATION_SUBJECT]).

Definition outbox_keyed (subject key : string) (_ : uuid) (o : outbox_row) : bool :=
  bool_decide (out_subject o = subject) && bool_decide (out_semantic_key o = key).

Definition new_outbox_row (subject key : string) (owner : uuid) (operation : option uuid)
    (causation : option string) (payload : json) (now : Z) : outbox_row :=
  OutboxRow subject key owner operation causation payload now None 0 now None.

(** [insert into outbox_messages ...], refused under a taken identity or semantic key. *)
Definition insert_outbox (outbox_id : uuid) (row : outbox_row) (d : db)
    : result sql_error (bool * db) :=
  if negb (outbox_subject_allowed (out_subject row)) then Err SqlConstraint
  else if any_where (outbox_keyed (out_subject row) (out_semantic_key row)) (outbox d)
  then Ok (false, d)
  else match outbox d !! outbox_id with
       | Some _ => Err SqlConstraint
       | None => Ok (true, with_outbox d (<[outbox_id := row]> (outbox d)))
       end.

(** The same insertion with no conflict clause. *)
Definition insert_outbox_strict (outbox_id : uuid) (row : outbox_row) (d : db)
    : result sql_error (unit * db) :=
  '(inserted, d') ← insert_outbox outbox_id row d;
  if inserted : bool then Ok (tt, d') else Err SqlConstraint.

Section Reports.
Context `{External}.

(** [OperationReportRow] *)
Record operation_report_row := OperationReportRow {
  orr_operation : uuid;
  orr_owner : uuid;
  orr_causation : option string;
  orr_report : operation_reported }.

(** [OperationReportRow::new] *)
Definition report_new (operation owner : uuid) (status : OperationStatus.t) (stage : string)
    : result ReportError.t operation_report_row :=
  st ← ok_or ReportError.Invalid (parse_operation_stage stage);
  Ok (OperationReportRow operation owner None
        (OperationReported operation status (Some st) None [] None [])).

(** [caused_by] *)
Definition caused_by (row : operation_report_row) (reference : string) : operation_report_row :=
  OperationReportRow (orr_operation row) (orr_owner row) (Some reference) (orr_report row).

Definition map_report (row : operation_report_row) (f : operation_reported → operation_reported)
    : operation_report_row :=
  OperationReportRow (orr_operation row) (orr_owner row) (orr_causation row) (f (orr_report row)).

(** [with_result] *)
Definition with_result (row : operation_report_row) (target : string)
    : result ReportError.t operation_report_row :=
  kind ← ok_or ReportError.Invalid (parse_result_kind RESULT_KIND);
  entity ← ok_or ReportError.Invalid (parse_entity_ref target);
  Ok (map_report row (λ r,
    OperationReported (rep_operation r) (rep_status r) (rep_stage r) (rep_progress_percent r)
      (rep_results r ++ [ResultRef kind entity]) (rep_error r) (rep_warnings r))).

(** [with_error] *)
Definition with_error (row : operation_report_row) (code message : string) (retryable : bool)
    : result ReportError.t operation_report_row :=
  c ← ok_or ReportError.Invalid (parse_error_code code);
  m ← ok_or ReportError.Invalid (parse_safe_message message);
  Ok (map_report row (λ r,
    OperationReported (rep_operation r) (rep_status r) (rep_stage r) (rep_progress_percent r)
      (rep_results r) (Some (ErrorEnvelope c m retryable)) (rep_warnings r))).

(** [with_warning] *)
Definition with_warning (row : operation_report_row) (code message : string)
    : result ReportError.t operation_report_row :=
  c ← ok_or ReportError.Invalid (parse_error_code code);
  m ← ok_or ReportError.Invalid (parse_safe_message message);
  Ok (map_report row (λ r,
    OperationReported (rep_operation r) (rep_status r) (rep_stage r) (rep_progress_percent r)
      (rep_results r) (rep_error r) (rep_warnings r ++ [WarningEnvelope c m]))).

(** The outbox semantic key of a report: once per operation and status. *)
Definition report_key (operation : uuid) (status : OperationStatus.t) : string :=
  ("operation:" +:+ (uuid_text operation +:+ (":" +:+ status_text status)))%string.

(** [enqueue] *)
Definition enqueue (row : operation_report_row) : M ReportError.t unit :=
  if negb (validate_operation_reported (orr_report row)) then fail ReportError.Invalid
  else
    payload ← lift (ok_or ReportError.Invalid (operation_reported_value (orr_report row)));
    outbox_id ← now_v7;
    _ ← sql ReportError.Storage (λ now d,
      insert_outbox outbox_id
        (new_outbox_row REPORT_SUBJECT
           (report_key (orr_operation row) (rep_status (orr_report row)))
           (orr_owner row) (Some (orr_operation row)) (orr_causation row) payload now) d);
    mret tt.

Definition on_demand_run (run_id owner : uuid) (k : uuid) (r : run_row) : bool :=
  bool_decide (k = run_id) && bool_decide (run_owner r = owner) &&
  bool_decide (run_trigger r = RunTrigger.OnDemand).

(** [on_demand_operation] *)
Definition on_demand_operation (run_id owner : uuid) : M ReportError.t (option uuid) :=
  sql ReportError.Storage (read (λ d,
    (λ kr : uuid * run_row, run_operation kr.2) <$> find_where (on_demand_run run_id owner) (runs d))).

(** The status of a settled completion. *)
Definition completion_status (omitted_count : Z) (incomplete : bool) : OperationStatus.t :=
  if bool_decide (omitted_count = 0) && negb incomplete
  then OperationStatus.Succeeded else OperationStatus.PartiallySucceeded.

(** [report_completion] *)
Definition report_completion (run_id owner event_id : uuid) (result_ref_ : string)
    (omitted_count : Z) (incomplete : bool) : M ReportError.t unit :=
  owned ← on_demand_operation run_id owner;
  match owned with
  | None => mret tt
  | Some operation =>
      row ← lift (report_new operation owner (completion_status omitted_count incomplete)
                    "completed");
      row ← lift (with_result (caused_by row ("event:" +:+ uuid_text event_id)%string) result_ref_);
      row ← lift (if 0 <? omitted_count
                  then with_warning row "channel_digest.context_omitted"
                         "Some selected posts did not fit the recap context and were left out."
                  else Ok row);
      row ← lift (if incomplete
                  then with_warning row "channel_digest.acquisition_incomplete"
                         "The digest does not cover every post of the window: some channels could not be read completely, or the window held more posts than one digest takes."
                  else Ok row);
      enqueue row
  end.

(** [report_recap_failure] *)
Definition report_recap_failure (run_id owner event_id : uuid) (failure_class : string)
    (retryable : bool) : M ReportError.t unit :=
  owned ← on_demand_operation run_id owner;
  match owned with
  | None => mret tt
  | Some operation =>
      row ← lift (report_new operation owner OperationStatus.Failed "recap");
      row ← lift (with_error (caused_by row ("event:" +:+ uuid_text event_id)%string)
                    ("channel_digest.recap." +:+ failure_class)%string
                    "The recap could not be produced." retryable);
      enqueue row
  end.

(** ** What is queued *)

(** Some outbox row reports the operation in the status. *)
Definition reported (operation : uuid) (status : OperationStatus.t) (d : db) : Prop :=
  ∃ k o, outbox d !! k = Some o ∧ out_subject o = REPORT_SUBJECT ∧
    out_semantic_key o = report_key operation status.

(** Report rows stay: an outbox row under the report subject is never removed or re-keyed. *)
Definition reports_kept (d d' : db) : Prop :=
  ∀ operation status, reported operation status d → reported operation status d'.

#[export] Instance reports_kept_preorder : PreOrder reports_kept.
Proof. split; [by intros d op st Hr|]. intros a b c Hab Hbc op st Hr. by apply Hbc, Hab. Qed.

Lemma reports_kept_same d d' : outbox d' = outbox d → reports_kept d d'.
Proof. intros Heq op st (k&o&?&?&?). exists k, o. by rewrite Heq. Qed.

Lemma outbox_keyed_true subject key k o :
  outbox_keyed subject key k o = true ↔ out_subject o = subject ∧ out_semantic_key o = key.
Proof. rewrite /outbox_keyed andb_true_iff !bool_decide_eq_true. done. Qed.

Lemma insert_outbox_spec oid row d b d' :
  insert_outbox oid row d = Ok (b, d') →
  out_subject row ∈ [RECAP_SUBJECT; REPORT_SUBJECT; REGISTRATION_SUBJECT] ∧
  ((b = false ∧ d' = d ∧ ∃ k o, outbox d !! k = Some o ∧ out_subject o = out_subject row ∧
      out_semantic_key o = out_semantic_key row) ∨
   (b = true ∧ outbox d !! oid = None ∧ d' = with_outbox d (<[oid := row]> (outbox d)) ∧
      ∀ k o, outbox d !! k = Some o → out_subject o = out_subject row →
        out_semantic_key o ≠ out_semantic_key row)).
Proof.
  rewrite /insert_outbox. case_match eqn:Hs; [done|].
  apply negb_false_iff, bool_decide_eq_true in Hs. destruct (any_where _ _) eqn:Ha.
  - apply any_where_true in Ha as (k&o&Hk&[??]%outbox_keyed_true). intros; simplify_eq.
    split; [done|]. left. split_and!; [done..|]. by exists k, o.
  - rewrite any_where_false in Ha. destruct (outbox d !! oid) eqn:Ho; [done|].
    intros; simplify_eq. split; [done|]. right. split_and!; [done..|].
    intros k o Hk H1 H2. specialize (Ha k o Hk). apply not_true_iff_false in Ha. apply Ha.
    by apply outbox_keyed_true.
Qed.

Lemma insert_outbox_kept oid row d b d' : insert_outbox oid row d = Ok (b, d') → reports_kept d d'.
Proof.
  intros (_&[(_&->&_)|(_&Hn&->&_)])%insert_outbox_spec; [done|].
  intros op st (k&o&?&?&?). exists k, o. simpl. rewrite lookup_insert_ne; [done|congruence].
Qed.

Lemma insert_outbox_reported oid row d b d' operation status :
  insert_outbox oid row d = Ok (b, d') →
  out_subject row = REPORT_SUBJECT → out_semantic_key row = report_key operation status →
  reported operation status d'.
Proof.
  intros (_&[(_&->&k&o&?&?&?)|(_&Hn&->&_)])%insert_outbox_spec Hs Hk.
  - exists k, o. split_and!; congruence.
  - exists oid, row. simpl. by rewrite lookup_insert_eq.
Qed.

(** An insertion touches the outbox alone. *)
Lemma insert_outbox_frame oid row d b d' :
  insert_outbox oid row d = Ok (b, d') → d' = with_outbox d (outbox d').
Proof. intros (_&[(_&->&_)|(_&_&->&_)])%insert_outbox_spec; [by destruct d|done]. Qed.

Lemma timeless_enqueue row : timeless (enqueue row).
Proof. rewrite /enqueue. still. Qed.

Lemma timeless_on_demand_operation run_id owner : timeless (on_demand_operation run_id owner).
Proof. apply timeless_sql. Qed.

(** A queued report: the outbox grew by at most the report's row, which is now there. *)
Lemma enqueue_inv row w u w' :
  enqueue row w = (Ok u, w') →
  validate_operation_reported (orr_report row) = true ∧
  w_now w' = w_now w ∧
  ∃ payload oid b, operation_reported_value (orr_report row) = Some payload ∧
    insert_outbox oid
      (new_outbox_row REPORT_SUBJECT (report_key (orr_operation row) (rep_status (orr_report row)))
         (orr_owner row) (Some (orr_operation row)) (orr_causation row) payload (w_now w)) (w_db w)
      = Ok (b, w_db w').
Proof.
  rewrite /enqueue. case_match eqn:Hv; [intros []%fail_inv|]. apply negb_false_iff in Hv.
  intros Hw. run_inv. rewrite /ok_or in H0. destruct (operation_reported_value _) as [p|]; [|done].
  simplify_eq/=. split; [done|]. split; [congruence|].
  match goal with
  | Hi : insert_outbox ?oid _ _ = Ok (?b, _), Hdb : w_db _ = w_db _, Hn : w_now _ = w_now _ |- _ =>
      exists x, oid, b; rewrite -Hdb -Hn; done
  end.
Qed.

Lemma on_demand_run_true run_id owner k r :
  on_demand_run run_id owner k r = true ↔
    k = run_id ∧ run_owner r = owner ∧ run_trigger r = RunTrigger.OnDemand.
Proof. rewrite /on_demand_run !andb_true_iff !bool_decide_eq_true. tauto. Qed.

Lemma on_demand_operation_inv run_id owner w o w' :
  on_demand_operation run_id owner w = (Ok o, w') →
  w_db w' = w_db w ∧ w_now w' = w_now w ∧
  (∀ r, runs (w_db w) !! run_id = Some r → run_owner r = owner →
     o = if decide (run_trigger r = RunTrigger.OnDemand) then Some (run_operation r) else None).
Proof.
  rewrite /on_demand_operation. intros [Hr ?]%sql_inv. rewrite /read in Hr. simplify_eq.
  split; [done|]. split; [done|]. intros r Hr0 Ho.
  destruct (find_where _ _) as [[k r']|] eqn:Hf; simpl.
  - apply find_where_Some in Hf as [Hk Hp%on_demand_run_true]. destruct Hp as (->&_&Ht).
    simplify_eq. by rewrite decide_True.
  - rewrite find_where_None in Hf. specialize (Hf run_id r Hr0).
    rewrite decide_False //. intros Ht. apply not_true_iff_false in Hf. apply Hf.
    by apply on_demand_run_true.
Qed.
End Reports.

#[export] Hint Resolve timeless_enqueue timeless_on_demand_operation : timeless.

(** ** Queued reports *)

Section ReportLemmas.
Context `{External}.

(** The outbox alone grew, by at most one row, and the report of the operation in the status is
    there. *)
Definition report_queued (operation : uuid) (status : OperationStatus.t) (d d' : db) : Prop :=
  d' = with_outbox d (outbox d') ∧
  (∀ k o, outbox d !! k = Some o → outbox d' !! k = Some o) ∧
  reported operation status d'.

(** The same when the run is on demand; a scheduled run owes no report. *)
Definition run_report_queued (r : run_row) (status : OperationStatus.t) (d d' : db) : Prop :=
  if decide (run_trigger r = RunTrigger.OnDemand)
  then report_queued (run_operation r) status d d' else d' = d.

(** What the row builders keep. *)
Definition report_about (operation : uuid) (status : OperationStatus.t)
    (row : operation_report_row) : Prop :=
  orr_operation row = operation ∧ rep_status (orr_report row) = status.


Lemma report_new_about operation owner status stage row :
  report_new operation owner status stage = Ok row → report_about operation status row.
Proof. rewrite /report_new. destruct (parse_operation_stage _); [|done]. by intros [= <-]. Qed.

Lemma caused_by_about operation status row reference :
  report_about operation status row → report_about operation status (caused_by row reference).
Proof. done. Qed.

Lemma with_error_about operation status row code message retryable row' :
  with_error row code message retryable = Ok row' →
  report_about operation status row → report_about operation status row'.
Proof.
  rewrite /with_error. destruct (parse_error_code _); [|done].
  destruct (parse_safe_message _); [|done]. by intros [= <-].
Qed.

Lemma with_warning_about operation status row code message row' :
  with_warning row code message = Ok row' →
  report_about operation status row → report_about operation status row'.
Proof.
  rewrite /with_warning. destruct (parse_error_code _); [|done].
  destruct (parse_safe_message _); [|done]. by intros [= <-].
Qed.

Lemma with_result_about operation status row target row' :
  with_result row target = Ok row' →
  report_about operation status row → report_about operation status row'.
Proof.
  rewrite /with_result. destruct (parse_result_kind _); [|done].
  destruct (parse_entity_ref _); [|done]. by intros [= <-].
Qed.

Lemma insert_outbox_grows oid row d b d' k o :
  insert_outbox oid row d = Ok (b, d') → outbox d !! k = Some o → outbox d' !! k = Some o.
Proof.
  intros (_&[(_&->&_)|(_&Hn&->&_)])%insert_outbox_spec Hk; [done|].
  simpl. rewrite lookup_insert_ne; [done|congruence].
Qed.

Lemma enqueue_queued operation status row w u w' :
  enqueue row w = (Ok u, w') → report_about operation status row →
  report_queued operation status (w_db w) (w_db w') ∧ w_now w' = w_now w.
Proof.
  intros (_&Hnow&payload&oid&b&_&Hi)%enqueue_inv [Hop Hst]. split; [|done]. split_and!.
  - by eapply insert_outbox_frame.
  - intros k o. by eapply insert_outbox_grows.
  - eapply insert_outbox_reported; [done..|]. simpl. by rewrite Hop Hst.
Qed.

(** The status a run's report has when the recap completed. *)
Lemma report_completion_queued run_id owner event reference omitted incomplete w u w' r :
  report_completion run_id owner event reference omitted incomplete w = (Ok u, w') →
  runs (w_db w) !! run_id = Some r → run_owner r = owner →
  run_report_queued r (completion_status omitted incomplete) (w_db w) (w_db w') ∧
  w_now w' = w_now w.
Proof.
  rewrite /report_completion /run_report_queued. intros Hw Hr Ho.
  step Hw as owned w1 (Hd1&Hn1&Hown)%on_demand_operation_inv. rewrite (Hown r Hr Ho) in Hw.
  case_decide; [|apply ret_inv in Hw as [_ ->]; auto].
  step Hw as row1 w2 [Hrow1%report_new_about ->]%lift_inv.
  step Hw as row2 w2 [Hrow2 ->]%lift_inv. step Hw as row3 w2 [Hrow3 ->]%lift_inv.
  step Hw as row4 w2 [Hrow4 ->]%lift_inv. rewrite -Hd1 -Hn1.
  eapply enqueue_queued; [done|].
  eapply with_result_about in Hrow2; [|by apply caused_by_about].
  assert (report_about (run_operation r) (completion_status omitted incomplete) row3) as Hrow3'.
  { destruct (0 <? omitted); [by eapply with_warning_about|by simplify_eq]. }
  destruct incomplete; [by eapply with_warning_about|by simplify_eq].
Qed.

Lemma report_recap_failure_queued run_id owner event class retryable w u w' r :
  report_recap_failure run_id owner event class retryable w = (Ok u, w') →
  runs (w_db w) !! run_id = Some r → run_owner r = owner →
  run_report_queued r OperationStatus.Failed (w_db w) (w_db w') ∧ w_now w' = w_now w.
Proof.
  rewrite /report_recap_failure /run_report_queued. intros Hw Hr Ho.
  step Hw as owned w1 (Hd1&Hn1&Hown)%on_demand_operation_inv. rewrite (Hown r Hr Ho) in Hw.
  case_decide; [|apply ret_inv in Hw as [_ ->]; auto].
  step Hw as row1 w2 [Hrow1%report_new_about ->]%lift_inv.
  step Hw as row2 w2 [Hrow2 ->]%lift_inv. rewrite -Hd1 -Hn1.
  eapply enqueue_queued; [done|]. by eapply with_error_about.
Qed.

(** The shape every settlement shares: look the operation up, report it when there is one. *)
Lemma owned_report_queued {E} (k : uuid → M E unit) run_id owner status r w owned w1 u w2 :
  on_demand_operation run_id owner w = (Ok owned, w1) →
  (match owned with Some operation => k operation | None => mret tt end) w1 = (Ok u, w2) →
  runs (w_db w) !! run_id = Some r → run_owner r = owner →
  (∀ w u w', k (run_operation r) w = (Ok u, w') →
     report_queued (run_operation r) status (w_db w) (w_db w') ∧ w_now w' = w_now w) →
  run_report_queued r status (w_db w) (w_db w2) ∧ w_now w2 = w_now w.
Proof.
  intros (Hd&Hn&Hown)%on_demand_operation_inv Hk Hr Ho Hq. rewrite (Hown r Hr Ho) in Hk.
  rewrite /run_report_queued -Hd -Hn. case_decide; [by eapply Hq|].
  apply ret_inv in Hk as [_ ->]. done.
Qed.

(** The outbox side of a settled run: nothing queued is lost, and an on-demand run has its report
    in the status. *)
Definition outbox_reports (r : run_row) (status : OperationStatus.t) (d d' : db) : Prop :=
  if decide (run_trigger r = RunTrigger.OnDemand)
  then (∀ k o, outbox d !! k = Some o → outbox d' !! k = Some o) ∧
       reported (run_operation r) status d'
  else outbox d' = outbox d.

Lemma run_report_queued_outbox r status d d' :
  run_report_queued r status d d' → d' = with_outbox d (outbox d') ∧ outbox_reports r status d d'.
Proof.
  rewrite /run_report_queued /outbox_reports.
  case_decide; [by intros (?&?&?)|intros ->; split; [by destruct d|done]].
Qed.

Lemma outbox_reports_kept r status d d' : outbox_reports r status d d' → reports_kept d d'.
Proof.
  rewrite /outbox_reports. case_decide; [|by intros ?%reports_kept_same].
  intros [Hk _] op st (k&o&?&?&?). exists k, o. auto.
Qed.

Lemma outbox_reports_reported r status d d' :
  outbox_reports r status d d' → run_trigger r = RunTrigger.OnDemand →
  reported (run_operation r) status d'.
Proof. rewrite /outbox_reports. by case_decide; [intros [_ ?]|]. Qed.

Lemma outbox_reports_grows r status d d' k o :
  outbox_reports r status d d' → outbox d !! k = Some o → outbox d' !! k = Some o.
Proof. rewrite /outbox_reports. case_decide; [intros [? _]; auto|by intros ->]. Qed.

Lemma insert_outbox_strict_spec oid row d u d' :
  insert_outbox_strict oid row d = Ok (u, d') →
  outbox d !! oid = None ∧ d' = with_outbox d (<[oid := row]> (outbox d)) ∧
  ∀ k o, outbox d !! k = Some o → out_subject o = out_subject row →
    out_semantic_key o ≠ out_semantic_key row.
Proof.
  rewrite /insert_outbox_strict /mbind /=. destruct (insert_outbox _ _ _) as [[b d1]|] eqn:Hi; [|done].
  apply insert_outbox_spec in Hi as (_&[(->&->&_)|(->&?&->&?)]); simpl; [done|].
  intros; simplify_eq. done.
Qed.
End ReportLemmas.
