(* ===== verification/Progress.v ===== *)
(** * Progress: runs that succeed

    [succeeds m w Q]: from [w] the call returns a value, and [Q] holds of it and of the world after.
    The theorems on what a handler did when it succeeded are complemented with it by theorems that it
    does succeed: when no storage fault is drawn, the identities the server hands out are new, and the
    contract crates accept the report a handler builds. *)

From S2P Require Import Prelude Text External Store Tx Demo Runs Reports.

(** The world moved on without a fault: the same clock and source of identities, of which some may
    have been drawn. *)
Record onward (w w' : world) : Prop := {
  ow_faults : w_faults w' = w_faults w;
  ow_now : w_now w' = w_now w;
  ow_uuids : w_uuids w' = w_uuids w;
  ow_drawn : (w_drawn w ≤ w_drawn w')%nat }.

#[export] Instance onward_preorder : PreOrder onward.
Proof. split; [by split|]. intros a b c [] []. split; [congruence..|lia]. Qed.

Lemma onward_calm w w' : onward w w' → calm w → calm w'.
Proof. rewrite /calm. by intros [-> _ _ _]. Qed.

Lemma onward_set_db w d : onward w (set_db w d).
Proof. done. Qed.

Lemma onward_drawn w : onward w (drawn w).
Proof. split; simpl; [done..|lia]. Qed.

Definition succeeds {E A} (m : M E A) (w : world) (Q : A → world → Prop) : Prop :=
  ∃ a w', m w = (Ok a, w') ∧ onward w w' ∧ Q a w'.

Section Succeeds.
Context {E : Type}.

Lemma succeeds_mono {A} (m : M E A) w (P Q : A → world → Prop) :
  succeeds m w P → (∀ a w', m w = (Ok a, w') → onward w w' → P a w' → Q a w') → succeeds m w Q.
Proof. intros (a&w'&Hm&Ho&Hp) Himp. exists a, w'. auto. Qed.

Lemma succeeds_ret {A} (a : A) w (Q : A → world → Prop) : Q a w → succeeds (mret a : M E A) w Q.
Proof. intros HQ. by exists a, w. Qed.

Lemma succeeds_bind {A B} (m : M E A) (k : A → M E B) w P (Q : B → world → Prop) :
  succeeds m w P →
  (∀ a w', m w = (Ok a, w') → onward w w' → P a w' → succeeds (k a) w' Q) →
  succeeds (m ≫= k) w Q.
Proof.
  intros (a&w1&Hm&Ho&Hp) Hk. destruct (Hk a w1 Hm Ho Hp) as (b&w2&Hb&Ho2&HQ).
  exists b, w2. split; [by rewrite (bind_Ok _ _ _ _ _ Hm)|]. split; [by etrans|done].
Qed.

Lemma succeeds_sql {A} (e : E) (s : stmt A) w a d (Q : A → world → Prop) :
  calm w → s (w_now w) (w_db w) = Ok (a, d) → Q a (set_db w d) → succeeds (sql e s) w Q.
Proof. intros Hc Hs HQ. exists a, (set_db w d). by rewrite (sql_calm _ _ _ Hc) Hs. Qed.

Lemma succeeds_lift {A} (r : result E A) a w (Q : A → world → Prop) :
  r = Ok a → Q a w → succeeds (lift r) w Q.
Proof. intros -> HQ. by exists a, w. Qed.

(** The first calls of a sequence whose value and world are known. *)
Lemma succeeds_bind_sql {A B} (e : E) (s : stmt A) (k : A → M E B) w a d Q :
  calm w → s (w_now w) (w_db w) = Ok (a, d) → succeeds (k a) (set_db w d) Q →
  succeeds (sql e s ≫= k) w Q.
Proof.
  intros Hc Hs (b&w'&Hk&Ho&HQ). exists b, w'. rewrite (bind_sql_calm _ _ _ _ _ _ Hc Hs).
  split; [done|]. split; [|done]. by destruct Ho.
Qed.

Lemma succeeds_bind_lift {A B} (r : result E A) (k : A → M E B) w a Q :
  r = Ok a → succeeds (k a) w Q → succeeds (lift r ≫= k) w Q.
Proof. by intros ->. Qed.

Lemma succeeds_bind_now_v7 {B} (k : uuid → M E B) w Q :
  succeeds (k (w_uuids w (w_drawn w))) (drawn w) Q → succeeds (now_v7 ≫= k) w Q.
Proof.
  intros (b&w'&Hk&Ho&HQ). exists b, w'. split; [done|]. split; [|done].
  etrans; [apply onward_drawn|exact Ho].
Qed.

Lemma succeeds_commit {A} (e : E) (body : M E (txn A)) w (Q : A → world → Prop) :
  calm w → succeeds body w (λ t w', ∃ a, t = Commit a ∧ Q a w') → succeeds (transact e body) w Q.
Proof.
  intros Hc (t&w'&Hb&Ho&a&->&HQ). exists a, w'. split; [|done].
  by apply transact_calm; [|exact Hb|eapply onward_calm].
Qed.

(** However the transaction ends. *)
Lemma succeeds_transact {A} (e : E) (body : M E (txn A)) w (Q : A → world → Prop) :
  calm w →
  succeeds body w (λ t w', match t with
                           | Commit a => Q a w'
                           | Rollback a | Abandon a => Q a (set_db w' (w_db w)) end) →
  succeeds (transact e body) w Q.
Proof.
  intros Hc (t&w'&Hb&Ho&HQ). pose proof (onward_calm _ _ Ho Hc) as Hc'.
  rewrite /succeeds /transact (draw_fault_none w Hc) Hb.
  destruct t as [a|a|a]; rewrite ?(draw_fault_none w' Hc');
    (eexists a, _; split; [done|]; split; [by destruct Ho|done]).
Qed.

Lemma succeeds_for_each {A} (I : world → Prop) (f : A → M E unit) l w :
  (∀ x w, x ∈ l → I w → succeeds (f x) w (λ _, I)) → I w → succeeds (for_each l f) w (λ _, I).
Proof.
  revert w. induction l as [|x l IH]; intros w Hf HI; simpl; [by apply succeeds_ret|].
  eapply succeeds_bind; [apply Hf; [by left|done]|]. simpl. intros u w1 Hu Hw1 HI1.
  apply IH; [|done]. intros. apply Hf; [by right|done].
Qed.
End Succeeds.

Lemma succeeds_on_err {E F A} (f : E → F) (m : M E A) w (Q : A → world → Prop) :
  succeeds m w Q → succeeds (on_err f m) w Q.
Proof. intros (a&w'&Hm&?&?). exists a, w'. by rewrite /on_err Hm. Qed.

(** A pure step under an error conversion. *)
Lemma succeeds_bind_err_lift {E F A B} (f : E → F) (r : result E A) (k : A → M F B) w a Q :
  r = Ok a → succeeds (k a) w Q → succeeds (on_err f (lift r) ≫= k) w Q.
Proof. by intros ->. Qed.

(** ** Calls that move on, whatever they answer

    [smooth m]: without faults the call leaves a world that moved on, and so one without faults, if it
    answers an error too. *)

Definition smooth {E A} (m : M E A) : Prop := ∀ w, calm w → onward w (m w).2.

Section Smooth.
Context {E : Type}.

Lemma smooth_ret {A} (a : A) : smooth (mret a : M E A).
Proof. done. Qed.

Lemma smooth_fail {A} (e : E) : smooth (fail e : M E A).
Proof. done. Qed.

Lemma smooth_lift {A} (r : result E A) : smooth (lift r).
Proof. done. Qed.

Lemma smooth_now_v7 : smooth (now_v7 : M E uuid).
Proof. intros w _. apply onward_drawn. Qed.

Lemma smooth_add_manifests n : smooth (add_manifests n : M E unit).
Proof. done. Qed.

Lemma smooth_sql {A} (e : E) (s : stmt A) : smooth (sql e s).
Proof. intros w Hc. rewrite (sql_calm _ _ _ Hc). by destruct (s _ _) as [[a d]|]. Qed.

Lemma smooth_bind {A B} (m : M E A) (k : A → M E B) : smooth m → (∀ a, smooth (k a)) → smooth (m ≫= k).
Proof.
  intros Hm Hk w Hc. specialize (Hm w Hc). rewrite /mbind /M_bind.
  destruct (m w) as [[a|e] w1]; simpl in *; [|done].
  etrans; [exact Hm|]. apply Hk. by eapply onward_calm.
Qed.

Lemma smooth_transact {A} (e : E) (body : M E (txn A)) : smooth body → smooth (transact e body).
Proof.
  intros Hb w Hc. specialize (Hb w Hc). rewrite /transact (draw_fault_none w Hc).
  destruct (body w) as [[t|e'] w1]; simpl in *.
  - pose proof (onward_calm _ _ Hb Hc) as Hc1.
    destruct t; rewrite ?(draw_fault_none w1 Hc1); by destruct Hb.
  - by destruct Hb.
Qed.

Lemma smooth_on_err {F A} (f : F → E) (m : M F A) : smooth m → smooth (on_err f m).
Proof. intros Hm w Hc. specialize (Hm w Hc). rewrite /on_err. by destruct (m w) as [[]]. Qed.

Lemma smooth_observe {F A} (m : M F A) : smooth m → smooth (observe m : M E _).
Proof. intros Hm w Hc. specialize (Hm w Hc). rewrite /observe. by destruct (m w). Qed.
End Smooth.

Create HintDb smooth.
#[export] Hint Resolve smooth_ret smooth_fail smooth_lift smooth_now_v7 smooth_add_manifests smooth_sql : smooth.

(** Decomposes a call along its structure. *)
Ltac glide :=
  repeat first
    [ progress intros
    | solve [auto 2 with smooth nocore]
    | apply smooth_bind
    | apply smooth_transact
    | apply smooth_on_err
    | apply smooth_observe
    | case_match ].

(** An observed call always answers. *)
Lemma succeeds_observe {E F A} (m : M E A) w (Q : result E A → world → Prop) :
  smooth m → calm w → Q (m w).1 (m w).2 → succeeds (observe m : M F _) w Q.
Proof.
  intros Hm Hc HQ. specialize (Hm w Hc). exists (m w).1, (m w).2. rewrite /observe. by destruct (m w).
Qed.

(** ** New identities *)

Definition fresh_in {A} (w : world) (t : gmap uuid A) : Prop :=
  ∀ n, (w_drawn w ≤ n)%nat → t !! w_uuids w n = None.

Definition distinct (w : world) : Prop := Inj (=) (=) (w_uuids w).

Lemma onward_distinct w w' : onward w w' → distinct w → distinct w'.
Proof. rewrite /distinct. by intros [_ _ -> _]. Qed.

Lemma fresh_in_onward {A} w w' (t : gmap uuid A) : onward w w' → fresh_in w t → fresh_in w' t.
Proof. intros [_ _ Hu Hd] Hf n Hn. rewrite Hu. apply Hf. lia. Qed.

Lemma fresh_in_next {A} w (t : gmap uuid A) : fresh_in w t → t !! w_uuids w (w_drawn w) = None.
Proof. intros Hf. by apply Hf. Qed.

Lemma fresh_in_insert {A} w (t : gmap uuid A) v :
  distinct w → fresh_in w t → fresh_in (drawn w) (<[w_uuids w (w_drawn w) := v]> t).
Proof.
  intros Hi Hf n Hn. simpl in *. rewrite lookup_insert_ne; [apply Hf; lia|].
  intros Heq%Hi. lia.
Qed.

(** ** Reports the contract crates accept *)

(** Lowercase words joined by underscores, and such words joined by dots, of at most 64 bytes; and
    printable ASCII of at most 256. *)
Definition snake (s : string) : bool :=
  (0 <? byte_len s) && (byte_len s <=? 64) &&
  all_bytes (λ c, in_range 97 122 c || in_range 95 95 c) s.
Definition dotted (s : string) : bool :=
  (0 <? byte_len s) && (byte_len s <=? 64) &&
  all_bytes (λ c, in_range 97 122 c || in_range 95 95 c || in_range 46 46 c) s.
Definition printable (s : string) : bool :=
  (0 <? byte_len s) && (byte_len s <=? 256) && all_bytes (in_range 32 126) s.

(** An error goes with the failed status alone, a result with a success. *)
Definition consistent_report (r : operation_reported) : bool :=
  bool_decide (is_Some (rep_stage r)) && bool_decide (rep_progress_percent r = None) &&
  bool_decide (is_Some (rep_error r) ↔ rep_status r = OperationStatus.Failed) &&
  (length (rep_results r) <=? 1)%nat && (length (rep_warnings r) <=? 2)%nat &&
  (bool_decide (rep_results r = []) ||
   bool_decide (rep_status r ∈ [OperationStatus.Succeeded; OperationStatus.PartiallySucceeded])).

Section ReportProgress.
Context `{External}.

(** The grammars of the contract crates, as far as the reports of the program use them. *)
Class ReportLaws : Prop := {
  stage_accepted s : snake s = true → is_Some (parse_operation_stage s);
  kind_accepted s : dotted s = true → is_Some (parse_result_kind s);
  code_accepted s : dotted s = true → is_Some (parse_error_code s);
  message_accepted s : printable s = true → is_Some (parse_safe_message s);
  report_accepted r : consistent_report r = true →
    validate_operation_reported r = true ∧ is_Some (operation_reported_value r);
}.

(** A world in which a handler can report: no faults, and new identities for the outbox. *)
Record able (w : world) : Prop := {
  ab_calm : calm w;
  ab_distinct : distinct w;
  ab_outbox : fresh_in w (outbox (w_db w)) }.

Lemma able_onward w w' : onward w w' → outbox (w_db w') = outbox (w_db w) → able w → able w'.
Proof.
  intros Ho Heq []. split; [by eapply onward_calm|by eapply onward_distinct|].
  rewrite Heq. by eapply fresh_in_onward.
Qed.

Lemma able_set_db w d : outbox d = outbox (w_db w) → able w → able (set_db w d).
Proof. intros Heq. by eapply able_onward; [apply onward_set_db|]. Qed.

Lemma able_drawn w : able w → able (drawn w).
Proof. by apply able_onward; [apply onward_drawn|]. Qed.

(** [insert_outbox] under a new identity. *)
Lemma insert_outbox_fresh w row :
  distinct w → fresh_in w (outbox (w_db w)) → outbox_subject_allowed (out_subject row) = true →
  ∃ b d, insert_outbox (w_uuids w (w_drawn w)) row (w_db w) = Ok (b, d) ∧ fresh_in (drawn w) (outbox d).
Proof.
  intros Hi Hf Hs. rewrite /insert_outbox Hs /=. destruct (any_where _ _).
  - exists false, (w_db w). split; [done|]. by eapply fresh_in_onward; [apply onward_drawn|].
  - rewrite (fresh_in_next _ _ Hf). eexists true, _. split; [done|]. by apply fresh_in_insert.
Qed.

Lemma enqueue_succeeds `{!ReportLaws} row w :
  able w → consistent_report (orr_report row) = true →
  succeeds (enqueue row) w (λ _ w', able w' ∧ w_db w' = with_outbox (w_db w) (outbox (w_db w'))).
Proof.
  intros [Hc Hi Hf] [Hv [payload Hp]]%report_accepted. rewrite /enqueue Hv /=.
  eapply succeeds_bind_lift; [by rewrite Hp|]. apply succeeds_bind_now_v7.
  destruct (insert_outbox_fresh w (new_outbox_row REPORT_SUBJECT
    (report_key (orr_operation row) (rep_status (orr_report row))) (orr_owner row)
    (Some (orr_operation row)) (orr_causation row) payload (w_now w)) Hi Hf eq_refl) as (b&d&Hins&Hfd).
  eapply succeeds_bind_sql; [done|exact Hins|]. apply succeeds_ret.
  split; [by split|]. simpl. by eapply insert_outbox_frame.
Qed.

(** The steps of a report the program builds. *)
Lemma report_new_accepted `{!ReportLaws} operation owner status stage :
  snake stage = true → ∃ st, report_new operation owner status stage =
    Ok (OperationReportRow operation owner None (OperationReported operation status (Some st) None [] None [])).
Proof. intros [st Hst]%stage_accepted. exists st. by rewrite /report_new Hst. Qed.

Lemma with_error_accepted `{!ReportLaws} row code message retryable :
  dotted code = true → printable message = true → ∃ e,
    with_error row code message retryable = Ok (map_report row (λ r,
      OperationReported (rep_operation r) (rep_status r) (rep_stage r) (rep_progress_percent r)
        (rep_results r) (Some e) (rep_warnings r))).
Proof.
  intros [c Hc]%code_accepted [m Hm]%message_accepted. exists (ErrorEnvelope c m retryable).
  by rewrite /with_error Hc Hm.
Qed.

Lemma with_warning_accepted `{!ReportLaws} row code message :
  dotted code = true → printable message = true → ∃ e,
    with_warning row code message = Ok (map_report row (λ r,
      OperationReported (rep_operation r) (rep_status r) (rep_stage r) (rep_progress_percent r)
        (rep_results r) (rep_error r) (rep_warnings r ++ [e]))).
Proof.
  intros [c Hc]%code_accepted [m Hm]%message_accepted. exists (WarningEnvelope c m).
  by rewrite /with_warning Hc Hm.
Qed.

(** A warning the row gets under a condition. *)
Lemma optional_warning_accepted `{!ReportLaws} (b : bool) row code message :
  dotted code = true → printable message = true → ∃ ws, (length ws ≤ 1)%nat ∧
    (if b then with_warning row code message else Ok row) = Ok (map_report row (λ r,
      OperationReported (rep_operation r) (rep_status r) (rep_stage r) (rep_progress_percent r)
        (rep_results r) (rep_error r) (rep_warnings r ++ ws))).
Proof.
  intros Hc Hm. destruct b.
  - destruct (with_warning_accepted row code message Hc Hm) as [e He]. exists [e]. split; [simpl; lia|done].
  - exists []. split; [simpl; lia|]. rewrite /map_report. destruct row as [? ? ? []]; simpl.
    by rewrite app_nil_r.
Qed.

Lemma with_result_accepted `{!ReportLaws} row target :
  is_Some (parse_entity_ref target) → ∃ e,
    with_result row target = Ok (map_report row (λ r,
      OperationReported (rep_operation r) (rep_status r) (rep_stage r) (rep_progress_percent r)
        (rep_results r ++ [e]) (rep_error r) (rep_warnings r))).
Proof.
  intros [t Ht]. destruct (kind_accepted RESULT_KIND eq_refl) as [k Hk].
  exists (ResultRef k t). by rewrite /with_result Hk Ht.
Qed.

(** A failed report, possibly with a causation. *)
Lemma failed_row_accepted `{!ReportLaws} operation owner stage code message retryable
    (g : operation_report_row → operation_report_row) :
  (∀ row, orr_report (g row) = orr_report row) →
  snake stage = true → dotted code = true → printable message = true →
  ∃ row0 row, report_new operation owner OperationStatus.Failed stage = Ok row0 ∧
    with_error (g row0) code message retryable = Ok row ∧ consistent_report (orr_report row) = true.
Proof.
  intros Hg Hs Hc Hm. destruct (report_new_accepted operation owner OperationStatus.Failed stage Hs) as [st Hst].
  eexists. match type of Hst with _ = Ok ?row0 => destruct (with_error_accepted (g row0) code message retryable Hc Hm) as [e He] end.
  eexists. split; [exact Hst|]. split; [exact He|]. by rewrite /= Hg.
Qed.

(** A report of any other status without details. *)
Lemma plain_row_accepted `{!ReportLaws} operation owner status stage :
  snake stage = true → status ≠ OperationStatus.Failed →
  ∃ row, report_new operation owner status stage = Ok row ∧ consistent_report (orr_report row) = true.
Proof.
  intros Hs Hn. destruct (report_new_accepted operation owner status stage Hs) as [st Hst].
  eexists. split; [exact Hst|]. by destruct status.
Qed.

(** ** The reports of a settlement *)

(** A report leaves the world able, and touched the outbox alone. *)
Definition queued_only (w w' : world) : Prop :=
  able w' ∧ w_db w' = with_outbox (w_db w) (outbox (w_db w')).

Lemma queued_only_refl w : able w → queued_only w w.
Proof. intros Ha. split; [done|]. by destruct (w_db w). Qed.

(** The reports of a run: nothing for a scheduled one. *)
Lemma owned_report_succeeds {E} (f : ReportError.t → E) run_id owner (k : uuid → M E unit) w :
  able w → (∀ operation, succeeds (k operation) w (λ _, queued_only w)) →
  succeeds (owned ← on_err f (on_demand_operation run_id owner);
            match owned with Some operation => k operation | None => mret tt end) w (λ _, queued_only w).
Proof.
  intros Ha Hk. eapply succeeds_bind.
  { apply succeeds_on_err. rewrite /on_demand_operation.
    eapply succeeds_sql with (Q := λ _ w', w' = w); [apply Ha|done|]. by destruct w. }
  intros [operation|] w1 _ _ ->; [apply Hk|]. apply succeeds_ret. by apply queued_only_refl.
Qed.

Lemma report_completion_succeeds `{!ReportLaws} run_id owner event reference omitted incomplete w :
  able w → is_Some (parse_entity_ref reference) →
  succeeds (report_completion run_id owner event reference omitted incomplete) w (λ _, queued_only w).
Proof.
  intros Ha Href. rewrite /report_completion.
  eapply succeeds_bind.
  { eapply succeeds_sql with (Q := λ _ w', w' = w); [apply Ha|done|]. by destruct w. }
  intros [operation|] w1 _ _ ->; [|apply succeeds_ret; by apply queued_only_refl].
  destruct (report_new_accepted operation owner (completion_status omitted incomplete) "completed")
    as [st Hst]; [done|].
  eapply succeeds_bind_lift; [exact Hst|].
  edestruct with_result_accepted as [e He]; [exact Href|]. eapply succeeds_bind_lift; [exact He|].
  edestruct (optional_warning_accepted (0 <? omitted)) as (ws1&Hl1&Hw1);
    [| |eapply succeeds_bind_lift; [exact Hw1|]]; [done..|].
  edestruct (optional_warning_accepted incomplete) as (ws2&Hl2&Hw2);
    [| |eapply succeeds_bind_lift; [exact Hw2|]]; [done..|].
  eapply enqueue_succeeds; [done|].
  rewrite /consistent_report /= length_app (proj2 (Nat.leb_le _ 2)); [|lia].
  rewrite /completion_status. by destruct (bool_decide (omitted = 0)), incomplete.
Qed.

(** A report of another status than a failure, without details but for its cause. *)
Lemma plain_report_succeeds `{!ReportLaws} {F} (f : ReportError.t → F) operation owner status stage
    (g : operation_report_row → operation_report_row) w :
  able w → (∀ row, orr_report (g row) = orr_report row) →
  snake stage = true → status ≠ OperationStatus.Failed →
  succeeds (row ← on_err f (lift (report_new operation owner status stage));
            on_err f (enqueue (g row))) w (λ _, queued_only w).
Proof.
  intros Ha Hg Hs Hst. destruct (plain_row_accepted operation owner status stage Hs Hst) as (row&Hrow&Hok).
  eapply succeeds_bind_err_lift; [exact Hrow|]. apply succeeds_on_err.
  apply enqueue_succeeds; [done|]. by rewrite Hg.
Qed.

Lemma report_recap_failure_succeeds `{!ReportLaws} run_id owner event class retryable w :
  able w → dotted ("channel_digest.recap." +:+ class) = true →
  succeeds (report_recap_failure run_id owner event class retryable) w (λ _, queued_only w).
Proof.
  intros Ha Hclass. rewrite /report_recap_failure.
  eapply succeeds_bind.
  { eapply succeeds_sql with (Q := λ _ w', w' = w); [apply Ha|done|]. by destruct w. }
  intros [operation|] w1 _ _ ->; [|apply succeeds_ret; by apply queued_only_refl].
  edestruct (failed_row_accepted operation owner "recap" ("channel_digest.recap." +:+ class)%string "The recap could not be produced." retryable
    (λ row, caused_by row ("event:" +:+ uuid_text event)%string)) as (row0&row&Hrow0&Hrow&Hok);
    [done..|exact Hclass|done|].
  eapply succeeds_bind_lift; [exact Hrow0|]. eapply succeeds_bind_lift; [exact Hrow|].
  by apply enqueue_succeeds.
Qed.
End ReportProgress.

(** ** The concrete instance *)

Module DemoProgress.
Lemma report_laws : @ReportLaws Demo.external.
Proof. split; simpl; intros; try (split; [reflexivity|]); by eexists. Qed.

(** A demo world whose outbox is empty can report. *)
Lemma able_world d : outbox d = ∅ → able (Demo.world d).
Proof.
  intros Hd. split; [reflexivity|intros n m; simpl; lia|]. intros n _. by rewrite /= Hd lookup_empty.
Qed.

(** A world over a database some workers left, with identities above all of theirs. *)
Definition resumed (d : db) : world := World d 10 [] (λ n, 5000 + N.of_nat n)%N 0 (0, 0).

Lemma all_rows {A} (p : uuid → A → bool) (t : gmap uuid A) :
  forallb (λ kv : uuid * A, p kv.1 kv.2) (map_to_list t) = true → ∀ k v, t !! k = Some v → p k v = true.
Proof.
  rewrite forallb_forall. intros Hp k v Hk. apply (Hp (k, v)), list_elem_of_In. by apply elem_of_map_to_list.
Qed.

Lemma able_resumed d :
  forallb (λ ko : uuid * outbox_row, ko.1 <? 5000)%N (map_to_list (outbox d)) = true → able (resumed d).
Proof.
  intros Hall. split; [done|intros n m; simpl; lia|]. intros n _. apply eq_None_not_Some. intros [o Ho].
  apply (all_rows (λ k _, (k <? 5000)%N) (outbox d) Hall), N.ltb_lt in Ho. simpl in Ho. lia.
Qed.
End DemoProgress.
