(* ===== verification/Inbox.v ===== *)
(** * Inbox: the transport deduplication statements [intake.rs] and [coordinator.rs] share *)

From S2P Require Import Prelude External Store Tx.

(** What a replay-safe handler reports: [IntakeOutcome]. *)
Module IntakeOutcome.
Inductive t := Applied | Replayed.
End IntakeOutcome.

Definition inbox_taken (message_id : uuid) (subject key : string) (k : uuid) (m : inbox_row)
    : bool :=
  bool_decide (k = message_id) ||
  (bool_decide (in_subject m = subject) && bool_decide (in_semantic_key m = key)).

(** [insert into inbox_messages ... on conflict do nothing returning message_id]: whether the
    message is new, by identity and by (subject, semantic key). *)
Definition insert_inbox (message_id : uuid) (row : inbox_row) (d : db)
    : result sql_error (bool * db) :=
  if negb (String.length (in_sha256 row) =? 64)%nat then Err SqlConstraint
  else if any_where (inbox_taken message_id (in_subject row) (in_semantic_key row)) (inbox d)
  then Ok (false, d)
  else Ok (true, with_inbox d (<[message_id := row]> (inbox d))).

(** The row a handler claims before its effect. *)
Definition claim (message_id : uuid) (subject key sha : string) : stmt bool := λ now d,
  insert_inbox message_id (InboxRow subject key sha InboxState.Processing now None None) d.

(** [update inbox_messages set state = 'completed', completed_at = now() where message_id = $1] *)
Definition complete_inbox (message_id : uuid) : stmt nat := λ now d,
  let p (k : uuid) (_ : inbox_row) := bool_decide (k = message_id) in
  Ok (count_where p (inbox d),
      with_inbox d (update_where p (λ m,
        InboxRow (in_subject m) (in_semantic_key m) (in_sha256 m) InboxState.Completed
          (in_received_at m) (Some now) (in_failure_class m)) (inbox d))).

(** Messages already handled stay handled: an inbox row keeps its identity, subject and key. *)
Definition inbox_kept (d d' : db) : Prop :=
  ∀ k m, inbox d !! k = Some m → ∃ m', inbox d' !! k = Some m' ∧
    in_subject m' = in_subject m ∧ in_semantic_key m' = in_semantic_key m.

#[export] Instance inbox_kept_preorder : PreOrder inbox_kept.
Proof.
  split; [intros d k m Hk; by exists m|]. intros a b c Hab Hbc k m Hk.
  destruct (Hab k m Hk) as (m1&H1&?&?). destruct (Hbc k m1 H1) as (m2&?&?&?).
  exists m2. split_and!; [done|congruence..].
Qed.

Lemma inbox_kept_same d d' : inbox d' = inbox d → inbox_kept d d'.
Proof. intros H k m Hk. exists m. by rewrite H. Qed.

(** The message, or another one under its subject and key, is in the inbox. *)
Definition seen (message_id : uuid) (subject key : string) (d : db) : Prop :=
  any_where (inbox_taken message_id subject key) (inbox d) = true.

Lemma inbox_taken_true message_id subject key k m :
  inbox_taken message_id subject key k m = true ↔
    k = message_id ∨ (in_subject m = subject ∧ in_semantic_key m = key).
Proof. rewrite /inbox_taken orb_true_iff andb_true_iff !bool_decide_eq_true. done. Qed.

Lemma seen_kept message_id subject key d d' :
  inbox_kept d d' → seen message_id subject key d → seen message_id subject key d'.
Proof.
  rewrite /seen !any_where_true. intros Hk (k&m&Hm&Ht%inbox_taken_true).
  destruct (Hk k m Hm) as (m'&?&?&?). exists k, m'. split; [done|].
  apply inbox_taken_true. naive_solver congruence.
Qed.

Lemma claim_spec message_id subject key sha now d b d' :
  claim message_id subject key sha now d = Ok (b, d') →
  String.length sha = 64%nat ∧
  ((b = false ∧ d' = d ∧ seen message_id subject key d) ∨
   (b = true ∧ ¬ seen message_id subject key d ∧
      d' = with_inbox d (<[message_id :=
             InboxRow subject key sha InboxState.Processing now None None]> (inbox d)))).
Proof.
  rewrite /claim /insert_inbox /seen /=. case_match eqn:Hl; [done|].
  apply negb_false_iff, Nat.eqb_eq in Hl. destruct (any_where _ _) eqn:Ha; intros; simplify_eq.
  - eauto.
  - split; [done|]. right. split_and!; [done|by intros ?|done].
Qed.

(** An unseen message is claimed. *)
Lemma claim_unseen message_id subject key sha now d :
  String.length sha = 64%nat → ¬ seen message_id subject key d →
  claim message_id subject key sha now d = Ok (true, with_inbox d (<[message_id :=
    InboxRow subject key sha InboxState.Processing now None None]> (inbox d))).
Proof.
  rewrite /claim /insert_inbox /seen /=. by intros -> ->%not_true_iff_false.
Qed.

Lemma claim_kept message_id subject key sha : stmt_evolves inbox_kept (claim message_id subject key sha).
Proof.
  intros now d b d' (_&[(_&->&_)|(_&Hn&->)])%claim_spec; [done|]. intros k m Hk. exists m.
  simpl. rewrite lookup_insert_ne; [done|]. intros <-. apply Hn. apply any_where_true.
  exists message_id, m. split; [done|]. apply inbox_taken_true. auto.
Qed.

Lemma insert_inbox_kept message_id row d b d' :
  insert_inbox message_id row d = Ok (b, d') → inbox_kept d d'.
Proof.
  rewrite /insert_inbox. case_match; [done|]. destruct (any_where _ _) eqn:Ha; intros; simplify_eq.
  - done.
  - intros k m Hk. exists m. simpl. rewrite lookup_insert_ne; [done|]. intros <-.
    rewrite any_where_false in Ha. specialize (Ha message_id m Hk).
    apply not_true_iff_false in Ha. apply Ha, inbox_taken_true. auto.
Qed.

Lemma complete_inbox_frame message_id now d n d' :
  complete_inbox message_id now d = Ok (n, d') → d' = with_inbox d (inbox d').
Proof. by intros [= _ <-]. Qed.

Lemma complete_inbox_kept message_id : stmt_evolves inbox_kept (complete_inbox message_id).
Proof.
  intros now d n d' [= _ <-] k m Hk. simpl. rewrite lookup_update_where Hk /=.
  eexists. split; [done|]. by case_bool_decide.
Qed.

(** A claimed message is completed in the same transaction. *)
Lemma complete_inbox_claimed message_id now d n d' m :
  complete_inbox message_id now d = Ok (n, d') → inbox d !! message_id = Some m →
  d' = with_inbox d (<[message_id :=
         InboxRow (in_subject m) (in_semantic_key m) (in_sha256 m) InboxState.Completed
           (in_received_at m) (Some now) (in_failure_class m)]> (inbox d)).
Proof.
  intros [= _ <-] Hm. f_equal. rewrite (update_where_key _ _ _ message_id).
  - by rewrite Hm bool_decide_eq_true_2.
  - by intros k' v ?%bool_decide_eq_true.
Qed.
