(* ===== verification/Intake.v ===== *)
(** * Intake: [src/src/intake.rs], the transactional command handlers *)

From S2P Require Import Prelude External Store Tx Subscriptions Runs Reports Inbox.

Definition SUBSCRIPTION_SUBJECT : string := "channel_digest.subscription.set_requested.v1".
Definition RUN_SUBJECT : string := "channel_digest.run.requested.v1".

Module IntakeError.
Inductive t := Invalid | Storage.
(** [From<ReportError>] *)
Definition from (e : ReportError.t) : t :=
  match e with ReportError.Invalid => Invalid | ReportError.Storage => Storage end.
End IntakeError.

Module CommandKind.
Inductive t := Subscription | Run.
Definition subject (k : t) : string :=
  match k with Subscription => SUBSCRIPTION_SUBJECT | Run => RUN_SUBJECT end.
End CommandKind.

Module RejectionReason.
Inductive t := SubscriptionLimit | CommandInvalid.
Definition class (r : t) : string :=
  match r with SubscriptionLimit => "subscription_limit" | CommandInvalid => "command_invalid" end.
Definition code (r : t) : string :=
  match r with
  | SubscriptionLimit => "channel_digest.subscription_limit_reached"
  | CommandInvalid => "channel_digest.command_invalid"
  end.
Definition message (r : t) : string :=
  match r with
  | SubscriptionLimit => "At most 20 channels can be active at the same time."
  | CommandInvalid => "The command was rejected because it is not valid."
  end.
End RejectionReason.

Record rejection := Rejection {
  rej_message_id : uuid;
  rej_subject : string;
  rej_semantic_key : string;
  rej_payload_sha256 : string;
  rej_operation : uuid;
  rej_owner : uuid;
  rej_reason : RejectionReason.t }.

(** What the first transaction of a handler decided. *)
Inductive decision := Settled (o : IntakeOutcome.t) | Refuse (r : RejectionReason.t).

Section Intake.
Context `{External}.

Definition report_storage {A} (m : M ReportError.t A) : M IntakeError.t A := on_err IntakeError.from m.

Definition command_ref (message_id : uuid) : string := ("command:" +:+ uuid_text message_id)%string.

(** [CommandIntake::reject] *)
Definition reject (r : rejection) : M IntakeError.t IntakeOutcome.t :=
  transact IntakeError.Storage (
    inserted ← sql IntakeError.Storage (λ now d,
      insert_inbox (rej_message_id r)
        (InboxRow (rej_subject r) (rej_semantic_key r) (rej_payload_sha256 r) InboxState.Failed now
           (Some now) (Some (RejectionReason.class (rej_reason r)))) d);
    if negb inserted then mret (Rollback IntakeOutcome.Replayed)
    else
      row ← report_storage (lift (report_new (rej_operation r) (rej_owner r) OperationStatus.Failed
                                    "rejected"));
      row ← report_storage (lift (with_error (caused_by row (command_ref (rej_message_id r)))
              (RejectionReason.code (rej_reason r)) (RejectionReason.message (rej_reason r)) false));
      _ ← report_storage (enqueue row);
      mret (Commit IntakeOutcome.Applied)).

Definition finish (r : RejectionReason.t → rejection) (s : decision)
    : M IntakeError.t IntakeOutcome.t :=
  match s with Settled o => mret o | Refuse reason => reject (r reason) end.

(** The rejection of a subscription command that was read. *)
Definition subscription_rejection (message_id : uuid) (payload : string)
    (command : subscription_command) (reason : RejectionReason.t) : rejection :=
  Rejection message_id SUBSCRIPTION_SUBJECT (sc_idempotency_key command) (sha256_digest_hex payload)
    (sc_operation command) (tenant_user (sc_owner command)) reason.

(** The transaction of [accept_subscription]. *)
Definition decide_subscription (message_id : uuid) (payload : string)
    (command : subscription_command) : M IntakeError.t decision :=
  let owner := tenant_user (sc_owner command) in
  let semantic_key := sc_idempotency_key command in
  let payload_sha256 := sha256_digest_hex payload in
    transact IntakeError.Storage (
      inserted ← sql IntakeError.Storage
        (claim message_id SUBSCRIPTION_SUBJECT semantic_key payload_sha256);
      if negb inserted then mret (Rollback (Settled IntakeOutcome.Replayed))
      else
        subscription_id ← now_v7;
        channel_id ← now_v7;
        applied ← try_sql (λ now, set_subscription subscription_id channel_id owner
                     (sc_username command) (sc_active command) now now);
        match applied with
        | Err error =>
            if negb (is_limit_error error) then fail IntakeError.Storage
            else mret (Rollback (Refuse RejectionReason.SubscriptionLimit))
        | Ok _ =>
            row ← report_storage (lift (report_new (sc_operation command) owner
                                          OperationStatus.Succeeded "applied"));
            _ ← report_storage (enqueue (caused_by row (command_ref message_id)));
            _ ← sql IntakeError.Storage (complete_inbox message_id);
            mret (Commit (Settled IntakeOutcome.Applied))
        end).

(** [CommandIntake::accept_subscription] *)
Definition accept_subscription (message_id : uuid) (payload : string)
    : M IntakeError.t IntakeOutcome.t :=
  command ← lift (ok_or IntakeError.Invalid (decode_subscription_set payload));
  let rejected := subscription_rejection message_id payload command in
  if negb (validate_subscription_set command) then reject (rejected RejectionReason.CommandInvalid)
  else
    decided ← decide_subscription message_id payload command;
    finish rejected decided.

(** [CommandIntake::reject_unreadable]; the envelope payload is a JSON object. *)
Definition reject_unreadable (message_id : uuid) (kind : CommandKind.t) (tenant : string) (payload : json)
    : M IntakeError.t IntakeOutcome.t :=
  operation ← lift (ok_or IntakeError.Invalid (json_get "operation_id" payload ≫= operation_id_of_value));
  owner ← lift (ok_or IntakeError.Invalid (json_get "owner" payload ≫= tenant_of_value));
  if negb (bool_decide (owner = tenant)) then fail IntakeError.Invalid
  else
    bytes ← lift (ok_or IntakeError.Invalid (json_to_vec payload));
    reject (Rejection message_id (CommandKind.subject kind)
      ("invalid:" +:+ uuid_text message_id)%string (sha256_digest_hex bytes) operation
      (tenant_user owner) RejectionReason.CommandInvalid).

(** The rejection of a run command that was read. *)
Definition run_rejection (message_id : uuid) (payload : string) (command : run_command)
    (reason : RejectionReason.t) : rejection :=
  Rejection message_id RUN_SUBJECT (rc_idempotency_key command) (sha256_digest_hex payload)
    (rc_operation command) (tenant_user (rc_owner command)) reason.

(** The transaction of [accept_run]. *)
Definition decide_run (message_id : uuid) (payload : string) (command : run_command)
    : M IntakeError.t decision :=
  let owner := tenant_user (rc_owner command) in
  let semantic_key := rc_idempotency_key command in
  let payload_sha256 := sha256_digest_hex payload in
    let on_demand := rc_on_demand command in
    transact IntakeError.Storage (
      inserted ← sql IntakeError.Storage (claim message_id RUN_SUBJECT semantic_key payload_sha256);
      if negb inserted then mret (Rollback (Settled IntakeOutcome.Replayed))
      else
        let run_id := rc_run command in
        selected ← sql IntakeError.Storage
          (with_cast (wire_text (rc_start_at command)) (λ start,
           with_cast (wire_text (rc_end_at command)) (λ end_,
             create_digest_run run_id owner (rc_operation command)
               (if on_demand then RunTrigger.OnDemand else RunTrigger.Scheduled)
               semantic_key start end_)));
        if negb (bool_decide (selected = run_id))
        then mret (Rollback (Refuse RejectionReason.CommandInvalid))
        else
          _ ← sql IntakeError.Storage (update_runs
                (λ k r, bool_decide (k = run_id) && bool_decide (run_owner r = owner))
                (set_language (rc_language command)));
          _ ← (if on_demand : bool then
                 row ← report_storage (lift (report_new (rc_operation command) owner
                                               OperationStatus.Queued "awaiting_acquisition"));
                 report_storage (enqueue (caused_by row (command_ref message_id)))
               else mret tt);
          _ ← sql IntakeError.Storage (complete_inbox message_id);
          mret (Commit (Settled IntakeOutcome.Applied))).

(** [CommandIntake::accept_run] *)
Definition accept_run (message_id : uuid) (payload : string)
    : M IntakeError.t IntakeOutcome.t :=
  command ← lift (ok_or IntakeError.Invalid (decode_run_requested payload));
  let invalid := run_rejection message_id payload command in
  if negb (validate_run_requested command) then reject (invalid RejectionReason.CommandInvalid)
  else
    decided ← decide_run message_id payload command;
    finish invalid decided.
End Intake.
