(* ===== verification/IntakeSpec.v ===== *)
(** * IntakeSpec: what the command handlers of [Intake] do to the database *)

From S2P Require Import Prelude External Store Tx Demo Subscriptions Runs Reports Progress Inbox Intake.

Section IntakeSpec.
Context `{External}.

(** A rejected command: its message is failed in the inbox and its operation reported failed. *)
Record rejected (r : rejection) (now : Z) (d d' : db) : Prop := {
  rj_unseen : ¬ seen (rej_message_id r) (rej_subject r) (rej_semantic_key r) d;
  rj_inbox : inbox d' = <[rej_message_id r :=
      InboxRow (rej_subject r) (rej_semantic_key r) (rej_payload_sha256 r) InboxState.Failed now
        (Some now) (Some (RejectionReason.class (rej_reason r)))]> (inbox d);
  rj_outbox k o : outbox d !! k = Some o → outbox d' !! k = Some o;
  rj_report : reported (rej_operation r) OperationStatus.Failed d';
  rj_frame : d' = with_outbox (with_inbox d (inbox d')) (outbox d') }.

Lemma insert_inbox_spec message_id row d b d' :
  insert_inbox message_id row d = Ok (b, d') →
  (b = false ∧ d' = d ∧ seen message_id (in_subject row) (in_semantic_key row) d) ∨
  (b = true ∧ ¬ seen message_id (in_subject row) (in_semantic_key row) d ∧
     d' = with_inbox d (<[message_id := row]> (inbox d))).
Proof.
  rewrite /insert_inbox /seen. case_match; [done|]. destruct (any_where _ _) eqn:Ha; intros; simplify_eq.
  - auto.
  - right. by split_and!.
Qed.

Lemma reject_inv r w res w' :
  reject r w = (res, w') →
  (res = Ok IntakeOutcome.Applied ∧ rejected r (w_now w) (w_db w) (w_db w')) ∨
  (w_db w' = w_db w ∧ res ≠ Ok IntakeOutcome.Applied ∧
   (res = Ok IntakeOutcome.Replayed →
    seen (rej_message_id r) (rej_subject r) (rej_semantic_key r) (w_db w))).
Proof.
  rewrite /reject.
  intros [(a&w1&w2&->&Hdb&Hnow&Hb&->)|(->&[(a&w1&w2&->&Hdb&Hnow&Hb)|(e&->)])]%transact_inv;
    [| |by right].
  - step_sql Hb as ins w3 Hins Hn3. apply insert_inbox_spec in Hins as [(->&_)|(->&Hns&Hd3)];
      [by apply ret_inv in Hb as [? _]|]. simpl in *.
    step Hb as row w4 [Hrow%report_new_about ->]%on_err_inv%lift_inv.
    step Hb as row2 w4 [Hrow2 ->]%on_err_inv%lift_inv.
    step Hb as u w4 Hen%on_err_inv. apply ret_inv in Hb as [Ha ->]. simplify_eq.
    eapply enqueue_queued in Hen as [(Hd4&Hgrow&Hrep) _];
      [|eapply with_error_about; [done|by apply caused_by_about]].
    left. split; [done|]. split.
    + by rewrite -Hdb.
    + by rewrite Hd4 Hd3 /= Hdb Hnow.
    + intros k o Hk. apply Hgrow. by rewrite Hd3 /= Hdb.
    + done.
    + rewrite Hd4 Hd3 /= Hdb. done.
  - right. split; [done|].
    destruct Hb as [Hb|Hb]; step_sql Hb as ins w3 Hins Hn3;
      apply insert_inbox_spec in Hins as [(->&_&Hs)|(->&Hns&Hd3)]; simpl in Hb.
    2,4: step Hb as row w4 _; step Hb as row2 w5 _; step Hb as u w6 _; by apply ret_inv in Hb as [? _].
    all: apply ret_inv in Hb as [Ha _]; simplify_eq. rewrite -Hdb. done.
Qed.

(** An applied subscription command. *)
Record subscription_applied (message_id : uuid) (payload : string) (command : subscription_command)
    (now : Z) (d d' : db) : Prop := {
  sa_unseen : ¬ seen message_id SUBSCRIPTION_SUBJECT (sc_idempotency_key command) d;
  sa_set : ∃ sid cid row d0 d1, channels d0 = channels d ∧ subscriptions d0 = subscriptions d ∧
    set_subscription sid cid (tenant_user (sc_owner command)) (sc_username command)
      (sc_active command) now now d0 = Ok (row, d1) ∧
    channels d' = channels d1 ∧ subscriptions d' = subscriptions d1;
  sa_inbox : inbox d' = <[message_id :=
      InboxRow SUBSCRIPTION_SUBJECT (sc_idempotency_key command) (sha256_digest_hex payload)
        InboxState.Completed now (Some now) None]> (inbox d);
  sa_outbox k o : outbox d !! k = Some o → outbox d' !! k = Some o;
  sa_report : reported (sc_operation command) OperationStatus.Succeeded d';
  sa_frame : d' = Db (channels d') (subscriptions d') (revisions d) (runs d) (manifests d)
               (manifest_sources d) (results d) (inbox d') (outbox d') (leases d) }.

Lemma set_subscription_frame sid cid owner username en at_ now d row d' :
  set_subscription sid cid owner username en at_ now d = Ok (row, d') →
  d' = Db (channels d') (subscriptions d') (revisions d) (runs d) (manifests d)
         (manifest_sources d) (results d) (inbox d) (outbox d) (leases d).
Proof.
  destruct row as [[id act] en'].
  intros (_&channel&d1&s'&He&->&_)%set_subscription_spec.
  by apply ensure_channel_spec in He as (c&_&_&[->|(_&_&_&->)]).
Qed.

Lemma decide_subscription_inv message_id payload command w res w' :
  decide_subscription message_id payload command w = (res, w') →
  (res = Ok (Settled IntakeOutcome.Applied) ∧
   subscription_applied message_id payload command (w_now w) (w_db w) (w_db w')) ∨
  (w_db w' = w_db w ∧ res ≠ Ok (Settled IntakeOutcome.Applied) ∧
   (res = Ok (Settled IntakeOutcome.Replayed) →
    seen message_id SUBSCRIPTION_SUBJECT (sc_idempotency_key command) (w_db w))).
Proof.
  rewrite /decide_subscription.
  intros [(a&w1&w2&->&Hdb&Hnow&Hb&->)|(->&[(a&w1&w2&->&Hdb&Hnow&Hb)|(e&->)])]%transact_inv;
    [| |by right].
  - step_sql Hb as ins w3 Hins Hn3. apply claim_spec in Hins as (_&[(->&_)|(->&Hns&Hd3)]);
      [by apply ret_inv in Hb as [? _]|]. simpl in *.
    step Hb as sid w4 (Hd4&Hn4&_)%now_v7_inv. step Hb as cid w5 (Hd5&Hn5&_)%now_v7_inv.
    step Hb as applied w6 (Hn6&[(row&[= ->]&Hset)|[[[= ->] _]|(?&[= ->]&_)]])%try_sql_inv;
      [|by apply fail_inv in Hb|by case_match; [apply fail_inv in Hb|apply ret_inv in Hb as [? _]]].
    step Hb as row2 w7 [Hrow%report_new_about ->]%on_err_inv%lift_inv.
    step Hb as u w7 Hen%on_err_inv. step_sql Hb as n w8 Hcomp Hn8.
    apply ret_inv in Hb as [Ha ->]. simplify_eq. left. split; [done|].
    eapply enqueue_queued in Hen as [(Hd7&Hgrow&Hrep) Hn7]; [|by apply caused_by_about].
    rewrite Hd5 Hd4 in Hset. pose proof (set_subscription_frame _ _ _ _ _ _ _ _ _ _ Hset) as Hd6.
    eapply complete_inbox_claimed in Hcomp as Hd8;
      [|rewrite Hd7 Hd6 Hd3 /=; apply lookup_insert_eq].
    replace (w_now w7) with (w_now w) in Hd8 by congruence.
    replace (w_now w5) with (w_now w) in Hset by congruence.
    split.
    + by rewrite -Hdb.
    + exists sid, cid, row, (w_db w3), (w_db w6). split_and!; [by rewrite Hd3 /= Hdb..|done| |].
      all: by rewrite Hd8 Hd7.
    + rewrite Hd8 Hd7 Hd6 Hd3 /= insert_insert_eq Hdb Hnow. done.
    + intros k o Hk. rewrite Hd8 /=. apply Hgrow. by rewrite Hd6 Hd3 /= Hdb.
    + by rewrite Hd8.
    + rewrite Hd8 Hd7 Hd6 Hd3 /= Hdb. done.
  - right. split; [done|].
    destruct Hb as [Hb|Hb]; step_sql Hb as ins w3 Hins Hn3;
      apply claim_spec in Hins as (_&[(->&_&Hs)|(->&Hns&Hd3)]); simpl in Hb.
    2,4: step Hb as sid w4 _; step Hb as cid w5 _; step Hb as applied w6 _; destruct applied;
      [step Hb as row w7 _; step Hb as u w8 _; step Hb as n w9 _; by apply ret_inv in Hb as [? _]|
       case_match; [by apply fail_inv in Hb|by apply ret_inv in Hb as [? _]; simplify_eq]].
    all: apply ret_inv in Hb as [Ha _]; simplify_eq. rewrite -Hdb. done.
Qed.

Lemma timeless_decide_subscription message_id payload command :
  timeless (decide_subscription message_id payload command).
Proof. rewrite /decide_subscription. still. Qed.

(** The end of both handlers: the decision is the answer, or the command is rejected. *)
Lemma finish_inv (r : RejectionReason.t → rejection) dec w res w' :
  finish r dec w = (res, w') →
  (∃ o, dec = Settled o ∧ res = Ok o ∧ w_db w' = w_db w) ∨
  (∃ reason, dec = Refuse reason ∧ reject (r reason) w = (res, w')).
Proof.
  destruct dec as [o|reason]; simpl; [|by eauto]. intros [-> ->]%ret_eq. eauto.
Qed.

Lemma accept_subscription_inv message_id payload w res w' :
  accept_subscription message_id payload w = (res, w') →
  (res = Ok IntakeOutcome.Applied ∧ ∃ command, decode_subscription_set payload = Some command ∧
     ((validate_subscription_set command = true ∧
       subscription_applied message_id payload command (w_now w) (w_db w) (w_db w')) ∨
      ∃ reason, rejected (subscription_rejection message_id payload command reason) (w_now w)
                  (w_db w) (w_db w'))) ∨
  (w_db w' = w_db w ∧ res ≠ Ok IntakeOutcome.Applied ∧
   (res = Ok IntakeOutcome.Replayed → ∃ command, decode_subscription_set payload = Some command ∧
      seen message_id SUBSCRIPTION_SUBJECT (sc_idempotency_key command) (w_db w))).
Proof.
  rewrite /accept_subscription. intros Hw.
  apply bind_quiet in Hw as [(command&w1&[Hdec%ok_or_Ok _]%lift_inv&Hd1&Hn1&Hw)|(?&?&->)];
    [|by right|apply quiet_lift].
  case_match eqn:Hval.
  { apply reject_inv in Hw. rewrite Hd1 Hn1 in Hw.
    destruct Hw as [[-> ?]|(?&?&?)]; [left; eauto 10|right; eauto 10]. }
  apply negb_false_iff in Hval.
  apply bind_inv in Hw as [(dec&w2&Ht&Hw)|(e&Ht&->)].
  2:{ right. by apply transact_Err in Ht as ->. }
  pose proof (timeless_decide_subscription _ _ _ _ _ _ Ht) as Hn2.
  apply decide_subscription_inv in Ht. rewrite Hd1 Hn1 in Ht.
  apply finish_inv in Hw as [(o&->&->&->)|(reason&->&Hr%reject_inv)].
  - destruct Ht as [[[= ->] ?]|(->&Hne&Hs)]; [left; eauto 10|right].
    split; [done|]. destruct o; [done|]. split; [done|]. eauto.
  - destruct Ht as [[? _]|(Hd2&_)]; [done|]. rewrite Hd2 Hn2 Hn1 in Hr.
    destruct Hr as [[-> ?]|(?&?&?)]; [left; eauto 10|right; eauto 10].
Qed.

(** An applied run command: the run it names is new, or is the one its natural key already names,
    and has the command's language. *)
Record run_applied (message_id : uuid) (payload : string) (command : run_command) (now : Z)
    (d d' : db) : Prop := {
  ra_unseen : ¬ seen message_id RUN_SUBJECT (rc_idempotency_key command) d;
  ra_run : ∃ start end_ r,
    pg_timestamptz (wire_text (rc_start_at command)) = Some start ∧
    pg_timestamptz (wire_text (rc_end_at command)) = Some end_ ∧ start < end_ ∧
    let trigger := if rc_on_demand command then RunTrigger.OnDemand else RunTrigger.Scheduled in
    let owner := tenant_user (rc_owner command) in
    ((runs d !! rc_run command = None ∧
      r = new_run owner (rc_operation command) trigger (rc_idempotency_key command) start end_
            OutputLanguage.Ru now) ∨
     (runs d !! rc_run command = Some r ∧
      natural_key owner trigger (rc_idempotency_key command) start end_ (rc_run command) r = true)) ∧
    runs d' = <[rc_run command := set_language (rc_language command) now r]> (runs d);
  ra_inbox : inbox d' = <[message_id :=
      InboxRow RUN_SUBJECT (rc_idempotency_key command) (sha256_digest_hex payload)
        InboxState.Completed now (Some now) None]> (inbox d);
  ra_outbox k o : outbox d !! k = Some o → outbox d' !! k = Some o;
  ra_report : if rc_on_demand command then reported (rc_operation command) OperationStatus.Queued d'
              else outbox d' = outbox d;
  ra_frame : d' = Db (channels d) (subscriptions d) (revisions d) (runs d') (manifests d)
               (manifest_sources d) (results d) (inbox d') (outbox d') (leases d) }.

(** The run a run command selects, with its language set. *)
Lemma selected_run command start end_ now now' d d1 n d2 :
  let trigger := if rc_on_demand command then RunTrigger.OnDemand else RunTrigger.Scheduled in
  let owner := tenant_user (rc_owner command) in
  create_digest_run (rc_run command) owner (rc_operation command) trigger (rc_idempotency_key command)
    start end_ now d = Ok (rc_run command, d1) →
  update_runs (λ k r, bool_decide (k = rc_run command) && bool_decide (run_owner r = owner))
    (set_language (rc_language command)) now' d1 = Ok (n, d2) →
  start < end_ ∧ ∃ r,
    ((runs d !! rc_run command = None ∧
      r = new_run owner (rc_operation command) trigger (rc_idempotency_key command) start end_
            OutputLanguage.Ru now) ∨
     (runs d !! rc_run command = Some r ∧
      natural_key owner trigger (rc_idempotency_key command) start end_ (rc_run command) r = true)) ∧
    d2 = with_runs d (<[rc_run command := set_language (rc_language command) now' r]> (runs d)).
Proof.
  intros trigger owner [Hlt Hsel]%create_digest_run_cases. rewrite /update_runs. intros [= _ <-].
  split; [done|]. rewrite (update_where_key _ _ _ (rc_run command)).
  2:{ by intros k v [?%bool_decide_eq_true _]%andb_prop. }
  rewrite (bool_decide_eq_true_2 (rc_run command = rc_run command)) //=.
  destruct Hsel as [(_&Hnone&->)|(->&r&Hr&Hnat)]; simpl.
  - rewrite lookup_insert_eq /= bool_decide_eq_true_2 // insert_insert_eq.
    eexists. by split; [left|].
  - apply natural_key_true in Hnat as Hk. destruct Hk as (Ho&_).
    rewrite Hr bool_decide_eq_true_2 //. exists r. auto.
Qed.

(** The report of an accepted run: queued for an operation, none for a scheduled run. *)
Lemma queued_report message_id command w u w' :
  (if rc_on_demand command then
     row ← report_storage (lift (report_new (rc_operation command) (tenant_user (rc_owner command))
                                   OperationStatus.Queued "awaiting_acquisition"));
     report_storage (enqueue (caused_by row (command_ref message_id)))
   else mret tt) w = (Ok u, w') →
  w_now w' = w_now w ∧ w_db w' = with_outbox (w_db w) (outbox (w_db w')) ∧
  (∀ k o, outbox (w_db w) !! k = Some o → outbox (w_db w') !! k = Some o) ∧
  (if rc_on_demand command then reported (rc_operation command) OperationStatus.Queued (w_db w')
   else outbox (w_db w') = outbox (w_db w)).
Proof.
  destruct (rc_on_demand command).
  - intros Hrep. step Hrep as row w1 [Hrow%report_new_about ->]%on_err_inv%lift_inv.
    apply on_err_inv in Hrep. eapply enqueue_queued in Hrep as [(?&?&?) ?];
      [|by apply caused_by_about]. done.
  - intros [_ ->]%ret_inv. split_and!; try done. by destruct (w_db w).
Qed.

Lemma decide_run_inv message_id payload command w res w' :
  decide_run message_id payload command w = (res, w') →
  (res = Ok (Settled IntakeOutcome.Applied) ∧
   run_applied message_id payload command (w_now w) (w_db w) (w_db w')) ∨
  (w_db w' = w_db w ∧ res ≠ Ok (Settled IntakeOutcome.Applied) ∧
   (res = Ok (Settled IntakeOutcome.Replayed) →
    seen message_id RUN_SUBJECT (rc_idempotency_key command) (w_db w))).
Proof.
  rewrite /decide_run.
  intros [(a&w1&w2&->&Hdb&Hnow&Hb&->)|(->&[(a&w1&w2&->&Hdb&Hnow&Hb)|(e&->)])]%transact_inv;
    [| |by right].
  - step_sql Hb as ins w3 Hins Hn3. apply claim_spec in Hins as (_&[(->&_)|(->&Hns&Hd3)]);
      [by apply ret_inv in Hb as [? _]|]. simpl in Hb.
    step_sql Hb as selected w4 Hsel Hn4.
    apply with_cast_Ok in Hsel as (start&Hst&Hsel). apply with_cast_Ok in Hsel as (end_&Hen&Hsel).
    case_match eqn:Heq; [by apply ret_inv in Hb as [? _]|].
    apply negb_false_iff, bool_decide_eq_true in Heq. subst selected.
    step_sql Hb as n w5 Hlang Hn5. step Hb as u w6 Hrep.
    step_sql Hb as n2 w7 Hcomp Hn7. apply ret_inv in Hb as [Ha ->]. simplify_eq.
    left. split; [done|].
    eapply selected_run in Hlang as [Hlt (r&Hrun&Hd5)]; [|exact Hsel].
    apply queued_report in Hrep as (Hn6&Hd6&Hgrow&Hq).
    eapply complete_inbox_claimed in Hcomp as Hd7;
      [|rewrite Hd6 Hd5 Hd3 /=; apply lookup_insert_eq].
    replace (w_now w6) with (w_now w) in Hd7 by congruence.
    replace (w_now w4) with (w_now w) in Hd5 by congruence.
    replace (w_now w3) with (w_now w) in Hrun by congruence.
    rewrite Hd3 /= Hdb in Hrun.
    split.
    + by rewrite -Hdb.
    + exists start, end_, r. split_and!; try done. by rewrite Hd7 Hd6 Hd5 Hd3 /= Hdb.
    + rewrite Hd7 Hd6 Hd5 Hd3 /= insert_insert_eq Hdb Hnow. done.
    + intros k o Hk. rewrite Hd7 /=. apply Hgrow. by rewrite Hd5 Hd3 /= Hdb.
    + revert Hq. rewrite Hd7 /=. destruct (rc_on_demand command); [done|]. intros ->.
      by rewrite Hd5 Hd3 /= Hdb.
    + rewrite Hd7 Hd6 Hd5 Hd3 /= Hdb. done.
  - right. split; [done|].
    destruct Hb as [Hb|Hb]; step_sql Hb as ins w3 Hins Hn3;
      apply claim_spec in Hins as (_&[(->&_&Hs)|(->&Hns&Hd3)]); simpl in Hb.
    2,4: step Hb as selected w4 _; case_match; [by apply ret_inv in Hb as [? _]; simplify_eq|];
      step Hb as n w5 _; step Hb as u w6 _; step Hb as n2 w7 _; by apply ret_inv in Hb as [? _].
    all: apply ret_inv in Hb as [Ha _]; simplify_eq. rewrite -Hdb. done.
Qed.

Lemma timeless_decide_run message_id payload command :
  timeless (decide_run message_id payload command).
Proof. rewrite /decide_run. still. Qed.

Lemma accept_run_inv message_id payload w res w' :
  accept_run message_id payload w = (res, w') →
  (res = Ok IntakeOutcome.Applied ∧ ∃ command, decode_run_requested payload = Some command ∧
     ((validate_run_requested command = true ∧
       run_applied message_id payload command (w_now w) (w_db w) (w_db w')) ∨
      ∃ reason, rejected (run_rejection message_id payload command reason) (w_now w)
                  (w_db w) (w_db w'))) ∨
  (w_db w' = w_db w ∧ res ≠ Ok IntakeOutcome.Applied ∧
   (res = Ok IntakeOutcome.Replayed → ∃ command, decode_run_requested payload = Some command ∧
      seen message_id RUN_SUBJECT (rc_idempotency_key command) (w_db w))).
Proof.
  rewrite /accept_run. intros Hw.
  apply bind_quiet in Hw as [(command&w1&[Hdec%ok_or_Ok _]%lift_inv&Hd1&Hn1&Hw)|(?&?&->)];
    [|by right|apply quiet_lift].
  case_match eqn:Hval.
  { apply reject_inv in Hw. rewrite Hd1 Hn1 in Hw.
    destruct Hw as [[-> ?]|(?&?&?)]; [left; eauto 10|right; eauto 10]. }
  apply negb_false_iff in Hval.
  apply bind_inv in Hw as [(dec&w2&Ht&Hw)|(e&Ht&->)].
  2:{ right. by apply transact_Err in Ht as ->. }
  pose proof (timeless_decide_run _ _ _ _ _ _ Ht) as Hn2.
  apply decide_run_inv in Ht. rewrite Hd1 Hn1 in Ht.
  apply finish_inv in Hw as [(o&->&->&->)|(reason&->&Hr%reject_inv)].
  - destruct Ht as [[[= ->] ?]|(->&Hne&Hs)]; [left; eauto 10|right].
    split; [done|]. destruct o; [done|]. split; [done|]. eauto.
  - destruct Ht as [[? _]|(Hd2&_)]; [done|]. rewrite Hd2 Hn2 Hn1 in Hr.
    destruct Hr as [[-> ?]|(?&?&?)]; [left; eauto 10|right; eauto 10].
Qed.

Lemma reject_unreadable_inv message_id kind tenant payload w res w' :
  reject_unreadable message_id kind tenant payload w = (res, w') →
  (res = Ok IntakeOutcome.Applied ∧ ∃ operation bytes,
     json_get "operation_id" payload ≫= operation_id_of_value = Some operation ∧
     json_get "owner" payload ≫= tenant_of_value = Some tenant ∧
     rejected (Rejection message_id (CommandKind.subject kind)
       ("invalid:" +:+ uuid_text message_id)%string (sha256_digest_hex bytes) operation
       (tenant_user tenant) RejectionReason.CommandInvalid) (w_now w) (w_db w) (w_db w')) ∨
  (w_db w' = w_db w ∧ res ≠ Ok IntakeOutcome.Applied).
Proof.
  rewrite /reject_unreadable. intros Hw.
  apply bind_quiet in Hw as [(operation&w1&[Hop%ok_or_Ok _]%lift_inv&Hd1&Hn1&Hw)|(?&?&->)];
    [|by right|apply quiet_lift].
  apply bind_quiet in Hw as [(owner&w2&[How%ok_or_Ok _]%lift_inv&Hd2&Hn2&Hw)|(Hd&?&->)];
    [|right; split; congruence|apply quiet_lift].
  case_match eqn:Hten; [apply fail_eq in Hw as [-> ->]; right; split; congruence|].
  apply negb_false_iff, bool_decide_eq_true in Hten. subst owner.
  apply bind_quiet in Hw as [(bytes&w3&_&Hd3&Hn3&Hw)|(Hd&?&->)];
    [|right; split; congruence|apply quiet_lift].
  apply reject_inv in Hw. rewrite Hd3 Hd2 Hd1 Hn3 Hn2 Hn1 in Hw.
  destruct Hw as [[-> ?]|(?&?&_)]; [left; eauto 10|by right].
Qed.

(** ** Commands that are answered *)

Lemma insert_inbox_answers message_id row d :
  String.length (in_sha256 row) = 64%nat → ∃ b d', insert_inbox message_id row d = Ok (b, d') ∧
    outbox d' = outbox d.
Proof. intros Hl. rewrite /insert_inbox Hl /=. case_match; eauto. Qed.

(** A rejection is stored, whatever the reason. *)
Lemma reject_succeeds `{!ReportLaws} r w :
  able w → String.length (rej_payload_sha256 r) = 64%nat → succeeds (reject r) w (λ _ _, True).
Proof.
  intros Ha Hl. rewrite /reject. apply succeeds_transact; [apply Ha|].
  edestruct (insert_inbox_answers (rej_message_id r)) as (b&d&Hd&Ho);
    [|eapply succeeds_bind_sql; [apply Ha|exact Hd|]]; [exact Hl|].
  destruct b; [simpl|by apply succeeds_ret].
  edestruct (failed_row_accepted (rej_operation r) (rej_owner r) "rejected"
    (RejectionReason.code (rej_reason r)) (RejectionReason.message (rej_reason r)) false
    (λ row, caused_by row (command_ref (rej_message_id r)))) as (row0&row&Hrow0&Hrow&Hok);
    [done|done|by destruct (rej_reason r)..|].
  eapply succeeds_bind_err_lift; [exact Hrow0|]. eapply succeeds_bind_err_lift; [exact Hrow|].
  eapply succeeds_bind; [apply succeeds_on_err, enqueue_succeeds; [by apply able_set_db|done]|].
  intros. by apply succeeds_ret.
Qed.

Lemma finish_succeeds `{!ReportLaws} (r : RejectionReason.t → rejection) dec w :
  able w → (∀ reason, String.length (rej_payload_sha256 (r reason)) = 64%nat) →
  succeeds (finish r dec) w (λ _ _, True).
Proof. intros Ha Hl. destruct dec; simpl; [by apply succeeds_ret|by apply reject_succeeds]. Qed.

(** A claim answers. *)
Lemma claim_answers message_id subject key sha now d :
  String.length sha = 64%nat → ∃ b d', claim message_id subject key sha now d = Ok (b, d') ∧
    (b = false ∧ d' = d ∨ b = true ∧ d' = with_inbox d (<[message_id :=
       InboxRow subject key sha InboxState.Processing now None None]> (inbox d))).
Proof.
  intros Hl. rewrite /claim /insert_inbox Hl /=. case_match; (eexists _, _; split; [done|]); [by left|by right].
Qed.

(** The window of the command is one, and its run is new or known by its natural key. *)
Definition run_storable (command : run_command) (d : db) : Prop :=
  ∃ start end_, pg_timestamptz (wire_text (rc_start_at command)) = Some start ∧
    pg_timestamptz (wire_text (rc_end_at command)) = Some end_ ∧ start < end_ ∧
    (runs d !! rc_run command = None ∨
     ∃ k r, runs d !! k = Some r ∧
       natural_key (tenant_user (rc_owner command))
         (if rc_on_demand command then RunTrigger.OnDemand else RunTrigger.Scheduled)
         (rc_idempotency_key command) start end_ k r = true).

Lemma create_digest_run_answers run_id owner operation trigger key start end_ now d :
  start < end_ →
  (runs d !! run_id = None ∨ ∃ k r, runs d !! k = Some r ∧ natural_key owner trigger key start end_ k r = true) →
  ∃ sel d', create_digest_run run_id owner operation trigger key start end_ now d = Ok (sel, d') ∧
    outbox d' = outbox d.
Proof.
  intros Hlt Hcase. rewrite /create_digest_run /insert_run /= (proj2 (Z.ltb_lt _ _) Hlt) /=.
  destruct (any_where _ _) eqn:Ha; simpl.
  - destruct (find_where _ _) as [[k r]|] eqn:Hf; [by eauto|].
    apply any_where_true in Ha as (k&r&Hk&Hn). rewrite find_where_None in Hf.
    by rewrite (Hf _ _ Hk) in Hn.
  - destruct Hcase as [->|(k&r&Hk&Hn)]; [by eauto|]. rewrite any_where_false in Ha.
    by rewrite (Ha _ _ Hk) in Hn.
Qed.

Lemma decide_run_succeeds `{!ExternalLaws} `{!ReportLaws} message_id payload command w :
  able w → run_storable command (w_db w) →
  succeeds (decide_run message_id payload command) w (λ _ w', able w').
Proof.
  intros Ha (start&end_&Hst&Hen&Hlt&Hcase). rewrite /decide_run.
  apply succeeds_transact; [apply Ha|].
  edestruct claim_answers as (b&d&Hd&Hb); [apply sha256_digest_length|].
  eapply succeeds_bind_sql; [apply Ha|exact Hd|].
  destruct Hb as [[-> ->]|[-> ->]]; [by apply succeeds_ret; do 2 (apply able_set_db; [done|])|simpl].
  match goal with |- succeeds _ ?w1 _ =>
    assert (able w1) as Ha1 by (by apply able_set_db);
    destruct (create_digest_run_answers (rc_run command) (tenant_user (rc_owner command))
      (rc_operation command) _ (rc_idempotency_key command) start end_ (w_now w1) (w_db w1) Hlt Hcase)
      as (sel&d1&Hd1&Ho1) end.
  eapply succeeds_bind_sql; [apply Ha1|by rewrite /with_cast /cast_timestamptz Hst Hen; exact Hd1|].
  eapply (able_set_db _ d1) in Ha1; [|exact Ho1].
  cbv beta iota. destruct (negb (bool_decide (sel = _))).
  { apply succeeds_ret, able_set_db; [by rewrite /= Ho1|exact Ha1]. }
  eapply succeeds_bind_sql; [apply Ha1|done|]. eapply succeeds_bind with (P := λ _ w', able w').
  { destruct (rc_on_demand command); [|by apply succeeds_ret, able_set_db].
    eapply succeeds_mono; [by apply plain_report_succeeds; [apply able_set_db|..]|by intros ?? _ _ [? _]]. }
  clear Ha1. intros u w1 _ _ Ha1. eapply succeeds_bind_sql; [apply Ha1|done|]. apply succeeds_ret.
  by apply able_set_db.
Qed.

Lemma accept_run_succeeds `{!ExternalLaws} `{!ReportLaws} message_id payload command w :
  able w → decode_run_requested payload = Some command →
  (validate_run_requested command = true → run_storable command (w_db w)) →
  succeeds (accept_run message_id payload) w (λ _ _, True).
Proof.
  intros Ha Hd Hs. rewrite /accept_run. eapply succeeds_bind_lift; [by rewrite Hd|].
  destruct (validate_run_requested command); simpl.
  - eapply succeeds_bind; [by apply decide_run_succeeds; [|apply Hs]|].
    intros dec w1 _ _ Ha1. apply finish_succeeds; [done|intros; apply sha256_digest_length].
  - apply reject_succeeds; [done|apply sha256_digest_length].
Qed.

(** [set_subscription] answers, or raises the limit. *)
Lemma set_subscription_answers sid cid owner username en at_ now d :
  pg_lower (pg_lower username) = pg_lower username →
  channels d !! cid = None → subscriptions d !! sid = None →
  (∃ row d', set_subscription sid cid owner username en at_ now d = Ok (row, d') ∧ outbox d' = outbox d) ∨
  set_subscription sid cid owner username en at_ now d = Err (SqlRaised "P0001").
Proof.
  intros Hl Hc Hs. rewrite /set_subscription.
  assert (∃ channel d1, ensure_channel cid (pg_lower username) d = Ok (channel, d1) ∧
    subscriptions d1 = subscriptions d ∧ outbox d1 = outbox d) as (channel&d1&->&Hs1&Ho1).
  { rewrite /ensure_channel Hl bool_decide_eq_true_2 //=. destruct (find_where _ _) as [[k c]|]; [by eauto|].
    rewrite Hc. by eauto. }
  simpl. destruct (find_where _ _) as [[k s]|]; (case_match; [by right|left]); [by eauto|].
  rewrite Hs1 Hs. by eauto.
Qed.

Lemma succeeds_bind_try_sql {E A B} (s : stmt A) (k : result sql_error A → M E B) w Q :
  calm w →
  match s (w_now w) (w_db w) with
  | Ok (a, d) => succeeds (k (Ok a)) (set_db w d) Q
  | Err e => succeeds (k (Err e)) w Q
  end → succeeds (try_sql s ≫= k) w Q.
Proof.
  intros Hc. rewrite /succeeds /mbind /M_bind /try_sql (draw_fault_none w Hc).
  destruct (s _ _) as [[a d]|e]; [|done]. intros (b&w'&?&Ho&?). exists b, w'. split; [done|].
  split; [|done]. by destruct Ho.
Qed.

Lemma decide_subscription_succeeds `{!ExternalLaws} `{!ReportLaws} message_id payload command w :
  able w → fresh_in w (channels (w_db w)) → fresh_in w (subscriptions (w_db w)) →
  pg_lower (pg_lower (sc_username command)) = pg_lower (sc_username command) →
  succeeds (decide_subscription message_id payload command) w (λ _ w', able w').
Proof.
  intros Ha Hfc Hfs Hl. rewrite /decide_subscription.
  apply succeeds_transact; [apply Ha|].
  edestruct claim_answers as (b&d&Hd&Hb); [apply sha256_digest_length|].
  eapply succeeds_bind_sql; [apply Ha|exact Hd|].
  destruct Hb as [[-> ->]|[-> ->]]; [by apply succeeds_ret; do 2 (apply able_set_db; [done|])|simpl].
  apply succeeds_bind_now_v7, succeeds_bind_now_v7.
  match goal with |- succeeds _ ?w' _ => set (w1 := w') end. assert (able w1) as Ha1 by by apply able_drawn, able_drawn, able_set_db.
  apply succeeds_bind_try_sql; [apply Ha1|].
  edestruct (set_subscription_answers (w_uuids w (w_drawn w)) (w_uuids w (S (w_drawn w)))
    (tenant_user (sc_owner command)) (sc_username command) (sc_active command) (w_now w) (w_now w)
    (w_db w1)) as [(row&d1&Hd1&Ho1)|Hd1]; [exact Hl|apply Hfc; lia|by apply fresh_in_next| |];
    simpl in *; rewrite Hd1.
  2:{ apply succeeds_ret. by apply able_set_db. }
  assert (able (set_db w1 d1)) as Ha2 by by apply able_set_db.
  destruct (plain_row_accepted (sc_operation command) (tenant_user (sc_owner command))
    OperationStatus.Succeeded "applied" eq_refl) as (row1&Hrow1&Hok); [done|].
  eapply succeeds_bind_err_lift; [exact Hrow1|].
  eapply succeeds_bind; [by apply succeeds_on_err, enqueue_succeeds|].
  intros u w2 _ _ [Ha3 _]. eapply succeeds_bind_sql; [apply Ha3|done|]. apply succeeds_ret.
  by apply able_set_db.
Qed.

Lemma accept_subscription_succeeds `{!ExternalLaws} `{!ReportLaws} message_id payload command w :
  able w → fresh_in w (channels (w_db w)) → fresh_in w (subscriptions (w_db w)) →
  pg_lower (pg_lower (sc_username command)) = pg_lower (sc_username command) →
  decode_subscription_set payload = Some command →
  succeeds (accept_subscription message_id payload) w (λ _ _, True).
Proof.
  intros Ha Hfc Hfs Hl Hd. rewrite /accept_subscription. eapply succeeds_bind_lift; [by rewrite Hd|].
  destruct (validate_subscription_set command); simpl.
  - eapply succeeds_bind; [by apply decide_subscription_succeeds|].
    intros dec w1 _ _ Ha1. apply finish_succeeds; [done|intros; apply sha256_digest_length].
  - apply reject_succeeds; [done|apply sha256_digest_length].
Qed.

(** ** Properties *)

(** C14: A run command is taken exactly once: an applied command was unseen and either created (or
    found under its natural key) the accepted run it names, with its language, and reported an
    on-demand operation queued, or was rejected with its operation reported failed.  Every other
    answer, storage failures at any statement included, leaves the database untouched.  And it is
    taken: without a storage fault, a readable command that was not seen is applied or rejected,
    unless the identity of its run belongs to another one.  The window stored, of an on-demand run
    too, is the one the command carries. *)
Theorem accept_run_exact message_id payload w :
  (let '(res, w') := accept_run message_id payload w in
   match res with
   | Ok IntakeOutcome.Applied =>
       ∃ command, decode_run_requested payload = Some command ∧
         ((validate_run_requested command = true ∧
           run_applied message_id payload command (w_now w) (w_db w) (w_db w')) ∨
          ∃ reason, rejected (run_rejection message_id payload command reason) (w_now w)
                      (w_db w) (w_db w'))
   | _ => w_db w' = w_db w
   end) ∧
  (ExternalLaws → ReportLaws → ∀ command, able w → decode_run_requested payload = Some command →
     (validate_run_requested command = true → run_storable command (w_db w)) →
     ¬ seen message_id RUN_SUBJECT (rc_idempotency_key command) (w_db w) →
     succeeds (accept_run message_id payload) w (λ o _, o = IntakeOutcome.Applied)).
Proof.
  split.
  - destruct (accept_run message_id payload w) as [res w'] eqn:Hw.
    apply accept_run_inv in Hw as [(->&?)|(?&Hne&_)]; [done|]. by destruct res as [[]|].
  - intros HE HR command Ha Hd Hs Hns.
    eapply succeeds_mono; [by eapply accept_run_succeeds|]. intros [] w' Hw _ _; [done|].
    apply accept_run_inv in Hw as [[? _]|(_&_&Hseen)]; [done|].
    destruct (Hseen eq_refl) as (command'&Hd'&?). by simplify_eq.
Qed.


Lemma claim_seen message_id subject key sha now d :
  seen message_id subject key d → String.length sha = 64%nat →
  claim message_id subject key sha now d = Ok (false, d).
Proof.
  rewrite /seen /claim /insert_inbox /=. intros Hs Hl. by rewrite Hl Hs.
Qed.

Lemma reject_seen r w :
  calm w → seen (rej_message_id r) (rej_subject r) (rej_semantic_key r) (w_db w) →
  String.length (rej_payload_sha256 r) = 64%nat →
  (reject r w).1 = Ok IntakeOutcome.Replayed.
Proof.
  intros Hc Hs Hl. rewrite /reject. erewrite transact_calm_rollback; [reflexivity|done| |].
  - erewrite bind_sql_calm; [|done|rewrite /insert_inbox /= Hl /=; by rewrite Hs]. reflexivity.
  - done.
Qed.

Lemma decide_seen (A : Type) (e : IntakeError.t) message_id subject key sha (k : M IntakeError.t (txn A))
    (a : A) w :
  calm w → seen message_id subject key (w_db w) → String.length sha = 64%nat →
  transact e (inserted ← sql e (claim message_id subject key sha);
              if negb inserted then mret (Rollback a) else k) w
    = (Ok a, set_db (set_db w (w_db w)) (w_db w)).
Proof.
  intros Hc Hs Hl. eapply transact_calm_rollback; [done| |done].
  erewrite bind_sql_calm; [|done|by apply claim_seen]. reflexivity.
Qed.

(** A redelivered command is answered [Replayed] when storage works, and changes nothing even
    when it does not: the message identity, or its subject and idempotency key, decides. *)
Lemma redelivery_replays `{!ExternalLaws} message_id payload w :
  (∀ command, decode_run_requested payload = Some command →
     seen message_id RUN_SUBJECT (rc_idempotency_key command) (w_db w) →
     w_db (accept_run message_id payload w).2 = w_db w ∧
     (calm w → (accept_run message_id payload w).1 = Ok IntakeOutcome.Replayed)) ∧
  (∀ command, decode_subscription_set payload = Some command →
     seen message_id SUBSCRIPTION_SUBJECT (sc_idempotency_key command) (w_db w) →
     w_db (accept_subscription message_id payload w).2 = w_db w ∧
     (calm w → (accept_subscription message_id payload w).1 = Ok IntakeOutcome.Replayed)).
Proof.
  split; intros command Hd Hs; (split; [|intros Hc]).
  - destruct (accept_run _ _ _) as [res w'] eqn:Hw. apply accept_run_inv in Hw
      as [(_&command'&Hd'&[[_ Ha]|[? Ha]])|[? _]]; [| |done]; destruct Ha; by simplify_eq/=.
  - rewrite /accept_run Hd bind_lift_Ok. case_match.
    + by apply reject_seen, sha256_digest_length.
    + erewrite bind_Ok; [|apply decide_seen; [done|done|apply sha256_digest_length]]. done.
  - destruct (accept_subscription _ _ _) as [res w'] eqn:Hw. apply accept_subscription_inv in Hw
      as [(_&command'&Hd'&[[_ Ha]|[? Ha]])|[? _]]; [| |done]; destruct Ha; by simplify_eq/=.
  - rewrite /accept_subscription Hd bind_lift_Ok. case_match.
    + by apply reject_seen, sha256_digest_length.
    + erewrite bind_Ok; [|apply decide_seen; [done|done|apply sha256_digest_length]]. done.
Qed.

(** A command whose payload cannot be read is reported only to the owner it names: an applied
    rejection has a payload that names an operation and an owner equal to the envelope's tenant, and
    fails exactly that operation; every other answer leaves the database untouched. *)
Lemma reject_unreadable_attributed message_id kind tenant payload w :
  let '(res, w') := reject_unreadable message_id kind tenant payload w in
  match res with
  | Ok IntakeOutcome.Applied => ∃ operation bytes,
     json_get "operation_id" payload ≫= operation_id_of_value = Some operation ∧
     json_get "owner" payload ≫= tenant_of_value = Some tenant ∧
     rejected (Rejection message_id (CommandKind.subject kind)
       ("invalid:" +:+ uuid_text message_id)%string (sha256_digest_hex bytes) operation
       (tenant_user tenant) RejectionReason.CommandInvalid) (w_now w) (w_db w) (w_db w')
  | _ => w_db w' = w_db w
  end.
Proof.
  destruct (reject_unreadable _ _ _ _ _) as [res w'] eqn:Hw.
  apply reject_unreadable_inv in Hw as [(->&?)|[? Hne]]; [done|]. by destruct res as [[]|].
Qed.
End IntakeSpec.

(** ** Witnesses *)

Lemma accept_run_exact_witness :
  ∃ w', @accept_run Demo.external 1%N "run" (Demo.world empty_db) = (Ok IntakeOutcome.Applied, w') ∧
    run_state <$> runs (w_db w') !! 60%N = Some RunState.Accepted.
Proof.
  destruct (@accept_run_exact Demo.external 1%N "run" (Demo.world empty_db)) as [_ Hok].
  destruct (Hok Demo.laws DemoProgress.report_laws Demo.run_fixture) as (o&w'&Hw&_&->).
  - apply DemoProgress.able_world. reflexivity.
  - reflexivity.
  - intros _. eexists _, _. split_and!; [vm_compute; reflexivity..|by apply Z.ltb_lt|left; reflexivity].
  - vm_compute. discriminate.
  - exists w'. split; [exact Hw|].
    assert (run_state <$> runs (w_db (@accept_run Demo.external 1%N "run" (Demo.world empty_db)).2) !! 60%N
      = Some RunState.Accepted) as Hstate by (vm_compute; reflexivity).
    rewrite Hw in Hstate. exact Hstate.
Defined.


(** The second delivery of the run command. *)
Lemma redelivery_replays_witness :
  let w1 := Demo.world (w_db (@accept_run Demo.external 1%N "run" (Demo.world empty_db)).2) in
  (@accept_run Demo.external 2%N "run" w1).1 = Ok IntakeOutcome.Replayed.
Proof.
  destruct (@redelivery_replays Demo.external Demo.laws 2%N "run"
    (Demo.world (w_db (@accept_run Demo.external 1%N "run" (Demo.world empty_db)).2))) as [Hr _].
  destruct (Hr Demo.run_fixture) as [_ Hc]; [reflexivity|vm_compute; reflexivity|].
  apply Hc. reflexivity.
Defined.
