(* ===== verification/Manifest.v ===== *)
(** * Manifest: [src/src/manifest.rs], the canonical source manifest of one run *)

From S2P Require Import Prelude Text External Store.

Record manifest_source := ManifestSource {
  ms_revision_id : uuid;
  ms_channel_id : uuid;
  ms_channel_username : string;
  ms_channel_display_name : option string;
  ms_message_id : Z;
  ms_content_sha256 : string;
  ms_published_at : string;
  ms_canonical_link : string;
  ms_body : string;
  ms_revision_index : Z }.

Record canonical_manifest := CanonicalManifest {
  cman_id : uuid;
  cman_owner : uuid;
  cman_run : uuid;
  cman_text : string;
  cman_sha256 : string;
  cman_source_count : nat;
  cman_channel_count : nat;
  cman_messages : list (uuid * Z) }.

Module ManifestError.
Inductive t := Limit | Invalid.
End ManifestError.

(** The order of a [BTreeSet<(Uuid, i64)>]. *)
Definition message_key (m : uuid * Z) : list Z := [Z.of_N m.1; m.2].

(** [collect::<BTreeSet<_>>().into_iter().collect()] *)
Definition distinct_messages (l : list (uuid * Z)) : list (uuid * Z) :=
  sort_on message_key (remove_dups l).

Section Builder.
Context `{External}.

(** [instant] *)
Definition instant (raw : string) : result ManifestError.t Z :=
  ok_or ManifestError.Invalid (wire_parse raw).

Definition canonical_link (username : string) (message_id : Z) : string :=
  ("https://t.me/" +:+ (username +:+ ("/" +:+ int_text message_id)))%string.

(** The label of [contract_source]: the trimmed display name when it is not empty, else the
    username, cut to 80 characters. *)
Definition channel_label (s : manifest_source) : string :=
  take_chars 80
    (match trim <$> ms_channel_display_name s with
     | Some name => if bool_decide (name = EmptyString) then ms_channel_username s else name
     | None => ms_channel_username s
     end).

(** [contract_source] *)
Definition contract_source_of (s : manifest_source) : result ManifestError.t contract_source :=
  if (MAX_CONTENT_BYTES <? String.length (ms_body s))%nat then Err ManifestError.Limit
  else
    let digest := sha256_hex (ms_body s) in
    if negb (bool_decide (ms_canonical_link s = canonical_link (ms_channel_username s) (ms_message_id s)))
       || negb (bool_decide (ms_content_sha256 s = digest))
    then Err ManifestError.Invalid
    else
      published_at ← instant (ms_published_at s);
      hex ← ok_or ManifestError.Invalid (parse_digest_hex digest);
      Ok (ContractSource
            ("channel-post-revision:" +:+ uuid_text (ms_revision_id s))%string
            ("telegram-public-channel:" +:+ uuid_text (ms_channel_id s))%string
            (channel_label s)
            (int_text (ms_message_id s))
            published_at
            (ms_body s)
            hex
            (Some (ms_canonical_link s))
            (ms_revision_index s)).

(** [order_key] *)
Definition order_key (s : contract_source) : list Z :=
  [cs_published_at s] ++ text_key (cs_channel_ref s) ++
  [default (2 ^ 128 - 1) (parse_u128 (cs_message_id s)); cs_revision s].

Definition channel_ids (sources : list manifest_source) : list uuid :=
  remove_dups (ms_channel_id <$> sources).

Definition source_message (s : manifest_source) : uuid * Z := (ms_channel_id s, ms_message_id s).

(** [ManifestBuilder::build] *)
Definition build (manifest_id owner run_id : uuid) (window_start window_end : string)
    (sources : list manifest_source) : result ManifestError.t canonical_manifest :=
  if (MAX_SOURCES <? length sources)%nat then Err ManifestError.Limit
  else
    let channel_count := length (channel_ids sources) in
    if (MAX_CHANNELS <? channel_count)%nat then Err ManifestError.Limit
    else
      let messages := distinct_messages (source_message <$> sources) in
      start ← instant window_start;
      end_ ← instant window_end;
      if negb (digest_window_valid start end_) then Err ManifestError.Invalid
      else
        selected ← collect_results contract_source_of sources;
        let selected := sort_on order_key selected in
        manifest_ref ← ok_or ManifestError.Invalid
          (parse_manifest_ref ("channel-digest-manifest:" +:+ uuid_text manifest_id)%string);
        digest_run ← ok_or ManifestError.Invalid (parse_run_id (uuid_text run_id));
        bytes ← ok_or ManifestError.Invalid (manifest_canonical_bytes
          (ContractManifest manifest_ref (tenant_of_user owner) digest_run (start, end_) selected));
        if negb (utf8_valid bytes) then Err ManifestError.Invalid
        else Ok (CanonicalManifest manifest_id owner run_id bytes (sha256_hex bytes)
                   (length selected) channel_count messages).

(** ** Lemmas *)

Lemma elem_of_distinct_messages m l : m ∈ distinct_messages l ↔ m ∈ l.
Proof. by rewrite /distinct_messages elem_of_sort_on elem_of_remove_dups. Qed.

Lemma NoDup_distinct_messages l : NoDup (distinct_messages l).
Proof. rewrite /distinct_messages sort_on_perm. apply NoDup_remove_dups. Qed.

Lemma message_key_inj m1 m2 : message_key m1 = message_key m2 → m1 = m2.
Proof. destruct m1, m2. rewrite /message_key /=. intros [= ? ->]. f_equal. lia. Qed.

(** The set of messages decides the list. *)
Lemma distinct_messages_perm l1 l2 : l1 ≡ₚ l2 → distinct_messages l1 = distinct_messages l2.
Proof.
  intros Hp. apply sort_on_perm_eq; [|intros; by apply message_key_inj].
  apply NoDup_Permutation; [apply NoDup_remove_dups..|].
  intros m. by rewrite !elem_of_remove_dups Hp.
Qed.

Lemma channel_ids_perm l1 l2 : l1 ≡ₚ l2 → length (channel_ids l1) = length (channel_ids l2).
Proof.
  intros Hp. apply Permutation_length, NoDup_Permutation; [apply NoDup_remove_dups..|].
  intros c. by rewrite !elem_of_remove_dups Hp.
Qed.

(** What a source that was taken proved. *)
Lemma contract_source_of_Ok s c :
  contract_source_of s = Ok c →
  (String.length (ms_body s) ≤ MAX_CONTENT_BYTES)%nat ∧
  ms_canonical_link s = canonical_link (ms_channel_username s) (ms_message_id s) ∧
  ms_content_sha256 s = sha256_hex (ms_body s) ∧
  wire_parse (ms_published_at s) = Some (cs_published_at c) ∧
  cs_channel_ref c = ("telegram-public-channel:" +:+ uuid_text (ms_channel_id s))%string ∧
  cs_revision_ref c = ("channel-post-revision:" +:+ uuid_text (ms_revision_id s))%string ∧
  cs_message_id c = int_text (ms_message_id s) ∧ cs_content c = ms_body s ∧
  cs_revision c = ms_revision_index s ∧ cs_channel_label c = channel_label s ∧
  parse_digest_hex (sha256_hex (ms_body s)) = Some (cs_content_digest_hex c) ∧
  cs_public_link c = Some (ms_canonical_link s).
Proof.
  rewrite /contract_source_of /instant /ok_or. case_match eqn:Hl; [done|]. apply Nat.ltb_ge in Hl.
  case_match eqn:Hg; [done|]. apply orb_false_iff in Hg as [Hg1 Hg2].
  apply negb_false_iff, bool_decide_eq_true in Hg1.
  apply negb_false_iff, bool_decide_eq_true in Hg2.
  destruct (wire_parse _) as [p|]; [|done]. destruct (parse_digest_hex _) eqn:Hhex; [|done].
  rewrite /mbind /=. intros; simplify_eq/=. done.
Qed.

Lemma build_inv mid owner run ws we sources m :
  build mid owner run ws we sources = Ok m →
  (length sources ≤ MAX_SOURCES)%nat ∧ (length (channel_ids sources) ≤ MAX_CHANNELS)%nat ∧
  ∃ start end_ selected mref drun,
    wire_parse ws = Some start ∧ wire_parse we = Some end_ ∧
    digest_window_valid start end_ = true ∧
    collect_results contract_source_of sources = Ok selected ∧
    parse_manifest_ref ("channel-digest-manifest:" +:+ uuid_text mid)%string = Some mref ∧
    parse_run_id (uuid_text run) = Some drun ∧
    manifest_canonical_bytes (ContractManifest mref (tenant_of_user owner) drun (start, end_)
      (sort_on order_key selected)) = Some (cman_text m) ∧
    utf8_valid (cman_text m) = true ∧
    m = CanonicalManifest mid owner run (cman_text m) (sha256_hex (cman_text m))
          (length sources) (length (channel_ids sources))
          (distinct_messages (source_message <$> sources)).
Proof.
  rewrite /build /instant /ok_or. case_match eqn:Hl; [done|]. apply Nat.ltb_ge in Hl.
  case_match eqn:Hc; [done|]. apply Nat.ltb_ge in Hc.
  destruct (wire_parse ws) as [st|] eqn:Hws; [|done]. destruct (wire_parse we) as [en|] eqn:Hwe; [|done].
  rewrite {1 2}/mbind /=. case_match eqn:Hw; [done|]. apply negb_false_iff in Hw.
  destruct (collect_results _ _) as [sel|] eqn:Hsel; [|done]. rewrite {1}/mbind /=.
  destruct (parse_manifest_ref _) as [mref|] eqn:Hm; [|done]. rewrite {1}/mbind /=.
  destruct (parse_run_id _) as [drun|] eqn:Hr; [|done]. rewrite {1}/mbind /=.
  destruct (manifest_canonical_bytes _) as [bytes|] eqn:Hb; [|done]. rewrite /mbind /=.
  case_match eqn:Hu; [done|]. apply negb_false_iff in Hu. intros; simplify_eq/=.
  split_and!; [done..|]. exists st, en, sel, mref, drun. split_and!; try done.
  f_equal. rewrite length_sort_on. apply collect_results_Ok in Hsel.
  by erewrite <-Forall2_length.
Qed.

(** Distinct messages with non-negative identities have distinct order keys. *)
Lemma order_key_separates `{!ExternalLaws} s1 s2 c1 c2 :
  contract_source_of s1 = Ok c1 → contract_source_of s2 = Ok c2 →
  0 ≤ ms_message_id s1 < 2 ^ 63 → 0 ≤ ms_message_id s2 < 2 ^ 63 →
  order_key c1 = order_key c2 → source_message s1 = source_message s2.
Proof.
  intros (_&_&_&_&Hc1&_&Hm1&_)%contract_source_of_Ok (_&_&_&_&Hc2&_&Hm2&_)%contract_source_of_Ok H1 H2.
  rewrite /order_key Hc1 Hc2 Hm1 Hm2 !parse_u128_int_text; [|lia|lia]. simpl.
  intros [= _ [Hch Hrest]%text_key_app_inj]. rewrite /source_message. f_equal; [|congruence].
  apply text_app_inj_l in Hch. by apply (inj uuid_text) in Hch.
Qed.
End Builder.
