(* ===== verification/ManifestSpec.v ===== *)
(** * ManifestSpec: what [Manifest.build] guarantees about a canonical manifest *)

From S2P Require Import Prelude Text External Store Tx Demo Manifest.

Section ManifestSpec.
Context `{External}.

(** The name of a channel: its trimmed display name, unless that is empty, else its username; at most
    eighty characters. *)
Definition shown_name (s : manifest_source) : string :=
  take_chars 80 (match ms_channel_display_name s with
    | Some name => if decide (trim name = "") then ms_channel_username s else trim name
    | None => ms_channel_username s
    end).

(** The post passed every check of the builder, and its entry in the manifest is exactly this. *)
Record sourced (s : manifest_source) (c : contract_source) : Prop := {
  sc_bounded : (String.length (ms_body s) ≤ MAX_CONTENT_BYTES)%nat;
  sc_link : ms_canonical_link s =
    ("https://t.me/" +:+ (ms_channel_username s +:+ ("/" +:+ int_text (ms_message_id s))))%string;
  sc_digest : ms_content_sha256 s = sha256_hex (ms_body s);
  sc_content : cs_content c = ms_body s;
  sc_content_digest : parse_digest_hex (ms_content_sha256 s) = Some (cs_content_digest_hex c);
  sc_public_link : cs_public_link c = Some (ms_canonical_link s);
  sc_instant : wire_parse (ms_published_at s) = Some (cs_published_at c);
  sc_message : cs_message_id c = int_text (ms_message_id s);
  sc_label : cs_channel_label c = shown_name s;
  sc_channel : cs_channel_ref c = ("telegram-public-channel:" +:+ uuid_text (ms_channel_id s))%string;
  sc_revision : cs_revision_ref c = ("channel-post-revision:" +:+ uuid_text (ms_revision_id s))%string;
  sc_index : cs_revision c = ms_revision_index s }.

Lemma contract_source_sourced s c : contract_source_of s = Ok c → sourced s c.
Proof.
  intros (?&?&Hd&?&?&?&?&?&?&Hl&Hh&?)%contract_source_of_Ok. split; try done; [by rewrite Hd|].
  rewrite Hl /channel_label /shown_name. destruct (ms_channel_display_name s) as [name|]; [|done]. simpl.
  by rewrite bool_decide_decide; destruct (decide (trim name = "")).
Qed.

(** The canonical order: by instant, then channel, then number of the message (an identity that is no
    number comes last), then revision. *)
Definition in_order (a b : contract_source) : Prop :=
  let key (s : contract_source) := cs_published_at s :: text_key (cs_channel_ref s) ++
    [match parse_u128 (cs_message_id s) with Some n => n | None => 2 ^ 128 - 1 end; cs_revision s] in
  lexleb (key a) (key b) = true.

(** C24: A manifest is what its digest says: its text is the canonical serialization, for its own
    identity, owner, run and window, of one entry per selected post and no other, in the canonical
    order; each entry holds the post's body, within the size limit, the digest of that body, the
    canonical link of the post, its instant, number, revision and channel, which is shown under its
    trimmed display name or its username; the digest is that of the text, the counts and the message
    set are exact, the limits on posts and channels hold and the window is valid. *)
Theorem build_sound mid owner run ws we sources m :
  build mid owner run ws we sources = Ok m →
  cman_id m = mid ∧ cman_owner m = owner ∧ cman_run m = run ∧
  cman_sha256 m = sha256_hex (cman_text m) ∧ utf8_valid (cman_text m) = true ∧
  cman_source_count m = length sources ∧ (length sources ≤ MAX_SOURCES)%nat ∧
  cman_channel_count m = size (list_to_set (C := gset uuid) (ms_channel_id <$> sources)) ∧
  (cman_channel_count m ≤ MAX_CHANNELS)%nat ∧
  NoDup (cman_messages m) ∧
  (∀ channel message, (channel, message) ∈ cman_messages m ↔
     ∃ s, s ∈ sources ∧ ms_channel_id s = channel ∧ ms_message_id s = message) ∧
  ∃ start end_ mref drun selected, digest_window_valid start end_ = true ∧
    wire_parse ws = Some start ∧ wire_parse we = Some end_ ∧
    parse_manifest_ref ("channel-digest-manifest:" +:+ uuid_text mid)%string = Some mref ∧
    parse_run_id (uuid_text run) = Some drun ∧
    manifest_canonical_bytes (ContractManifest mref (tenant_of_user owner) drun (start, end_) selected)
      = Some (cman_text m) ∧
    StronglySorted in_order selected ∧
    ∃ l, Forall2 sourced sources l ∧ selected ≡ₚ l.
Proof.
  intros (Hl&Hc&st&en&sel&mref&drun&Hws&Hwe&Hw&Hsel&Href&Hrun&Hb&Hu&Hm)%build_inv.
  rewrite Hm /=. split_and!; try done.
  - rewrite /channel_ids -(size_list_to_set (C := gset uuid)); [|apply NoDup_remove_dups].
    f_equal. apply set_eq. intros x. by rewrite !elem_of_list_to_set elem_of_remove_dups.
  - apply NoDup_distinct_messages.
  - intros channel message. rewrite elem_of_distinct_messages list_elem_of_fmap. split.
    + intros (s&[= -> ->]&?). by exists s.
    + intros (s&?&<-&<-). by exists s.
  - exists st, en, mref, drun, (sort_on order_key sel). split_and!; try done; [exact (sort_on_sorted order_key sel)|].
    exists sel. split; [|apply sort_on_perm]. apply collect_results_Ok in Hsel.
    eapply Forall2_impl; [exact Hsel|]. intros s c Hs. by apply contract_source_sourced.
Qed.

(** ** The order of the selection does not matter *)

Lemma Forall2_perm {A B} (P : A → B → Prop) l1 l2 ys1 :
  l1 ≡ₚ l2 → Forall2 P l1 ys1 → ∃ ys2, Forall2 P l2 ys2 ∧ ys1 ≡ₚ ys2.
Proof.
  intros Hp. revert ys1. induction Hp as [|x l1 l2 _ IH|x y l|l1 l2 l3 _ IH1 _ IH2]; intros ys1 Hf.
  - by exists ys1.
  - apply Forall2_cons_inv_l in Hf as (y&ys&?&Hf&->). apply IH in Hf as (ys2&?&?).
    exists (y :: ys2). split; [by constructor|by constructor].
  - apply Forall2_cons_inv_l in Hf as (a&ys&?&Hf&->). apply Forall2_cons_inv_l in Hf as (b&ys'&?&?&->).
    exists (b :: a :: ys'). split; [by repeat constructor|constructor].
  - apply IH1 in Hf as (ys2&Hf&?). apply IH2 in Hf as (ys3&?&?). exists ys3. split; [done|by etrans].
Qed.

Lemma collect_results_perm {E A B} (f : A → result E B) l1 l2 ys1 :
  l1 ≡ₚ l2 → collect_results f l1 = Ok ys1 → ∃ ys2, collect_results f l2 = Ok ys2 ∧ ys1 ≡ₚ ys2.
Proof.
  intros Hp H1%collect_results_Ok. destruct (Forall2_perm _ _ _ _ Hp H1) as (ys2&?&?).
  exists ys2. split; [by apply collect_results_Ok|done].
Qed.

(** Provider message identities are positive 63-bit numbers and no post is selected twice. *)
Definition one_per_post (sources : list manifest_source) : Prop :=
  NoDup (source_message <$> sources) ∧ Forall (λ s, 0 ≤ ms_message_id s < 2 ^ 63) sources.

Lemma order_key_selected `{!ExternalLaws} sources selected c1 c2 :
  one_per_post sources → collect_results contract_source_of sources = Ok selected →
  c1 ∈ selected → c2 ∈ selected → order_key c1 = order_key c2 → c1 = c2.
Proof.
  intros [Hnd Hpos] Hsel%collect_results_Ok H1 H2 Hkey. rewrite Forall_forall in Hpos.
  apply list_elem_of_lookup in H1 as [i Hi], H2 as [j Hj].
  destruct (Forall2_lookup_r _ _ _ _ _ Hsel Hi) as (s1&Hs1&Hc1).
  destruct (Forall2_lookup_r _ _ _ _ _ Hsel Hj) as (s2&Hs2&Hc2).
  pose proof (list_elem_of_lookup_2 _ _ _ Hs1) as Hp1%Hpos.
  pose proof (list_elem_of_lookup_2 _ _ _ Hs2) as Hp2%Hpos.
  pose proof (order_key_separates _ _ _ _ Hc1 Hc2 Hp1 Hp2 Hkey) as Hm.
  assert (i = j) as ->; [|congruence].
  eapply (NoDup_lookup _ _ _ (source_message s1) Hnd); rewrite list_lookup_fmap; [by rewrite Hs1|].
  by rewrite Hs2 Hm.
Qed.

(** C23: The manifest of a selection is a function of the selected posts, not of the order they were
    found in: any permutation of a selection with one revision per post builds the same manifest,
    byte for byte, and so the same digest. *)
Theorem build_order_independent `{!ExternalLaws} mid owner run ws we sources sources' m :
  sources ≡ₚ sources' → one_per_post sources →
  build mid owner run ws we sources = Ok m → build mid owner run ws we sources' = Ok m.
Proof.
  intros Hp Hone. rewrite /build. rewrite -(Permutation_length Hp) -(channel_ids_perm _ _ Hp).
  rewrite -(distinct_messages_perm _ _ (fmap_Permutation source_message _ _ Hp)).
  case_match; [done|]. case_match; [done|].
  destruct (instant ws); [|done]. destruct (instant we); [|done]. rewrite {1 2 6 7}/mbind /=.
  case_match; [done|]. destruct (collect_results contract_source_of sources) as [sel|] eqn:Hsel; [|done].
  destruct (collect_results_perm _ _ _ _ Hp Hsel) as (sel'&->&Hperm).
  rewrite {1 5}/mbind /=. rewrite (sort_on_perm_eq order_key sel sel' Hperm); [done|].
  intros c1 c2. by eapply order_key_selected.
Qed.
End ManifestSpec.

(** ** Witnesses *)

(** Two posts of one channel, the newer one first. *)
Module Sources.
Definition source (message : Z) (body published : string) : manifest_source :=
  ManifestSource (Z.to_N (100 + message)) 1 "rustlang" None message (Demo.digest body) published
    (canonical_link "rustlang" message) body 1.
Definition two : list manifest_source := [source 9 "nine" "1900000"; source 8 "eight" "1800000"].
End Sources.

Lemma build_sound_witness :
  ∃ m, @build Demo.external 70 7 60 "1000000" "2000000" Sources.two = Ok m ∧
    cman_source_count m = 2%nat ∧ cman_text m = "eightnine".
Proof.
  destruct (@build Demo.external 70 7 60 "1000000" "2000000" Sources.two) as [m|e] eqn:Hm;
    [|by vm_compute in Hm].
  exists m. split; [reflexivity|].
  destruct (@build_sound Demo.external _ _ _ _ _ _ _ Hm) as (_&_&_&_&_&Hc&_). split; [exact Hc|].
  vm_compute in Hm. by injection Hm as <-.
Defined.

Lemma build_order_independent_witness :
  @build Demo.external 70 7 60 "1000000" "2000000" (reverse Sources.two) =
  @build Demo.external 70 7 60 "1000000" "2000000" Sources.two.
Proof.
  destruct (@build Demo.external 70 7 60 "1000000" "2000000" Sources.two) as [m|e] eqn:Hm;
    [|by vm_compute in Hm].
  apply (@build_order_independent Demo.external Demo.laws _ _ _ _ _ Sources.two).
  - symmetry. apply reverse_Permutation.
  - split; [|repeat constructor; simpl; lia]. simpl. repeat constructor; set_solver.
  - exact Hm.
Defined.
