(* ===== verification/Revisions.v ===== *)
(** * Revisions: [src/src/revisions.rs] over [append_revision] of [src/schema.sql]

    Post revisions are immutable observations: an append converges with an equal one, and a
    withdrawal takes the bodies of the messages a provider page proves to be gone. *)

From S2P Require Import Prelude External Store Tx.

Record observed_revision := ObservedRevision {
  obs_channel_id : uuid;
  obs_message_id : Z;
  obs_body : string;
  obs_canonical_link : string;
  obs_published_at : string;
  obs_observed_at : string }.

(** A half-open interval of message ids; [below = None] has no upper limit. *)
Record proved_id_range := ProvedIdRange { lowest : Z; below : option Z }.

Record withdrawn := Withdrawn { wd_revisions : Z; wd_manifests : Z }.

Module RevisionError.
Inductive t := RevisionError.
End RevisionError.

(** ** Statements *)

Definition same_content (channel : uuid) (message : Z) (digest : string) (_ : uuid)
    (r : revision_row) : bool :=
  bool_decide (rev_channel r = channel) && bool_decide (rev_message r = message) &&
  bool_decide (rev_sha256 r = digest).

(** The function [append_revision]: the inserted identity, or the one of the equal observation.
    Every column of an existing row stays, those of a withdrawn one too. *)
Definition append_revision (revision_id channel : uuid) (message : Z) (digest body link : string)
    (published_at observed_at : Z) : stmt uuid := λ _ d,
  if negb (String.length digest =? 64)%nat then Err SqlConstraint
  else match find_where (same_content channel message digest) (revisions d) with
       | Some (existing, _) => Ok (existing, d)
       | None =>
           match revisions d !! revision_id, channels d !! channel with
           | None, Some _ =>
               Ok (revision_id, with_revisions d
                 (<[revision_id := RevisionRow channel message digest (Some body) published_at
                      observed_at link None None]> (revisions d)))
           | _, _ => Err SqlConstraint
           end
       end.

(** The message ids a withdrawal names. *)
Definition withdraws (proved : proved_id_range) (present deleted : list Z) (message : Z) : bool :=
  ((lowest proved <=? message)
   && match below proved with None => true | Some b => message <? b end
   && bool_decide (message ∉ present))
  || bool_decide (message ∈ deleted).

Definition withdraws_revision (channel : uuid) (proved : proved_id_range) (present deleted : list Z)
    (_ : uuid) (r : revision_row) : bool :=
  bool_decide (rev_channel r = channel) && bool_decide (rev_deleted_at r = None)
  && withdraws proved present deleted (rev_message r).

Definition withdraw_row (now : Z) (r : revision_row) : revision_row :=
  RevisionRow (rev_channel r) (rev_message r) (rev_sha256 r) None (rev_published_at r)
    (rev_observed_at r) (rev_link r) (Some now) (Some (default now (rev_minimized_at r))).

(** A manifest that still has its text and holds a named message. *)
Definition withdraws_manifest (channel : uuid) (proved : proved_id_range) (present deleted : list Z)
    (d : db) (manifest_id : uuid) (m : manifest_row) : bool :=
  bool_decide (is_Some (man_text m))
  && existsb (λ s : uuid * uuid * Z,
       bool_decide (s.1.1 = manifest_id) && bool_decide (s.1.2 = channel)
       && withdraws proved present deleted s.2) (elements (manifest_sources d)).

Definition withdraw_manifest_row (now : Z) (m : manifest_row) : manifest_row :=
  ManifestRow (man_run m) (man_owner m) (man_sha256 m) (man_source_count m) (man_channel_count m)
    None (Some now) (man_created_at m).

(** Both updates of one statement read the tables as they were before it. *)
Definition withdraw_statement (channel : uuid) (proved : proved_id_range) (present deleted : list Z)
    : stmt (nat * nat) := λ now d,
  let rp := withdraws_revision channel proved present deleted in
  let mp := withdraws_manifest channel proved present deleted d in
  Ok ((count_where rp (revisions d), count_where mp (manifests d)),
      with_manifests
        (with_revisions d (update_where rp (withdraw_row now) (revisions d)))
        (update_where mp (withdraw_manifest_row now) (manifests d))).

Section Revisions.
Context `{External}.

(** [RevisionRepository::append] *)
Definition append (o : observed_revision) : M RevisionError.t uuid :=
  let digest := sha256_digest_hex (obs_body o) in
  revision_id ← now_v7;
  sql RevisionError.RevisionError
    (with_cast (obs_published_at o) (λ published, with_cast (obs_observed_at o) (λ observed,
       append_revision revision_id (obs_channel_id o) (obs_message_id o) digest (obs_body o)
         (obs_canonical_link o) published observed))).

(** [RevisionRepository::withdraw_missing] *)
Definition withdraw_missing (channel : uuid) (proved : proved_id_range) (present deleted : list Z)
    : M RevisionError.t withdrawn :=
  '(r, m) ← sql RevisionError.RevisionError (withdraw_statement channel proved present deleted);
  mret (Withdrawn (Z.of_nat r) (Z.of_nat m)).
End Revisions.
