(* ===== verification/Provider.v ===== *)
(** * Provider: [src/src/provider.rs], the public-channel capability

    [provider] is the trait [PublicChannelProvider] as a record of operations; what a call answers
    is arbitrary.  [mt_proto] is the production adapter over a Telegram client, whose calls are the
    fields of [telegram_client]. *)

From S2P Require Import Prelude External.

Module ProviderError.
(** [FloodWait] holds a [Duration]; only its whole seconds are read. *)
Inductive t := InvalidChannel | ReauthorizationRequired | Unavailable | FloodWait (seconds : Z).
#[export] Instance eq_dec : EqDecision t.
Proof. solve_decision. Defined.
End ProviderError.
Export (hints) ProviderError.

Definition byte_between (lo hi : N) (c : Ascii.ascii) : bool :=
  ((lo <=? Ascii.N_of_ascii c) && (Ascii.N_of_ascii c <=? hi))%N.

Definition is_ascii_lowercase : Ascii.ascii → bool := byte_between 97 122.
Definition is_ascii_uppercase : Ascii.ascii → bool := byte_between 65 90.
Definition is_ascii_digit : Ascii.ascii → bool := byte_between 48 57.
Definition is_ascii_alphabetic (c : Ascii.ascii) : bool := is_ascii_lowercase c || is_ascii_uppercase c.
Definition is_underscore : Ascii.ascii → bool := byte_between 95 95.

(** [PublicChannelUsername::parse] *)
Definition parse_username (candidate : string) : result ProviderError.t string :=
  let bytes := String.list_ascii_of_string candidate in
  if negb ((5 <=? length bytes)%nat && (length bytes <=? 32)%nat)
     || negb (match head bytes with Some b => is_ascii_alphabetic b | None => false end)
     || existsb (λ b, negb (is_ascii_lowercase b || is_ascii_digit b || is_underscore b)) bytes
  then Err ProviderError.InvalidChannel
  else Ok candidate.

Record provider_post := ProviderPost {
  post_message_id : Z;
  post_body : string;
  post_published_at : string;
  post_deleted : bool }.

Record provider_page := ProviderPage {
  page_posts : list provider_post;
  page_next : option Z }.

(** An awaited call under [tokio::time::timeout]: [None] is the elapsed timeout. *)
Definition timed (A : Type) : Type := option (result ProviderError.t A).

(** The trait.  The calls of one walk are numbered, so two calls with equal arguments may answer
    differently. *)
Record provider := Provider {
  pv_channel : Type;
  pv_resolve : string → timed pv_channel;
  pv_fetch : nat → pv_channel → option Z → nat → timed provider_page }.

(** ** The production adapter *)

(** [InvocationError]: an RPC error with its code and value, or any other failure. *)
Inductive invocation_error := Rpc (code : Z) (value : option Z) | OtherInvocation.

(** [classify_invocation_error] *)
Definition classify_invocation_error (e : invocation_error) : ProviderError.t :=
  match e with
  | Rpc code value =>
      if code =? 420 then
        match value with
        | Some seconds => ProviderError.FloodWait seconds
        | None => ProviderError.Unavailable
        end
      else if code =? 401 then ProviderError.ReauthorizationRequired
      else ProviderError.Unavailable
  | OtherInvocation => ProviderError.Unavailable
  end.

(** A message of the Telegram client: identity, text and RFC 3339 date. *)
Record telegram_message := TelegramMessage { tm_id : Z; tm_text : string; tm_date : string }.

(** [Peer], with what [resolve_public_channel] reads of a channel: the bare identity and the outcome
    of [to_ref]. *)
Inductive telegram_peer (R : Type) :=
| PeerChannel (bare_id : option Z) (title : string) (to_ref : option (option R))
| PeerUser
| PeerGroup.
Arguments PeerChannel {R}.
Arguments PeerUser {R}.
Arguments PeerGroup {R}.

(** The client: [resolve_username], and the messages [iter_messages] with an offset and a limit
    yields before it ends or fails. *)
Record telegram_client := TelegramClient {
  tc_ref : Type;
  tc_resolve : string → result invocation_error (option (telegram_peer tc_ref));
  tc_messages : nat → tc_ref → Z → nat → list telegram_message * option invocation_error }.

Record resolved_public_channel (R : Type) := ResolvedPublicChannel {
  rp_channel_id : Z;
  rp_username : string;
  rp_display_name : string;
  rp_peer_ref : R }.
Arguments ResolvedPublicChannel {R}.
Arguments rp_channel_id {R}.
Arguments rp_username {R}.
Arguments rp_display_name {R}.
Arguments rp_peer_ref {R}.

(** [MtProtoPublicChannelProvider::resolve_public_channel] *)
Definition resolve_public_channel (c : telegram_client) (username : string)
    : result ProviderError.t (resolved_public_channel (tc_ref c)) :=
  found ← map_err classify_invocation_error (tc_resolve c username);
  peer ← ok_or ProviderError.InvalidChannel found;
  match peer with
  | PeerChannel bare_id title to_ref =>
      id ← ok_or ProviderError.InvalidChannel bare_id;
      ref_ ← ok_or ProviderError.Unavailable to_ref;
      ref ← ok_or ProviderError.InvalidChannel ref_;
      Ok (ResolvedPublicChannel id username title ref)
  | PeerUser | PeerGroup => Err ProviderError.InvalidChannel
  end.

(** [i32::try_from] *)
Definition i32_of (n : Z) : option Z :=
  if (- 2 ^ 31 <=? n) && (n <? 2 ^ 31) then Some n else None.

Definition offset_of (before : option Z) : Z := default 0 (before ≫= i32_of).

Definition post_of (m : telegram_message) : provider_post :=
  ProviderPost (tm_id m) (tm_text m) (tm_date m) false.

(** The exclusive cursor: the last identity of a full page. *)
Definition next_cursor (limit : nat) (posts : list provider_post) : option Z :=
  if (length posts =? limit)%nat then post_message_id <$> last posts else None.

(** [MtProtoPublicChannelProvider::fetch_public_posts] *)
Definition fetch_public_posts (c : telegram_client) (call : nat)
    (channel : resolved_public_channel (tc_ref c)) (before : option Z) (limit : nat)
    : result ProviderError.t provider_page :=
  match tc_messages c call (rp_peer_ref channel) (offset_of before) (min limit 100) with
  | (_, Some e) => Err (classify_invocation_error e)
  | (messages, None) =>
      let posts := post_of <$> messages in
      Ok (ProviderPage posts (next_cursor limit posts))
  end.

Definition mt_proto (c : telegram_client) : provider :=
  Provider (resolved_public_channel (tc_ref c))
    (λ username, Some (resolve_public_channel c username))
    (λ call channel before limit, Some (fetch_public_posts c call channel before limit)).

(** ** Connecting *)

Section Connecting.
Context {DcOption PeerInfo PeerId UpdatesState : Type} `{Countable PeerId}.
Context (option_id : DcOption → Z) (peer_id : PeerInfo → PeerId).

Record persisted_session := PersistedSession {
  ps_home_dc : Z;
  ps_dc_options : list DcOption;
  ps_peer_infos : list PeerInfo;
  ps_updates_state : UpdatesState }.

(** [SessionData] of grammers *)
Record session_data := SessionData {
  sd_home_dc : Z;
  sd_dc_options : gmap Z DcOption;
  sd_peer_infos : gmap PeerId PeerInfo;
  sd_updates_state : UpdatesState }.

(** [map(|x| (id(x), x)).collect()] into a [HashMap]: the last entry of an identity stays. *)
Definition collect_by {K A} `{Countable K} (id : A → K) (l : list A) : gmap K A :=
  foldl (λ t x, <[id x := x]> t) ∅ l.

Definition session_data_of (p : persisted_session) : session_data :=
  SessionData (ps_home_dc p) (collect_by option_id (ps_dc_options p))
    (collect_by peer_id (ps_peer_infos p)) (ps_updates_state p).

(** [MtProtoPublicChannelProvider::connect]: the session the client runs on. [decode] is serde's
    decoder, [is_authorized] what the client answers in time, [None] when it fails or does not. *)
Definition connect (decode : string → option persisted_session)
    (is_authorized : Z → session_data → option bool) (api_id : Z) (session : string)
    : result ProviderError.t session_data :=
  persisted ← ok_or ProviderError.ReauthorizationRequired (decode session);
  if negb ((1 <=? ps_home_dc persisted) && (ps_home_dc persisted <=? 5))
  then Err ProviderError.ReauthorizationRequired
  else
    let data := session_data_of persisted in
    authorized ← ok_or ProviderError.Unavailable (is_authorized api_id data);
    if authorized : bool then Ok data else Err ProviderError.ReauthorizationRequired.
End Connecting.
