(* ===== verification/ProviderSpec.v ===== *)
(** * ProviderSpec: which usernames are accepted, and what a page of the production adapter is *)

From S2P Require Import Prelude External Provider.

(** The canonical public username: five to thirty-two of [a-z0-9_], a letter first. *)
Definition canonical_username (bytes : list Ascii.ascii) : Prop :=
  (5 ≤ length bytes ≤ 32)%nat ∧
  (∃ b rest, bytes = b :: rest ∧ is_ascii_lowercase b = true) ∧
  ∀ b, b ∈ bytes → is_ascii_lowercase b = true ∨ is_ascii_digit b = true ∨ is_underscore b = true.

Lemma upper_excluded b :
  is_ascii_alphabetic b = true → is_ascii_lowercase b || is_ascii_digit b || is_underscore b = true →
  is_ascii_lowercase b = true.
Proof.
  rewrite /is_ascii_alphabetic. destruct (is_ascii_lowercase b); [done|]. simpl.
  rewrite /is_ascii_uppercase /is_ascii_digit /is_underscore /byte_between orb_true_iff !andb_true_iff
    !N.leb_le. lia.
Qed.

(** A username is accepted exactly when it is already canonical, and is then kept as it is: five
    to thirty-two lowercase letters, digits and underscores that start with a letter.  An upper-case
    letter, another byte or another length is refused as an invalid channel. *)
Lemma parse_username_exact candidate :
  match parse_username candidate with
  | Ok username => username = candidate ∧
      canonical_username (String.list_ascii_of_string candidate)
  | Err e => e = ProviderError.InvalidChannel ∧
      ¬ canonical_username (String.list_ascii_of_string candidate)
  end.
Proof.
  rewrite /parse_username. set (bytes := String.list_ascii_of_string candidate). clearbody bytes.
  cbv zeta. set (good := λ b, is_ascii_lowercase b || is_ascii_digit b || is_underscore b).
  assert (existsb (λ b, negb (good b)) bytes = false ↔ ∀ b, b ∈ bytes → good b = true) as Hall.
  { rewrite -not_true_iff_false existsb_exists. split.
    - intros Hn b Hb. apply not_false_iff_true. intros Hg. apply Hn. exists b.
      rewrite -list_elem_of_In Hg. done.
    - intros Hg (b&Hb%list_elem_of_In&Hneg). by rewrite (Hg b Hb) in Hneg. }
  assert (∀ c, good c = true ↔ is_ascii_lowercase c = true ∨ is_ascii_digit c = true ∨ is_underscore c = true)
    as Hgood by (intros c; rewrite /good !orb_true_iff; tauto).
  set (long := (5 <=? length bytes)%nat && (length bytes <=? 32)%nat).
  set (first := match head bytes with Some b => is_ascii_alphabetic b | None => false end).
  assert (long = true ↔ 5 ≤ length bytes ≤ 32)%nat as Hlong by by rewrite /long andb_true_iff !Nat.leb_le.
  match goal with |- context [if ?c then Err _ else _] => destruct c eqn:He end;
    change (negb long || negb first || existsb (λ b, negb (good b)) bytes = true) in He ||
    change (negb long || negb first || existsb (λ b, negb (good b)) bytes = false) in He.
  - split; [done|]. intros (Hl&(b&rest&Hb&Hlow)&Hc). apply Hlong in Hl.
    assert (first = true) as Hf by (by rewrite /first Hb /= /is_ascii_alphabetic Hlow).
    rewrite Hl Hf /= in He. assert (true = false); [|done]. rewrite -He. apply Hall.
    intros c Hin. apply Hgood. by apply Hc.
  - rewrite !orb_false_iff !negb_false_iff Hlong Hall in He. destruct He as [[Hl Hf] Hg].
    split; [done|]. split_and!; [lia|lia| |intros c Hin; by apply Hgood, Hg].
    destruct bytes as [|b rest]; [simpl in Hl; lia|]. exists b, rest. split; [done|].
    apply upper_excluded; [done|]. apply Hg. set_solver.
Qed.

(** The production adapter pages without loss and asks to wait only when Telegram does: a page
    holds the yielded messages in their order with their identities, texts and dates, none marked
    deleted; its cursor is the identity of its last message when the page is full and nothing
    otherwise; and a wait is reported exactly for an RPC error 420 that names its seconds. *)
Lemma fetch_public_posts_exact c call channel before limit :
  let '(messages, failure) :=
    tc_messages c call (rp_peer_ref channel) (offset_of before) (Nat.min limit 100) in
  match fetch_public_posts c call channel before limit with
  | Ok page => failure = None ∧
      Forall2 (λ p m, post_message_id p = tm_id m ∧ post_body p = tm_text m ∧
                 post_published_at p = tm_date m ∧ post_deleted p = false) (page_posts page) messages ∧
      (∀ cursor, page_next page = Some cursor ↔
         length messages = limit ∧ ∃ m, last messages = Some m ∧ tm_id m = cursor)
  | Err (ProviderError.FloodWait seconds) => failure = Some (Rpc 420 (Some seconds))
  | Err e => ∃ f, failure = Some f ∧ ¬ (∃ seconds, f = Rpc 420 (Some seconds)) ∧
      (e = ProviderError.ReauthorizationRequired ∨ e = ProviderError.Unavailable) ∧
      (e = ProviderError.ReauthorizationRequired ↔ ∃ value, f = Rpc 401 value)
  end.
Proof.
  rewrite /fetch_public_posts. destruct (tc_messages _ _ _ _ _) as [messages [f|]].
  - destruct f as [code value|]; simpl.
    + destruct (Z.eqb_spec code 420) as [->|H420]; [destruct value as [v|]; [done|]|].
      * eexists. split_and!; naive_solver.
      * destruct (Z.eqb_spec code 401) as [->|H401]; eexists; split_and!; naive_solver.
    + eexists. split_and!; naive_solver.
  - cbn zeta. simpl. split_and!; [done|..].
    + induction messages; constructor; [done|done].
    + intros cursor. rewrite /next_cursor length_fmap. destruct (Nat.eqb_spec (length messages) limit) as [Hl|Hl].
      * rewrite fmap_last. destruct (last messages) as [m|]; simpl; naive_solver.
      * naive_solver.
Qed.

(** An entry of a collected table is the last one of its identity. *)
Lemma lookup_collect_by {K A} `{Countable K} (id : A → K) l k :
  collect_by id l !! k = last (filter (λ x, id x = k) l).
Proof.
  induction l as [|x l IH] using rev_ind; [done|].
  rewrite /collect_by foldl_snoc filter_app filter_cons filter_nil. fold (collect_by id l).
  destruct (decide (id x = k)) as [<-|Hne].
  - by rewrite lookup_insert_eq last_snoc.
  - by rewrite lookup_insert_ne // IH app_nil_r.
Qed.

(** A connection is a session that decodes, names one of the five data centers and is authorized; what
    it runs on keeps the last option and peer of every identity.  Only a client that does not
    answer is unavailable, everything else needs a new authorization. *)
Lemma connect_exact {DcOption PeerInfo PeerId UpdatesState} `{Countable PeerId}
    (option_id : DcOption → Z) (peer_id : PeerInfo → PeerId)
    (decode : string → option (persisted_session (UpdatesState := UpdatesState)))
    is_authorized api_id session :
  match connect option_id peer_id decode is_authorized api_id session with
  | Ok data => ∃ p, decode session = Some p ∧ 1 ≤ ps_home_dc p ≤ 5 ∧
      is_authorized api_id data = Some true ∧
      sd_home_dc data = ps_home_dc p ∧ sd_updates_state data = ps_updates_state p ∧
      (∀ k, sd_dc_options data !! k = last (filter (λ o, option_id o = k) (ps_dc_options p))) ∧
      (∀ k, sd_peer_infos data !! k = last (filter (λ i, peer_id i = k) (ps_peer_infos p)))
  | Err ProviderError.Unavailable => ∃ p, decode session = Some p ∧ 1 ≤ ps_home_dc p ≤ 5 ∧
      is_authorized api_id (session_data_of option_id peer_id p) = None
  | Err ProviderError.ReauthorizationRequired => ∀ p, decode session = Some p → 1 ≤ ps_home_dc p ≤ 5 →
      is_authorized api_id (session_data_of option_id peer_id p) = Some false
  | Err _ => False
  end.
Proof.
  rewrite /connect. destruct (decode session) as [p|]; simpl; [|done].
  destruct (negb _) eqn:Hdc; simpl.
  { intros ? [= <-] [?%Z.leb_le ?%Z.leb_le]. destruct (1 <=? _), (_ <=? 5); done. }
  apply negb_false_iff, andb_true_iff in Hdc as [?%Z.leb_le ?%Z.leb_le].
  destruct (is_authorized _ _) as [[]|] eqn:Hauth; simpl.
  - exists p. split_and!; try done; intros k; apply lookup_collect_by.
  - by intros ? [= <-] _.
  - by exists p.
Qed.
