(* ===== verification/Acquisition.v ===== *)
(** * Acquisition: [src/src/acquisition.rs], the bounded restart-safe walk over one channel *)

From S2P Require Import Prelude Text External Store Tx Revisions Provider.

Record acquisition_request := AcquisitionRequest {
  aq_run : uuid;
  aq_channel : uuid;
  aq_username : string;
  aq_window_start : string;
  aq_window_end : string;
  aq_max_pages : nat;
  aq_page_size : nat }.

Record acquisition_report := AcquisitionReport {
  ar_pages : nat;
  ar_revisions : nat;
  ar_partial : bool }.

Module AcquisitionError.
Inductive t := Unavailable | Deferred.
#[export] Instance eq_dec : EqDecision t.
Proof. solve_decision. Defined.
End AcquisitionError.
Export (hints) AcquisitionError.

Definition MAX_BODY : nat := 16384.
Definition I64_MIN : Z := - 2 ^ 63.
Definition second : Z := 1000000.

(** [proved_range] *)
Definition proved_range (page : provider_page) (requested_before : option Z)
    : option proved_id_range :=
  match page_next page with
  | None => Some (ProvedIdRange I64_MIN requested_before)
  | Some _ =>
      match post_message_id <$> page_posts page with
      | [] => None
      | id :: ids => Some (ProvedIdRange (foldr Z.min id ids) requested_before)
      end
  end.

(** [usize::try_from] and [i64::try_from] *)
Definition usize_of (n : Z) : option nat := if 0 <=? n then Some (Z.to_nat n) else None.
Definition i64_of_nat (n : nat) : option Z :=
  if Z.of_nat n <? 2 ^ 63 then Some (Z.of_nat n) else None.

(** The wait of a checkpoint: the provider's, between one second and one hour, else five minutes. *)
Definition lease_seconds (retry_after : option Z) : Z :=
  match retry_after with
  | Some wait => Z.max 1 (Z.min 3600 wait)
  | None => 300
  end.

(** Where a walk stands. *)
Record position := Position { at_before : option Z; at_pages : nat; at_revisions : nat }.

(** How the page loop ends: with a report of its own, or at its exit. *)
Inductive walked := Returned (r : acquisition_report) | LoopLeft (p : position).

(** One page more leaves fewer to read; and finitely many are left, computably so. *)
Lemma fewer_left {pages max : nat} : (pages < max)%nat → (max - S pages < max - pages)%nat.
Proof. lia. Qed.

Definition finitely_left : well_founded lt := Acc_intro_generator 12 lt_wf.

Section Acquisition.
Context `{External}.

Definition Unavailable : AcquisitionError.t := AcquisitionError.Unavailable.
Definition Deferred : AcquisitionError.t := AcquisitionError.Deferred.

(** [acquisition_kind] *)
Definition acquisition_kind (channel : uuid) : string := ("acquisition:" +:+ uuid_text channel)%string.

Definition lease_key (q : acquisition_request) : string * uuid :=
  (acquisition_kind (aq_channel q), aq_run q).

(** [AcquisitionEngine::checkpoint] *)
Definition checkpoint_lease (q : acquisition_request) (p : position) (state : string)
    (retry_after : option Z) : M AcquisitionError.t unit :=
  holder ← now_v7;
  pages ← lift (ok_or Unavailable (i64_of_nat (at_pages p)));
  revisions ← lift (ok_or Unavailable (i64_of_nat (at_revisions p)));
  sql Unavailable (λ now d,
    Ok (tt, with_leases d (<[lease_key q :=
      LeaseRow holder now (now + lease_seconds retry_after * second)
        (Some (Checkpoint (at_before p) pages revisions state))]> (leases d)))).

(** [AcquisitionEngine::resume] *)
Definition resume (q : acquisition_request) : M AcquisitionError.t position :=
  stored ← sql Unavailable (λ now d, Ok ((λ l, (l, now <? lease_expires_at l)) <$> leases d !! lease_key q, d));
  match stored with
  | None => mret (Position None 0 0)
  | Some (l, wait_active) =>
      let state := ck_state <$> lease_checkpoint l in
      if bool_decide (state = Some "flood_wait") && wait_active then fail Deferred
      else
        pages ← lift (ok_or Unavailable (usize_of (from_option ck_pages 0 (lease_checkpoint l))));
        revisions ← lift (ok_or Unavailable (usize_of (from_option ck_revisions 0 (lease_checkpoint l))));
        if bool_decide (state = Some "completed")
        then mret (Position None (aq_max_pages q) revisions)
        else mret (Position (lease_checkpoint l ≫= ck_before) pages revisions)
  end.

(** [parse_window], in nanoseconds *)
Definition parse_window (q : acquisition_request) : result AcquisitionError.t (Z * Z) :=
  start ← ok_or Unavailable (jiff_parse (aq_window_start q));
  end_ ← ok_or Unavailable (jiff_parse (aq_window_end q));
  Ok (start, end_).

(** [AcquisitionEngine::resolve] *)
Definition resolve (pv : provider) (q : acquisition_request) (username : string) (p : position)
    : M AcquisitionError.t (pv_channel pv) :=
  match pv_resolve pv username with
  | Some (Ok channel) => mret channel
  | Some (Err (ProviderError.FloodWait wait)) =>
      _ ← checkpoint_lease q p "flood_wait" (Some wait);
      fail Deferred
  | Some (Err _) | None => fail Unavailable
  end.

(** The observation [store_page] appends for one post. *)
Definition observation (q : acquisition_request) (username : string) (post : provider_post)
    : observed_revision :=
  ObservedRevision (aq_channel q) (post_message_id post) (post_body post)
    ("https://t.me/" +:+ (username +:+ ("/" +:+ int_text (post_message_id post))))%string
    (post_published_at post) (aq_window_end q).

(** The posts [store_page] skips before it reads their instant. *)
Definition skipped (post : provider_post) : bool :=
  post_deleted post || (String.length (post_body post) =? 0)%nat
  || (MAX_BODY <? String.length (post_body post))%nat.

(** [AcquisitionEngine::store_page]: appended count, whether the window start was reached, and the
    set of seen observations. *)
Fixpoint store_page (q : acquisition_request) (username : string) (window : Z * Z)
    (posts : list provider_post) (stored : nat) (reached : bool) (seen : gset (Z * string))
    : M AcquisitionError.t (nat * bool * gset (Z * string)) :=
  match posts with
  | [] => mret (stored, reached, seen)
  | post :: posts' =>
      if skipped post then store_page q username window posts' stored reached seen
      else
        published ← lift (ok_or Unavailable (jiff_parse (post_published_at post)));
        if published <? window.1 then store_page q username window posts' stored true seen
        else if window.2 <=? published then store_page q username window posts' stored reached seen
        else
          let entry := (post_message_id post, sha256_digest_hex (post_body post)) in
          if bool_decide (entry ∈ seen) then store_page q username window posts' stored reached seen
          else
            _ ← on_err (λ _, Unavailable) (append (observation q username post));
            store_page q username window posts' (S stored) reached ({[entry]} ∪ seen)
  end.

Definition deleted_ids (page : provider_page) : list Z :=
  post_message_id <$> filter (λ post, post_deleted post = true) (page_posts page).

Definition present_ids (page : provider_page) : list Z :=
  post_message_id <$> filter (λ post, post_deleted post = false) (page_posts page).

(** [AcquisitionEngine::withdraw_absent] *)
Definition withdraw_absent (channel : uuid) (requested_before : option Z) (page : provider_page)
    : M AcquisitionError.t unit :=
  match proved_range page requested_before with
  | None => mret tt
  | Some proved =>
      gone ← on_err (λ _, Unavailable)
               (withdraw_missing channel proved (present_ids page) (deleted_ids page));
      if 0 <? wd_manifests gone then add_manifests (wd_manifests gone) else mret tt
  end.

(** One fetched page: stored, withdrawn from, and checkpointed; [pages += 1] is in the position the
    checkpoint records.  The walk's next cursor, revision count and seen observations. *)
Definition take_page (q : acquisition_request) (username : string) (window : Z * Z) (p : position)
    (seen : gset (Z * string)) (page : provider_page)
    : M AcquisitionError.t (option Z * nat * gset (Z * string)) :=
  '(stored, reached, seen) ← store_page q username window (page_posts page) 0 false seen;
  _ ← withdraw_absent (aq_channel q) (at_before p) page;
  let before := if reached : bool then None else page_next page in
  let revisions := (at_revisions p + stored)%nat in
  _ ← checkpoint_lease q (Position before (S (at_pages p)) revisions) "page_committed" None;
  mret (before, revisions, seen).

(** The body of the loop; [again] is the next iteration. *)
Definition page_body (pv : provider) (q : acquisition_request) (username : string)
    (channel : pv_channel pv) (window : Z * Z) (p : position) (seen : gset (Z * string))
    (again : option Z → nat → gset (Z * string) → M AcquisitionError.t walked)
    : M AcquisitionError.t walked :=
  match pv_fetch pv (at_pages p) channel (at_before p) (min (aq_page_size q) 100) with
  | Some (Ok page) =>
      '(before, revisions, seen) ← take_page q username window p seen page;
      match before with
      | None => mret (LoopLeft (Position None (S (at_pages p)) revisions))
      | Some _ => again before revisions seen
      end
  | Some (Err (ProviderError.FloodWait wait)) =>
      _ ← checkpoint_lease q p "flood_wait" (Some wait);
      fail Deferred
  | Some (Err _) | None =>
      if (0 <? at_pages p)%nat then
        _ ← checkpoint_lease q p "provider_unavailable" None;
        mret (Returned (AcquisitionReport (at_pages p) (at_revisions p) true))
      else fail Unavailable
  end.

(** The loop [while pages < request.max_pages].  It has no fuel: it recurs on the pages left to read,
    and the condition of the loop is what makes them fewer. *)
Fixpoint page_loop (pv : provider) (q : acquisition_request) (username : string)
    (channel : pv_channel pv) (window : Z * Z) (p : position) (seen : gset (Z * string))
    (left_ : Acc lt (aq_max_pages q - at_pages p)%nat) {struct left_} : M AcquisitionError.t walked :=
  match decide (at_pages p < aq_max_pages q)%nat with
  | right _ => mret (LoopLeft p)
  | left Hlt =>
      page_body pv q username channel window p seen (λ before revisions seen,
        page_loop pv q username channel window (Position before (S (at_pages p)) revisions) seen
          (Acc_inv left_ (fewer_left Hlt)))
  end.

(** The end of [execute] after its loop. *)
Definition close_walk (q : acquisition_request) (p : position)
    : M AcquisitionError.t acquisition_report :=
  let partial := bool_decide (is_Some (at_before p)) in
  _ ← checkpoint_lease q p (if partial then "page_limit" else "completed") None;
  mret (AcquisitionReport (at_pages p) (at_revisions p) partial).

(** [AcquisitionEngine::execute] *)
Definition execute (pv : provider) (q : acquisition_request)
    : M AcquisitionError.t acquisition_report :=
  p ← resume q;
  username ← lift (map_err (λ _, Unavailable) (parse_username (aq_username q)));
  channel ← resolve pv q username p;
  window ← lift (parse_window q);
  w ← page_loop pv q username channel window p ∅ (finitely_left _);
  match w with
  | Returned r => mret r
  | LoopLeft p' => close_walk q p'
  end.

(** What holds of every iteration holds of the loop. *)
Lemma page_loop_ind pv (q : acquisition_request) (username : string) (channel : pv_channel pv) (window : Z * Z)
    (P : position → gset (Z * string) → M AcquisitionError.t walked → Prop) :
  (∀ p seen, (aq_max_pages q ≤ at_pages p)%nat → P p seen (mret (LoopLeft p))) →
  (∀ p seen again, (at_pages p < aq_max_pages q)%nat →
     (∀ before revisions seen', P (Position before (S (at_pages p)) revisions) seen' (again before revisions seen')) →
     P p seen (page_body pv q username channel window p seen again)) →
  ∀ p seen left_, P p seen (page_loop pv q username channel window p seen left_).
Proof.
  intros Hexit Hbody. assert (∀ n p seen left_, (aq_max_pages q - at_pages p)%nat = n →
    P p seen (page_loop pv q username channel window p seen left_)) as Hall; [|by eauto].
  induction n as [n IH] using lt_wf_ind. intros p seen [f] Hn. simpl.
  destruct (decide (at_pages p < aq_max_pages q)%nat) as [Hlt|Hge]; [|apply Hexit; lia].
  apply Hbody; [done|]. intros before revisions seen'. eapply IH; [|reflexivity]. simpl. lia.
Qed.
End Acquisition.
