(* ===== verification/AcquisitionSpec.v ===== *)
(** * AcquisitionSpec: what the appends, the withdrawals and the walk over one channel do *)

From S2P Require Import Prelude Text External Store Tx Demo Revisions Provider Acquisition.

Section AcquisitionSpec.
Context `{External}.

(** ** Observations *)

Lemma append_inv o w res w' :
  append o w = (res, w') →
  (∃ id published observed, res = Ok id ∧
     pg_timestamptz (obs_published_at o) = Some published ∧
     pg_timestamptz (obs_observed_at o) = Some observed ∧
     append_revision (w_uuids w (w_drawn w)) (obs_channel_id o) (obs_message_id o)
       (sha256_digest_hex (obs_body o)) (obs_body o) (obs_canonical_link o) published observed
       (w_now w) (w_db w) = Ok (id, w_db w')) ∨
  (w_db w' = w_db w ∧ res = Err RevisionError.RevisionError).
Proof.
  assert (∀ e, e = RevisionError.RevisionError) as Hone by by intros [].
  rewrite /append bind_now_v7. destruct res as [id|e].
  - intros [Ha _]%sql_inv. left. apply with_cast_Ok in Ha as (published&Hp&Ha).
    apply with_cast_Ok in Ha as (observed&Ho&Ha). by exists id, published, observed.
  - intros [-> _]%sql_Err_db. right. by rewrite (Hone e).
Qed.

(** The observation is stored under the identity. *)
Definition observed (o : observed_revision) (id : uuid) (d : db) : Prop :=
  ∃ r, revisions d !! id = Some r ∧ rev_channel r = obs_channel_id o ∧
    rev_message r = obs_message_id o ∧ rev_sha256 r = sha256_digest_hex (obs_body o).

Lemma same_content_true channel message digest k r :
  same_content channel message digest k r = true ↔
    rev_channel r = channel ∧ rev_message r = message ∧ rev_sha256 r = digest.
Proof. rewrite /same_content !andb_true_iff !bool_decide_eq_true. tauto. Qed.

Lemma append_effect o w :
  let '(res, w') := append o w in
  match res with
  | Err _ => w_db w' = w_db w
  | Ok id => observed o id (w_db w') ∧
      ((w_db w' = w_db w ∧ observed o id (w_db w)) ∨
       ((∀ k, ¬ observed o k (w_db w)) ∧ revisions (w_db w) !! id = None ∧
        is_Some (channels (w_db w) !! obs_channel_id o) ∧
        ∃ r, rev_body r = Some (obs_body o) ∧ rev_deleted_at r = None ∧
          rev_link r = obs_canonical_link o ∧
          w_db w' = with_revisions (w_db w) (<[id := r]> (revisions (w_db w)))))
  end.
Proof.
  destruct (append o w) as [res w'] eqn:Hw.
  apply append_inv in Hw as [(id&published&at_&->&_&_&Ha)|[Hd ->]]; [|done].
  rewrite /append_revision in Ha. destruct (negb _); [done|].
  destruct (find_where _ _) as [[existing r]|] eqn:Hf.
  - apply find_where_Some in Hf as [Hk (?&?&?)%same_content_true]. injection Ha as <- <-.
    assert (observed o existing (w_db w)) by by exists r. auto.
  - destruct (revisions (w_db w) !! _) eqn:Hn, (channels (w_db w) !! _) eqn:Hc; try done.
    injection Ha as <- <-. split.
    + eexists. by rewrite /= lookup_insert_eq.
    + right. split_and!; [|done|by eexists|eexists; by split_and!; [..|reflexivity]].
      intros k (r&Hr&Hs). apply (same_content_true _ _ _ k) in Hs.
      eapply find_where_None in Hf; [|exact Hr]. congruence.
Qed.

Lemma append_again o id w :
  observed o id (w_db w) → is_Some (pg_timestamptz (obs_published_at o)) →
  is_Some (pg_timestamptz (obs_observed_at o)) → String.length (sha256_digest_hex (obs_body o)) = 64%nat →
  calm w → ∃ id', append o w = (Ok id', drawn w) ∧ observed o id' (w_db w).
Proof.
  intros (r&Hr&Hs) [p Hp] [a Ha] Hl Hcalm.
  rewrite /append bind_now_v7 sql_calm /=; [|done].
  rewrite /with_cast /cast_timestamptz Hp Ha /append_revision Hl /=.
  destruct (find_where _ _) as [[k r']|] eqn:Hf.
  - apply find_where_Some in Hf as [Hk (?&?&?)%same_content_true]. exists k. split; [by destruct w|by exists r'].
  - apply (same_content_true _ _ _ id) in Hs. eapply find_where_None in Hf; [|exact Hr]. congruence.
Qed.

(** A repeated observation converges: appending the same post again, later and under another
    fresh identity, succeeds with a stored identity and leaves the database as it is. *)
Lemma append_converges o id w w1 w2 :
  append o w = (Ok id, w1) → w_db w2 = w_db w1 → calm w2 →
  ∃ id', append o w2 = (Ok id', drawn w2) ∧ observed o id' (w_db w2).
Proof.
  intros Hw Hdb Hc. pose proof (append_effect o w) as Hx. rewrite Hw in Hx. destruct Hx as [Hobs _].
  apply append_inv in Hw as [(id0&p&a&_&Hp&Ha&Hr)|[_ ?]]; [|done].
  eapply append_again; [by rewrite Hdb|by eexists..| |done].
  rewrite /append_revision in Hr. destruct (_ =? 64)%nat eqn:Hl; [by apply Nat.eqb_eq|done].
Qed.

(** ** Withdrawals *)

(** The posts a withdrawal names: absent from the proved range, or marked as deleted. *)
Definition gone (proved : proved_id_range) (present deleted : list Z) (message : Z) : Prop :=
  (lowest proved ≤ message ∧ (∀ b, below proved = Some b → message < b) ∧ message ∉ present) ∨
  message ∈ deleted.

Lemma withdraws_true proved present deleted message :
  withdraws proved present deleted message = true ↔ gone proved present deleted message.
Proof.
  rewrite /withdraws /gone orb_true_iff !andb_true_iff !bool_decide_eq_true Z.leb_le.
  destruct (below proved) as [b|].
  - rewrite Z.ltb_lt. naive_solver.
  - naive_solver.
Qed.

Lemma withdraws_revision_true channel proved present deleted k r :
  withdraws_revision channel proved present deleted k r = true ↔
    rev_channel r = channel ∧ rev_deleted_at r = None ∧ gone proved present deleted (rev_message r).
Proof. rewrite /withdraws_revision !andb_true_iff !bool_decide_eq_true withdraws_true. tauto. Qed.

(** The manifest holds a post the withdrawal names. *)
Definition holds_gone (channel : uuid) (proved : proved_id_range) (present deleted : list Z) (d : db)
    (manifest_id : uuid) : Prop :=
  ∃ message, (manifest_id, channel, message) ∈ manifest_sources d ∧ gone proved present deleted message.

Lemma withdraws_manifest_true channel proved present deleted d k m :
  withdraws_manifest channel proved present deleted d k m = true ↔
    is_Some (man_text m) ∧ holds_gone channel proved present deleted d k.
Proof.
  rewrite /withdraws_manifest andb_true_iff bool_decide_eq_true /holds_gone. f_equiv.
  rewrite existsb_exists. split.
  - intros ([[k' c] message]&Hin&Hb). rewrite !andb_true_iff !bool_decide_eq_true withdraws_true /= in Hb.
    destruct Hb as [[-> ->] ?]. exists message. split; [|done]. by apply elem_of_elements, list_elem_of_In.
  - intros (message&Hin&?). exists (k, channel, message). split; [by apply list_elem_of_In, elem_of_elements|].
    rewrite !andb_true_iff !bool_decide_eq_true withdraws_true. done.
Qed.

Lemma withdraw_missing_inv channel proved present deleted w res w' :
  withdraw_missing channel proved present deleted w = (res, w') →
  (∃ r m, res = Ok (Withdrawn (Z.of_nat r) (Z.of_nat m)) ∧
     withdraw_statement channel proved present deleted (w_now w) (w_db w) = Ok ((r, m), w_db w')) ∨
  (w_db w' = w_db w ∧ res = Err RevisionError.RevisionError).
Proof.
  assert (∀ e, e = RevisionError.RevisionError) as Hone by by intros [].
  rewrite /withdraw_missing. intros [([r m]&w1&[Hs _]%sql_inv&[-> ->]%ret_eq)|(e&Hs&->)]%bind_inv.
  - left. by exists r, m.
  - apply sql_Err_db in Hs as [-> _]. right. by rewrite (Hone e).
Qed.

Lemma nothing_left {V} (p : uuid → V → bool) (f : V → V) (t : gmap uuid V) :
  (∀ k v, t !! k = Some v → p k v = false) → count_where p t = 0%nat ∧ update_where p f t = t.
Proof.
  intros Hp. split; [|by apply update_where_none].
  destruct (decide (count_where p t = 0%nat)) as [?|Hc]; [done|].
  apply count_where_pos in Hc as (k&v&Hk&Ht). by rewrite (Hp k v Hk) in Ht.
Qed.

(** C16: A withdrawal removes exactly what the page proved to be gone: afterwards every post of the
    channel that is absent from the proved id range, or marked deleted, records its deletion and has
    lost its body if it was not deleted before, every manifest that holds such a post has no text,
    all other posts and manifests are as they were, and repeating the withdrawal finds nothing left
    to do; a failed call changes nothing. *)
Theorem withdraw_missing_exact channel proved present deleted w :
  let '(res, w') := withdraw_missing channel proved present deleted w in
  let d := w_db w in let d' := w_db w' in
  match res with
  | Err _ => d' = d
  | Ok wd =>
      (∀ k r, revisions d !! k = Some r → ∃ r', revisions d' !! k = Some r' ∧
         (rev_channel r = channel ∧ gone proved present deleted (rev_message r) →
            is_Some (rev_deleted_at r') ∧ (rev_deleted_at r = None → rev_body r' = None)) ∧
         (¬ (rev_channel r = channel ∧ gone proved present deleted (rev_message r)) → r' = r)) ∧
      (∀ k m, manifests d !! k = Some m → ∃ m', manifests d' !! k = Some m' ∧
         (holds_gone channel proved present deleted d k → man_text m' = None) ∧
         (¬ holds_gone channel proved present deleted d k → m' = m)) ∧
      (∀ now, withdraw_statement channel proved present deleted now d' = Ok ((0%nat, 0%nat), d'))
  end.
Proof.
  destruct (withdraw_missing _ _ _ _ w) as [res w'] eqn:Hw. cbn zeta.
  apply withdraw_missing_inv in Hw as [(n&m&->&Hs)|[Hd ->]]; [|done].
  rewrite /withdraw_statement in Hs. injection Hs as _ _ Hd. 
  set (d := w_db w) in *. set (d' := w_db w') in *. clearbody d d'.
  assert (revisions d' = update_where (withdraws_revision channel proved present deleted)
            (withdraw_row (w_now w)) (revisions d)) as Hrev by by rewrite -Hd.
  assert (manifests d' = update_where (withdraws_manifest channel proved present deleted d)
            (withdraw_manifest_row (w_now w)) (manifests d)) as Hman by by rewrite -Hd.
  split_and!.
  - intros k r Hk. rewrite Hrev lookup_update_where Hk /=. eexists. split; [done|]. split.
    + intros [Hc Hg]. case_match eqn:Hp; [by split; [eexists|]|].
      destruct (rev_deleted_at r) eqn:Hdel; [by split; [eexists|]|].
      by rewrite (proj2 (withdraws_revision_true _ _ _ _ _ _)) in Hp.
    + intros Hn. case_match eqn:Hp; [|done]. apply withdraws_revision_true in Hp. tauto.
  - intros k x Hk. rewrite Hman lookup_update_where Hk /=. eexists. split; [done|]. split.
    + intros Hg. case_match eqn:Hp; [done|]. destruct (man_text x) eqn:Ht; [|done].
      by rewrite (proj2 (withdraws_manifest_true _ _ _ _ _ _ _)) in Hp; [|rewrite Ht; split; [eexists|]].
    + intros Hn. case_match eqn:Hp; [|done]. apply withdraws_manifest_true in Hp. tauto.
  - intros now. rewrite /withdraw_statement.
    destruct (nothing_left (withdraws_revision channel proved present deleted) (withdraw_row now)
      (revisions d')) as [-> ->].
    { intros k r'. rewrite Hrev. intros (r&Hk&->)%lookup_update_where_Some.
      apply not_true_iff_false. intros (Hc&Hdel&Hg)%withdraws_revision_true.
      destruct (withdraws_revision channel proved present deleted k r) eqn:Hp; [done|].
      by rewrite (proj2 (withdraws_revision_true _ _ _ _ _ _)) in Hp. }
    destruct (nothing_left (withdraws_manifest channel proved present deleted d')
      (withdraw_manifest_row now) (manifests d')) as [-> ->]; [|by destruct d'].
    intros k x'. rewrite Hman. intros (x&Hk&->)%lookup_update_where_Some.
    apply not_true_iff_false. intros [Ht Hg]%withdraws_manifest_true.
    assert (holds_gone channel proved present deleted d k) as Hg' by by rewrite -Hd in Hg.
    destruct (withdraws_manifest channel proved present deleted d k x) eqn:Hp; [by destruct Ht|].
    by rewrite (proj2 (withdraws_manifest_true _ _ _ _ _ _ _)) in Hp.
Qed.

(** ** The walk over one channel *)

(** The lease of the request holds this checkpoint, for this long. *)
Definition checkpointed (q : acquisition_request) (p : position) (state : string)
    (retry_after : option Z) (now : Z) (d : db) : Prop :=
  ∃ holder, leases d !! lease_key q =
    Some (LeaseRow holder now (now + lease_seconds retry_after * second)
      (Some (Checkpoint (at_before p) (Z.of_nat (at_pages p)) (Z.of_nat (at_revisions p)) state))).

Lemma i64_of_nat_Some n z : i64_of_nat n = Some z → z = Z.of_nat n.
Proof. rewrite /i64_of_nat. case_match; intros; by simplify_eq. Qed.

Lemma checkpoint_lease_exact q p state retry_after w u w' :
  checkpoint_lease q p state retry_after w = (Ok u, w') →
  w_now w' = w_now w ∧ ∃ holder, w_db w' = with_leases (w_db w) (<[lease_key q :=
    LeaseRow holder (w_now w) (w_now w + lease_seconds retry_after * second)
      (Some (Checkpoint (at_before p) (Z.of_nat (at_pages p)) (Z.of_nat (at_revisions p)) state))]> (leases (w_db w))).
Proof.
  rewrite /checkpoint_lease. intros Hw. step Hw as holder w1 (Hd1&Hn1&_)%now_v7_inv.
  step Hw as pages w2 [Hp%ok_or_Ok%i64_of_nat_Some ->]%lift_inv.
  step Hw as revs w2 [Hr%ok_or_Ok%i64_of_nat_Some ->]%lift_inv. apply sql_inv in Hw as [Hs Hn].
  injection Hs as _ Hs. split; [congruence|]. exists holder. by rewrite -Hs Hd1 Hn1 Hp Hr.
Qed.

Lemma checkpoint_lease_inv q p state retry_after w u w' :
  checkpoint_lease q p state retry_after w = (Ok u, w') →
  w_now w' = w_now w ∧ checkpointed q p state retry_after (w_now w) (w_db w').
Proof.
  intros [Hn [holder Hd]]%checkpoint_lease_exact. split; [done|]. exists holder.
  by rewrite Hd /= lookup_insert_eq.
Qed.

Lemma timeless_checkpoint q p state retry_after : timeless (checkpoint_lease q p state retry_after).
Proof. rewrite /checkpoint_lease. still. Qed.
#[local] Hint Resolve timeless_checkpoint : timeless.

Lemma timeless_store_page q u win posts stored reached seen :
  timeless (store_page q u win posts stored reached seen).
Proof.
  revert stored reached seen. induction posts; intros; simpl; [still|].
  repeat (case_match; [by auto|]). apply timeless_bind; [still|]. intros published.
  repeat (case_match; [by auto|]). apply timeless_bind; [rewrite /append; still|auto].
Qed.

Lemma timeless_add_manifests {E} n : timeless (add_manifests n : M E unit).
Proof. intros w r w'. rewrite /add_manifests. intros; by simplify_eq. Qed.

Lemma timeless_take_page q u win p seen page : timeless (take_page q u win p seen page).
Proof.
  rewrite /take_page /withdraw_absent /withdraw_missing. pose proof timeless_store_page.
  pose proof @timeless_add_manifests. still; auto.
Qed.

(** Storing and withdrawing only fail as unavailable. *)
Definition fails_only {E A} (e : E) (m : M E A) : Prop := ∀ w e' w', m w = (Err e', w') → e' = e.

Lemma fails_only_ret {E A} (e : E) (a : A) : fails_only e (mret a).
Proof. by intros w e' w' [? _]%ret_eq. Qed.

Lemma fails_only_lift {E A} (e : E) (o : option A) : fails_only e (lift (ok_or e o)).
Proof. intros w e' w'. rewrite /lift. destruct o; simpl; intros; by simplify_eq. Qed.

Lemma fails_only_now_v7 {E} (e : E) : fails_only e now_v7.
Proof. intros w e' w'. rewrite /now_v7. intros; by simplify_eq. Qed.

Lemma fails_only_sql {E A} (e : E) (s : stmt A) : fails_only e (sql e s).
Proof. by intros w e' w' [_ ?]%sql_Err_db. Qed.

Lemma fails_only_add_manifests {E} (e : E) n : fails_only e (add_manifests n).
Proof. intros w e' w'. rewrite /add_manifests. intros; by simplify_eq. Qed.

Lemma fails_only_on_err {E F A} (e : E) (m : M F A) : fails_only e (on_err (λ _, e) m).
Proof. intros w e' w'. rewrite /on_err. destruct (m w) as [[]]; intros; by simplify_eq. Qed.

Lemma fails_only_bind {E A B} (e : E) (m : M E A) (k : A → M E B) :
  fails_only e m → (∀ a, fails_only e (k a)) → fails_only e (m ≫= k).
Proof.
  intros Hm Hk w e' w' [(a&w1&_&Hw)|(e1&Hw&[= ->])]%bind_inv; [by eapply Hk|by eapply Hm].
Qed.

Ltac fails := repeat first
  [ progress intros | apply fails_only_ret | apply fails_only_lift | apply fails_only_now_v7
  | apply fails_only_sql | apply fails_only_add_manifests | apply fails_only_on_err
  | apply fails_only_bind | solve [auto] | case_match ].

Lemma checkpoint_fails q p state wait : fails_only Unavailable (checkpoint_lease q p state wait).
Proof. rewrite /checkpoint_lease. fails. Qed.

Lemma take_page_fails q u win p seen page : fails_only Unavailable (take_page q u win p seen page).
Proof.
  pose proof checkpoint_fails.
  assert (∀ posts stored reached seen,
    fails_only Unavailable (store_page q u win posts stored reached seen)).
  { induction posts; intros; simpl; fails. }
  rewrite /take_page /withdraw_absent. fails.
Qed.

(** The pages a walk at this position may end with. *)
Definition paged (q : acquisition_request) (p : position) (pages : nat) : Prop :=
  (at_pages p ≤ pages ≤ Nat.max (aq_max_pages q) (at_pages p))%nat.

(** How the loop ends from a position. *)
Definition loop_ends (q : acquisition_request) (p : position) (now : Z)
    (r : result AcquisitionError.t walked) (d : db) : Prop :=
  match r with
  | Ok (LoopLeft p') => paged q p (at_pages p')
  | Ok (Returned report) => paged q p (ar_pages report) ∧ ar_partial report = true ∧
      ∃ p', at_pages p' = ar_pages report ∧ at_revisions p' = ar_revisions report ∧
        checkpointed q p' "provider_unavailable" None now d
  | Err AcquisitionError.Deferred => ∃ p' wait, checkpointed q p' "flood_wait" (Some wait) now d
  | Err AcquisitionError.Unavailable => True
  end.

(** A page that could not be fetched. *)
Lemma page_failure_inv q p w r w' :
  (if (0 <? at_pages p)%nat
   then _ ← checkpoint_lease q p "provider_unavailable" None;
        mret (Returned (AcquisitionReport (at_pages p) (at_revisions p) true))
   else fail Unavailable) w = (r, w') →
  w_now w' = w_now w ∧ loop_ends q p (w_now w) r (w_db w').
Proof.
  destruct (0 <? at_pages p)%nat; [|by intros [-> ->]%fail_eq].
  intros [(u&w1&[Hn Hc]%checkpoint_lease_inv&[-> ->]%ret_eq)|(e&Ht&->)]%bind_inv.
  - split; [done|]. split_and!; [rewrite /paged /=; lia|done|by exists p].
  - split; [by eapply timeless_checkpoint|]. by apply checkpoint_fails in Ht as ->.
Qed.

Lemma page_loop_inv pv q username channel window p seen left_ w r w' :
  page_loop pv q username channel window p seen left_ w = (r, w') →
  w_now w' = w_now w ∧ loop_ends q p (w_now w) r (w_db w').
Proof.
  revert w r w'.
  apply (page_loop_ind pv q username channel window (λ p _ m, ∀ w r w', m w = (r, w') →
    w_now w' = w_now w ∧ loop_ends q p (w_now w) r (w_db w'))); clear p seen left_.
  { intros p seen Hge w r w' [-> ->]%ret_eq. split; [done|]. rewrite /= /paged. lia. }
  intros p seen again Hlt Hagain w r w'. rewrite /page_body.
  destruct (pv_fetch _ _ _ _ _) as [[page|[| | |wait]]|]; try apply page_failure_inv.
  - intros [([[before revisions] seen1]&w1&Ht&Hw)|(e&Ht&->)]%bind_inv;
      pose proof (timeless_take_page _ _ _ _ _ _ _ _ _ Ht) as Hn1;
      [|split; [done|]; by apply take_page_fails in Ht as ->].
    destruct before as [b|].
    + apply Hagain in Hw as [Hn Hr]. rewrite Hn1 in Hn, Hr. split; [done|].
      destruct r as [[report|p']|[]]; rewrite /loop_ends /paged /= in Hr |- *; try done; [|lia].
      destruct Hr as (?&?&?). split_and!; [lia..|done|done].
    + apply ret_eq in Hw as [-> ->]. split; [done|]. rewrite /= /paged /=. lia.
  - intros [(u&w1&[Hn Hc]%checkpoint_lease_inv&[-> ->]%fail_eq)|(e&Ht&->)]%bind_inv.
    + split; [done|]. by exists p, wait.
    + split; [by eapply timeless_checkpoint|]. by apply checkpoint_fails in Ht as ->.
Qed.

(** A walk with no page left to read is over. *)
Lemma page_loop_exit pv q username channel window p seen left_ :
  (aq_max_pages q ≤ at_pages p)%nat →
  page_loop pv q username channel window p seen left_ = mret (LoopLeft p).
Proof. destruct left_ as [f]. intros Hp. simpl. by destruct (decide _); [lia|]. Qed.

(** ** A whole walk *)

(** The pages the stored checkpoint counts. *)
Definition stored_pages (q : acquisition_request) (d : db) : nat :=
  default 0%nat ((λ l, Z.to_nat (from_option ck_pages 0 (lease_checkpoint l))) <$> leases d !! lease_key q).

(** A provider wait is stored and still runs. *)
Definition waiting (q : acquisition_request) (now : Z) (d : db) : Prop :=
  ∃ l, leases d !! lease_key q = Some l ∧ ck_state <$> lease_checkpoint l = Some "flood_wait" ∧
    now < lease_expires_at l.

Lemma quiet_resume q : quiet (resume q).
Proof.
  intros w r w' [(stored&w1&Hs&Hw)|(e&Hs&->)]%bind_inv.
  - assert (w_db w1 = w_db w ∧ w_now w1 = w_now w) as [Hd Hn].
    { split; [|by eapply timeless_sql]. apply sql_inv in Hs as [Hs _]. by injection Hs. }
    rewrite -Hd -Hn. destruct stored as [[l active]|]; [|by apply ret_eq in Hw as [_ ->]].
    cbv zeta in Hw. destruct (_ && _); [by apply fail_eq in Hw as [_ ->]|].
    apply bind_inv in Hw as [(pages&w2&Hl&Hw)|(e&Hl&_)]; apply quiet_lift in Hl as [??]; [|done].
    apply bind_inv in Hw as [(revs&w3&Hl&Hw)|(e&Hl&_)]; apply quiet_lift in Hl as [??];
      [|split; congruence].
    case_match; apply ret_eq in Hw as [_ ->]; split; congruence.
  - pose proof (timeless_sql _ _ _ _ _ Hs). by apply sql_Err_db in Hs as [-> _].
Qed.

Lemma usize_of_Some z n : usize_of z = Some n → n = Z.to_nat z.
Proof. rewrite /usize_of. case_match; intros; by simplify_eq. Qed.

Lemma resume_inv q w r w' :
  resume q w = (r, w') →
  match r with
  | Ok p => ¬ waiting q (w_now w) (w_db w) ∧
      (at_pages p = stored_pages q (w_db w) ∨ at_pages p = aq_max_pages q ∧ at_before p = None)
  | Err AcquisitionError.Deferred => waiting q (w_now w) (w_db w)
  | Err AcquisitionError.Unavailable => True
  end.
Proof.
  intros [(stored&w1&Hs&Hw)|(e&Hs&->)]%bind_inv; [|by apply sql_Err_db in Hs as [_ ->]].
  apply sql_inv in Hs as [Hs _]. injection Hs as Hs _. rewrite /waiting /stored_pages.
  destruct (leases (w_db w) !! lease_key q) as [l|]; simplify_eq/=.
  2: { apply ret_eq in Hw as [-> _]. split; [naive_solver|by left]. }
  cbv zeta in Hw. destruct (bool_decide _ && _) eqn:Hf.
  { apply andb_true_iff in Hf as [Hf%bool_decide_eq_true Hlt%Z.ltb_lt].
    apply fail_eq in Hw as [-> _]. by exists l. }
  assert (¬ ∃ l0, Some l = Some l0 ∧ ck_state <$> lease_checkpoint l0 = Some "flood_wait" ∧
    w_now w < lease_expires_at l0) as Hnw.
  { intros (l0&[= <-]&Hst&Hlt). rewrite Hst bool_decide_eq_true_2 // in Hf.
    by apply Z.ltb_nlt in Hf. }
  apply bind_inv in Hw as [(pages&w2&[Hp%ok_or_Ok%usize_of_Some _]%lift_inv&Hw)|(e&Hl&->)];
    [|by apply fails_only_lift in Hl as ->].
  apply bind_inv in Hw as [(revs&w3&_&Hw)|(e&Hl&->)]; [|by apply fails_only_lift in Hl as ->].
  case_match; apply ret_eq in Hw as [-> _]; (split; [done|]); simpl; auto.
Qed.

Lemma resolve_inv pv q u p w r w' :
  resolve pv q u p w = (r, w') →
  w_now w' = w_now w ∧
  match r with
  | Ok _ => w_db w' = w_db w
  | Err AcquisitionError.Deferred => ∃ wait, checkpointed q p "flood_wait" (Some wait) (w_now w) (w_db w')
  | Err AcquisitionError.Unavailable => True
  end.
Proof.
  rewrite /resolve. destruct (pv_resolve pv u) as [[c|[| | |wait]]|];
    try (intros [-> ->]%fail_eq; done); [by intros [-> ->]%ret_eq|].
  intros [([]&w1&[Hn Hc]%checkpoint_lease_inv&[-> ->]%fail_eq)|(e&Ht&->)]%bind_inv.
  - split; [done|]. by exists wait.
  - split; [by eapply timeless_checkpoint|]. by apply checkpoint_fails in Ht as ->.
Qed.

(** The end of a walk that answered with a report. *)
Definition walk_closed (q : acquisition_request) (report : acquisition_report) (now : Z) (d : db) : Prop :=
  ∃ p state, at_pages p = ar_pages report ∧ at_revisions p = ar_revisions report ∧
    checkpointed q p state None now d ∧
    ((state = "completed" ∧ ar_partial report = false ∧ at_before p = None) ∨
     (state = "page_limit" ∧ ar_partial report = true ∧ is_Some (at_before p)) ∨
     (state = "provider_unavailable" ∧ ar_partial report = true)).

Lemma close_walk_inv q p w r w' :
  close_walk q p w = (r, w') →
  match r with
  | Ok report => ar_pages report = at_pages p ∧ walk_closed q report (w_now w) (w_db w')
  | Err e => e = Unavailable
  end.
Proof.
  rewrite /close_walk. intros [(u&w1&[Hn Hc]%checkpoint_lease_inv&[-> ->]%ret_eq)|(e&Ht&->)]%bind_inv.
  - split; [done|]. exists p. eexists. split_and!; [done|done|exact Hc|]. simpl.
    case_bool_decide as Hb; [by right; left|]. left. split_and!; try done. by apply eq_None_not_Some.
  - by eapply checkpoint_fails.
Qed.

(** How a walk answers. *)
Lemma execute_inv pv q w :
  let '(res, w') := execute pv q w in
  match res with
  | Ok report => ¬ waiting q (w_now w) (w_db w) ∧
      (ar_pages report ≤ Nat.max (aq_max_pages q) (stored_pages q (w_db w)))%nat ∧
      walk_closed q report (w_now w) (w_db w')
  | Err AcquisitionError.Deferred =>
      (w_db w' = w_db w ∧ waiting q (w_now w) (w_db w)) ∨
      ∃ p wait, checkpointed q p "flood_wait" (Some wait) (w_now w) (w_db w') ∧
        1 ≤ lease_seconds (Some wait) ≤ 3600
  | Err AcquisitionError.Unavailable => True
  end.
Proof.
  assert (∀ wait, 1 ≤ lease_seconds (Some wait) ≤ 3600) as Hwait by (intros; simpl; lia).
  destruct (execute pv q w) as [res w'] eqn:Hw. revert Hw. rewrite /execute.
  intros [(p&w1&Hr&Hw)|(e&Hr&->)]%bind_inv.
  2: { pose proof (quiet_resume _ _ _ _ Hr) as [Hd _]. apply resume_inv in Hr. destruct e; auto. }
  pose proof (quiet_resume _ _ _ _ Hr) as [Hd1 Hn1]. apply resume_inv in Hr as [Hnw Hpages].
  apply bind_inv in Hw as [(u&w2&[_ ->]%lift_inv&Hw)|(e&Hl&->)].
  2: { revert Hl. rewrite /lift. destruct (map_err _ _) eqn:Hm; intros; simplify_eq.
       destruct (parse_username _); simplify_eq/=. done. }
  apply bind_inv in Hw as [(c&w3&[Hn3 Hd3]%resolve_inv&Hw)|(e&[Hn3 He]%resolve_inv&->)].
  2: { destruct e; [done|]. right. destruct He as [wait ?]. exists p, wait. by rewrite -Hn1. }
  apply bind_inv in Hw as [(win&w4&[_ ->]%lift_inv&Hw)|(e&Hl&->)].
  2: { revert Hl. rewrite /lift /parse_window. intros [= Hm _]. revert Hm.
       destruct (jiff_parse (aq_window_start q)); simpl; [|by intros [= <-]].
       destruct (jiff_parse (aq_window_end q)); simpl; [done|by intros [= <-]]. }
  apply bind_inv in Hw as [(wk&w5&[Hn5 Hwk]%page_loop_inv&Hw)|(e&[Hn5 He]%page_loop_inv&->)].
  2: { destruct e; [done|]. right. destruct He as (p'&wait&?). exists p', wait.
       by rewrite -Hn1 -Hn3. }
  assert (∀ n, paged q p n → (n ≤ Nat.max (aq_max_pages q) (stored_pages q (w_db w)))%nat) as Hmax.
  { rewrite /paged. destruct Hpages as [->|[-> _]]; lia. }
  destruct wk as [report|p'].
  - apply ret_eq in Hw as [-> ->]. destruct Hwk as (?&Hpart&p'&?&?&?). split_and!; [done|by apply Hmax|].
    exists p', "provider_unavailable". rewrite -Hn1 -Hn3. split_and!; auto.
  - apply close_walk_inv in Hw. destruct res as [report|e]; [|by rewrite Hw].
    destruct Hw as [Hp Hc]. split_and!; [done|rewrite Hp; by apply Hmax|]. by rewrite -Hn1 -Hn3 -Hn5.
Qed.


(** C18: A provider wait is respected across restarts: while a stored wait runs, no walk of the same
    request calls the provider or writes anything, whatever the provider would answer, and with
    working storage the walk is deferred again; and a walk that was completed is not repeated: it stores
    nothing but its checkpoint, and reports, and records there, the stored count of revisions and, as
    its pages, the most the request allows instead of those that were read. *)
Theorem resumed_walk pv q w :
  (waiting q (w_now w) (w_db w) →
     w_db (execute pv q w).2 = w_db w ∧ is_ok (execute pv q w).1 = false ∧
     (calm w → (execute pv q w).1 = Err AcquisitionError.Deferred)) ∧
  (∀ l cp, leases (w_db w) !! lease_key q = Some l → lease_checkpoint l = Some cp →
     ck_state cp = "completed" → ∀ report w', execute pv q w = (Ok report, w') →
     report = AcquisitionReport (aq_max_pages q) (Z.to_nat (ck_revisions cp)) false ∧
     ∃ holder, w_db w' = with_leases (w_db w) (<[lease_key q :=
       LeaseRow holder (w_now w) (w_now w + 300 * second) (Some (Checkpoint None (Z.of_nat (aq_max_pages q))
         (Z.of_nat (Z.to_nat (ck_revisions cp))) "completed"))]> (leases (w_db w)))).
Proof.
  split.
  - intros Hwait. destruct (execute pv q w) as [res w'] eqn:Hw. revert Hw. rewrite /execute.
    intros [(p&w1&Hr&Hw)|(e&Hr&->)]%bind_inv; [by apply resume_inv in Hr as [? _]|].
    pose proof (quiet_resume _ _ _ _ Hr) as [Hd _]. split_and!; [done|done|].
    intros Hc. simpl. f_equal. destruct Hwait as (l&Hl&Hst&Hlt). revert Hr.
    rewrite /resume. erewrite bind_sql_calm; [|done|rewrite Hl; reflexivity]. simpl.
    rewrite bool_decide_eq_true_2 // (proj2 (Z.ltb_lt _ _) Hlt) /=. by intros [[= ->] _]%fail_eq.
  - intros l cp Hl Hcp Hst report w'. rewrite /execute.
    intros [(p&w1&Hr&Hw)|(e&_&?)]%bind_inv; [|done]. pose proof (quiet_resume _ _ _ _ Hr) as [Hd1 Hn1].
    assert (p = Position None (aq_max_pages q) (Z.to_nat (ck_revisions cp))) as ->.
    { revert Hr. rewrite /resume. intros Hr. step_sql Hr as stored w2 Hs Hn. rewrite Hl in Hs.
      injection Hs as <- _. simpl in Hr. rewrite Hcp /= in Hr. rewrite Hst in Hr. simpl in Hr.
      step Hr as pages w3 _. step Hr as revs w4 [Hrevs%ok_or_Ok%usize_of_Some _]%lift_inv.
      apply ret_inv in Hr as [-> _]. by rewrite Hrevs. }
    step Hw as u w2 [_ ->]%lift_inv. step Hw as c w2 [Hn2 Hd2]%resolve_inv.
    step Hw as win w3 [_ ->]%lift_inv. rewrite page_loop_exit // in Hw.
    apply bind_Ok_inv in Hw as (wk&w3&[-> ->]%ret_inv&Hw). rewrite /close_walk /= in Hw.
    step Hw as v w3 [_ [holder Hc]]%checkpoint_lease_exact. apply ret_inv in Hw as [-> ->]. split; [done|].
    exists holder. rewrite Hc. simpl. by rewrite Hn2 Hn1 Hd2 Hd1.
Qed.

(** Post revisions are an immutable log that converges: appending an observation either finds the
    revision of the same post with the same digest, whose row (withdrawn or not) stays as it is, or
    adds one new row with the body under a fresh identity; every other row is kept, and a failed
    append changes nothing.  Appending it again, later and under another fresh identity, succeeds with
    a stored identity and leaves the database as it is. *)
Lemma append_exact o w :
  let '(res, w') := append o w in
  match res with
  | Err _ => w_db w' = w_db w
  | Ok id => observed o id (w_db w') ∧
      ((w_db w' = w_db w ∧ observed o id (w_db w)) ∨
       ((∀ k, ¬ observed o k (w_db w)) ∧ revisions (w_db w) !! id = None ∧
        is_Some (channels (w_db w) !! obs_channel_id o) ∧
        ∃ r, rev_body r = Some (obs_body o) ∧ rev_deleted_at r = None ∧
          rev_link r = obs_canonical_link o ∧
          w_db w' = with_revisions (w_db w) (<[id := r]> (revisions (w_db w))))) ∧
      ∀ w2, w_db w2 = w_db w' → calm w2 →
        ∃ id', append o w2 = (Ok id', drawn w2) ∧ observed o id' (w_db w2)
  end.
Proof.
  pose proof (append_effect o w) as Hx. destruct (append o w) as [[id|e] w'] eqn:Hw; [|done].
  destruct Hx as [? ?]. split_and!; [done..|]. by intros; eapply append_converges.
Qed.
End AcquisitionSpec.

(** ** Witnesses *)

(** A provider with one page of three posts, and a request for two pages. *)
Module Channel.
Definition posts : list provider_post :=
  [ProviderPost 9 "nine" "1900000" false; ProviderPost 8 "eight" "1800000" false;
   ProviderPost 7 "old" "900000" false].
Definition pv : provider :=
  Provider unit (λ _, Some (Ok tt)) (λ _ _ _ _, Some (Ok (ProviderPage posts (Some 7)))).
Definition request : acquisition_request := AcquisitionRequest 60 1 "rustlang" "1000000" "2000000" 2 100.
Definition db_one : db := with_channels empty_db {[1%N := ChannelRow "rustlang" None]}.
Definition observed : observed_revision := ObservedRevision 1 9 "nine" "link" "1900000" "2000000".
Definition lease_in (state : string) : lease_row :=
  LeaseRow 5 0 100 (Some (Checkpoint None 1 3 state)).
Definition leased (state : string) : world :=
  Demo.world (with_leases db_one {[@lease_key Demo.external request := lease_in state]}).
End Channel.

(** The second append comes with the next fresh identities. *)
Lemma append_converges_witness :
  ∃ id w1, @append Demo.external Channel.observed (Demo.world Channel.db_one) = (Ok id, w1) ∧
    ∃ id', @append Demo.external Channel.observed w1 = (Ok id', drawn w1).
Proof.
  destruct (append Channel.observed (Demo.world Channel.db_one)) as [[id|e] w1] eqn:Hw;
    [|by vm_compute in Hw].
  exists id, w1. split; [reflexivity|].
  destruct (@append_converges Demo.external _ _ _ _ w1 Hw eq_refl) as (id'&Hid&_).
  - rewrite -[w1]/(snd (@Ok RevisionError.t _ id, w1)) -Hw. vm_compute. reflexivity.
  - exists id'. exact Hid.
Defined.


Lemma resumed_walk_witness :
  (@execute Demo.external Channel.pv Channel.request (Channel.leased "flood_wait")).1 =
    Err AcquisitionError.Deferred ∧
  ∃ report w', @execute Demo.external Channel.pv Channel.request (Channel.leased "completed") = (Ok report, w') ∧
    report = AcquisitionReport 2 3 false.
Proof.
  split.
  - destruct (@resumed_walk Demo.external Channel.pv Channel.request (Channel.leased "flood_wait")) as [Hr _].
    destruct Hr as (_&_&Hr); [|by apply Hr].
    exists (Channel.lease_in "flood_wait"). split_and!; [reflexivity|reflexivity|vm_compute; reflexivity].
  - destruct (@resumed_walk Demo.external Channel.pv Channel.request (Channel.leased "completed")) as [_ Hr].
    destruct (execute Channel.pv Channel.request (Channel.leased "completed")) as [[report|e] w'] eqn:Hw;
      [|by vm_compute in Hw].
    exists report, w'. split; [reflexivity|].
    destruct (Hr (Channel.lease_in "completed") (Checkpoint None 1 3 "completed") eq_refl eq_refl eq_refl
      report w' eq_refl) as [-> _]. reflexivity.
Defined.
