(* ===== verification/Coordinator.v ===== *)
(** * Coordinator: [src/src/coordinator.rs], manifest commitment, settlement and fan-out *)

From S2P Require Import Prelude Text External Store Tx Subscriptions Runs Reports Inbox Manifest.

Module CoordinatorError.
Inductive t := Invalid | Storage.
(** [From<ReportError>] *)
Definition from (e : ReportError.t) : t :=
  match e with ReportError.Invalid => Invalid | ReportError.Storage => Storage end.
End CoordinatorError.

Module RunFailure.
Inductive t := ProviderUnavailable | ManifestInvalid.
Definition class (f : t) : string :=
  match f with ProviderUnavailable => "provider_unavailable" | ManifestInvalid => "manifest_invalid" end.
Definition stage (f : t) : string :=
  match f with ProviderUnavailable => "acquiring" | ManifestInvalid => "manifest" end.
Definition code (f : t) : string :=
  match f with
  | ProviderUnavailable => "channel_digest.provider_unavailable"
  | ManifestInvalid => "channel_digest.manifest_invalid"
  end.
Definition message (f : t) : string :=
  match f with
  | ProviderUnavailable => "The channel posts could not be read from Telegram."
  | ManifestInvalid => "The selected posts cannot form a digest manifest."
  end.
Definition retryable (f : t) : bool := match f with ProviderUnavailable => true | _ => false end.
End RunFailure.

Record occurrence_request := OccurrenceRequest {
  occ_message_id : uuid;
  occ_payload : string;
  occ_key : string;
  occ_previous_due_at : string;
  occ_due_at : string;
  occ_operation : uuid;
  occ_owner : uuid;
  occ_language : OutputLanguage.t }.

Definition COMPLETED_SUBJECT : string := "knowledge.channel_digest_recap.completed.v1".
Definition FAILED_SUBJECT : string := "knowledge.channel_digest_recap.failed.v1".
Definition OCCURRENCE_SUBJECT : string := "channel_digest.schedule.occurrence_requested.v1".

(** [classify_failure] *)
Definition classify_failure (code : RecapFailureCode.t) : string * bool :=
  match code with
  | RecapFailureCode.ManifestUnavailable => ("manifest_unavailable", true)
  | RecapFailureCode.ManifestIntegrity => ("manifest_integrity", false)
  | RecapFailureCode.UnsupportedLanguage => ("unsupported_language", false)
  | RecapFailureCode.ContextBudget => ("context_budget", false)
  | RecapFailureCode.ProviderUnavailable => ("provider_unavailable", true)
  | RecapFailureCode.ProviderTimeout => ("provider_timeout", true)
  | RecapFailureCode.InvalidOutput => ("invalid_output", false)
  | RecapFailureCode.CostBudget => ("cost_budget", false)
  | RecapFailureCode.Cancelled => ("cancelled", false)
  end.

(** ** Manifest and result statements *)

Definition open_states : list RunState.t := [RunState.Accepted; RunState.Acquiring].

Definition manifest_of_run (run_id : uuid) (_ : uuid) (m : manifest_row) : bool :=
  bool_decide (man_run m = run_id).

(** [insert into digest_manifests ... on conflict (run_id) do nothing returning manifest_id] *)
Definition insert_manifest (manifest_id : uuid) (row : manifest_row) (d : db)
    : result sql_error (bool * db) :=
  if negb ((String.length (man_sha256 row) =? 64)%nat
           && (1 <=? man_source_count row) && (man_source_count row <=? 100)
           && (1 <=? man_channel_count row) && (man_channel_count row <=? 20))
  then Err SqlConstraint
  else if any_where (manifest_of_run (man_run row)) (manifests d) then Ok (false, d)
  else match manifests d !! manifest_id, runs d !! man_run row with
       | None, Some _ => Ok (true, with_manifests d (<[manifest_id := row]> (manifests d)))
       | _, _ => Err SqlConstraint
       end.

(** [insert into digest_manifest_sources ... select $1, ... from unnest(...)] *)
Definition insert_manifest_sources (manifest_id : uuid) (messages : list (uuid * Z)) : stmt unit :=
  λ _ d,
    let rows := (λ m : uuid * Z, (manifest_id, m.1, m.2)) <$> messages in
    if bool_decide (NoDup rows) && forallb (λ r, bool_decide (r ∉ manifest_sources d)) rows
    then Ok (tt, with_manifest_sources d (list_to_set rows ∪ manifest_sources d))
    else Err SqlConstraint.

(** The pattern [^[0-9a-f]{64}$] of [digest_results.result_digest_hex]. *)
Definition hex_digit (c : Ascii.ascii) : bool :=
  let n := Ascii.N_of_ascii c in (((48 <=? n) && (n <=? 57)) || ((97 <=? n) && (n <=? 102)))%N.

Definition hex64 (s : string) : bool :=
  (String.length s =? 64)%nat && forallb hex_digit (String.list_ascii_of_string s).

(** The CHECK constraints of [digest_results]. *)
Definition result_row_allowed (row : result_row) : bool :=
  (0 <=? res_citations row) &&
  match res_digest_hex row with Some hex => hex64 hex | None => true end &&
  match res_outcome row with
  | Outcome.Failed => bool_decide (res_recap row = None) && bool_decide (res_digest_hex row = None)
  | _ => bool_decide (is_Some (res_recap row)) && bool_decide (is_Some (res_digest_hex row))
  end.

(** [insert into digest_results]: identity, run and manifest are unique, run and manifest exist. *)
Definition insert_result (result_id : uuid) (row : result_row) (d : db)
    : result sql_error (unit * db) :=
  if result_row_allowed row
     && bool_decide (is_Some (runs d !! res_run row))
     && bool_decide (is_Some (manifests d !! res_manifest row))
     && negb (any_where (λ k r, bool_decide (k = result_id) || bool_decide (res_run r = res_run row)
                          || bool_decide (res_manifest r = res_manifest row)) (results d))
  then Ok (tt, with_results d (<[result_id := row]> (results d)))
  else Err SqlConstraint.

(** [digest_runs r join digest_manifests m using (run_id) where r.run_id = $1 and r.owner_id = $2
    and m.owner_id = $2] *)
Definition durable_evidence (run_id owner : uuid) (d : db) : option (run_row * uuid * manifest_row) :=
  r ← runs d !! run_id;
  if negb (bool_decide (run_owner r = owner)) then None
  else
    '(mid, m) ← find_where (λ k m, manifest_of_run run_id k m && bool_decide (man_owner m = owner))
                  (manifests d);
    Some (r, mid, m).

(** [digest_results d join digest_manifests m using (manifest_id) where d.result_id = $1]; a failed
    result has no recap identity, which the row type of the query cannot hold. *)
Definition stored_result (result_id : uuid) : stmt (option (result_row * string)) := λ _ d,
  match results d !! result_id with
  | None => Ok (None, d)
  | Some r =>
      match manifests d !! res_manifest r with
      | None => Ok (None, d)
      | Some m =>
          if bool_decide (is_Some (res_recap r)) && bool_decide (is_Some (res_digest_hex r))
          then Ok (Some (r, man_sha256 m), d) else Err SqlConstraint
      end
  end.

Lemma stored_result_reads result_id now d x d' : stored_result result_id now d = Ok (x, d') → d' = d.
Proof. rewrite /stored_result. repeat case_match; intros; by simplify_eq. Qed.

Section Coordinator.
Context `{External}.

Definition report_error {A} (m : M ReportError.t A) : M CoordinatorError.t A :=
  on_err CoordinatorError.from m.

Definition Storage : CoordinatorError.t := CoordinatorError.Storage.
Definition Invalid : CoordinatorError.t := CoordinatorError.Invalid.

(** [checked_recap_request] *)
Definition checked_recap_request (manifest : canonical_manifest) (raw : string)
    : result CoordinatorError.t (json * uuid) :=
  request ← ok_or Invalid (decode_recap_requested raw);
  if negb (validate_recap_requested request) then Err Invalid
  else
    value ← ok_or Invalid (recap_requested_value request);
    let str key := json_get key value ≫= json_as_str in
    let num key := json_get key value ≫= json_as_u64 in
    if bool_decide (str "owner" = Some ("user:" +:+ uuid_text (cman_owner manifest))%string)
       && bool_decide (str "digest_run_id" = Some (uuid_text (cman_run manifest)))
       && bool_decide (str "manifest_ref" =
            Some ("channel-digest-manifest:" +:+ uuid_text (cman_id manifest))%string)
       && bool_decide (((json_get "manifest_digest" value ≫= json_get "hex") ≫= json_as_str) =
            Some (cman_sha256 manifest))
       && bool_decide (num "source_count" = Some (Z.of_nat (cman_source_count manifest)))
       && bool_decide (num "channel_count" = Some (Z.of_nat (cman_channel_count manifest)))
    then Ok (value, rq_operation request)
    else Err Invalid.

(** [i32::try_from] on a count. *)
Definition i32_of_count (n : nat) : option Z :=
  if Z.of_nat n <? 2 ^ 31 then Some (Z.of_nat n) else None.

(** [DigestCoordinator::commit_manifest] *)
Definition commit_manifest (manifest : canonical_manifest) (recap_request_bytes : string)
    : M CoordinatorError.t IntakeOutcome.t :=
  '(request, operation) ← lift (checked_recap_request manifest recap_request_bytes);
  let owner := cman_owner manifest in
  transact Storage (
    source_count ← lift (ok_or Invalid (i32_of_count (cman_source_count manifest)));
    channel_count ← lift (ok_or Invalid (i32_of_count (cman_channel_count manifest)));
    inserted ← sql Storage (λ now d,
      insert_manifest (cman_id manifest)
        (ManifestRow (cman_run manifest) owner (cman_sha256 manifest) source_count channel_count
           (Some (cman_text manifest)) None now) d);
    if negb inserted then
      existing ← sql Storage (read (λ d,
        find_where (manifest_of_run (cman_run manifest)) (manifests d)));
      if bool_decide ((λ km : uuid * manifest_row, (km.1, man_owner km.2, man_sha256 km.2)) <$> existing
                      = Some (cman_id manifest, owner, cman_sha256 manifest))
      then mret (Rollback (Ok IntakeOutcome.Replayed))
      else mret (Rollback (Err Invalid))
    else
      _ ← sql Storage (insert_manifest_sources (cman_id manifest) (cman_messages manifest));
      outbox_id ← now_v7;
      _ ← sql Storage (λ now d,
        insert_outbox_strict outbox_id
          (new_outbox_row RECAP_SUBJECT (uuid_text (cman_run manifest)) owner (Some operation) None
             request now) d);
      changed ← sql Storage (update_runs (run_in (cman_run manifest) owner open_states)
                  (set_state RunState.WaitingRecap));
      if negb (changed =? 1)%nat then fail Invalid
      else mret (Commit (Ok IntakeOutcome.Applied))) ≫= lift.

(** [DigestCoordinator::complete_empty_run] *)
Definition complete_empty_run (run_id owner : uuid) : M CoordinatorError.t unit :=
  transact Storage (
    changed ← sql Storage (update_runs (run_in run_id owner open_states)
                (set_state RunState.Completed));
    if negb (changed =? 1)%nat then fail Invalid
    else
      owned ← report_error (on_demand_operation run_id owner);
      _ ← match owned with
          | Some operation =>
              row ← report_error (lift (report_new operation owner OperationStatus.Succeeded
                                          "no_sources"));
              report_error (enqueue row)
          | None => mret tt
          end;
      mret (Commit tt)).

(** [DigestCoordinator::fail_run] *)
Definition fail_run (run_id owner : uuid) (failure : RunFailure.t) : M CoordinatorError.t unit :=
  transact Storage (
    changed ← sql Storage (update_runs (run_in run_id owner open_states)
                (set_failed (RunFailure.class failure)));
    if negb (changed =? 1)%nat then fail Invalid
    else
      owned ← report_error (on_demand_operation run_id owner);
      _ ← match owned with
          | Some operation =>
              row ← report_error (lift (report_new operation owner OperationStatus.Failed
                                          (RunFailure.stage failure)));
              row ← report_error (lift (with_error row (RunFailure.code failure)
                                          (RunFailure.message failure)
                                          (RunFailure.retryable failure)));
              report_error (enqueue row)
          | None => mret tt
          end;
      mret (Commit tt)).

(** [strip_prefix("analysis:")] and [Uuid::parse_str] *)
Definition analysis_id_of (reference : string) : option uuid :=
  if String.prefix "analysis:" reference
  then uuid_parse (String.substring 9 (String.length reference - 9) reference)
  else None.

(** What a completion settles with. *)
Definition completion_outcome (omitted_count : Z) (incomplete : bool) : Outcome.t :=
  if bool_decide (omitted_count = 0) && negb incomplete then Outcome.Completed else Outcome.Partial.

(** [DigestCoordinator::settle_completion], the transaction after the evidence was checked. *)
Definition apply_completion (message_id : uuid) (completion : string) (fact : recap_completed)
    (analysis_id : uuid) (incomplete : bool) : M CoordinatorError.t IntakeOutcome.t :=
  let run_id := fc_run fact in
  let owner := tenant_user (fc_owner fact) in
  let outcome := completion_outcome (fc_omitted_count fact) incomplete in
  transact Storage (
    inserted ← sql Storage (claim message_id COMPLETED_SUBJECT (uuid_text (fc_result fact))
                              (sha256_digest_hex completion));
    if negb inserted then mret (Rollback IntakeOutcome.Replayed)
    else
      result_rows ← sql Storage (λ now d,
        match runs d !! run_id, find_where (manifest_of_run run_id) (manifests d) with
        | Some r, Some (mid, _) =>
            if bool_decide (run_owner r = owner)
            then '(_, d') ← insert_result (fc_result fact)
                   (ResultRow run_id mid (run_owner r) outcome (Some analysis_id)
                      (Some (fc_result_digest_hex fact)) (fc_included_count fact) None now) d;
                 Ok (1%nat, d')
            else Ok (0%nat, d)
        | _, _ => Ok (0%nat, d)
        end);
      if negb (result_rows =? 1)%nat then fail Invalid
      else
        changed ← sql Storage (update_runs (run_in run_id owner [RunState.WaitingRecap])
                    (set_state (Outcome.run_state outcome)));
        if negb (changed =? 1)%nat then fail Invalid
        else
          _ ← report_error (report_completion run_id owner message_id (fc_result_ref fact)
                              (fc_omitted_count fact) incomplete);
          _ ← sql Storage (complete_inbox message_id);
          mret (Commit IntakeOutcome.Applied)).

(** The stored result equals the fact. *)
Definition same_result (fact : recap_completed) (analysis_id : uuid) (outcome : Outcome.t)
    (stored : result_row * string) : bool :=
  let '(r, manifest_sha) := stored in
  bool_decide (res_run r = fc_run fact) && bool_decide (res_owner r = tenant_user (fc_owner fact))
  && bool_decide (manifest_sha = fc_manifest_digest_hex fact)
  && bool_decide (res_recap r = Some analysis_id)
  && bool_decide (res_digest_hex r = Some (fc_result_digest_hex fact))
  && bool_decide (res_outcome r = outcome)
  && bool_decide (res_citations r = fc_included_count fact).

(** The run waits for exactly this fact. *)
Definition completion_matches (fact : recap_completed) (r : run_row) (m : manifest_row) : bool :=
  bool_decide (run_state r = RunState.WaitingRecap)
  && bool_decide (fc_manifest_digest_hex fact = man_sha256 m)
  && (fc_selected_count fact =? man_source_count m)
  && (fc_channel_count fact <=? man_channel_count m).

(** [DigestCoordinator::settle_completion] *)
Definition settle_completion (message_id : uuid) (completion : string)
    : M CoordinatorError.t IntakeOutcome.t :=
  fact ← lift (ok_or Invalid (decode_recap_completed completion));
  if negb (validate_recap_completed fact) then fail Invalid
  else
    analysis_id ← lift (ok_or Invalid (analysis_id_of (fc_analysis_ref fact)));
    let run_id := fc_run fact in
    let owner := tenant_user (fc_owner fact) in
    incomplete ← sql Storage (read (λ d,
      match runs d !! run_id with
      | Some r => bool_decide (run_owner r = owner) && run_incomplete r
      | None => false
      end));
    existing ← sql Storage (stored_result (fc_result fact));
    match existing with
    | Some stored =>
        if same_result fact analysis_id (completion_outcome (fc_omitted_count fact) incomplete) stored
        then mret IntakeOutcome.Replayed else fail Invalid
    | None =>
        durable ← sql Storage (read (durable_evidence run_id owner));
        match durable with
        | None => fail Invalid
        | Some (r, _, m) =>
            if negb (completion_matches fact r m) then fail Invalid
            else apply_completion message_id completion fact analysis_id incomplete
        end
    end.

(** [DigestCoordinator::settle_failure], the transaction after the evidence was checked. *)
Definition apply_failure (message_id : uuid) (failure : string) (fact : recap_failed)
    (manifest_id : uuid) : M CoordinatorError.t IntakeOutcome.t :=
  let run_id := ff_run fact in
  let owner := tenant_user (ff_owner fact) in
  let '(failure_class, retryable) := classify_failure (ff_code fact) in
  transact Storage (
    inserted ← sql Storage (claim message_id FAILED_SUBJECT (uuid_text run_id)
                              (sha256_digest_hex failure));
    if negb inserted then mret (Rollback IntakeOutcome.Replayed)
    else
      result_id ← now_v7;
      _ ← sql Storage (λ now d,
        insert_result result_id
          (ResultRow run_id manifest_id owner Outcome.Failed None None 0 (Some failure_class) now) d);
      changed ← sql Storage (update_runs (run_in run_id owner [RunState.WaitingRecap])
                  (set_failed failure_class));
      if negb (changed =? 1)%nat then fail Invalid
      else
        _ ← report_error (report_recap_failure run_id owner message_id failure_class retryable);
        _ ← sql Storage (complete_inbox message_id);
        mret (Commit IntakeOutcome.Applied)).

(** [DigestCoordinator::settle_failure] *)
Definition settle_failure (message_id : uuid) (failure : string)
    : M CoordinatorError.t IntakeOutcome.t :=
  fact ← lift (ok_or Invalid (decode_recap_failed failure));
  if negb (validate_recap_failed fact) then fail Invalid
  else
    durable ← sql Storage (read (durable_evidence (ff_run fact) (tenant_user (ff_owner fact))));
    match durable with
    | None => fail Invalid
    | Some (r, manifest_id, m) =>
        if bool_decide (run_state r = RunState.Failed) then mret IntakeOutcome.Replayed
        else if negb (bool_decide (run_state r = RunState.WaitingRecap)
                      && bool_decide (ff_manifest_digest_hex fact = man_sha256 m))
        then fail Invalid
        else apply_failure message_id failure fact manifest_id
    end.

(** ** Schedule fan-out *)

(** The owners with an enabled subscription first activated before the due instant, ascending, each
    with its earliest such activation. *)
Definition due_subscription (due_at : Z) (_ : uuid) (s : subscription_row) : bool :=
  sub_enabled s && (sub_first_activated_at s <? due_at).

Definition first_activation (due : list (uuid * subscription_row)) (owner : uuid) : Z :=
  let instants := (λ ks : uuid * subscription_row, sub_first_activated_at ks.2) <$>
                    filter (λ ks : uuid * subscription_row, sub_owner ks.2 = owner) due in
  foldr Z.min (default 0 (head instants)) instants.

Definition due_owners (due_at : Z) (d : db) : list (uuid * Z) :=
  let due := select_where (due_subscription due_at) (subscriptions d) in
  (λ owner, (owner, first_activation due owner)) <$>
    sort_on (λ owner, [Z.of_N owner])
      (remove_dups ((λ ks : uuid * subscription_row, sub_owner ks.2) <$> due)).

(** [fan_out] *)
Definition fan_out (occurrence_key : string) (operation : uuid) (previous_due_at due_at : string)
    (language : OutputLanguage.t) : M CoordinatorError.t unit :=
  owners ← sql Storage (with_cast due_at (λ due, read (due_owners due)));
  for_each owners (λ '(owner, activation_at),
    window ← sql Storage (with_cast previous_due_at (λ previous, with_cast due_at (λ due,
      read (λ _, normalized_window true activation_at (Some previous) due))));
    run_id ← now_v7;
    _ ← sql Storage (λ now d,
      insert_run run_id
        (new_run owner operation RunTrigger.Scheduled occurrence_key window.1 window.2 language now)
        d);
    mret tt).

(** [DigestCoordinator::accept_occurrence] *)
Definition accept_occurrence (o : occurrence_request) : M CoordinatorError.t IntakeOutcome.t :=
  if negb (String.prefix "schedule-occurrence:" (occ_key o)) then fail Invalid
  else
    let payload_sha256 := sha256_digest_hex (occ_payload o) in
    transact Storage (
      inserted ← sql Storage (claim (occ_message_id o) OCCURRENCE_SUBJECT (occ_key o) payload_sha256);
      if negb inserted then mret (Rollback IntakeOutcome.Replayed)
      else
        _ ← fan_out (occ_key o) (occ_operation o) (occ_previous_due_at o) (occ_due_at o)
              (occ_language o);
        row ← report_error (lift (report_new (occ_operation o) (occ_owner o)
                                    OperationStatus.Succeeded "fanned_out"));
        _ ← report_error (enqueue (caused_by row
              ("command:" +:+ uuid_text (occ_message_id o))%string));
        _ ← sql Storage (complete_inbox (occ_message_id o));
        mret (Commit IntakeOutcome.Applied)).
End Coordinator.
