(* ===== verification/Settlement.v ===== *)
(** * Settlement: what the handlers of [Coordinator] do to the database

    Each handler's run is characterised once, as the exact database it leaves; the properties of the
    handlers and the invariants of the system apply these lemmas. *)

From S2P Require Import Prelude Text External Store Tx Demo Subscriptions Runs Reports Progress.
From S2P Require Import Inbox Manifest Coordinator.

Section Settlement.
Context `{External}.

Lemma insert_manifest_spec mid row d b d' :
  insert_manifest mid row d = Ok (b, d') →
  (b = false ∧ d' = d ∧ any_where (manifest_of_run (man_run row)) (manifests d) = true) ∨
  (b = true ∧ manifests d !! mid = None ∧ is_Some (runs d !! man_run row) ∧
     (∀ k m, manifests d !! k = Some m → man_run m ≠ man_run row) ∧
     1 ≤ man_source_count row ≤ 100 ∧ 1 ≤ man_channel_count row ≤ 20 ∧
     d' = with_manifests d (<[mid := row]> (manifests d))).
Proof.
  rewrite /insert_manifest. case_match eqn:Hc; [done|]. apply negb_false_iff in Hc.
  rewrite !andb_true_iff !Z.leb_le in Hc. destruct (any_where _ _) eqn:Ha.
  - intros; simplify_eq. auto.
  - rewrite any_where_false in Ha. destruct (manifests d !! mid) eqn:Hm; [done|].
    destruct (runs d !! man_run row) eqn:Hr; [|done]. intros; simplify_eq. right.
    split_and!; try done; try tauto. intros k m Hk Heq. specialize (Ha k m Hk).
    by rewrite /manifest_of_run bool_decide_eq_true_2 in Ha.
Qed.

Lemma insert_manifest_sources_spec mid messages now d u d' :
  insert_manifest_sources mid messages now d = Ok (u, d') →
  NoDup messages ∧ (∀ m, m ∈ messages → (mid, m.1, m.2) ∉ manifest_sources d) ∧
  d' = with_manifest_sources d
         (list_to_set ((λ m : uuid * Z, (mid, m.1, m.2)) <$> messages) ∪ manifest_sources d).
Proof.
  rewrite /insert_manifest_sources. case_match eqn:Hg; [|done].
  apply andb_prop in Hg as [Hnd%bool_decide_eq_true Hall]. intros; simplify_eq.
  split_and!; [by eapply NoDup_fmap_1| |done]. intros m Hm.
  rewrite forallb_forall in Hall. specialize (Hall (mid, m.1, m.2)).
  apply bool_decide_eq_true in Hall; [done|]. apply list_elem_of_In, list_elem_of_fmap. eauto.
Qed.

Lemma checked_recap_request_Ok m raw value operation :
  checked_recap_request m raw = Ok (value, operation) →
  ∃ request, decode_recap_requested raw = Some request ∧ validate_recap_requested request = true ∧
    recap_requested_value request = Some value ∧ operation = rq_operation request ∧
    json_get "owner" value = Some (JStr ("user:" +:+ uuid_text (cman_owner m))) ∧
    json_get "digest_run_id" value = Some (JStr (uuid_text (cman_run m))) ∧
    json_get "manifest_ref" value
      = Some (JStr ("channel-digest-manifest:" +:+ uuid_text (cman_id m))) ∧
    json_get "manifest_digest" value ≫= json_get "hex" = Some (JStr (cman_sha256 m)) ∧
    json_get "source_count" value = Some (JNum (Z.of_nat (cman_source_count m))) ∧
    json_get "channel_count" value = Some (JNum (Z.of_nat (cman_channel_count m))).
Proof.
  assert (∀ (o : option json) t, o ≫= json_as_str = Some t → o = Some (JStr t)) as Hstr
    by (intros [[]|] t; simpl; congruence).
  assert (∀ (o : option json) n, o ≫= json_as_u64 = Some n → o = Some (JNum n)) as Hnum.
  { intros [[]|] k; simpl; try congruence. case_match; congruence. }
  rewrite /checked_recap_request /ok_or.
  destruct (decode_recap_requested raw) as [request|] eqn:Hd; [|done].
  rewrite {1}/mbind /=. case_match eqn:Hv; [done|]. apply negb_false_iff in Hv.
  destruct (recap_requested_value request) as [v|] eqn:Hval; [|done]. rewrite {1}/mbind /result_bind.
  case_match eqn:Hg; [|done]. rewrite !andb_true_iff !bool_decide_eq_true in Hg.
  destruct Hg as (((((?&?)&?)&?)&?)&?). intros; simplify_eq.
  exists request. split_and!; auto.
Qed.

(** The database after a committed manifest. *)
Definition manifest_committed (m : canonical_manifest) (operation : uuid) (request : json)
    (outbox_id : uuid) (r : run_row) (now : Z) (d : db) : db :=
  Db (channels d) (subscriptions d) (revisions d)
    (<[cman_run m := set_state RunState.WaitingRecap now r]> (runs d))
    (<[cman_id m := ManifestRow (cman_run m) (cman_owner m) (cman_sha256 m)
         (Z.of_nat (cman_source_count m)) (Z.of_nat (cman_channel_count m)) (Some (cman_text m))
         None now]> (manifests d))
    (list_to_set ((λ c : uuid * Z, (cman_id m, c.1, c.2)) <$> cman_messages m) ∪ manifest_sources d)
    (results d) (inbox d)
    (<[outbox_id := new_outbox_row RECAP_SUBJECT (uuid_text (cman_run m)) (cman_owner m)
         (Some operation) None request now]> (outbox d))
    (leases d).

Lemma i32_of_count_Some n z : i32_of_count n = Some z → z = Z.of_nat n.
Proof. rewrite /i32_of_count. case_match; congruence. Qed.

(** The check of a manifest that was committed before. *)
Lemma stored_manifest_same m d :
  bool_decide ((λ km : uuid * manifest_row, (km.1, man_owner km.2, man_sha256 km.2)) <$>
    find_where (manifest_of_run (cman_run m)) (manifests d)
      = Some (cman_id m, cman_owner m, cman_sha256 m)) = true →
  ∃ x, manifests d !! cman_id m = Some x ∧ man_run x = cman_run m ∧
    man_owner x = cman_owner m ∧ man_sha256 x = cman_sha256 m.
Proof.
  intros Hsame%bool_decide_eq_true.
  destruct (find_where _ _) as [[k x]|] eqn:Hf; simplify_eq/=.
  apply find_where_Some in Hf as [Hx Hp%bool_decide_eq_true]. eauto.
Qed.

Lemma commit_manifest_inv m bytes w res w' :
  commit_manifest m bytes w = (res, w') →
  (res = Ok IntakeOutcome.Applied ∧
   ∃ request operation outbox_id r,
     checked_recap_request m bytes = Ok (request, operation) ∧
     runs (w_db w) !! cman_run m = Some r ∧ run_owner r = cman_owner m ∧
     run_state r ∈ open_states ∧
     manifests (w_db w) !! cman_id m = None ∧
     (∀ k x, manifests (w_db w) !! k = Some x → man_run x ≠ cman_run m) ∧
     outbox (w_db w) !! outbox_id = None ∧
     1 ≤ Z.of_nat (cman_source_count m) ≤ 100 ∧ 1 ≤ Z.of_nat (cman_channel_count m) ≤ 20 ∧
     w_db w' = manifest_committed m operation request outbox_id r (w_now w) (w_db w)) ∨
  (w_db w' = w_db w ∧
   (res = Ok IntakeOutcome.Applied → False) ∧
   (res = Ok IntakeOutcome.Replayed →
      ∃ x, manifests (w_db w) !! cman_id m = Some x ∧ man_run x = cman_run m ∧
        man_owner x = cman_owner m ∧ man_sha256 x = cman_sha256 m)).
Proof.
  rewrite /commit_manifest. intros [([value operation]&w1&Hc&Hk)|(e&Hc&->)]%bind_inv.
  2:{ right. rewrite /lift in Hc. simplify_eq. done. }
  apply lift_inv in Hc as [Hc ->].
  apply bind_inv in Hk as [(a&w2&Ht&Hl)|(e&Ht&->)].
  2:{ right. apply transact_Err in Ht. done. }
  rewrite /lift in Hl. simplify_eq.
  apply transact_inv in Ht as [(a'&w1&w3&Heq&Hdb&Hnow&Hb&->)|(->&[(a'&w1&w3&Heq&Hdb&Hnow&Hb)|(?&?)])];
    [| |done]; simplify_eq.
  - step Hb as sc w4 [Hsc%ok_or_Ok%i32_of_count_Some ->]%lift_inv.
    step Hb as cc w4 [Hcc%ok_or_Ok%i32_of_count_Some ->]%lift_inv. subst sc cc.
    step_sql Hb as ins w4 Hins Hn4. case_match.
    { step_sql Hb as ex w5 Hex Hn5. case_match; by apply ret_inv in Hb as [? _]. }
    step_sql Hb as u w5 Hsrc Hn5. step Hb as oid w6 (Hd6&Hn6&_)%now_v7_inv.
    step_sql Hb as u2 w7 Hout Hn7. step_sql Hb as n w8 Hupd Hn8.
    case_match eqn:Hone; [by apply fail_inv in Hb|]. apply ret_inv in Hb as [? ->].
    simplify_eq. apply negb_false_iff, Nat.eqb_eq in Hone.
    destruct ins; [|done].
    apply insert_manifest_spec in Hins as [(?&_)|(_&Hm&_&Hun&Hs1&Hs2&Hw4)]; [done|].
    apply insert_manifest_sources_spec in Hsrc as (_&_&Hw5). rewrite Hd6 Hw5 Hw4 /= in Hout.
    apply insert_outbox_strict_spec in Hout as (Ho&Hw7&_). rewrite Hw7 /= in Hupd.
    apply update_run_in_one in Hupd as (r&Hr&Hro&Hrs&Hw8); [|done]. simpl in *.
    left. split; [done|]. exists value, operation, oid, r. rewrite -Hdb.
    split_and!; try done; try lia. rewrite Hw8 /manifest_committed.
    by replace (w_now w7) with (w_now w) by congruence;
      replace (w_now w6) with (w_now w) by congruence;
      replace (w_now w1) with (w_now w) by congruence.
  - right. split; [done|].
    destruct Hb as [Hb|Hb].
    all: step Hb as sc w4 [_ ->]%lift_inv; step Hb as cc w4 [_ ->]%lift_inv;
      step_sql Hb as ins w4 Hins Hn4; destruct ins; simpl in Hb.
    1,3: step_sql Hb as u w5 Hsrc Hn5; step Hb as oid w6 _; step_sql Hb as u2 w7 Hout Hn7;
      step_sql Hb as n w8 Hupd Hn8; case_match; [by apply fail_inv in Hb|by apply ret_inv in Hb as [? _]].
    + apply insert_manifest_spec in Hins as [(_&Hd4&_)|(?&_)]; [|done].
      step_sql Hb as ex w5 Hex Hn5. rewrite /read in Hex. simplify_eq.
      case_match eqn:Hsame; apply ret_inv in Hb as [Heq _]; simplify_eq; [|done].
      split; [done|]. intros _. rewrite Hd4 Hdb in Hsame. by apply stored_manifest_same.
    + step_sql Hb as ex w5 Hex Hn5. case_match; by apply ret_inv in Hb as [Heq _].
Qed.

(** A run that left an open state for a terminal one, with its report. *)
Definition run_finished (run_id owner : uuid) (f : run_row → run_row) (status : OperationStatus.t)
    (d d' : db) : Prop :=
  ∃ r, runs d !! run_id = Some r ∧ run_owner r = owner ∧ run_state r ∈ open_states ∧
    d' = with_outbox (with_runs d (<[run_id := f r]> (runs d))) (outbox d') ∧
    outbox_reports r status d d'.

(** The common body of [complete_empty_run] and [fail_run]. *)
Lemma finish_run_inv run_id owner f status (k : uuid → M CoordinatorError.t unit) w res w' :
  (∀ now r, run_owner (f now r) = run_owner r ∧ run_trigger (f now r) = run_trigger r ∧
     run_operation (f now r) = run_operation r) →
  (∀ operation w u w', k operation w = (Ok u, w') →
     report_queued operation status (w_db w) (w_db w') ∧ w_now w' = w_now w) →
  transact Storage (
    changed ← sql Storage (update_runs (run_in run_id owner open_states) f);
    if negb (changed =? 1)%nat then fail Invalid
    else
      owned ← report_error (on_demand_operation run_id owner);
      _ ← match owned with Some operation => k operation | None => mret tt end;
      mret (Commit tt)) w = (res, w') →
  (res = Ok tt ∧ run_finished run_id owner (f (w_now w)) status (w_db w) (w_db w')) ∨
  (w_db w' = w_db w ∧ ∃ e, res = Err e).
Proof.
  intros Hf Hk.
  intros [(a&w1&w2&->&Hdb&Hnow&Hb&->)|(->&[(a&w1&w2&->&Hdb&Hnow&Hb)|(e&->)])]%transact_inv;
    [| |by eauto].
  - left. destruct a. split; [done|].
    step_sql Hb as n w3 Hupd Hn3. case_match eqn:Hone; [by apply fail_inv in Hb|].
    apply negb_false_iff, Nat.eqb_eq in Hone.
    apply update_run_in_one in Hupd as (r&Hr&Hro&Hrs&Hd3); [|done].
    step Hb as owned w4 Hown%on_err_inv. step Hb as u w5 Hrep. apply ret_inv in Hb as [_ ->].
    destruct (Hf (w_now w1) r) as (Hfo&Hft&Hfop).
    assert (runs (w_db w3) !! run_id = Some (f (w_now w1) r)) as Hr3
      by by rewrite Hd3 /= lookup_insert_eq.
    destruct (owned_report_queued k run_id owner status _ _ _ _ _ _ Hown Hrep Hr3) as [Hq _];
      [congruence|intros; by eapply Hk|].
    apply run_report_queued_outbox in Hq as [Hd5 Hq].
    exists r. rewrite -Hdb -Hnow. split_and!; [done..| |].
    + by rewrite Hd5 Hd3.
    + rewrite /outbox_reports Hft Hfop Hd3 /= in Hq. done.
  - exfalso. destruct Hb as [Hb|Hb].
    all: step_sql Hb as n w3 Hupd Hn3; case_match; [by apply fail_inv in Hb|];
      step Hb as owned w4 Hown; step Hb as u w5 Hrep; by apply ret_inv in Hb as [? _].
Qed.

Lemma complete_empty_run_inv run_id owner w res w' :
  complete_empty_run run_id owner w = (res, w') →
  (res = Ok tt ∧ run_finished run_id owner (set_state RunState.Completed (w_now w))
     OperationStatus.Succeeded (w_db w) (w_db w')) ∨
  (w_db w' = w_db w ∧ ∃ e, res = Err e).
Proof.
  apply (finish_run_inv run_id owner (set_state RunState.Completed)); [done|].
  intros operation w0 u w1 Hw. step Hw as row w2 [Hrow%report_new_about ->]%on_err_inv%lift_inv.
  apply on_err_inv in Hw. by eapply enqueue_queued.
Qed.

Lemma fail_run_inv run_id owner failure w res w' :
  fail_run run_id owner failure w = (res, w') →
  (res = Ok tt ∧ run_finished run_id owner (set_failed (RunFailure.class failure) (w_now w))
     OperationStatus.Failed (w_db w) (w_db w')) ∨
  (w_db w' = w_db w ∧ ∃ e, res = Err e).
Proof.
  apply (finish_run_inv run_id owner (set_failed (RunFailure.class failure))); [done|].
  intros operation w0 u w1 Hw. step Hw as row w2 [Hrow%report_new_about ->]%on_err_inv%lift_inv.
  step Hw as row2 w2 [Hrow2 ->]%on_err_inv%lift_inv.
  apply on_err_inv in Hw. eapply enqueue_queued; [done|]. by eapply with_error_about.
Qed.

Lemma insert_result_spec result_id row d u d' :
  insert_result result_id row d = Ok (u, d') →
  result_row_allowed row = true ∧ is_Some (runs d !! res_run row) ∧
  is_Some (manifests d !! res_manifest row) ∧
  results d !! result_id = None ∧
  (∀ k r, results d !! k = Some r → res_run r ≠ res_run row ∧ res_manifest r ≠ res_manifest row) ∧
  d' = with_results d (<[result_id := row]> (results d)).
Proof.
  rewrite /insert_result. case_match eqn:Hg; [|done].
  apply andb_prop in Hg as [Hg Hu%negb_true_iff]. apply andb_prop in Hg as [Hg Hm%bool_decide_eq_true].
  apply andb_prop in Hg as [Ha Hr%bool_decide_eq_true].
  rewrite any_where_false in Hu. intros; simplify_eq. split_and!; try done.
  - destruct (results d !! result_id) as [x|] eqn:Hx; [|done]. specialize (Hu _ _ Hx).
    rewrite !orb_false_iff !bool_decide_eq_false in Hu. tauto.
  - intros k r Hk. specialize (Hu _ _ Hk). rewrite !orb_false_iff !bool_decide_eq_false in Hu. tauto.
Qed.

(** The database after a settlement: the run is terminal with its result, the message is handled,
    an on-demand run has its report. *)
Definition settled (message_id : uuid) (subject key sha : string) (run_id result_id : uuid)
    (r' : run_row) (row : result_row) (status : OperationStatus.t) (now : Z) (d d' : db) : Prop :=
  d' = Db (channels d) (subscriptions d) (revisions d) (<[run_id := r']> (runs d)) (manifests d)
         (manifest_sources d) (<[result_id := row]> (results d))
         (<[message_id := InboxRow subject key sha InboxState.Completed now (Some now) None]> (inbox d))
         (outbox d') (leases d) ∧
  outbox_reports r' status d d' ∧
  ¬ seen message_id subject key d ∧
  results d !! result_id = None ∧
  (∀ k x, results d !! k = Some x → res_run x ≠ res_run row ∧ res_manifest x ≠ res_manifest row) ∧
  result_row_allowed row = true.

(** The steps of both settlements after the claim. *)
Lemma settle_steps message_id subject key sha result_id row run_id f status
    (d0 d1 d2 d3 d4 d5 : db) now n u r :
  ¬ seen message_id subject key d0 →
  d1 = with_inbox d0 (<[message_id := InboxRow subject key sha InboxState.Processing now None None]>
         (inbox d0)) →
  insert_result result_id row d1 = Ok (u, d2) →
  runs d2 !! run_id = Some r →
  d3 = with_runs d2 (<[run_id := f now r]> (runs d2)) →
  run_report_queued (f now r) status d3 d4 →
  complete_inbox message_id now d4 = Ok (n, d5) →
  settled message_id subject key sha run_id result_id (f now r) row status now d0 d5.
Proof.
  intros Hseen -> (Ha&_&_&Hnone&Hnew&->)%insert_result_spec Hr -> Hq Hc. simpl in *.
  apply run_report_queued_outbox in Hq as [Hd4 Hq].
  apply (complete_inbox_claimed _ _ _ _ _ (InboxRow subject key sha InboxState.Processing now None None))
    in Hc; [|rewrite Hd4 /=; apply lookup_insert_eq].
  rewrite Hd4 /= in Hc. split_and!; try done.
  - rewrite Hc /with_inbox /=. by rewrite insert_insert_eq.
  - rewrite Hc. revert Hq. rewrite /outbox_reports /reported /=. done.
Qed.

Lemma apply_completion_inv message_id completion fact analysis_id incomplete w res w' :
  apply_completion message_id completion fact analysis_id incomplete w = (res, w') →
  let owner := tenant_user (fc_owner fact) in
  let outcome := completion_outcome (fc_omitted_count fact) incomplete in
  (res = Ok IntakeOutcome.Applied ∧
   ∃ r mid m, runs (w_db w) !! fc_run fact = Some r ∧ run_owner r = owner ∧
     run_state r = RunState.WaitingRecap ∧
     manifests (w_db w) !! mid = Some m ∧ man_run m = fc_run fact ∧
     settled message_id COMPLETED_SUBJECT (uuid_text (fc_result fact)) (sha256_digest_hex completion)
       (fc_run fact) (fc_result fact) (set_state (Outcome.run_state outcome) (w_now w) r)
       (ResultRow (fc_run fact) mid owner outcome (Some analysis_id)
          (Some (fc_result_digest_hex fact)) (fc_included_count fact) None (w_now w))
       (completion_status (fc_omitted_count fact) incomplete) (w_now w) (w_db w) (w_db w')) ∨
  (w_db w' = w_db w ∧ res ≠ Ok IntakeOutcome.Applied ∧
   (res = Ok IntakeOutcome.Replayed →
    seen message_id COMPLETED_SUBJECT (uuid_text (fc_result fact)) (w_db w))).
Proof.
  intros Hw owner outcome. revert Hw. rewrite /apply_completion -/owner -/outcome.
  intros [(a&w1&w2&->&Hdb&Hnow&Hb&->)|(->&[(a&w1&w2&->&Hdb&Hnow&Hb)|(e&->)])]%transact_inv;
    [| |by right].
  - step_sql Hb as ins w3 Hcl Hn3. apply claim_spec in Hcl as (_&[(->&_)|(->&Hns&Hd3)]);
      [by apply ret_inv in Hb as [? _]|]. simpl in Hb.
    step_sql Hb as n w4 Hres Hn4. case_match eqn:Hone; [by apply fail_inv in Hb|].
    apply negb_false_iff, Nat.eqb_eq in Hone. subst n.
    destruct (runs (w_db w3) !! fc_run fact) as [r|] eqn:Hr; [|done].
    destruct (find_where _ _) as [[mid m]|] eqn:Hf; [|done].
    case_bool_decide as Ho; [|done]. rewrite /mbind /result_bind in Hres.
    destruct (insert_result _ _ _) as [[u0 d4]|] eqn:Hins; [|done]. simplify_eq.
    apply find_where_Some in Hf as [Hm Hmr%bool_decide_eq_true].
    step_sql Hb as n w5 Hupd Hn5. case_match eqn:Hone; [by apply fail_inv in Hb|].
    apply negb_false_iff, Nat.eqb_eq in Hone.
    apply update_run_in_one in Hupd as (r1&Hr1&Hro&Hrs&Hd5); [|done].
    step Hb as u1 w6 Hrep%on_err_inv. step_sql Hb as n6 w7 Hcomp Hn7.
    apply ret_inv in Hb as [Ha ->]. simplify_eq. left. split; [done|].
    pose proof Hins as (_&_&_&_&_&Hd4)%insert_result_spec.
    assert (r1 = r) as -> by (rewrite Hd4 /= in Hr1; congruence).
    eapply report_completion_queued in Hrep as [Hq Hn6];
      [|by rewrite Hd5 /=; apply lookup_insert_eq|done].
    exists r, mid, m. rewrite -Hdb. rewrite Hd3 /= in Hr Hm. split_and!; try done.
    { by apply list_elem_of_singleton in Hrs. }
    rewrite -Ho -Hnow.
    replace (w_now w6) with (w_now w1) in Hcomp by congruence.
    replace (w_now w4) with (w_now w1) in Hd5, Hq by congruence.
    replace (w_now w3) with (w_now w1) in Hins by congruence.
    eapply (settle_steps _ _ _ _ _ _ _ (set_state _));
      [done..|exact Hcomp].
  - right. split; [done|].
    destruct Hb as [Hb|Hb]; step_sql Hb as ins w3 Hcl Hn3;
      apply claim_spec in Hcl as (_&[(->&_&Hs)|(->&Hns&Hd3)]); simpl in Hb.
    2,4: step_sql Hb as n w4 Hres Hn4; case_match; [by apply fail_inv in Hb|];
      step_sql Hb as n5 w5 Hupd Hn5; case_match; [by apply fail_inv in Hb|];
      step Hb as u1 w6 Hrep; step Hb as n6 w7 Hcomp; by apply ret_inv in Hb as [? _].
    all: apply ret_inv in Hb as [Ha _]; simplify_eq. rewrite -Hdb. done.
Qed.

Lemma apply_failure_inv message_id failure fact manifest_id w res w' :
  apply_failure message_id failure fact manifest_id w = (res, w') →
  let owner := tenant_user (ff_owner fact) in
  let class := (classify_failure (ff_code fact)).1 in
  (res = Ok IntakeOutcome.Applied ∧
   ∃ r result_id, runs (w_db w) !! ff_run fact = Some r ∧ run_owner r = owner ∧
     run_state r = RunState.WaitingRecap ∧ is_Some (manifests (w_db w) !! manifest_id) ∧
     settled message_id FAILED_SUBJECT (uuid_text (ff_run fact)) (sha256_digest_hex failure)
       (ff_run fact) result_id (set_failed class (w_now w) r)
       (ResultRow (ff_run fact) manifest_id owner Outcome.Failed None None 0 (Some class) (w_now w))
       OperationStatus.Failed (w_now w) (w_db w) (w_db w')) ∨
  (w_db w' = w_db w ∧ res ≠ Ok IntakeOutcome.Applied ∧
   (res = Ok IntakeOutcome.Replayed →
    seen message_id FAILED_SUBJECT (uuid_text (ff_run fact)) (w_db w))).
Proof.
  intros Hw. cbn zeta. revert Hw. rewrite /apply_failure.
  destruct (classify_failure (ff_code fact)) as [class retryable]. simpl.
  intros [(a&w1&w2&->&Hdb&Hnow&Hb&->)|(->&[(a&w1&w2&->&Hdb&Hnow&Hb)|(e&->)])]%transact_inv;
    [| |by right].
  - step_sql Hb as ins w3 Hcl Hn3. apply claim_spec in Hcl as (_&[(->&_)|(->&Hns&Hd3)]);
      [by apply ret_inv in Hb as [? _]|]. simpl in Hb.
    step Hb as result_id w4 (Hd4&Hn4&_)%now_v7_inv. step_sql Hb as u w5 Hins Hn5.
    step_sql Hb as n w6 Hupd Hn6. case_match eqn:Hone; [by apply fail_inv in Hb|].
    apply negb_false_iff, Nat.eqb_eq in Hone.
    apply update_run_in_one in Hupd as (r&Hr&Hro&Hrs&Hd6); [|done].
    step Hb as u1 w7 Hrep%on_err_inv. step_sql Hb as n7 w8 Hcomp Hn8.
    apply ret_inv in Hb as [Ha ->]. simplify_eq. left. split; [done|].
    rewrite Hd4 in Hins.
    pose proof Hins as (_&_&Hmid&_&_&Hd5)%insert_result_spec.
    eapply report_recap_failure_queued in Hrep as [Hq Hn7];
      [|by rewrite Hd6 /=; apply lookup_insert_eq|done].
    exists r, result_id. rewrite -Hdb. rewrite Hd3 /= in Hmid. pose proof Hr as Hr1.
    rewrite Hd5 Hd3 /= in Hr1. split_and!; try done.
    { by apply list_elem_of_singleton in Hrs. }
    rewrite -Hnow.
    replace (w_now w7) with (w_now w1) in Hcomp by congruence.
    replace (w_now w5) with (w_now w1) in Hd6, Hq by congruence.
    replace (w_now w4) with (w_now w1) in Hins by congruence.
    eapply (settle_steps _ _ _ _ _ _ _ (set_failed _)); [done..|exact Hcomp].
  - right. split; [done|].
    destruct Hb as [Hb|Hb]; step_sql Hb as ins w3 Hcl Hn3;
      apply claim_spec in Hcl as (_&[(->&_&Hs)|(->&Hns&Hd3)]); simpl in Hb.
    2,4: step Hb as result_id w4 _; step_sql Hb as u w5 Hins Hn5;
      step_sql Hb as n w6 Hupd Hn6; case_match; [by apply fail_inv in Hb|];
      step Hb as u1 w7 Hrep; step Hb as n7 w8 Hcomp; by apply ret_inv in Hb as [? _].
    all: apply ret_inv in Hb as [Ha _]; simplify_eq. rewrite -Hdb. done.
Qed.

Lemma durable_evidence_Some run_id owner d r mid m :
  durable_evidence run_id owner d = Some (r, mid, m) →
  runs d !! run_id = Some r ∧ run_owner r = owner ∧ manifests d !! mid = Some m ∧
  man_run m = run_id ∧ man_owner m = owner.
Proof.
  rewrite /durable_evidence /mbind /option_bind. destruct (runs d !! run_id) as [r0|] eqn:Hr; [|done].
  case_match eqn:Ho; [done|]. apply negb_false_iff, bool_decide_eq_true in Ho.
  destruct (find_where _ _) as [[k x]|] eqn:Hf; [|done]. intros; simplify_eq.
  apply find_where_Some in Hf as [Hm Hp]. apply andb_prop in Hp as [Hp1 Hp2].
  rewrite /manifest_of_run in Hp1. apply bool_decide_eq_true in Hp1, Hp2. done.
Qed.

(** The acquisition of the run was incomplete, as [settle_completion] reads it. *)
Definition acquisition_incomplete (run_id owner : uuid) (d : db) : bool :=
  match runs d !! run_id with
  | Some r => bool_decide (run_owner r = owner) && run_incomplete r
  | None => false
  end.

Lemma settle_completion_inv message_id completion w res w' :
  settle_completion message_id completion w = (res, w') →
  (∃ fact analysis_id r m0 mid m,
     res = Ok IntakeOutcome.Applied ∧
     decode_recap_completed completion = Some fact ∧ validate_recap_completed fact = true ∧
     analysis_id_of (fc_analysis_ref fact) = Some analysis_id ∧
     runs (w_db w) !! fc_run fact = Some r ∧ run_owner r = tenant_user (fc_owner fact) ∧
     (∃ k0, manifests (w_db w) !! k0 = Some m0 ∧ man_owner m0 = tenant_user (fc_owner fact)) ∧
     man_run m0 = fc_run fact ∧ completion_matches fact r m0 = true ∧
     manifests (w_db w) !! mid = Some m ∧ man_run m = fc_run fact ∧
     settled message_id COMPLETED_SUBJECT (uuid_text (fc_result fact)) (sha256_digest_hex completion)
       (fc_run fact) (fc_result fact) (set_state
          (Outcome.run_state (completion_outcome (fc_omitted_count fact) (run_incomplete r)))
          (w_now w) r)
       (ResultRow (fc_run fact) mid (tenant_user (fc_owner fact))
          (completion_outcome (fc_omitted_count fact) (run_incomplete r)) (Some analysis_id)
          (Some (fc_result_digest_hex fact)) (fc_included_count fact) None (w_now w))
       (completion_status (fc_omitted_count fact) (run_incomplete r)) (w_now w) (w_db w) (w_db w')) ∨
  (w_db w' = w_db w ∧ res ≠ Ok IntakeOutcome.Applied).
Proof.
  rewrite /settle_completion. intros Hw.
  apply bind_quiet in Hw as [(fact&w1&[Hdec%ok_or_Ok _]%lift_inv&Hd1&Hn1&Hw)|(?&?&->)];
    [|by right|apply quiet_lift].
  case_match eqn:Hval; [apply fail_eq in Hw as [-> ->]; by right|]. apply negb_false_iff in Hval.
  apply bind_quiet in Hw as [(an&w2&[Han%ok_or_Ok _]%lift_inv&Hd2&Hn2&Hw)|(Hd&?&->)];
    [|right; split; congruence|apply quiet_lift].
  apply bind_quiet in Hw as [(inc&w3&[Hinc _]%sql_inv&Hd3&Hn3&Hw)|(Hd&?&->)];
    [|right; split; congruence|apply quiet_read].
  rewrite /read in Hinc. injection Hinc as Hinc _.
  apply bind_quiet in Hw as [(ex&w4&_&Hd4&Hn4&Hw)|(Hd&?&->)]; [|right; split; congruence|].
  2:{ apply quiet_sql. rewrite /stored_result. intros. repeat case_match; by simplify_eq. }
  destruct ex as [stored|].
  { right. destruct (same_result _ _ _ _); [apply ret_eq in Hw as [-> ->]|apply fail_eq in Hw as [-> ->]]; split; congruence. }
  apply bind_quiet in Hw as [(dur&w5&[Hdur _]%sql_inv&Hd5&Hn5&Hw)|(Hd&?&->)];
    [|right; split; congruence|apply quiet_read].
  rewrite /read in Hdur. injection Hdur as Hdur _.
  destruct dur as [[[r mid0] m0]|]; [|apply fail_eq in Hw as [-> ->]; right; split; congruence].
  apply durable_evidence_Some in Hdur as (Hr&Hro&Hm0&Hmr0&Hmo0).
  destruct (completion_matches fact r m0) eqn:Hmatch;
    [|apply fail_eq in Hw as [-> ->]; right; split; congruence]. simpl in Hw.
  assert (w_db w5 = w_db w) as Hd by congruence.
  rewrite Hd2 Hd1 in Hinc. rewrite Hd4 Hd3 Hd2 Hd1 in Hr, Hm0.
  rewrite Hr bool_decide_eq_true_2 //= in Hinc. subst inc.
  apply apply_completion_inv in Hw as [(->&r1&mid&m&Hr1&_&_&Hm&Hmr&Hset)|(Hd'&?&_)];
    [|right; split; congruence].
  rewrite Hd in Hr1, Hm, Hset. simplify_eq. left.
  replace (w_now w5) with (w_now w) in Hset by congruence.
  exists fact, an, r, m0, mid, m. split_and!; eauto.
Qed.

Lemma settle_failure_inv message_id failure w res w' :
  settle_failure message_id failure w = (res, w') →
  (∃ fact r mid m result_id,
     res = Ok IntakeOutcome.Applied ∧
     decode_recap_failed failure = Some fact ∧ validate_recap_failed fact = true ∧
     runs (w_db w) !! ff_run fact = Some r ∧ run_owner r = tenant_user (ff_owner fact) ∧
     run_state r = RunState.WaitingRecap ∧
     manifests (w_db w) !! mid = Some m ∧ man_run m = ff_run fact ∧
     ff_manifest_digest_hex fact = man_sha256 m ∧
     settled message_id FAILED_SUBJECT (uuid_text (ff_run fact)) (sha256_digest_hex failure)
       (ff_run fact) result_id (set_failed (classify_failure (ff_code fact)).1 (w_now w) r)
       (ResultRow (ff_run fact) mid (tenant_user (ff_owner fact)) Outcome.Failed None None 0
          (Some (classify_failure (ff_code fact)).1) (w_now w))
       OperationStatus.Failed (w_now w) (w_db w) (w_db w')) ∨
  (w_db w' = w_db w ∧ res ≠ Ok IntakeOutcome.Applied).
Proof.
  rewrite /settle_failure. intros Hw.
  apply bind_quiet in Hw as [(fact&w1&[Hdec%ok_or_Ok _]%lift_inv&Hd1&Hn1&Hw)|(?&?&->)];
    [|by right|apply quiet_lift].
  case_match eqn:Hval; [apply fail_eq in Hw as [-> ->]; by right|]. apply negb_false_iff in Hval.
  apply bind_quiet in Hw as [(dur&w2&[Hdur _]%sql_inv&Hd2&Hn2&Hw)|(Hd&?&->)];
    [|right; split; congruence|apply quiet_read].
  rewrite /read in Hdur. injection Hdur as Hdur _.
  destruct dur as [[[r mid] m]|]; [|apply fail_eq in Hw as [-> ->]; right; split; congruence].
  apply durable_evidence_Some in Hdur as (Hr&Hro&Hm&Hmr&_).
  case_match; [apply ret_eq in Hw as [-> ->]; right; split; congruence|].
  case_match eqn:Hmatch; [apply fail_eq in Hw as [-> ->]; right; split; congruence|].
  apply negb_false_iff, andb_prop in Hmatch as [Hst%bool_decide_eq_true Hdig%bool_decide_eq_true].
  assert (w_db w2 = w_db w) as Hd by congruence. rewrite Hd1 in Hr, Hm.
  apply apply_failure_inv in Hw as [(->&r1&result_id&Hr1&_&_&_&Hset)|(Hd'&?&_)];
    [|right; split; congruence].
  rewrite Hd in Hr1, Hset. simplify_eq. left.
  replace (w_now w2) with (w_now w) in Hset by congruence.
  exists fact, r, mid, m, result_id. split_and!; eauto.
Qed.

(** ** Settlements that succeed *)

Lemma update_run_in_hit run_id owner states f now d r :
  runs d !! run_id = Some r → run_owner r = owner → run_state r ∈ states →
  update_runs (run_in run_id owner states) f now d
    = Ok (1%nat, with_runs d (<[run_id := f now r]> (runs d))).
Proof.
  intros Hr Ho Hs. assert (run_in run_id owner states run_id r = true) as Hp by by apply run_in_true.
  rewrite /update_runs (count_where_key _ _ run_id); [|apply run_in_key].
  rewrite (update_where_key _ _ _ run_id); [|apply run_in_key]. by rewrite Hr Hp.
Qed.

Lemma insert_result_fresh result_id row d :
  result_row_allowed row = true → is_Some (runs d !! res_run row) →
  is_Some (manifests d !! res_manifest row) →
  (∀ k x, results d !! k = Some x →
     k ≠ result_id ∧ res_run x ≠ res_run row ∧ res_manifest x ≠ res_manifest row) →
  insert_result result_id row d = Ok (tt, with_results d (<[result_id := row]> (results d))).
Proof.
  intros Ha Hr Hm Hu. rewrite /insert_result Ha !bool_decide_eq_true_2 //=.
  rewrite (proj2 (any_where_false _ _)); [done|]. intros k x (?&?&?)%Hu.
  by rewrite !bool_decide_eq_false_2.
Qed.

(** Run [run] of [owner] waits for its recap under manifest [m], its only one, and has no result. *)
Record awaits (run owner : uuid) (r : run_row) (mid : uuid) (m : manifest_row) (d : db) : Prop := {
  aw_run : runs d !! run = Some r;
  aw_owner : run_owner r = owner;
  aw_state : run_state r = RunState.WaitingRecap;
  aw_manifest : manifests d !! mid = Some m;
  aw_of_run : man_run m = run;
  aw_of_owner : man_owner m = owner;
  aw_only k x : manifests d !! k = Some x → man_run x = run → k = mid;
  aw_none k x : results d !! k = Some x → res_run x ≠ run ∧ res_manifest x ≠ mid }.

Lemma find_where_only {A} (p : uuid → A → bool) (t : gmap uuid A) k v :
  t !! k = Some v → p k v = true → (∀ k' v', t !! k' = Some v' → p k' v' = true → k' = k) →
  find_where p t = Some (k, v).
Proof.
  intros Hk Hp Hu. destruct (find_where p t) as [[k' v']|] eqn:Hf.
  - apply find_where_Some in Hf as [Hk' Hp']. assert (k' = k) as -> by eauto. congruence.
  - rewrite find_where_None in Hf. by rewrite (Hf _ _ Hk) in Hp.
Qed.

Section Awaited.
Context {run owner : uuid} {r : run_row} {mid : uuid} {m : manifest_row} {d : db}.
Hypothesis Hawaits : awaits run owner r mid m d.

Lemma awaited_manifest : find_where (manifest_of_run run) (manifests d) = Some (mid, m).
Proof.
  destruct Hawaits. apply find_where_only; [done|by apply bool_decide_eq_true_2|].
  intros k x Hk Hr%bool_decide_eq_true. eauto.
Qed.

Lemma awaited_evidence : durable_evidence run owner d = Some (r, mid, m).
Proof.
  destruct Hawaits. rewrite /durable_evidence aw_run0 /= bool_decide_eq_true_2 //=.
  rewrite (find_where_only _ _ mid m) //.
  - by rewrite /manifest_of_run !bool_decide_eq_true_2.
  - intros k x Hk [Hr%bool_decide_eq_true _]%andb_prop. eauto.
Qed.
End Awaited.

(** What a completion must carry, besides naming its run exactly. *)
Record sound_completion (completion : string) (fact : recap_completed) : Prop := {
  sc_decode : decode_recap_completed completion = Some fact;
  sc_valid : validate_recap_completed fact = true;
  sc_analysis : is_Some (analysis_id_of (fc_analysis_ref fact));
  sc_result : is_Some (parse_entity_ref (fc_result_ref fact));
  sc_digest : hex64 (fc_result_digest_hex fact) = true;
  sc_included : 0 ≤ fc_included_count fact }.

Lemma apply_completion_succeeds `{!ExternalLaws} `{!ReportLaws} message_id completion fact analysis_id
    incomplete r mid m w :
  able w → sound_completion completion fact →
  awaits (fc_run fact) (tenant_user (fc_owner fact)) r mid m (w_db w) →
  ¬ seen message_id COMPLETED_SUBJECT (uuid_text (fc_result fact)) (w_db w) →
  results (w_db w) !! fc_result fact = None →
  succeeds (apply_completion message_id completion fact analysis_id incomplete) w
    (λ o w', o = IntakeOutcome.Applied ∧ able w').
Proof.
  intros Ha [_ _ _ Href Hhex Hinc] Haw Hns Hnew. pose proof Haw as [Hr Ho Hs Hm Hmr _ _ Hnone].
  rewrite /apply_completion. apply succeeds_commit; [apply Ha|].
  eapply succeeds_bind_sql; [apply Ha|by apply claim_unseen; [apply sha256_digest_length|]|].
  simpl. eapply succeeds_bind_sql; [apply Ha| |].
  { rewrite /= Hr (awaited_manifest Haw) Ho bool_decide_eq_true_2 //=.
    rewrite insert_result_fresh /=; [done| |by rewrite Hr|by rewrite Hm|].
    - rewrite /result_row_allowed /= Hhex (proj2 (Z.leb_le _ _)) //. rewrite /completion_outcome. by destruct (_ && negb incomplete).
    - intros k x Hk. split; [|by eapply Hnone]. intros ->. by rewrite Hnew in Hk. }
  simpl. eapply succeeds_bind_sql; [apply Ha| |].
  { apply update_run_in_hit; simpl; [exact Hr|exact Ho|rewrite Hs; by left]. }
  simpl. eapply succeeds_bind.
  { apply succeeds_on_err. apply report_completion_succeeds; [|exact Href].
    do 3 (apply able_set_db; [done|]). exact Ha. }
  intros u w1 _ _ [Ha1 Hd1]. eapply succeeds_bind_sql; [apply Ha1|done|].
  apply succeeds_ret. eexists. split_and!; [done|done|]. by apply able_set_db.
Qed.

(** A sound completion for a waiting run is applied. *)
Lemma settle_completion_succeeds `{!ExternalLaws} `{!ReportLaws} message_id completion fact r mid m w :
  able w → sound_completion completion fact →
  awaits (fc_run fact) (tenant_user (fc_owner fact)) r mid m (w_db w) →
  completion_matches fact r m = true →
  ¬ seen message_id COMPLETED_SUBJECT (uuid_text (fc_result fact)) (w_db w) →
  results (w_db w) !! fc_result fact = None →
  succeeds (settle_completion message_id completion) w (λ o w', o = IntakeOutcome.Applied ∧ able w').
Proof.
  intros Ha Hsound Haw Hmatch Hns Hnew. pose proof Hsound as [Hdec Hval [an Han] _ _ _].
  rewrite /settle_completion. eapply succeeds_bind_lift; [by rewrite Hdec|]. rewrite Hval /=.
  eapply succeeds_bind_lift; [by rewrite Han|].
  eapply succeeds_bind_sql; [apply Ha|done|].
  eapply succeeds_bind_sql; [apply Ha|by rewrite /stored_result /= Hnew|]. cbv beta iota.
  eapply succeeds_bind_sql; [apply Ha|by rewrite /read /= (awaited_evidence Haw)|].
  cbv beta iota. rewrite Hmatch /=. eapply apply_completion_succeeds; [|done..]. by do 3 (apply able_set_db; [done|]).
Qed.

Lemma failure_code_dotted code : dotted ("channel_digest.recap." +:+ (classify_failure code).1) = true.
Proof. by destruct code. Qed.

Lemma apply_failure_succeeds `{!ExternalLaws} `{!ReportLaws} message_id failure fact r mid m w :
  able w → fresh_in w (results (w_db w)) →
  awaits (ff_run fact) (tenant_user (ff_owner fact)) r mid m (w_db w) →
  ¬ seen message_id FAILED_SUBJECT (uuid_text (ff_run fact)) (w_db w) →
  succeeds (apply_failure message_id failure fact mid) w (λ o w', o = IntakeOutcome.Applied ∧ able w').
Proof.
  intros Ha Hnew [Hr Ho Hs Hm Hmr _ _ Hnone] Hns. rewrite /apply_failure.
  pose proof (failure_code_dotted (ff_code fact)) as Hcode.
  destruct (classify_failure (ff_code fact)) as [class retryable]. simpl in Hcode.
  apply succeeds_commit; [apply Ha|].
  eapply succeeds_bind_sql; [apply Ha|by apply claim_unseen; [apply sha256_digest_length|]|].
  simpl. apply succeeds_bind_now_v7.
  eapply succeeds_bind_sql; [apply Ha| |].
  { apply insert_result_fresh; [done|by rewrite /= Hr|by rewrite /= Hm|].
    intros k x Hk. split; [|by eapply Hnone]. intros ->. by rewrite /= fresh_in_next in Hk. }
  simpl. eapply succeeds_bind_sql; [apply Ha| |].
  { apply update_run_in_hit; simpl; [exact Hr|exact Ho|rewrite Hs; by left]. }
  simpl. eapply succeeds_bind.
  { apply succeeds_on_err. apply report_recap_failure_succeeds; [|exact Hcode].
    do 2 (apply able_set_db; [done|]). apply able_drawn. by apply able_set_db. }
  intros u w1 _ _ [Ha1 Hd1]. eapply succeeds_bind_sql; [apply Ha1|done|].
  apply succeeds_ret. eexists. split_and!; [done|done|]. by apply able_set_db.
Qed.

(** A failure fact for a waiting run is applied. *)
Lemma settle_failure_succeeds `{!ExternalLaws} `{!ReportLaws} message_id failure fact r mid m w :
  able w → fresh_in w (results (w_db w)) →
  decode_recap_failed failure = Some fact → validate_recap_failed fact = true →
  awaits (ff_run fact) (tenant_user (ff_owner fact)) r mid m (w_db w) →
  ff_manifest_digest_hex fact = man_sha256 m →
  ¬ seen message_id FAILED_SUBJECT (uuid_text (ff_run fact)) (w_db w) →
  succeeds (settle_failure message_id failure) w (λ o w', o = IntakeOutcome.Applied ∧ able w').
Proof.
  intros Ha Hnew Hdec Hval Haw Hdig Hns.
  rewrite /settle_failure. eapply succeeds_bind_lift; [by rewrite Hdec|]. rewrite Hval /=.
  eapply succeeds_bind_sql; [apply Ha|by rewrite /read /= (awaited_evidence Haw)|].
  cbv beta iota. pose proof (aw_state _ _ _ _ _ _ Haw) as Hs.
  rewrite bool_decide_eq_false_2; [|by rewrite Hs]. rewrite !bool_decide_eq_true_2 //=.
  eapply apply_failure_succeeds; [by apply able_set_db|done..].
Qed.

(** ** Properties *)

(** What [commit_manifest] asks of the manifest, the run and the store. *)
Record committable (m : canonical_manifest) (r : run_row) (outbox_id : uuid) (d : db) : Prop := {
  cb_run : runs d !! cman_run m = Some r;
  cb_owner : run_owner r = cman_owner m;
  cb_open : run_state r ∈ open_states;
  cb_sources : (1 ≤ cman_source_count m ≤ 100)%nat;
  cb_channels : (1 ≤ cman_channel_count m ≤ 20)%nat;
  cb_sha : String.length (cman_sha256 m) = 64%nat;
  cb_messages : NoDup (cman_messages m);
  cb_fresh : manifests d !! cman_id m = None;
  cb_none k x : manifests d !! k = Some x → man_run x ≠ cman_run m;
  cb_unlisted s : s ∈ manifest_sources d → s.1.1 ≠ cman_id m;
  cb_outbox_fresh : outbox d !! outbox_id = None;
  cb_unqueued k o : outbox d !! k = Some o → out_subject o = RECAP_SUBJECT →
    out_semantic_key o ≠ uuid_text (cman_run m) }.

Lemma insert_manifest_fresh mid row d :
  String.length (man_sha256 row) = 64%nat → 1 ≤ man_source_count row ≤ 100 →
  1 ≤ man_channel_count row ≤ 20 → manifests d !! mid = None → is_Some (runs d !! man_run row) →
  (∀ k x, manifests d !! k = Some x → man_run x ≠ man_run row) →
  insert_manifest mid row d = Ok (true, with_manifests d (<[mid := row]> (manifests d))).
Proof.
  intros Hl Hs Hc Hn [r Hr] Hu. rewrite /insert_manifest Hl Hn Hr.
  rewrite (proj2 (any_where_false _ _)).
  2:{ intros k x Hk. apply bool_decide_eq_false_2. by eapply Hu. }
  destruct Hs as [Hs1 Hs2], Hc as [Hc1 Hc2]. apply Z.leb_le in Hs1, Hs2, Hc1, Hc2.
  by rewrite Hs1 Hs2 Hc1 Hc2.
Qed.

Lemma insert_manifest_sources_fresh mid messages now d :
  NoDup messages → (∀ s, s ∈ manifest_sources d → s.1.1 ≠ mid) →
  insert_manifest_sources mid messages now d
    = Ok (tt, with_manifest_sources d
        (list_to_set ((λ m : uuid * Z, (mid, m.1, m.2)) <$> messages) ∪ manifest_sources d)).
Proof.
  intros Hnd Hu. rewrite /insert_manifest_sources bool_decide_eq_true_2.
  2:{ apply NoDup_fmap_2; [|done]. intros [] []; simpl; congruence. }
  case_match eqn:Hg; [done|]. apply not_true_iff_false in Hg. destruct Hg. simpl.
  apply forallb_forall. intros s Hs%list_elem_of_In. apply bool_decide_eq_true_2. intros Hin.
  apply Hu in Hin. apply list_elem_of_fmap in Hs as (x&->&_). done.
Qed.

Lemma insert_outbox_strict_fresh oid row d :
  out_subject row ∈ [RECAP_SUBJECT; REPORT_SUBJECT; REGISTRATION_SUBJECT] →
  outbox d !! oid = None →
  (∀ k o, outbox d !! k = Some o → out_subject o = out_subject row →
     out_semantic_key o ≠ out_semantic_key row) →
  insert_outbox_strict oid row d = Ok (tt, with_outbox d (<[oid := row]> (outbox d))).
Proof.
  intros Hs Hn Hu. rewrite /insert_outbox_strict /insert_outbox /outbox_subject_allowed.
  rewrite bool_decide_eq_true_2 //= (proj2 (any_where_false _ _)) ?Hn //.
  intros k o Hk. apply not_true_is_false. intros [??]%outbox_keyed_true. by eapply Hu.
Qed.

(** With the identity it draws. *)
Lemma commit_manifest_commits m bytes value operation r w :
  calm w →
  checked_recap_request m bytes = Ok (value, operation) →
  committable m r (w_uuids w (w_drawn w)) (w_db w) →
  ∃ w', commit_manifest m bytes w = (Ok IntakeOutcome.Applied, w') ∧ w_drawn w' = S (w_drawn w) ∧
    w_db w' = manifest_committed m operation value (w_uuids w (w_drawn w)) r (w_now w) (w_db w).
Proof.
  intros Hcalm Hreq []. eexists. rewrite /commit_manifest Hreq bind_lift_Ok.
  split; [erewrite bind_Ok; [reflexivity|eapply transact_calm; [done| |]]|split].
  - rewrite /i32_of_count. destruct (Z.ltb_spec (Z.of_nat (cman_source_count m)) (2 ^ 31)); [|lia].
    destruct (Z.ltb_spec (Z.of_nat (cman_channel_count m)) (2 ^ 31)); [|lia]. simpl ok_or.
    rewrite !bind_lift_Ok. erewrite bind_sql_calm; [|done|].
    2:{ apply insert_manifest_fresh; simpl; try done; try lia; by eexists. }
    cbv beta iota delta [negb]. erewrite bind_sql_calm; [|done|by apply insert_manifest_sources_fresh].
    rewrite bind_now_v7. erewrite bind_sql_calm; [|done|].
    2:{ apply insert_outbox_strict_fresh; simpl; [set_solver|done|done]. }
    erewrite bind_sql_calm; [|done|by eapply update_run_in_hit]. reflexivity.
  - done.
  - done.
  - done.
Qed.

(** Without a storage fault, a manifest whose recap request names it exactly, for an open run of
    its owner that has no manifest yet, is committed: the call answers [Applied] and leaves exactly
    the manifest row with its text, its message rows, one recap request under the run's key and the
    run in [waiting_recap], all in one transaction. *)
Lemma commit_manifest_applies m bytes value operation r w :
  calm w →
  checked_recap_request m bytes = Ok (value, operation) →
  committable m r (w_uuids w (w_drawn w)) (w_db w) →
  ∃ w', commit_manifest m bytes w = (Ok IntakeOutcome.Applied, w') ∧
    w_db w' = manifest_committed m operation value (w_uuids w (w_drawn w)) r (w_now w) (w_db w).
Proof.
  intros Hc Hreq Hcom. destruct (commit_manifest_commits m bytes value operation r w) as (w'&?&_&?); [done..|].
  by exists w'.
Qed.

(** Committing a manifest is atomic and exact, whatever fails on the way: the call either
    answers [Applied] and leaves exactly the committed database, or leaves the database untouched;
    it answers [Replayed] only for the manifest that is stored, by identity, owner and digest. *)
Lemma commit_manifest_atomic m bytes w res w' :
  commit_manifest m bytes w = (res, w') →
  match res with
  | Ok IntakeOutcome.Applied =>
      ∃ value operation outbox_id r,
        checked_recap_request m bytes = Ok (value, operation) ∧
        runs (w_db w) !! cman_run m = Some r ∧ run_owner r = cman_owner m ∧
        run_state r ∈ open_states ∧
        (∀ k x, manifests (w_db w) !! k = Some x → man_run x ≠ cman_run m) ∧
        1 ≤ Z.of_nat (cman_source_count m) ≤ 100 ∧ 1 ≤ Z.of_nat (cman_channel_count m) ≤ 20 ∧
        outbox (w_db w) !! outbox_id = None ∧
        w_db w' = manifest_committed m operation value outbox_id r (w_now w) (w_db w)
  | Ok IntakeOutcome.Replayed =>
      w_db w' = w_db w ∧
      ∃ x, manifests (w_db w) !! cman_id m = Some x ∧ man_run x = cman_run m ∧
        man_owner x = cman_owner m ∧ man_sha256 x = cman_sha256 m
  | Err _ => w_db w' = w_db w
  end.
Proof.
  intros [(->&value&op&oid&r&?&?&?&?&?&?&?&?&?&?)|(Hd&Hna&Hre)]%commit_manifest_inv.
  - exists value, op, oid, r. done.
  - destruct res as [[]|]; [by destruct Hna|auto|done].
Qed.

(** C8: A completion fact of Knowledge settles its run once and exactly: an applied fact is valid and
    found the run of its owner waiting, and a stored manifest of that run and owner with the digest and
    counts it names, which the result is filed under when the run has no other; the run becomes [completed] when
    nothing was omitted and the acquisition was complete, else [partial]; the result row carries the
    fact's evidence; the message is handled; an on-demand run's operation is reported.  Any other
    answer leaves the database untouched.  And it does settle it: without a storage fault, a sound
    fact that names a waiting run exactly, seen for the first time, is applied. *)
Theorem settle_completion_exact message_id completion w :
  (let '(res, w') := settle_completion message_id completion w in
   match res with
   | Ok IntakeOutcome.Applied =>
       ∃ fact analysis_id r mid0 m0 mid m,
         decode_recap_completed completion = Some fact ∧ validate_recap_completed fact = true ∧
         analysis_id_of (fc_analysis_ref fact) = Some analysis_id ∧
         runs (w_db w) !! fc_run fact = Some r ∧ run_owner r = tenant_user (fc_owner fact) ∧
         run_state r = RunState.WaitingRecap ∧
         manifests (w_db w) !! mid0 = Some m0 ∧ man_run m0 = fc_run fact ∧
         man_owner m0 = tenant_user (fc_owner fact) ∧ man_sha256 m0 = fc_manifest_digest_hex fact ∧
         fc_selected_count fact = man_source_count m0 ∧ fc_channel_count fact ≤ man_channel_count m0 ∧
         manifests (w_db w) !! mid = Some m ∧ man_run m = fc_run fact ∧
         ((∀ k x, manifests (w_db w) !! k = Some x → man_run x = fc_run fact → k = mid0) → mid = mid0) ∧
         let complete := fc_omitted_count fact =? 0 in
         let full := complete && negb (run_incomplete r) in
         settled message_id COMPLETED_SUBJECT (uuid_text (fc_result fact))
           (sha256_digest_hex completion) (fc_run fact) (fc_result fact)
           (set_state (if full then RunState.Completed else RunState.Partial) (w_now w) r)
           (ResultRow (fc_run fact) mid (tenant_user (fc_owner fact))
              (if full then Outcome.Completed else Outcome.Partial) (Some analysis_id)
              (Some (fc_result_digest_hex fact)) (fc_included_count fact) None (w_now w))
           (if full then OperationStatus.Succeeded else OperationStatus.PartiallySucceeded)
           (w_now w) (w_db w) (w_db w')
   | _ => w_db w' = w_db w
   end) ∧
  (ExternalLaws → ReportLaws → ∀ fact r mid m, able w → sound_completion completion fact →
     awaits (fc_run fact) (tenant_user (fc_owner fact)) r mid m (w_db w) →
     completion_matches fact r m = true →
     ¬ seen message_id COMPLETED_SUBJECT (uuid_text (fc_result fact)) (w_db w) →
     results (w_db w) !! fc_result fact = None →
     succeeds (settle_completion message_id completion) w (λ o _, o = IntakeOutcome.Applied)).
Proof.
  split.
  2:{ intros. eapply succeeds_mono; [by eapply settle_completion_succeeds|]. by intros ???? [? _]. }
  destruct (settle_completion message_id completion w) as [res w'] eqn:Hw.
  apply settle_completion_inv in Hw as
    [(fact&an&r&m0&mid&m&->&Hd&Hv&Ha&Hr&Ho&(mid0&Hm0&Hmo)&Hmr&Hc&Hm&Hmrun&Hset)|[Hd Hna]].
  2:{ by destruct res as [[]|]. }
  exists fact, an, r, mid0, m0, mid, m. rewrite /completion_matches in Hc.
  apply andb_prop in Hc as [Hc Hcc%Z.leb_le]. apply andb_prop in Hc as [Hc Hsc%Z.eqb_eq].
  apply andb_prop in Hc as [Hw%bool_decide_eq_true Hdig%bool_decide_eq_true].
  split_and!; try done; [by intros Hu; eapply Hu|]. revert Hset. rewrite /completion_outcome /completion_status.
  rewrite (bool_decide_ext _ (fc_omitted_count fact = 0)) // bool_decide_decide.
  destruct (Z.eqb_spec (fc_omitted_count fact) 0); case_decide; try done.
  by destruct (run_incomplete r).
Qed.

(** C9: A failure fact of Knowledge settles its run once and exactly: an applied fact found the run
    of its owner waiting under the digest it names; the run and its result become [failed] with the
    class of the fact's code, without recap identity or digest, and an on-demand run's operation is
    reported failed.  Any other answer leaves the database untouched.  And it does settle it: without
    a storage fault, a valid fact that names a waiting run and its manifest, seen for the first time,
    is applied. *)
Theorem settle_failure_exact message_id failure w :
  (let '(res, w') := settle_failure message_id failure w in
   match res with
   | Ok IntakeOutcome.Applied =>
       ∃ fact r mid m result_id,
         decode_recap_failed failure = Some fact ∧
         runs (w_db w) !! ff_run fact = Some r ∧ run_owner r = tenant_user (ff_owner fact) ∧
         run_state r = RunState.WaitingRecap ∧
         manifests (w_db w) !! mid = Some m ∧ man_run m = ff_run fact ∧
         ff_manifest_digest_hex fact = man_sha256 m ∧
         let class := (classify_failure (ff_code fact)).1 in
         settled message_id FAILED_SUBJECT (uuid_text (ff_run fact)) (sha256_digest_hex failure)
           (ff_run fact) result_id (set_failed class (w_now w) r)
           (ResultRow (ff_run fact) mid (tenant_user (ff_owner fact)) Outcome.Failed None None 0
              (Some class) (w_now w))
           OperationStatus.Failed (w_now w) (w_db w) (w_db w')
   | _ => w_db w' = w_db w
   end) ∧
  (ExternalLaws → ReportLaws → ∀ fact r mid m, able w → fresh_in w (results (w_db w)) →
     decode_recap_failed failure = Some fact → validate_recap_failed fact = true →
     awaits (ff_run fact) (tenant_user (ff_owner fact)) r mid m (w_db w) →
     ff_manifest_digest_hex fact = man_sha256 m →
     ¬ seen message_id FAILED_SUBJECT (uuid_text (ff_run fact)) (w_db w) →
     succeeds (settle_failure message_id failure) w (λ o _, o = IntakeOutcome.Applied)).
Proof.
  split.
  2:{ intros. eapply succeeds_mono; [by eapply settle_failure_succeeds|]. by intros ???? [? _]. }
  destruct (settle_failure message_id failure w) as [res w'] eqn:Hw.
  apply settle_failure_inv in Hw as [(fact&r&mid&m&rid&->&?&_&?&?&?&?&?&?&?)|[Hd Hna]].
  - by exists fact, r, mid, m, rid.
  - by destruct res as [[]|].
Qed.

(** A recap fact that arrives after its run was settled or reaped changes nothing at all. *)
Lemma late_recap_changes_nothing message_id payload fact failed_fact r w :
  (decode_recap_completed payload = Some fact → runs (w_db w) !! fc_run fact = Some r →
   terminal (run_state r) = true → w_db (settle_completion message_id payload w).2 = w_db w) ∧
  (decode_recap_failed payload = Some failed_fact → runs (w_db w) !! ff_run failed_fact = Some r →
   terminal (run_state r) = true → w_db (settle_failure message_id payload w).2 = w_db w).
Proof.
  split; intros Hd Hr Ht.
  - destruct (settle_completion _ _ _) as [res w'] eqn:Hw. apply settle_completion_inv in Hw
      as [(fact'&an&r'&m0&mid&m&->&Hd'&_&_&Hr'&_&_&_&Hc&_)|[? _]]; [|done].
    simplify_eq. rewrite /completion_matches in Hc. destruct (run_state r) eqn:Hs; simplify_eq/=.
  - destruct (settle_failure _ _ _) as [res w'] eqn:Hw. apply settle_failure_inv in Hw
      as [(fact'&r'&mid&m&rid&->&Hd'&_&Hr'&_&Hs&_)|[? _]]; [|done].
    simplify_eq. by rewrite Hs in Ht.
Qed.

(** A run without sources or without a usable manifest is settled once: completing an empty run
    and failing a run both move an open run of the owner to its terminal state and, for an on-demand
    run, queue the report of that outcome in the same transaction; otherwise the call is an error
    and the database is untouched. *)
Lemma finish_run_exact run_id owner failure w :
  (let '(res, w') := complete_empty_run run_id owner w in
   if is_ok res
   then run_finished run_id owner (set_state RunState.Completed (w_now w)) OperationStatus.Succeeded
          (w_db w) (w_db w')
   else w_db w' = w_db w) ∧
  (let '(res, w') := fail_run run_id owner failure w in
   if is_ok res
   then run_finished run_id owner (set_failed (RunFailure.class failure) (w_now w))
          OperationStatus.Failed (w_db w) (w_db w')
   else w_db w' = w_db w).
Proof.
  split.
  - destruct (complete_empty_run _ _ _) as [res w'] eqn:Hw.
    by apply complete_empty_run_inv in Hw as [[-> ?]|[? [? ->]]].
  - destruct (fail_run _ _ _ _) as [res w'] eqn:Hw.
    by apply fail_run_inv in Hw as [[-> ?]|[? [? ->]]].
Qed.

(** C10: Committing a manifest is atomic, exact and effective.  Whatever fails on the way, the call
    either answers [Applied] and leaves exactly the committed database, or leaves the database
    untouched, and it answers [Replayed] only for the manifest that is stored, by identity, owner and
    digest; and without a storage fault a manifest whose recap request names it exactly, for an open
    run of its owner that has none yet, is committed: the manifest with its text, its messages, one
    recap request under the run's key, and the run in [waiting_recap]. *)
Theorem commit_manifest_exact m bytes w :
  (let '(res, w') := commit_manifest m bytes w in
   match res with
   | Ok IntakeOutcome.Applied =>
       ∃ value operation outbox_id r,
         checked_recap_request m bytes = Ok (value, operation) ∧
         runs (w_db w) !! cman_run m = Some r ∧ run_owner r = cman_owner m ∧
         run_state r ∈ open_states ∧
         (∀ k x, manifests (w_db w) !! k = Some x → man_run x ≠ cman_run m) ∧
         1 ≤ Z.of_nat (cman_source_count m) ≤ 100 ∧ 1 ≤ Z.of_nat (cman_channel_count m) ≤ 20 ∧
         outbox (w_db w) !! outbox_id = None ∧
         w_db w' = manifest_committed m operation value outbox_id r (w_now w) (w_db w)
   | Ok IntakeOutcome.Replayed =>
       w_db w' = w_db w ∧
       ∃ x, manifests (w_db w) !! cman_id m = Some x ∧ man_run x = cman_run m ∧
         man_owner x = cman_owner m ∧ man_sha256 x = cman_sha256 m
   | Err _ => w_db w' = w_db w
   end) ∧
  (∀ value operation r, calm w → checked_recap_request m bytes = Ok (value, operation) →
     committable m r (w_uuids w (w_drawn w)) (w_db w) →
     ∃ w', commit_manifest m bytes w = (Ok IntakeOutcome.Applied, w') ∧
       w_db w' = manifest_committed m operation value (w_uuids w (w_drawn w)) r (w_now w) (w_db w)).
Proof.
  split; [|intros; by apply commit_manifest_applies].
  destruct (commit_manifest m bytes w) as [res w'] eqn:Hw. by apply commit_manifest_atomic in Hw.
Qed.
End Settlement.

(** ** Witnesses *)

(** Manifest 70 of run 60: one source of one channel. *)
Definition demo_manifest : canonical_manifest :=
  CanonicalManifest 70 7 60 "text" (Demo.digest "aa") 1 1 [(3%N, 5)].

Lemma commit_manifest_applies_witness :
  ∃ w', @commit_manifest Demo.external demo_manifest "recap"
          (Demo.world (Demo.db_with RunState.Acquiring)) = (Ok IntakeOutcome.Applied, w') ∧
    run_state <$> runs (w_db w') !! 60%N = Some RunState.WaitingRecap.
Proof.
  destruct (@commit_manifest_applies Demo.external demo_manifest "recap"
    (Demo.encode_recap Demo.recap_fixture) 50%N (Demo.run_row_in RunState.Acquiring)
    (Demo.world (Demo.db_with RunState.Acquiring))) as (w'&Hw&Hd).
  - reflexivity.
  - vm_compute. reflexivity.
  - split; try (vm_compute; reflexivity); simpl; try (cbv; lia); try set_solver.
    apply NoDup_singleton.
  - exists w'. split; [exact Hw|]. rewrite Hd. vm_compute. reflexivity.
Defined.
Lemma commit_manifest_exact_witness :
  ∃ w', @commit_manifest Demo.external demo_manifest "recap"
          (Demo.world (Demo.db_with RunState.Acquiring)) = (Ok IntakeOutcome.Applied, w') ∧
    run_state <$> runs (w_db w') !! 60%N = Some RunState.WaitingRecap.
Proof.
  destruct (proj2 (@commit_manifest_exact Demo.external demo_manifest "recap"
    (Demo.world (Demo.db_with RunState.Acquiring))) (Demo.encode_recap Demo.recap_fixture) 50%N
    (Demo.run_row_in RunState.Acquiring)) as (w'&Hw&Hd).
  - reflexivity.
  - vm_compute. reflexivity.
  - split; try (vm_compute; reflexivity); simpl; try (cbv; lia); try set_solver.
    apply NoDup_singleton.
  - exists w'. split; [exact Hw|]. rewrite Hd. vm_compute. reflexivity.
Defined.

Lemma commit_manifest_atomic_witness :
  let '(res, w') := @commit_manifest Demo.external demo_manifest "recap"
          (Demo.world (Demo.db_with RunState.Completed)) in
  res = Err CoordinatorError.Invalid ∧ w_db w' = Demo.db_with RunState.Completed.
Proof.
  destruct (@commit_manifest Demo.external _ _ _) as [res w'] eqn:Hw.
  pose proof (@commit_manifest_atomic Demo.external _ _ _ _ _ Hw) as Hp.
  assert (res = Err CoordinatorError.Invalid) as ->.
  { apply (f_equal fst) in Hw. simpl in Hw. rewrite -Hw. vm_compute. reflexivity. }
  split; [reflexivity|exact Hp].
Defined.

(** Run 60 waits for its recap under manifest 70. *)
Definition demo_waiting : world := Demo.world (Demo.db_with RunState.WaitingRecap).

Lemma demo_awaits :
  awaits 60 7 (Demo.run_row_in RunState.WaitingRecap) 70 Demo.manifest_row_of (w_db demo_waiting).
Proof.
  split; [reflexivity..|vm_compute; reflexivity| | | |]; [done|done| |done].
  intros k x Hk _. change (({[70%N := Demo.manifest_row_of]} : gmap uuid manifest_row) !! k = Some x) in Hk.
  by apply lookup_singleton_Some in Hk as [<- _].
Qed.

(** The completion fact of the fixtures settles run 60 as [completed]. *)
Lemma settle_completion_exact_witness :
  ∃ w', @settle_completion Demo.external 3%N "completed" demo_waiting = (Ok IntakeOutcome.Applied, w') ∧
    match @decode_recap_completed Demo.external "completed" with
    | Some fact => res_outcome <$> results (w_db w') !! fc_result fact = Some Outcome.Completed
    | None => False
    end.
Proof.
  destruct (@settle_completion_exact Demo.external 3%N "completed" demo_waiting) as [Hexact Hok].
  destruct (Hok Demo.laws DemoProgress.report_laws (Demo.completed_fixture 0)
    (Demo.run_row_in RunState.WaitingRecap) 70%N Demo.manifest_row_of) as (o&w'&Hw&_&->).
  - apply DemoProgress.able_world. reflexivity.
  - split; [reflexivity|reflexivity|vm_compute; by eexists|by eexists|vm_compute; reflexivity|].
    apply Z.leb_le. vm_compute. reflexivity.
  - exact demo_awaits.
  - vm_compute. reflexivity.
  - vm_compute. discriminate.
  - reflexivity.
  - exists w'. split; [exact Hw|]. rewrite Hw in Hexact.
    destruct Hexact as (fact&an&r&mid0&m0&mid&m&Hd&_&_&Hr&_&_&_&_&_&_&_&_&_&_&_&Hs&_).
    change (@decode_recap_completed Demo.external "completed") with (Some (Demo.completed_fixture 0)) in Hd |- *.
    injection Hd as <-. rewrite Hs /= lookup_insert_eq /=.
    vm_compute in Hr. injection Hr as <-. vm_compute. reflexivity.
Defined.

Lemma settle_failure_exact_witness :
  ∃ w', @settle_failure Demo.external 3%N "failed" demo_waiting = (Ok IntakeOutcome.Applied, w') ∧
    run_failure_class <$> runs (w_db w') !! 60%N = Some (Some "provider_timeout").
Proof.
  destruct (@settle_failure_exact Demo.external 3%N "failed" demo_waiting) as [Hexact Hok].
  destruct (Hok Demo.laws DemoProgress.report_laws Demo.failed_fixture
    (Demo.run_row_in RunState.WaitingRecap) 70%N Demo.manifest_row_of) as (o&w'&Hw&_&->).
  - apply DemoProgress.able_world. reflexivity.
  - intros n _. reflexivity.
  - reflexivity.
  - reflexivity.
  - exact demo_awaits.
  - vm_compute. reflexivity.
  - vm_compute. discriminate.
  - exists w'. split; [exact Hw|]. rewrite Hw in Hexact.
    destruct Hexact as (fact&r&mid&m&rid&Hd&Hr&_&_&_&_&_&Hs&_).
    change (@decode_recap_failed Demo.external "failed") with (Some Demo.failed_fixture) in Hd.
    injection Hd as <-. change (ff_run Demo.failed_fixture) with 60%N in Hs.
    rewrite Hs /= lookup_insert_eq. vm_compute. reflexivity.
Defined.

Lemma late_recap_changes_nothing_witness :
  w_db (@settle_completion Demo.external 3%N "completed"
          (Demo.world (Demo.db_with RunState.Failed))).2 = Demo.db_with RunState.Failed ∧
  w_db (@settle_failure Demo.external 3%N "failed"
          (Demo.world (Demo.db_with RunState.Partial))).2 = Demo.db_with RunState.Partial.
Proof.
  split.
  - apply (proj1 (@late_recap_changes_nothing Demo.external 3%N "completed" (Demo.completed_fixture 0)
      Demo.failed_fixture (Demo.run_row_in RunState.Failed) (Demo.world (Demo.db_with RunState.Failed))));
      reflexivity.
  - apply (proj2 (@late_recap_changes_nothing Demo.external 3%N "failed" (Demo.completed_fixture 0)
      Demo.failed_fixture (Demo.run_row_in RunState.Partial) (Demo.world (Demo.db_with RunState.Partial))));
      reflexivity.
Defined.
