(* ===== verification/Schedule.v ===== *)
(** * Schedule: what a schedule occurrence does ([fan_out] and [accept_occurrence] of
    [Coordinator]) *)

From S2P Require Import Prelude Text External Store Tx Demo Subscriptions Runs Reports Progress.
From S2P Require Import Inbox Manifest Coordinator Settlement.

Section Schedule.
Context `{External}.

(** The run an occurrence owes an owner. *)
Definition occurrence_run (key : string) (owner : uuid) (window : Z * Z) (r : run_row) : Prop :=
  run_owner r = owner ∧ run_trigger r = RunTrigger.Scheduled ∧ run_idempotency_key r = key ∧
  run_window_start r = window.1 ∧ run_window_end r = window.2.

(** What inserting one owed run leaves. *)
Definition runs_added (key : string) (operation : uuid) (language : OutputLanguage.t) (now : Z)
    (windows : list (uuid * (Z * Z))) (d d' : db) : Prop :=
  d' = with_runs d (runs d') ∧
  (∀ k r, runs d !! k = Some r → runs d' !! k = Some r) ∧
  (∀ k r, runs d' !! k = Some r → runs d !! k = Some r ∨
     ∃ owner window, (owner, window) ∈ windows ∧
       r = new_run owner operation RunTrigger.Scheduled key window.1 window.2 language now) ∧
  (∀ owner window, (owner, window) ∈ windows →
     window.1 < window.2 ∧ ∃ k r, runs d' !! k = Some r ∧ occurrence_run key owner window r).

Lemma runs_added_nil key operation language now d : runs_added key operation language now [] d d.
Proof.
  split_and!; [by destruct d|done|by left|]. intros ?? []%elem_of_nil.
Qed.

Lemma runs_added_cons key operation language now owner window l run_id b d d1 d' :
  insert_run run_id (new_run owner operation RunTrigger.Scheduled key window.1 window.2 language now) d
    = Ok (b, d1) →
  runs_added key operation language now l d1 d' →
  runs_added key operation language now ((owner, window) :: l) d d'.
Proof.
  intros (Hw&Hcase)%insert_run_spec (Hd'&Hkeep&Hnew&Hall). simpl in *.
  destruct Hcase as [(_&->&k0&r0&Hk0&Hnat%natural_key_true)|(_&Hnone&->&_)]; simpl in *.
  - split_and!; try done.
    + intros k r [?|(o&win&?&?)]%Hnew; [by left|]. right. exists o, win.
      split; [by rewrite elem_of_cons; right|done].
    + intros o win [[= -> ->]|?]%elem_of_cons; [|by apply Hall]. split; [done|].
      exists k0, r0. split; [by apply Hkeep|]. done.
  - split_and!.
    + rewrite Hd'. done.
    + intros k r Hk. apply Hkeep. rewrite lookup_insert_ne; [done|congruence].
    + intros k r [Hk|(o&win&?&?)]%Hnew.
      * apply lookup_insert_Some in Hk as [[_ <-]|[_ Hk]]; [|by left].
        right. exists owner, window. split; [by rewrite elem_of_cons; by left|done].
      * right. exists o, win. split; [by rewrite elem_of_cons; right|done].
    + intros o win [[= -> ->]|?]%elem_of_cons; [|by apply Hall]. split; [done|].
      eexists run_id, _. split; [apply Hkeep, lookup_insert_eq|]. done.
Qed.

(** The windows an occurrence between two instants gives its due owners. *)
Definition occurrence_windows (previous due : Z) (owners : list (uuid * Z)) : list (uuid * (Z * Z)) :=
  (λ oa : uuid * Z, (oa.1, normalized_window true oa.2 (Some previous) due)) <$> owners.

Lemma fan_out_inv key operation previous_text due_text language w u w' :
  fan_out key operation previous_text due_text language w = (Ok u, w') →
  w_now w' = w_now w ∧
  ∃ due, pg_timestamptz due_text = Some due ∧
    (due_owners due (w_db w) = [] ∧ w_db w' = w_db w ∨
     ∃ previous, pg_timestamptz previous_text = Some previous ∧
       runs_added key operation language (w_now w)
         (occurrence_windows previous due (due_owners due (w_db w))) (w_db w) (w_db w')).
Proof.
  rewrite /fan_out. intros Hw. step_sql Hw as owners w1 Ho Hn1.
  apply with_cast_Ok in Ho as (due&Hdue&Ho). rewrite /read in Ho. injection Ho as <- Hd1.
  assert (∀ owners w1, w_now w1 = w_now w →
    for_each owners (λ '(owner, activation_at),
      window ← sql Storage (with_cast previous_text (λ previous, with_cast due_text (λ due,
        read (λ _, normalized_window true activation_at (Some previous) due))));
      run_id ← now_v7;
      _ ← sql Storage (λ now d,
        insert_run run_id (new_run owner operation RunTrigger.Scheduled key window.1 window.2
          language now) d);
      mret tt) w1 = (Ok u, w') →
    w_now w' = w_now w ∧ (owners = [] ∧ w_db w' = w_db w1 ∨
     ∃ previous, pg_timestamptz previous_text = Some previous ∧
       runs_added key operation language (w_now w) (occurrence_windows previous due owners)
         (w_db w1) (w_db w'))) as Hloop.
  { clear Hw Hd1 w1 Hn1. induction owners as [|[owner act] l IH]; intros w1 Hn1 Hw; simpl in Hw.
    { apply ret_inv in Hw as [_ ->]. auto. }
    step Hw as u1 w2 Hbody. step_sql Hbody as window w3 Hwin Hn3.
    apply with_cast_Ok in Hwin as (previous&Hprev&Hwin).
    apply with_cast_Ok in Hwin as (due'&Hdue'&Hwin). rewrite Hdue in Hdue'. simplify_eq.
    rewrite /read in Hwin. injection Hwin as Hwin Hd3.
    step Hbody as run_id w4 (Hd4&Hn4&_)%now_v7_inv. step_sql Hbody as b w5 Hins Hn5.
    apply ret_inv in Hbody as [_ ->].
    destruct (IH w5) as [Hn' Hrest]; [congruence|done|]. split; [done|]. right.
    exists previous. split; [done|]. simpl. rewrite Hwin. rewrite Hd4 -Hd3 in Hins.
    replace (w_now w4) with (w_now w) in Hins by congruence.
    destruct Hrest as [[-> ->]|(previous'&Hp'&Hrest)].
    - simpl. eapply runs_added_cons; [done|apply runs_added_nil].
    - rewrite Hprev in Hp'. simplify_eq. by eapply runs_added_cons. }
  apply Hloop in Hw as [Hn' Hcase]; [|done]. split; [done|]. exists due. split; [done|].
  rewrite -Hd1 in Hcase. done.
Qed.

(** What an applied occurrence leaves behind. *)
Record occurrence_applied (o : occurrence_request) (now due : Z) (d d' : db) : Prop := {
  oa_due : pg_timestamptz (occ_due_at o) = Some due;
  oa_kept k r : runs d !! k = Some r → runs d' !! k = Some r;
  oa_new k r : runs d' !! k = Some r → runs d !! k = Some r ∨
    ∃ previous owner window, pg_timestamptz (occ_previous_due_at o) = Some previous ∧
      (owner, window) ∈ occurrence_windows previous due (due_owners due d) ∧
      r = new_run owner (occ_operation o) RunTrigger.Scheduled (occ_key o) window.1 window.2
            (occ_language o) now;
  oa_owed owner activation : (owner, activation) ∈ due_owners due d →
    ∃ previous k r, pg_timestamptz (occ_previous_due_at o) = Some previous ∧
      runs d' !! k = Some r ∧
      occurrence_run (occ_key o) owner (normalized_window true activation (Some previous) due) r ∧
      run_window_start r < run_window_end r;
  oa_inbox : inbox d' = <[occ_message_id o := InboxRow OCCURRENCE_SUBJECT (occ_key o)
      (sha256_digest_hex (occ_payload o)) InboxState.Completed now (Some now) None]> (inbox d);
  oa_unseen : ¬ seen (occ_message_id o) OCCURRENCE_SUBJECT (occ_key o) d;
  oa_outbox k x : outbox d !! k = Some x → outbox d' !! k = Some x;
  oa_report : reported (occ_operation o) OperationStatus.Succeeded d';
  oa_frame : d' = Db (channels d) (subscriptions d) (revisions d) (runs d') (manifests d)
               (manifest_sources d) (results d) (inbox d') (outbox d') (leases d) }.

(** The runs an occurrence adds. *)
Record fanned_out (o : occurrence_request) (now due : Z) (d d' : db) : Prop := {
  fo_frame : d' = with_runs d (runs d');
  fo_kept k r : runs d !! k = Some r → runs d' !! k = Some r;
  fo_new k r : runs d' !! k = Some r → runs d !! k = Some r ∨
    ∃ previous owner window, pg_timestamptz (occ_previous_due_at o) = Some previous ∧
      (owner, window) ∈ occurrence_windows previous due (due_owners due d) ∧
      r = new_run owner (occ_operation o) RunTrigger.Scheduled (occ_key o) window.1 window.2
            (occ_language o) now;
  fo_owed owner activation : (owner, activation) ∈ due_owners due d →
    ∃ previous k r, pg_timestamptz (occ_previous_due_at o) = Some previous ∧
      runs d' !! k = Some r ∧
      occurrence_run (occ_key o) owner (normalized_window true activation (Some previous) due) r ∧
      run_window_start r < run_window_end r }.

Lemma fan_out_effect o w u w' :
  fan_out (occ_key o) (occ_operation o) (occ_previous_due_at o) (occ_due_at o) (occ_language o) w
    = (Ok u, w') →
  w_now w' = w_now w ∧ ∃ due, pg_timestamptz (occ_due_at o) = Some due ∧
    fanned_out o (w_now w) due (w_db w) (w_db w').
Proof.
  intros (Hn&due&Hdue&Hfan)%fan_out_inv. split; [done|]. exists due. split; [done|].
  destruct Hfan as [[Hnil ->]|(previous&Hprev&Hd&Hkeep&Hnew&Hall)]; split; try done.
  - by destruct (w_db w).
  - by left.
  - rewrite Hnil. by intros ?? []%elem_of_nil.
  - intros k r [?|(owner&window&?&?)]%Hnew; [by left|]. right. by exists previous, owner, window.
  - intros owner act Hin.
    destruct (Hall owner (normalized_window true act (Some previous) due)) as [Hlt (k&r&Hk&Hr)].
    { apply list_elem_of_fmap. by exists (owner, act). }
    exists previous, k, r. split_and!; try done. destruct Hr as (_&_&_&->&->). done.
Qed.

Lemma accept_occurrence_inv o w res w' :
  accept_occurrence o w = (res, w') →
  (res = Ok IntakeOutcome.Applied ∧ ∃ due, occurrence_applied o (w_now w) due (w_db w) (w_db w')) ∨
  (w_db w' = w_db w ∧ res ≠ Ok IntakeOutcome.Applied).
Proof.
  rewrite /accept_occurrence. case_match; [intros [-> ->]%fail_eq; by right|].
  intros [(a&w1&w2&->&Hdb&Hnow&Hb&->)|(->&[(a&w1&w2&->&Hdb&Hnow&Hb)|(e&->)])]%transact_inv;
    [| |by right].
  - step_sql Hb as ins w3 Hcl Hn3. apply claim_spec in Hcl as (_&[(->&_)|(->&Hns&Hd3)]);
      [by apply ret_inv in Hb as [? _]|]. simpl in Hb.
    step Hb as u w4 (Hn4&due&Hdue&[Hd4 Hkeep Hnew Howed])%fan_out_effect.
    step Hb as row w5 [Hrow%report_new_about ->]%on_err_inv%lift_inv.
    step Hb as u2 w5 Hen%on_err_inv. step_sql Hb as n w6 Hcomp Hn6.
    apply ret_inv in Hb as [Ha ->]. simplify_eq. left. split; [done|]. exists due.
    eapply enqueue_queued in Hen as [(Hd5&Hgrow&Hrep) Hn5]; [|by apply caused_by_about].
    assert (due_owners due (w_db w3) = due_owners due (w_db w)) as Hown by by rewrite Hd3 /= -Hdb.
    rewrite Hown in Hnew Howed. replace (w_now w3) with (w_now w) in Hnew by congruence.
    assert (inbox (w_db w5) = inbox (w_db w3)) as Hi5 by by rewrite Hd5 Hd4.
    apply (complete_inbox_claimed _ _ _ _ _ (InboxRow OCCURRENCE_SUBJECT (occ_key o)
      (sha256_digest_hex (occ_payload o)) InboxState.Processing (w_now w1) None None)) in Hcomp as Hd6;
      [|rewrite Hi5 Hd3 /=; apply lookup_insert_eq].
    rewrite Hi5 /= in Hd6. replace (w_now w5) with (w_now w) in Hd6 by congruence.
    split; try done.
    + intros k r Hk. rewrite Hd6 Hd5 /=. apply Hkeep. by rewrite Hd3 /= Hdb.
    + intros k r. rewrite Hd6 Hd5 /=. intros [Hk|?]%Hnew; [|by right]. left.
      by rewrite Hd3 /= Hdb in Hk.
    + intros owner act (previous&k&r&?&?&?&?)%Howed. exists previous, k, r.
      split_and!; try done. by rewrite Hd6 Hd5 /=.
    + by rewrite Hd6 /= Hd3 /= insert_insert_eq Hnow Hdb.
    + by rewrite -Hdb.
    + intros k x Hk. rewrite Hd6 /=. apply Hgrow. by rewrite Hd4 Hd3 /= Hdb.
    + by rewrite Hd6.
    + rewrite Hd6 /= Hd5 /= Hd4 /= Hd3 /= Hdb. done.
  - right. split; [done|].
    destruct Hb as [Hb|Hb]; step_sql Hb as ins w3 Hcl Hn3;
      apply claim_spec in Hcl as (_&[(->&_&Hs)|(->&Hns&Hd3)]); simpl in Hb.
    2,4: step Hb as u w4 _; step Hb as row w5 _; step Hb as u2 w6 _; step Hb as n w7 _;
      by apply ret_inv in Hb as [? _].
    all: apply ret_inv in Hb as [Ha _]; by simplify_eq.
Qed.

(** ** Who is owed a run *)

Lemma foldr_min_le (l : list Z) a x : x ∈ l → foldr Z.min a l ≤ x.
Proof. induction l as [|y l IH]; [by intros ?%elem_of_nil|]. intros [->|?%IH]%elem_of_cons; simpl; lia. Qed.

Lemma foldr_min_in (l : list Z) a : a ∈ l → foldr Z.min a l ∈ l.
Proof.
  intros Ha. assert (∀ l', foldr Z.min a l' = a ∨ foldr Z.min a l' ∈ l') as Hl.
  { induction l' as [|y l' IH]; simpl; [by left|]. rewrite elem_of_cons.
    destruct (Z.min_spec y (foldr Z.min a l')) as [[_ ->]|[_ ->]]; [by right; left|].
    destruct IH as [->|?]; auto. }
  destruct (Hl l) as [->|?]; done.
Qed.

(** The earliest activation among the enabled subscriptions that predate the due instant. *)
Definition earliest_activation (owner : uuid) (due : Z) (d : db) (activation : Z) : Prop :=
  (∃ k s, subscriptions d !! k = Some s ∧ sub_owner s = owner ∧ sub_enabled s = true ∧
     sub_first_activated_at s < due ∧ sub_first_activated_at s = activation) ∧
  (∀ k s, subscriptions d !! k = Some s → sub_owner s = owner → sub_enabled s = true →
     sub_first_activated_at s < due → activation ≤ sub_first_activated_at s).

Lemma due_owners_spec owner activation due d :
  (owner, activation) ∈ due_owners due d ↔ earliest_activation owner due d activation.
Proof.
  set (sel := select_where (due_subscription due) (subscriptions d)).
  set (instants := (λ ks : uuid * subscription_row, sub_first_activated_at ks.2) <$>
                     filter (λ ks : uuid * subscription_row, sub_owner ks.2 = owner) sel).
  assert (∀ t, t ∈ instants ↔ ∃ k s, subscriptions d !! k = Some s ∧ sub_owner s = owner ∧
    sub_enabled s = true ∧ sub_first_activated_at s < due ∧ sub_first_activated_at s = t) as Hin.
  { intros t. rewrite list_elem_of_fmap. split.
    - intros ([k s]&->&[Ho Hs]%list_elem_of_filter). apply elem_of_select_where in Hs as [Hk Hd].
      rewrite /due_subscription andb_true_iff Z.ltb_lt in Hd. destruct Hd. by exists k, s.
    - intros (k&s&Hk&Ho&He&Hlt&<-). exists (k, s). split; [done|]. apply list_elem_of_filter.
      split; [done|]. apply elem_of_select_where. split; [done|].
      by rewrite /due_subscription andb_true_iff Z.ltb_lt. }
  assert ((owner, activation) ∈ due_owners due d ↔ instants ≠ [] ∧ activation = first_activation sel owner)
    as ->.
  { rewrite /due_owners list_elem_of_fmap. split.
    - intros (o&[= <- ->]&Ho). split; [|done]. rewrite elem_of_sort_on elem_of_remove_dups in Ho.
      apply list_elem_of_fmap in Ho as ([k s]&Ho&Hs).
      assert (sub_first_activated_at s ∈ instants) as Ht.
      { apply list_elem_of_fmap. exists (k, s). split; [done|]. by apply list_elem_of_filter. }
      intros He. rewrite He in Ht. by apply elem_of_nil in Ht.
    - intros [Hne ->]. exists owner. split; [done|]. rewrite elem_of_sort_on elem_of_remove_dups.
      destruct instants as [|t l] eqn:Hi; [done|].
      assert (t ∈ instants) as Ht by (rewrite Hi; set_solver).
      apply list_elem_of_fmap in Ht as ([k s]&_&[Ho Hs]%list_elem_of_filter).
      apply list_elem_of_fmap. by exists (k, s). }
  assert (first_activation sel owner = foldr Z.min (default 0 (head instants)) instants) as -> by done.
  clearbody instants. split.
  - intros [Hne ->]. destruct instants as [|t l]; [done|]. simpl default. split.
    + apply Hin, foldr_min_in. set_solver.
    + intros k s Hk Ho He Hlt. apply foldr_min_le, Hin. by exists k, s.
  - intros [Ha Hle]. apply Hin in Ha. destruct instants as [|t l]; [by apply elem_of_nil in Ha|].
    split; [done|]. simpl default. apply Z.le_antisymm.
    + assert (foldr Z.min t (t :: l) ∈ t :: l) as Hm by (apply foldr_min_in; set_solver).
      apply Hin in Hm as (k&s&Hk&Ho&He&Hlt&<-). by eapply Hle.
    + by apply foldr_min_le.
Qed.

(** ** Occurrences that are accepted *)

Lemma insert_run_answers run_id row d :
  run_window_start row < run_window_end row → runs d !! run_id = None →
  insert_run run_id row d = Ok (false, d) ∨
  insert_run run_id row d = Ok (true, with_runs d (<[run_id := row]> (runs d))).
Proof.
  intros Hlt Hn. rewrite /insert_run (proj2 (Z.ltb_lt _ _) Hlt) /= Hn.
  destruct (any_where _ _); auto.
Qed.

Definition able_to_fan (w : world) : Prop := able w ∧ fresh_in w (runs (w_db w)).

Lemma fan_out_succeeds key operation previous_text due_text language previous due w :
  able_to_fan w → pg_timestamptz previous_text = Some previous → pg_timestamptz due_text = Some due →
  previous < due →
  succeeds (fan_out key operation previous_text due_text language) w (λ _, able_to_fan).
Proof.
  intros [Ha Hf] Hp Hd Hlt. rewrite /fan_out.
  eapply succeeds_bind_sql; [apply Ha|by rewrite /with_cast /cast_timestamptz Hd|].
  apply succeeds_for_each with (I := able_to_fan).
  2:{ split; [by apply able_set_db|exact Hf]. }
  intros [owner activation] w1 Hin [Ha1 Hf1].
  assert (activation < due) as Hact.
  { apply due_owners_spec in Hin as [(k&s&_&_&_&?&<-) _]. done. }
  eapply succeeds_bind_sql; [apply Ha1|by rewrite /with_cast /cast_timestamptz Hp Hd|].
  apply succeeds_bind_now_v7.
  match goal with |- succeeds _ ?w' _ =>
    assert (able w') as Ha2 by (by apply able_drawn, able_set_db);
    destruct (insert_run_answers (w_uuids w1 (w_drawn w1)) (new_run owner operation RunTrigger.Scheduled
      key (Z.max activation (Z.max previous (due - hours 168))) due language (w_now w')) (w_db w'))
      as [Hi|Hi]; [rewrite /= /hours; lia|by apply fresh_in_next| |] end;
    (eapply succeeds_bind_sql; [apply Ha2|exact Hi|]; apply succeeds_ret; split; [by apply able_set_db|]).
  - eapply fresh_in_onward; [|exact Hf1]. split; simpl; [done..|lia].
  - apply (fresh_in_insert w1); [apply Ha1|exact Hf1].
Qed.

Lemma accept_occurrence_succeeds `{!ExternalLaws} `{!ReportLaws} o previous due w :
  able_to_fan w → String.prefix "schedule-occurrence:" (occ_key o) = true →
  pg_timestamptz (occ_previous_due_at o) = Some previous → pg_timestamptz (occ_due_at o) = Some due →
  previous < due → ¬ seen (occ_message_id o) OCCURRENCE_SUBJECT (occ_key o) (w_db w) →
  succeeds (accept_occurrence o) w (λ r w', r = IntakeOutcome.Applied ∧ able w').
Proof.
  intros [Ha Hf] Hpre Hp Hd Hlt Hns. rewrite /accept_occurrence Hpre /=.
  apply succeeds_commit; [apply Ha|].
  eapply succeeds_bind_sql; [apply Ha|by apply claim_unseen; [apply sha256_digest_length|]|]. simpl.
  eapply succeeds_bind.
  { eapply fan_out_succeeds; [|done..]. split; [by apply able_set_db|exact Hf]. }
  intros u w1 _ _ [Ha1 _].
  destruct (plain_row_accepted (occ_operation o) (occ_owner o) OperationStatus.Succeeded "fanned_out"
    eq_refl) as (row&Hrow&Hok); [done|].
  eapply succeeds_bind_err_lift; [exact Hrow|].
  eapply succeeds_bind; [by apply succeeds_on_err, enqueue_succeeds|].
  intros u2 w2 _ _ [Ha2 _]. eapply succeeds_bind_sql; [apply Ha2|done|].
  apply succeeds_ret. eexists. split_and!; [done|done|]. by apply able_set_db.
Qed.

End Schedule.

