(* ===== verification/Executor.v ===== *)
(** * Executor: [src/src/executor.rs], one accepted or interrupted run from provider to manifest *)

From S2P Require Import Prelude Text External Store Tx Runs Reports Manifest Revisions Provider.
From S2P Require Import Acquisition Coordinator.

Definition MAX_SOURCE_COUNT : nat := 100.
Definition CHANNEL_LIMIT : nat := 20.

Module RunExecutionError.
Inductive t := RunExecutionError.
End RunExecutionError.

Record pending_run := PendingRun {
  pend_run_id : uuid;
  pend_owner_id : uuid;
  pend_window_start : string;
  pend_window_end : string;
  pend_language : OutputLanguage.t;
  pend_state : RunState.t;
  pend_operation_id : uuid }.

Record selection := Selection { sel_sources : list manifest_source; sel_eligible : nat }.

Module Acquired.
Inductive t := Complete | Incomplete | Deferred | Unavailable.
#[export] Instance eq_dec : EqDecision t.
Proof. solve_decision. Defined.
End Acquired.
Export (hints) Acquired.

(** [with_source_count] *)
Definition clamp_source_count (n : nat) : nat := Nat.max 1 (Nat.min MAX_SOURCE_COUNT n).

(** ** The queries *)

(** A provider wait of some channel of the run is still running. *)
Definition waits (now : Z) (run_id : uuid) (d : db) : bool :=
  existsb (λ kl : string * uuid * lease_row,
      bool_decide (kl.1.2 = run_id) && String.prefix "acquisition:" kl.1.1
      && bool_decide (ck_state <$> lease_checkpoint kl.2 = Some "flood_wait")
      && (now <? lease_expires_at kl.2)) (map_to_list (leases d)).

Definition pending (now : Z) (d : db) (k : uuid) (r : run_row) : bool :=
  bool_decide (run_state r ∈ open_states) && negb (waits now k d).

(** [order by r.created_at, r.run_id limit 1] *)
Definition pending_key (kr : uuid * run_row) : list Z := [run_created_at kr.2; Z.of_N kr.1].

Definition next_pending (now : Z) (d : db) : option (uuid * run_row) :=
  head (sort_on pending_key (select_where (pending now d) (runs d))).

Section Executor.
Context `{External}.

Definition exec_error {E A} (m : M E A) : M RunExecutionError.t A :=
  on_err (λ _, RunExecutionError.RunExecutionError) m.

Definition exec_sql {A} (s : stmt A) : M RunExecutionError.t A :=
  sql RunExecutionError.RunExecutionError s.

(** [select_pending] *)
Definition select_pending : M RunExecutionError.t (option pending_run) :=
  exec_sql (λ now d, Ok
    ((λ kr : uuid * run_row,
        PendingRun kr.1 (run_owner kr.2) (pg_to_char_seconds (run_window_start kr.2))
          (pg_to_char_seconds (run_window_end kr.2)) (run_language kr.2) (run_state kr.2)
          (run_operation kr.2)) <$> next_pending now d, d)).

(** [begin_acquisition] *)
Definition begin_acquisition (run : pending_run) : M RunExecutionError.t bool :=
  transact RunExecutionError.RunExecutionError (
    changed ← exec_sql (update_runs
      (λ k r, bool_decide (k = pend_run_id run) && bool_decide (run_state r = RunState.Accepted))
      (set_state RunState.Acquiring));
    if negb (changed =? 1)%nat then mret (Abandon false)
    else
      owned ← exec_error (on_demand_operation (pend_run_id run) (pend_owner_id run));
      _ ← match owned with
          | Some operation =>
              row ← exec_error (lift (report_new operation (pend_owner_id run)
                                        OperationStatus.Running "acquiring"));
              exec_error (enqueue row)
          | None => mret tt
          end;
      mret (Commit true)).

(** The enabled subscriptions of the owner with their channels, by username, at most twenty. *)
Definition enabled_of (owner : uuid) (_ : uuid) (s : subscription_row) : bool :=
  bool_decide (sub_owner s = owner) && sub_enabled s.

Definition subscribed_rows (owner : uuid) (d : db) : list (uuid * string) :=
  omap (λ ks : uuid * subscription_row,
      (λ c, (sub_channel ks.2, ch_username c)) <$> channels d !! sub_channel ks.2)
    (select_where (enabled_of owner) (subscriptions d)).

Definition username_key (c : uuid * string) : list Z := pg_text_key c.2.

(** [subscribed_channels] *)
Definition subscribed_channels (owner : uuid) : M RunExecutionError.t (list (uuid * string)) :=
  exec_sql (read (λ d, take CHANNEL_LIMIT (sort_on username_key (subscribed_rows owner d)))).

Definition channel_request (run : pending_run) (channel : uuid * string) : acquisition_request :=
  AcquisitionRequest (pend_run_id run) channel.1 channel.2 (pend_window_start run)
    (pend_window_end run) 20 100.

(** What the loop of [acquire] counts: successful and deferred channels, and incompleteness. *)
Record tally := Tally { tl_successful : nat; tl_deferred : nat; tl_incomplete : bool }.

Definition count_outcome (t : tally) (o : result AcquisitionError.t acquisition_report) : tally :=
  match o with
  | Ok report =>
      Tally (S (tl_successful t)) (tl_deferred t) (tl_incomplete t || ar_partial report)
  | Err AcquisitionError.Deferred => Tally (tl_successful t) (S (tl_deferred t)) (tl_incomplete t)
  | Err AcquisitionError.Unavailable => Tally (tl_successful t) (tl_deferred t) true
  end.

Definition verdict (channels : nat) (t : tally) : Acquired.t :=
  if (0 <? tl_deferred t)%nat then Acquired.Deferred
  else if negb (channels =? 0)%nat && (tl_successful t =? 0)%nat then Acquired.Unavailable
  else if tl_incomplete t then Acquired.Incomplete
  else Acquired.Complete.

Fixpoint acquire_each (pv : uuid → provider) (run : pending_run) (l : list (uuid * string))
    (t : tally) : M RunExecutionError.t tally :=
  match l with
  | [] => mret t
  | channel :: l' =>
      outcome ← observe (execute (pv channel.1) (channel_request run channel));
      acquire_each pv run l' (count_outcome t outcome)
  end.

(** [acquire]; the provider's answers are given per channel. *)
Definition acquire (pv : uuid → provider) (run : pending_run) (l : list (uuid * string))
    : M RunExecutionError.t Acquired.t :=
  t ← acquire_each pv run l (Tally 0 0 false);
  mret (verdict (length l) t).

(** [record_acquisition] *)
Definition record_acquisition (run_id : uuid) (incomplete : bool) : M RunExecutionError.t unit :=
  _ ← exec_sql (update_runs (λ k _, bool_decide (k = run_id)) (set_incomplete incomplete));
  mret tt.

(** ** Source selection *)

Definition selects_channel (owner channel : uuid) (d : db) : bool :=
  any_where (λ k s, enabled_of owner k s && bool_decide (sub_channel s = channel)) (subscriptions d).

(** The innermost query: the revisions of the owner's enabled channels inside the window. *)
Definition in_window (owner : uuid) (start end_ : Z) (d : db) (_ : uuid) (r : revision_row) : bool :=
  selects_channel owner (rev_channel r) d
  && (start <=? rev_published_at r) && (rev_published_at r <? end_).

Definition window_revisions (owner : uuid) (start end_ : Z) (d : db) : list (uuid * revision_row) :=
  select_where (in_window owner start end_ d) (revisions d).

Definition same_message (a b : uuid * revision_row) : bool :=
  bool_decide (rev_channel a.2 = rev_channel b.2) && bool_decide (rev_message a.2 = rev_message b.2).

Definition observed_key (kr : uuid * revision_row) : list Z := [rev_observed_at kr.2; Z.of_N kr.1].

(** [row_number() over (partition by channel, message order by observed_at, revision_id)] *)
Definition revision_index (rows : list (uuid * revision_row)) (kr : uuid * revision_row) : nat :=
  length (filter (λ x, same_message x kr && lexleb (observed_key x) (observed_key kr) = true) rows).

(** The rows of the middle query: a body, no deletion, a stored channel. *)
Definition selectable (d : db) (kr : uuid * revision_row) : bool :=
  bool_decide (is_Some (rev_body kr.2)) && bool_decide (rev_deleted_at kr.2 = None)
  && bool_decide (is_Some (channels d !! rev_channel kr.2)).

(** [distinct on (channel, message) ... order by ..., observed_at desc, revision_id desc] *)
Definition latest_of (rows : list (uuid * revision_row)) : list (uuid * revision_row) :=
  filter (λ kr, forallb (λ x, negb (same_message x kr) || lexleb (observed_key x) (observed_key kr))
                  rows = true) rows.

(** [order by published_at desc, channel_id, provider_message_id desc, revision_id desc] *)
Definition newest_key (kr : uuid * revision_row) : list Z :=
  [- rev_published_at kr.2; Z.of_N (rev_channel kr.2); - rev_message kr.2; - Z.of_N kr.1].

Definition eligible_rows (owner : uuid) (start end_ : Z) (d : db) : list (uuid * revision_row) :=
  latest_of (filter (λ kr, selectable d kr = true) (window_revisions owner start end_ d)).

Definition selected_rows (owner : uuid) (start end_ : Z) (limit : nat) (d : db)
    : list (uuid * revision_row) :=
  take limit (sort_on newest_key (eligible_rows owner start end_ d)).

(** [u32::try_from(..).unwrap_or(0)] *)
Definition u32_or_zero (n : nat) : Z := if Z.of_nat n <? 2 ^ 32 then Z.of_nat n else 0.

Definition source_of (owner : uuid) (start end_ : Z) (d : db) (kr : uuid * revision_row)
    : option manifest_source :=
  c ← channels d !! rev_channel kr.2;
  body ← rev_body kr.2;
  Some (ManifestSource kr.1 (rev_channel kr.2) (ch_username c) (ch_display_name c)
          (rev_message kr.2) (rev_sha256 kr.2) (pg_to_char_seconds (rev_published_at kr.2))
          (rev_link kr.2) body
          (u32_or_zero (revision_index (window_revisions owner start end_ d) kr))).

(** The query of [select_sources] and its mapping: oldest first, with the count before the cap. *)
Definition selection_of (owner : uuid) (start end_ : Z) (limit : nat) (d : db) : selection :=
  let rows := selected_rows owner start end_ limit d in
  Selection (omap (source_of owner start end_ d) (reverse rows))
    (match rows with [] => 0%nat | _ => length (eligible_rows owner start end_ d) end).

(** [select_sources] *)
Definition select_sources (source_count : nat) (run : pending_run)
    : M RunExecutionError.t selection :=
  limit ← lift (ok_or RunExecutionError.RunExecutionError (i64_of_nat source_count));
  exec_sql (with_cast (pend_window_start run) (λ start, with_cast (pend_window_end run) (λ end_,
    read (selection_of (pend_owner_id run) start end_ (Z.to_nat limit))))).

(** ** Commitment *)

Definition language_text (l : OutputLanguage.t) : string :=
  match l with OutputLanguage.Ru => "ru" | OutputLanguage.En => "en" end.

(** The object of [recap_request] *)
Definition recap_request_object (run : pending_run) (m : canonical_manifest) : json :=
  JObj [
    ("operation_id", JStr (uuid_text (pend_operation_id run)));
    ("owner", JStr ("user:" +:+ uuid_text (pend_owner_id run))%string);
    ("digest_run_id", JStr (uuid_text (pend_run_id run)));
    ("window", JObj [("start_at", JStr (pend_window_start run)); ("end_at", JStr (pend_window_end run))]);
    ("output_language", JStr (language_text (pend_language run)));
    ("source_count", JNum (Z.of_nat (cman_source_count m)));
    ("channel_count", JNum (Z.of_nat (cman_channel_count m)));
    ("manifest_ref", JStr ("channel-digest-manifest:" +:+ uuid_text (cman_id m))%string);
    ("manifest_digest", JObj [("algorithm", JStr "sha256"); ("hex", JStr (cman_sha256 m))]);
    ("analysis_family", JStr "channel_digest_recap");
    ("analysis_contract", JStr "channel_digest_recap.v1")].

Definition recap_request_bytes (run : pending_run) (m : canonical_manifest)
    : result RunExecutionError.t string :=
  ok_or RunExecutionError.RunExecutionError (json_to_vec (recap_request_object run m)).

(** [commit] *)
Definition commit (run : pending_run) (sources : list manifest_source) (incomplete : bool)
    : M RunExecutionError.t unit :=
  match sources with
  | [] =>
      if incomplete
      then exec_error (fail_run (pend_run_id run) (pend_owner_id run) RunFailure.ProviderUnavailable)
      else exec_error (complete_empty_run (pend_run_id run) (pend_owner_id run))
  | _ =>
      manifest_id ← now_v7;
      match build manifest_id (pend_owner_id run) (pend_run_id run) (pend_window_start run)
              (pend_window_end run) sources with
      | Err _ =>
          exec_error (fail_run (pend_run_id run) (pend_owner_id run) RunFailure.ManifestInvalid)
      | Ok manifest =>
          request ← lift (recap_request_bytes run manifest);
          _ ← exec_error (commit_manifest manifest request);
          mret tt
      end
  end.

(** The part of [execute_one] after acquisition: select, record, commit. *)
Definition settle_sources (source_count : nat) (run : pending_run) (acquired_incomplete : bool)
    : M RunExecutionError.t unit :=
  sel ← select_sources source_count run;
  let truncated := (length (sel_sources sel) <? sel_eligible sel)%nat in
  let incomplete := acquired_incomplete || truncated in
  _ ← record_acquisition (pend_run_id run) incomplete;
  commit run (sel_sources sel) incomplete.

(** [execute_one] from the subscriptions on. *)
Definition execute_run (pv : uuid → provider) (source_count : nat) (run : pending_run)
    : M RunExecutionError.t bool :=
  subscribed ← subscribed_channels (pend_owner_id run);
  acquired ← acquire pv run subscribed;
  match acquired with
  | Acquired.Deferred => mret true
  | Acquired.Unavailable =>
      _ ← exec_error (fail_run (pend_run_id run) (pend_owner_id run) RunFailure.ProviderUnavailable);
      mret true
  | Acquired.Complete => _ ← settle_sources source_count run false; mret true
  | Acquired.Incomplete => _ ← settle_sources source_count run true; mret true
  end.

(** [execute_one] *)
Definition execute_one (pv : uuid → provider) (source_count : nat) : M RunExecutionError.t bool :=
  found ← select_pending;
  match found with
  | None => mret false
  | Some run =>
      if bool_decide (pend_state run = RunState.Accepted) then
        began ← begin_acquisition run;
        if negb began then mret true else execute_run pv source_count run
      else execute_run pv source_count run
  end.
End Executor.
