(* ===== verification/ExecutorSpec.v ===== *)
(** * ExecutorSpec: which posts a digest takes, and how a run is settled *)

From S2P Require Import Prelude Text External Store Tx Demo Runs Reports Manifest Revisions Provider.
From S2P Require Import Acquisition AcquisitionSpec Coordinator Settlement Executor.

#[export] Instance revision_row_eq_dec : EqDecision revision_row.
Proof. solve_decision. Defined.

Section ExecutorSpec.
Context `{External}.

(** ** The eligible posts *)

(** A revision with a body, not deleted, of an enabled channel of the owner, inside the window. *)
Definition candidate (owner : uuid) (start end_ : Z) (d : db) (k : uuid) (r : revision_row) : Prop :=
  revisions d !! k = Some r ∧
  (∃ sid s, subscriptions d !! sid = Some s ∧ sub_owner s = owner ∧ sub_enabled s = true ∧
     sub_channel s = rev_channel r) ∧
  start ≤ rev_published_at r < end_ ∧
  is_Some (rev_body r) ∧ rev_deleted_at r = None ∧ is_Some (channels d !! rev_channel r).

(** The latest candidate of its post. *)
Definition eligible (owner : uuid) (start end_ : Z) (d : db) (k : uuid) (r : revision_row) : Prop :=
  candidate owner start end_ d k r ∧
  ∀ k' r', candidate owner start end_ d k' r' → rev_channel r' = rev_channel r →
    rev_message r' = rev_message r → lexleb (observed_key (k', r')) (observed_key (k, r)) = true.

Lemma selects_channel_true owner channel d :
  selects_channel owner channel d = true ↔
    ∃ sid s, subscriptions d !! sid = Some s ∧ sub_owner s = owner ∧ sub_enabled s = true ∧
      sub_channel s = channel.
Proof.
  rewrite /selects_channel any_where_true. setoid_rewrite andb_true_iff.
  rewrite /enabled_of. setoid_rewrite andb_true_iff. setoid_rewrite bool_decide_eq_true. naive_solver.
Qed.

Lemma candidates_spec owner start end_ d k r :
  (k, r) ∈ filter (λ kr, selectable d kr = true) (window_revisions owner start end_ d) ↔
    candidate owner start end_ d k r.
Proof.
  rewrite list_elem_of_filter /window_revisions elem_of_select_where /candidate /in_window /selectable.
  rewrite !andb_true_iff !bool_decide_eq_true Z.leb_le Z.ltb_lt selects_channel_true /=. tauto.
Qed.

Lemma same_message_true a b :
  same_message a b = true ↔ rev_channel a.2 = rev_channel b.2 ∧ rev_message a.2 = rev_message b.2.
Proof. by rewrite /same_message andb_true_iff !bool_decide_eq_true. Qed.

Lemma eligible_rows_spec owner start end_ d k r :
  (k, r) ∈ eligible_rows owner start end_ d ↔ eligible owner start end_ d k r.
Proof.
  rewrite /eligible_rows /latest_of list_elem_of_filter candidates_spec /eligible forallb_forall.
  split; intros [H1 H2].
  - split; [done|]. intros k' r' Hc Hch Hm. specialize (H1 (k', r')).
    rewrite -list_elem_of_In candidates_spec in H1. specialize (H1 Hc).
    apply orb_true_iff in H1 as [Hf|?]; [|done].
    apply negb_true_iff in Hf. by rewrite (proj2 (same_message_true _ _)) in Hf.
  - split; [|done]. intros [k' r']. rewrite -list_elem_of_In candidates_spec. intros Hc.
    destruct (same_message (k', r') (k, r)) eqn:Hs; [|done]. apply same_message_true in Hs as [??].
    by apply H2.
Qed.

Lemma NoDup_eligible_rows owner start end_ d : NoDup (eligible_rows owner start end_ d).
Proof. rewrite /eligible_rows /latest_of. do 2 apply NoDup_filter. apply NoDup_select_where. Qed.

Lemma observed_key_inj a b : observed_key a = observed_key b → a.1 = b.1.
Proof. destruct a, b. rewrite /observed_key /=. intros [= _ ?]. lia. Qed.

(** Two eligible revisions of one post are the same. *)
Lemma eligible_unique owner start end_ d k r k' r' :
  eligible owner start end_ d k r → eligible owner start end_ d k' r' →
  rev_channel r' = rev_channel r → rev_message r' = rev_message r → k' = k.
Proof.
  intros [Hc H1] [Hc' H2] Hch Hm. apply (observed_key_inj (k', r') (k, r)), lexleb_antisym.
  - by apply H1.
  - by apply H2.
Qed.

(** ** The selection *)

(** The source shows the stored revision. *)
Definition shows (d : db) (kr : uuid * revision_row) (s : manifest_source) : Prop :=
  ms_revision_id s = kr.1 ∧ ms_channel_id s = rev_channel kr.2 ∧ ms_message_id s = rev_message kr.2 ∧
  rev_body kr.2 = Some (ms_body s) ∧ ms_content_sha256 s = rev_sha256 kr.2 ∧
  (ch_username <$> channels d !! rev_channel kr.2) = Some (ms_channel_username s).

(** [rows] are the newest [n] of the eligible posts, oldest first, and [sel] shows them. *)
Record selects (owner : uuid) (start end_ : Z) (n : nat) (d : db) (rows : list (uuid * revision_row))
    (sel : selection) : Prop := {
  sl_shown : Forall2 (shows d) rows (sel_sources sel);
  sl_eligible kr : kr ∈ rows → eligible owner start end_ d kr.1 kr.2;
  sl_distinct kr kr' : kr ∈ rows → kr' ∈ rows → same_message kr kr' = true → kr = kr';
  sl_nodup : NoDup rows;
  sl_newest k r kr : eligible owner start end_ d k r → (k, r) ∉ rows → kr ∈ rows →
    rev_published_at r ≤ rev_published_at kr.2;
  sl_ordered : StronglySorted (λ a b, rev_published_at a.2 ≤ rev_published_at b.2) rows;
  sl_counted : ∃ all, NoDup all ∧ (∀ kr, kr ∈ all ↔ eligible owner start end_ d kr.1 kr.2) ∧
    length rows = Nat.min n (length all) ∧ (n ≠ 0%nat → sel_eligible sel = length all) }.

Lemma source_of_shows owner start end_ d k r :
  eligible owner start end_ d k r →
  ∃ s, source_of owner start end_ d (k, r) = Some s ∧ shows d (k, r) s.
Proof.
  intros [(_&_&_&[body Hb]&_&[c Hc]) _]. rewrite /source_of /= Hc Hb /=. eexists. split; [done|].
  by split_and!; rewrite /= ?Hc.
Qed.

Lemma sources_show owner start end_ d rows :
  (∀ kr, kr ∈ rows → eligible owner start end_ d kr.1 kr.2) →
  Forall2 (shows d) rows (omap (source_of owner start end_ d) rows).
Proof.
  induction rows as [|[k r] rows IH]; intros Hel; simpl; [constructor|].
  destruct (source_of_shows owner start end_ d k r) as (s&->&Hs); [apply (Hel (k, r)); set_solver|].
  constructor; [done|]. apply IH. set_solver.
Qed.

Lemma StronglySorted_reverse {A} (R : A → A → Prop) (l : list A) :
  StronglySorted R l → StronglySorted (λ x y, R y x) (reverse l).
Proof.
  induction 1 as [|x l Hl IH Hx]; [constructor|]. rewrite reverse_cons.
  assert (Forall (λ y, R x y) (reverse l)) as Hx' by by rewrite reverse_Permutation.
  induction IH as [|y m Hm IHm Hy]; simpl; [repeat constructor|].
  inversion Hx'; subst. constructor; [by apply IHm|]. apply Forall_app. split; [done|by constructor].
Qed.

Lemma StronglySorted_take {A} (R : A → A → Prop) n (l : list A) :
  StronglySorted R l → StronglySorted R (take n l).
Proof.
  intros Hl. revert n. induction Hl as [|x l Hl IH Hx]; intros [|n]; simpl; try constructor; [done|].
  by apply Forall_take.
Qed.

Lemma selection_selects owner start end_ n d :
  selects owner start end_ n d (reverse (selected_rows owner start end_ n d))
    (selection_of owner start end_ n d).
Proof.
  set (rows := selected_rows owner start end_ n d).
  assert (∀ kr, kr ∈ rows → eligible owner start end_ d kr.1 kr.2) as Hel.
  { intros [k r] Hin%elem_of_take_sort_on. by apply eligible_rows_spec in Hin. }
  split.
  - apply sources_show. intros kr. rewrite elem_of_reverse. apply Hel.
  - intros kr. rewrite elem_of_reverse. apply Hel.
  - intros [k r] [k' r']. rewrite !elem_of_reverse. intros H1 H2 [??]%same_message_true.
    apply Hel in H1, H2. pose proof (eligible_unique _ _ _ _ _ _ _ _ H2 H1) as Heq. simpl in *.
    rewrite Heq // in H1 |- *. destruct H1 as [(Hr1&_) _], H2 as [(Hr2&_) _]. congruence.
  - rewrite reverse_Permutation. apply NoDup_take_sort_on, NoDup_eligible_rows.
  - intros k r kr Hin Hout. rewrite elem_of_reverse in Hout. rewrite elem_of_reverse. intros Hkr.
    apply eligible_rows_spec in Hin.
    assert ((k, r) ∈ sort_on newest_key (eligible_rows owner start end_ d)) as Hs
      by by apply elem_of_sort_on.
    rewrite -(take_drop n (sort_on _ _)) in Hs. apply elem_of_app in Hs as [?|Hs]; [done|].
    eapply take_sort_on_below in Hs; [|exact Hkr]. apply lexleb_cons in Hs. simpl in Hs. lia.
  - apply (StronglySorted_reverse (λ a b, rev_published_at b.2 ≤ rev_published_at a.2)).
    eapply StronglySorted_weaken; [|apply StronglySorted_take, sort_on_sorted].
    intros a b Hab%lexleb_cons. simpl in *. lia.
  - exists (eligible_rows owner start end_ d). split_and!.
    + apply NoDup_eligible_rows.
    + intros [k r]. apply eligible_rows_spec.
    + by rewrite length_reverse /rows /selected_rows length_take length_sort_on.
    + intros Hn. rewrite /selection_of /=. destruct (selected_rows _ _ _ _ _) eqn:Hr; [|done].
      apply (f_equal length) in Hr. rewrite /selected_rows length_take length_sort_on /= in Hr. lia.
Qed.

Lemma select_sources_inv source_count run w sel w' :
  select_sources source_count run w = (Ok sel, w') →
  w_db w' = w_db w ∧ ∃ start end_ rows,
    pg_timestamptz (pend_window_start run) = Some start ∧
    pg_timestamptz (pend_window_end run) = Some end_ ∧
    selects (pend_owner_id run) start end_ source_count (w_db w) rows sel ∧
    (source_count ≠ 0%nat → ((length (sel_sources sel) <? sel_eligible sel)%nat = true ↔
       ∃ k r, eligible (pend_owner_id run) start end_ (w_db w) k r ∧ (k, r) ∉ rows)).
Proof.
  rewrite /select_sources. intros Hw. step Hw as limit w1 [Hl%ok_or_Ok ->]%lift_inv.
  assert (Z.to_nat limit = source_count) as Hlim.
  { rewrite /i64_of_nat in Hl. case_match; simplify_eq. lia. }
  apply sql_inv in Hw as [Hs _]. apply with_cast_Ok in Hs as (start&Hst&Hs).
  apply with_cast_Ok in Hs as (end_&Hen&Hs). rewrite /read Hlim in Hs. injection Hs as <- Hd.
  split; [done|]. exists start, end_. eexists. split_and!; [done..|apply selection_selects|].
  set (sel := selection_of _ _ _ _ _). intros Hn.
  pose proof (selection_selects (pend_owner_id run) start end_ source_count (w_db w)) as Hsel.
  fold sel in Hsel. destruct (sl_counted _ _ _ _ _ _ _ Hsel) as (all&Hnd&Hall&Hlen&Hel).
  rewrite Nat.ltb_lt (Hel Hn) -(Forall2_length _ _ _ (sl_shown _ _ _ _ _ _ _ Hsel)).
  set (rows := reverse _) in *. split.
  - intros Hlt. destruct (decide (Forall (λ kr, kr ∈ rows) all)) as [Hf|Hf].
    + rewrite Forall_forall in Hf.
      assert (length all ≤ length rows)%nat by (apply submseteq_length, NoDup_submseteq; done). lia.
    + apply not_Forall_Exists in Hf; [|apply _]. apply Exists_exists in Hf as ([k r]&Hin&Hout).
      exists k, r. split; [by apply (Hall (k, r))|done].
  - intros (k&r&Hin&Hout). apply (Hall (k, r)) in Hin.
    destruct (decide (length rows < length all)%nat) as [?|Hge]; [done|]. exfalso. apply Hout.
    assert (rows ⊆+ all) as Hsub.
    { apply NoDup_submseteq; [by apply Hsel|]. intros kr Hkr. apply Hall. by apply Hsel. }
    by rewrite (submseteq_length_Permutation _ _ Hsub); [|lia].
Qed.


(** ** The verdict over the channels *)

Definition is_deferred (o : result AcquisitionError.t acquisition_report) : bool :=
  match o with Err AcquisitionError.Deferred => true | _ => false end.

Definition is_incomplete (o : result AcquisitionError.t acquisition_report) : bool :=
  match o with Ok report => ar_partial report | Err AcquisitionError.Unavailable => true | _ => false end.

Notation outcomes := (list (result AcquisitionError.t acquisition_report)).

(** The channels are walked one after the other, each once, with these answers. *)
Inductive walked (pv : uuid → provider) (run : pending_run) :
    list (uuid * string) → world → outcomes → world → Prop :=
| walked_none w : walked pv run [] w [] w
| walked_next c l w o w1 os w2 :
    execute (pv c.1) (channel_request run c) w = (o, w1) →
    walked pv run l w1 os w2 →
    walked pv run (c :: l) w (o :: os) w2.

Lemma walked_length pv run l w os w' : walked pv run l w os w' → length os = length l.
Proof. induction 1; simpl; congruence. Qed.

Lemma acquire_each_inv pv run l t w t' w' :
  acquire_each pv run l t w = (Ok t', w') →
  ∃ os, walked pv run l w os w' ∧ t' = fold_left count_outcome os t.
Proof.
  revert t w. induction l as [|c l IH]; intros t w; simpl.
  - intros [-> ->]%ret_inv. exists []. split; [constructor|done].
  - intros Hw. step Hw as o w1 Ho. apply IH in Hw as (os&Hl&->). exists (o :: os). split; [|done].
    econstructor; [|exact Hl]. revert Ho. rewrite /observe. destruct (execute _ _ w). by intros [= -> ->].
Qed.

Lemma count_outcomes (os : outcomes) t :
  let t' := fold_left count_outcome os t in
  tl_successful t' = (tl_successful t + length (filter (λ o, is_ok o = true) os))%nat ∧
  tl_deferred t' = (tl_deferred t + length (filter (λ o, is_deferred o = true) os))%nat ∧
  tl_incomplete t' = tl_incomplete t || existsb is_incomplete os.
Proof.
  revert t. induction os as [|o os IH]; intros t; simpl; [rewrite orb_false_r; split_and!; [lia..|done]|].
  destruct (IH (count_outcome t o)) as (->&->&->). rewrite !filter_cons.
  destruct o as [report|[]]; simpl; split_and!; try lia; by rewrite ?orb_false_r ?orb_assoc ?orb_true_r.
Qed.

Lemma filter_length_pos {A} (P : A → bool) (l : list A) :
  (0 < length (filter (λ x, P x = true) l))%nat ↔ ∃ x, x ∈ l ∧ P x = true.
Proof.
  split.
  - destruct (filter _ l) as [|x l'] eqn:Hf; [simpl; lia|]. intros _. exists x.
    assert (x ∈ filter (λ x, P x = true) l) as [? ?]%list_elem_of_filter by (rewrite Hf; set_solver). done.
  - intros (x&Hin&Hp). assert (x ∈ filter (λ x, P x = true) l) as Hx by by apply list_elem_of_filter.
    destruct (filter _ l); [by apply elem_of_nil in Hx|simpl; lia].
Qed.

(** One channel never hides another: every subscribed channel is walked once, the run is deferred
    exactly when some channel asks to wait, fails as unavailable exactly when there are channels and
    none of them answered, and otherwise counts as complete exactly when every channel was read to
    its end. *)
Lemma acquire_exact pv run l w v w' :
  acquire pv run l w = (Ok v, w') →
  ∃ os : outcomes, walked pv run l w os w' ∧
    (v = Acquired.Deferred ↔ Err AcquisitionError.Deferred ∈ os) ∧
    (v = Acquired.Unavailable ↔ os ≠ [] ∧ ∀ o, o ∈ os → o = Err AcquisitionError.Unavailable) ∧
    (v = Acquired.Complete ↔ ∀ o, o ∈ os → ∃ pages revisions, o = Ok (AcquisitionReport pages revisions false)).
Proof.
  rewrite /acquire. intros Hw. step Hw as t w1 (os&Hwalk&->)%acquire_each_inv.
  apply ret_inv in Hw as [-> ->]. exists os. split; [done|]. pose proof (walked_length _ _ _ _ _ _ Hwalk) as Hl.
  destruct (count_outcomes os (Tally 0 0 false)) as (Hs&Hd&Hi). simpl in Hs, Hd, Hi.
  rewrite /verdict Hs Hd Hi -Hl. clear Hs Hd Hi Hl.
  assert ((0 < length (filter (λ o, is_deferred o = true) os))%nat ↔ Err AcquisitionError.Deferred ∈ os) as Hdef.
  { rewrite filter_length_pos. split; [intros ([|[]]&?&?); by simplify_eq|]. intros ?. by eexists. }
  destruct (Nat.ltb_spec 0 (length (filter (λ o, is_deferred o = true) os))) as [Hlt|Hge].
  { apply Hdef in Hlt. split_and!; [done|..].
    - split; [done|]. intros [_ Hall]. by specialize (Hall _ Hlt).
    - split; [done|]. intros Hall. by destruct (Hall _ Hlt) as (?&?&?). }
  assert (Err AcquisitionError.Deferred ∉ os) as Hnd by (rewrite -Hdef; lia). clear Hdef Hge.
  pose proof (filter_length_pos is_ok os) as Hok.
  assert (existsb is_incomplete os = true ↔ ∃ o, o ∈ os ∧ is_incomplete o = true) as Hinc.
  { rewrite existsb_exists. by setoid_rewrite list_elem_of_In. }
  destruct (length (filter (λ o, is_ok o = true) os)) as [|n] eqn:Hn.
  - assert (∀ o, o ∈ os → o = Err AcquisitionError.Unavailable) as Hall.
    { intros [report|[]] Hin; [|done|done].
      exfalso. assert (0 < 0)%nat; [|lia]. apply Hok. by eexists. }
    destruct os as [|o os]; simpl.
    + split_and!; split; try done; [by intros [? _]|]. intros _ o H0. by apply elem_of_nil in H0.
    + split_and!; split; try done. intros Hc. destruct (Hc o) as (?&?&He); [set_solver|].
      rewrite (Hall o) // in He. set_solver.
  - destruct Hok as [(o&Hin&Ho) _]; [lia|].
    destruct (length os =? 0)%nat eqn:H0; [destruct os; [by apply elem_of_nil in Hin|done]|]. simpl.
    destruct (existsb is_incomplete os) eqn:He.
    + destruct Hinc as [(o'&Hin'&Ho') _]; [done|]. split_and!; split; try done.
      * intros [_ Hall]. by rewrite (Hall _ Hin) in Ho.
      * intros Hall. destruct (Hall _ Hin') as (?&?&->). done.
    + split_and!; split; try done.
      * intros [_ Hall]. by rewrite (Hall _ Hin) in Ho.
      * intros _ [[pages revs partial]|[]] Hin'; [|exfalso|done].
        -- destruct partial; [|by eexists _, _]. exfalso.
           assert (false = true); [|done]. apply Hinc. by eexists.
        -- assert (false = true); [|done]. apply Hinc. by eexists.
Qed.

(** ** Which run is next *)

(** A provider wait of one of the run's channels is stored and still runs. *)
Definition held (now : Z) (run_id : uuid) (d : db) : Prop :=
  ∃ kind l, leases d !! (kind, run_id) = Some l ∧ String.prefix "acquisition:" kind = true ∧
    ck_state <$> lease_checkpoint l = Some "flood_wait" ∧ now < lease_expires_at l.

Lemma waits_true now run_id d : waits now run_id d = true ↔ held now run_id d.
Proof.
  rewrite /waits existsb_exists /held. split.
  - intros ([[kind k] l]&Hin&Hb). rewrite !andb_true_iff !bool_decide_eq_true Z.ltb_lt /= in Hb.
    apply list_elem_of_In, elem_of_map_to_list in Hin. destruct Hb as [[[-> ?] ?] ?]. by exists kind, l.
  - intros (kind&l&Hl&?&?&?). exists ((kind, run_id), l).
    rewrite -list_elem_of_In elem_of_map_to_list !andb_true_iff !bool_decide_eq_true Z.ltb_lt. done.
Qed.

(** The executor takes the oldest run it may work on: the selected run is accepted or acquiring,
    none of its channels waits for the provider, and no such run was created before it; nothing is
    selected only when there is no such run. *)
Lemma select_pending_exact w found w' :
  select_pending w = (Ok found, w') →
  w_db w' = w_db w ∧
  let ready k r := runs (w_db w) !! k = Some r ∧ run_state r ∈ open_states ∧
                   ¬ held (w_now w) k (w_db w) in
  match found with
  | None => ∀ k r, ¬ ready k r
  | Some run => ∃ r, ready (pend_run_id run) r ∧ pend_owner_id run = run_owner r ∧
      pend_state run = run_state r ∧ pend_operation_id run = run_operation r ∧
      ∀ k r', ready k r' → run_created_at r ≤ run_created_at r'
  end.
Proof.
  rewrite /select_pending /exec_sql. intros [Hs _]%sql_inv. injection Hs as <- Hd. split; [done|].
  cbn zeta. rewrite /next_pending.
  assert (∀ k r, (k, r) ∈ sort_on pending_key (select_where (pending (w_now w) (w_db w)) (runs (w_db w))) ↔
    runs (w_db w) !! k = Some r ∧ run_state r ∈ open_states ∧ ¬ held (w_now w) k (w_db w)) as Hin.
  { intros k r. rewrite elem_of_sort_on elem_of_select_where /pending andb_true_iff bool_decide_eq_true.
    rewrite negb_true_iff -waits_true not_true_iff_false. done. }
  pose proof (sort_on_sorted pending_key (select_where (pending (w_now w) (w_db w)) (runs (w_db w)))) as Hsort.
  destruct (sort_on _ _) as [|[k r] l] eqn:Hl; simpl.
  - intros k r Hr%Hin. by apply elem_of_nil in Hr.
  - destruct (proj1 (Hin k r)) as (?&?&?); [set_solver|]. exists r. split_and!; try done.
    intros k' r' Hr'%Hin.
    inversion Hsort as [|? ? _ Hall]; subst. apply elem_of_cons in Hr' as [[= -> ->]|Hr']; [done|].
    rewrite Forall_forall in Hall. specialize (Hall _ Hr'). by apply lexleb_cons in Hall.
Qed.
End ExecutorSpec.

(** ** Witnesses *)

(** Three stored posts of one enabled channel, the oldest before the window. *)
Module Posts.
Definition revision (message published : Z) (body : string) : revision_row :=
  RevisionRow 1 message (Demo.digest body) (Some body) published 3000000 "link" None None.
Definition db_of (posts : gmap uuid revision_row) : db :=
  with_runs (with_revisions
    (with_subscriptions Channel.db_one {[11%N := SubscriptionRow 7 1 0 true 0]}) posts)
    {[60%N := Demo.run_row_in RunState.Acquiring]}.
Definition stored : db :=
  db_of {[101%N := revision 9 1900000 "nine"; 102%N := revision 8 1800000 "eight";
          103%N := revision 7 900000 "seven"]}.
Definition run : pending_run :=
  PendingRun 60 7 "1000000" "2000000" OutputLanguage.En RunState.Acquiring 50.
End Posts.


(** Two channels, the second of which asks to wait. *)
Lemma acquire_exact_witness :
  let pv c := if bool_decide (c = 1%N) then Channel.pv
              else Provider unit (λ _, Some (Err (ProviderError.FloodWait 30))) (λ _ _ _ _, None) in
  ∃ w', @acquire Demo.external pv Posts.run [(1%N, "rustlang"); (2%N, "second")] (Demo.world Channel.db_one)
          = (Ok Acquired.Deferred, w') ∧
    ∃ os : list (result AcquisitionError.t acquisition_report), length os = 2%nat ∧
      Err AcquisitionError.Deferred ∈ os.
Proof.
  intros pv. destruct (acquire pv _ _ _) as [[v|e] w'] eqn:Hw; [|by vm_compute in Hw].
  assert (v = Acquired.Deferred) as -> by (vm_compute in Hw; by injection Hw as <-).
  exists w'. split; [reflexivity|].
  destruct (@acquire_exact Demo.external _ _ _ _ _ _ Hw) as (os&Hl&Hd&_).
  exists os. split; [exact (walked_length _ _ _ _ _ _ Hl)|]. by apply Hd.
Defined.

Lemma select_pending_exact_witness :
  ∃ run w', @select_pending Demo.external (Demo.world Posts.stored) = (Ok (Some run), w') ∧
    pend_run_id run = 60%N ∧ run_state <$> runs Posts.stored !! pend_run_id run = Some RunState.Acquiring.
Proof.
  destruct (select_pending (Demo.world Posts.stored)) as [[[run|]|e] w'] eqn:Hw;
    [|by vm_compute in Hw..].
  exists run, w'. split; [reflexivity|].
  assert (pend_run_id run = 60%N) as Hid by (vm_compute in Hw; by injection Hw as <-). split; [exact Hid|].
  destruct (@select_pending_exact Demo.external _ _ _ Hw) as (_&r&(Hr&_)&_&Hs&_).
  assert (pend_state run = RunState.Acquiring) as Hst by (vm_compute in Hw; by injection Hw as <-).
  simpl in Hr. rewrite Hr /=. by rewrite -Hs Hst.
Defined.
