(* ===== verification/Bus.v ===== *)
(** * Bus: [src/src/envelopes.rs] and [src/src/bus.rs], envelopes, dispositions and the outbox

    Modelled here are the handling of one delivery, the wrapping of one outbox row and the publication
    of the due rows; the check of the consumers and the loop around them are in [Supervision]. *)

From S2P Require Import Prelude Text External Store Tx Reports Inbox Intake Coordinator.

Module BusError.
Inductive t := Unavailable | Unacknowledged | Unwrappable.
End BusError.

Module DeliveryDisposition.
Inductive t := Ack | Term | Nak.
#[export] Instance eq_dec : EqDecision t.
Proof. solve_decision. Defined.
End DeliveryDisposition.
Export (hints) DeliveryDisposition.

Definition PRODUCER : string := "ratatoskr-channel-digests".
Definition PLATFORM_PRODUCER : string := "ratatoskr-platform".
Definition KNOWLEDGE_PRODUCER : string := "ratatoskr-knowledge".

Definition CMD_SUBSCRIPTION : string := "cmd.channel_digest.subscription.set_requested.v1".
Definition CMD_RUN : string := "cmd.channel_digest.run.requested.v1".
Definition CMD_SCHEDULE : string := "cmd.channel_digest.schedule.occurrence_requested.v1".
Definition EVT_COMPLETED : string := "evt.knowledge.channel_digest_recap.completed.v1".
Definition EVT_FAILED : string := "evt.knowledge.channel_digest_recap.failed.v1".

(** An outbox row with its identity, as [publish_outbox] reads it. *)
Record stored_outbox_row := StoredOutboxRow {
  so_id : uuid;
  so_subject : string;
  so_owner : uuid;
  so_operation : option uuid;
  so_causation : option string;
  so_created_at : Z;
  so_payload : json }.

Record outbound_message := OutboundMessage {
  om_subject : string;
  om_message_id : uuid;
  om_bytes : string }.

Section Bus.
Context `{External} `{!BusExternal}.

(** ** Envelopes *)

Definition unwrappable {A} (o : option A) : result BusError.t A := ok_or BusError.Unwrappable o.

(** Outbox subjects that are commands. *)
Definition COMMAND_SUBJECTS : list string := [RECAP_COMMAND_TYPE; REGISTRATION_COMMAND_TYPE].

(** [typed_payload] at the type [from_value] decodes. *)
Definition typed_payload {P} (from_value : json → option P) (row : stored_outbox_row) : result BusError.t P :=
  unwrappable (from_value (so_payload row)).

(** [entity], [causation] and [producer] *)
Definition entity (raw : string) : result BusError.t string := unwrappable (parse_entity_ref raw).

Definition causation (row : stored_outbox_row) : result BusError.t (option string) :=
  match so_causation row with
  | None => Ok None
  | Some raw => e ← entity raw; Ok (Some e)
  end.

Definition producer : result BusError.t string := unwrappable (parse_producer_name PRODUCER).

(** The envelope of a row, [command_envelope] and the literal of [report_envelope]. *)
Definition row_envelope (row : stored_outbox_row) (payload : outbound_payload)
    (aggregate correlation : string) : result BusError.t string :=
  p ← producer;
  a ← entity aggregate;
  c ← entity correlation;
  cause ← causation row;
  unwrappable (outbound_to_vec (OutboundEnvelope (so_id row) (so_created_at row) p a c cause
    (tenant_of_user (so_owner row)) payload)).

(** [recap_request_envelope] *)
Definition recap_request_envelope (row : stored_outbox_row) : result BusError.t string :=
  request ← typed_payload recap_of_json row;
  if negb (validate_recap_requested request) then Err BusError.Unwrappable
  else row_envelope row (RecapPayload request)
         ("channel-digest-run:" +:+ uuid_text (rq_run request))%string
         ("operation:" +:+ uuid_text (rq_operation request))%string.

(** [registration_envelope] *)
Definition registration_envelope (row : stored_outbox_row) : result BusError.t string :=
  reg ← typed_payload registration_of_json row;
  if negb (bool_decide (reg_service_name reg = PRODUCER)) then Err BusError.Unwrappable
  else row_envelope row (RegistrationPayload reg)
         ("schedule-registration:" +:+ (reg_service_name reg +:+ ("." +:+ reg_name reg)))%string
         ("command:" +:+ uuid_text (so_id row))%string.

(** [report_envelope] *)
Definition report_envelope (row : stored_outbox_row) : result BusError.t string :=
  report ← typed_payload report_of_json row;
  if negb (validate_operation_reported report) then Err BusError.Unwrappable
  else
    let operation := ("operation:" +:+ uuid_text (rep_operation report))%string in
    row_envelope row (ReportPayload report) operation operation.

(** [wrap_outbox_row] *)
Definition wrap_outbox_row (row : stored_outbox_row) : result BusError.t outbound_message :=
  let message (class : string) (bytes : string) :=
    OutboundMessage (class +:+ ("." +:+ so_subject row))%string (so_id row) bytes in
  if bool_decide (so_subject row = REPORT_SUBJECT)
  then bytes ← report_envelope row; Ok (message "evt" bytes)
  else if bool_decide (so_subject row ∈ COMMAND_SUBJECTS)
  then
    bytes ← (if bool_decide (so_subject row = RECAP_COMMAND_TYPE)
             then recap_request_envelope row else registration_envelope row);
    Ok (message "cmd" bytes)
  else Err BusError.Unwrappable.

(** ** Deliveries *)

Definition intake_disposition (r : result IntakeError.t IntakeOutcome.t) : DeliveryDisposition.t :=
  match r with
  | Ok _ => DeliveryDisposition.Ack
  | Err IntakeError.Invalid => DeliveryDisposition.Term
  | Err IntakeError.Storage => DeliveryDisposition.Nak
  end.

Definition coordinator_disposition (r : result CoordinatorError.t IntakeOutcome.t)
    : DeliveryDisposition.t :=
  match r with
  | Ok _ => DeliveryDisposition.Ack
  | Err CoordinatorError.Invalid => DeliveryDisposition.Term
  | Err CoordinatorError.Storage => DeliveryDisposition.Nak
  end.

(** A handler never fails: its answer is the disposition. *)
Definition delivery : Type := M Empty_set DeliveryDisposition.t.

Definition answer {E} (disposition : result E IntakeOutcome.t → DeliveryDisposition.t)
    (m : M E IntakeOutcome.t) : delivery :=
  r ← observe m; mret (disposition r).

Definition term : delivery := mret DeliveryDisposition.Term.

(** [let Ok(x) = o else { return Term }] *)
Definition or_term {A} (o : option A) (k : A → delivery) : delivery :=
  match o with Some a => k a | None => term end.

(** [occurrence_authority] *)
Definition occurrence_authority (e : inbound_envelope) : option (uuid * uuid) :=
  operation ← (if bool_decide (er_kind (ie_correlation e) = "operation")
               then er_uuid (ie_correlation e) else None);
  tenant ← ie_tenant e;
  Some (operation, tenant_user_id tenant).

(** [WorkerMessageHandler::reject_unreadable] *)
Definition reject_unreadable_delivery (e : inbound_envelope) (kind : CommandKind.t) : delivery :=
  or_term (ie_tenant e) (λ tenant,
    answer intake_disposition (reject_unreadable (ie_id e) kind tenant (ie_payload e))).

(** The occurrence arm of [handle_command]. *)
Definition handle_occurrence (language : OutputLanguage.t) (e : inbound_envelope) : delivery :=
  if negb (bool_decide (ie_type e = OCCURRENCE_COMMAND_TYPE)) then term
  else or_term (occurrence_of_payload (ie_payload e)) (λ command,
    if negb (validate_occurrence command) || negb (bool_decide (ie_aggregate e = oc_ref command))
    then term
    else or_term (occurrence_to_vec command) (λ payload,
      or_term (occurrence_authority e) (λ '(operation, owner),
        answer coordinator_disposition (accept_occurrence
          (OccurrenceRequest (ie_id e) payload (oc_ref command)
             (wire_text (oc_previous_due_at command)) (wire_text (oc_due_at command))
             operation owner language))))).

(** The subscription and run arms of [handle_command]. *)
Definition handle_subscription (e : inbound_envelope) : delivery :=
  if negb (bool_decide (ie_type e = SUBSCRIPTION_COMMAND_TYPE)) then term
  else match subscription_of_payload (ie_payload e) with
  | None => reject_unreadable_delivery e CommandKind.Subscription
  | Some command =>
      if negb (bool_decide (ie_tenant e = Some (sc_owner command))) then term
      else or_term (subscription_to_vec command) (λ payload,
        answer intake_disposition (accept_subscription (ie_id e) payload))
  end.

Definition handle_run (e : inbound_envelope) : delivery :=
  if negb (bool_decide (ie_type e = RUN_COMMAND_TYPE)) then term
  else match run_of_payload (ie_payload e) with
  | None => reject_unreadable_delivery e CommandKind.Run
  | Some command =>
      if negb (bool_decide (ie_tenant e = Some (rc_owner command))) then term
      else or_term (run_to_vec command) (λ payload,
        answer intake_disposition (accept_run (ie_id e) payload))
  end.

(** [handle_command] *)
Definition handle_command (language : OutputLanguage.t) (subject bytes : string) : delivery :=
  or_term (decode_command_envelope bytes) (λ e,
    if negb (bool_decide (ie_producer e = PLATFORM_PRODUCER)) then term
    else if bool_decide (subject = CMD_SCHEDULE) then handle_occurrence language e
    else if bool_decide (subject = CMD_SUBSCRIPTION) then handle_subscription e
    else if bool_decide (subject = CMD_RUN) then handle_run e
    else term).

(** [handle_event] *)
Definition handle_event (subject bytes : string) : delivery :=
  or_term (decode_event_envelope bytes) (λ e,
    if negb (bool_decide (ie_producer e = KNOWLEDGE_PRODUCER)) then term
    else if bool_decide (subject = EVT_COMPLETED) then
      if negb (bool_decide (ie_type e = COMPLETED_EVENT_TYPE)) then term
      else or_term (completed_of_payload (ie_payload e)) (λ fact,
        if negb (bool_decide (ie_tenant e = Some (fc_owner fact))) then term
        else or_term (completed_to_vec fact) (λ payload,
          answer coordinator_disposition (settle_completion (ie_id e) payload)))
    else if bool_decide (subject = EVT_FAILED) then
      if negb (bool_decide (ie_type e = FAILED_EVENT_TYPE)) then term
      else or_term (failed_of_payload (ie_payload e)) (λ fact,
        if negb (bool_decide (ie_tenant e = Some (ff_owner fact))) then term
        else or_term (failed_to_vec fact) (λ payload,
          answer coordinator_disposition (settle_failure (ie_id e) payload)))
    else term).

(** [WorkerMessageHandler::handle] *)
Definition handle (language : OutputLanguage.t) (subject bytes : string) : delivery :=
  if bool_decide (subject ∈ [CMD_SUBSCRIPTION; CMD_RUN; CMD_SCHEDULE])
  then handle_command language subject bytes
  else if bool_decide (subject ∈ [EVT_COMPLETED; EVT_FAILED])
  then handle_event subject bytes
  else term.

(** ** The outbox *)

Definition PUBLISH_BATCH : nat := 32.

Definition publishable (now : Z) (_ : uuid) (o : outbox_row) : bool :=
  bool_decide (out_published_at o = None) && (out_next_attempt_at o <=? now).

(** [order by created_at, outbox_id] *)
Definition publish_key (ko : uuid * outbox_row) : list Z := [out_created_at ko.2; Z.of_N ko.1].

Definition publish_batch (now : Z) (d : db) : list (uuid * outbox_row) :=
  take PUBLISH_BATCH (sort_on publish_key (select_where (publishable now) (outbox d))).

Definition unpublished (outbox_id k : uuid) (o : outbox_row) : bool :=
  bool_decide (k = outbox_id) && bool_decide (out_published_at o = None).

Definition set_published (now : Z) (o : outbox_row) : outbox_row :=
  OutboxRow (out_subject o) (out_semantic_key o) (out_owner o) (out_operation o) (out_causation o)
    (out_payload o) (out_created_at o) (Some now) (out_attempts o + 1) (out_next_attempt_at o)
    (out_failure_class o).

(** [least(300, power(2, least(attempts, 8)))] in seconds *)
Definition backoff_seconds (attempts : Z) : Z := Z.min 300 (2 ^ Z.min attempts 8).

Definition set_backed_off (now : Z) (o : outbox_row) : outbox_row :=
  OutboxRow (out_subject o) (out_semantic_key o) (out_owner o) (out_operation o) (out_causation o)
    (out_payload o) (out_created_at o) (out_published_at o) (out_attempts o + 1)
    (now + backoff_seconds (out_attempts o) * 1000000) (Some "publish_unacknowledged").

(** [update outbox_messages set ... where outbox_id = $1 and published_at is null] *)
Definition update_outbox (outbox_id : uuid) (f : Z → outbox_row → outbox_row) : stmt unit := λ now d,
  Ok (tt, with_outbox d (update_where (unpublished outbox_id) (f now) (outbox d))).

(** The row [publish_outbox] wraps; its instant goes through a text of microseconds. *)
Definition stored_row (ko : uuid * outbox_row) : result BusError.t stored_outbox_row :=
  at_ ← unwrappable (jiff_parse (pg_to_char_micros (out_created_at ko.2)));
  Ok (StoredOutboxRow ko.1 (out_subject ko.2) (out_owner ko.2) (out_operation ko.2)
        (out_causation ko.2) at_ (out_payload ko.2)).

(** What a JetStream context answers to [publish_with_headers] and the acknowledgement it awaits. *)
Record publish_request := PublishRequest {
  pr_subject : string; pr_headers : list (string * string); pr_payload : string }.

Inductive publish_answer := Unsent | Unacked | Acked.

Definition jetstream : Type := publish_request → publish_answer.

(** [publish_message] *)
Definition publish_message (context : jetstream) (message : outbound_message) : result BusError.t unit :=
  match context (PublishRequest (om_subject message)
                   [("Nats-Msg-Id", uuid_text (om_message_id message))] (om_bytes message)) with
  | Unsent => Err BusError.Unavailable
  | Unacked => Err BusError.Unacknowledged
  | Acked => Ok tt
  end.

Definition acknowledges (context : jetstream) (message : outbound_message) : bool :=
  is_ok (publish_message context message).

(** The loop of [publish_outbox]; [ack] is [acknowledges] of the context: whether [publish_message]
    succeeds. *)
Fixpoint publish_rows (ack : outbound_message → bool) (rows : list (uuid * outbox_row))
    (refused : bool) : M BusError.t bool :=
  match rows with
  | [] => mret refused
  | ko :: rows' =>
      row ← lift (stored_row ko);
      message ← lift (wrap_outbox_row row);
      if ack message then
        _ ← sql BusError.Unavailable (update_outbox ko.1 set_published);
        publish_rows ack rows' refused
      else
        _ ← sql BusError.Unavailable (update_outbox ko.1 set_backed_off);
        publish_rows ack rows' true
  end.

(** [publish_outbox] *)
Definition publish_outbox (ack : outbound_message → bool) : M BusError.t unit :=
  rows ← sql BusError.Unavailable (λ now d, Ok (publish_batch now d, d));
  refused ← publish_rows ack rows false;
  if refused : bool then fail BusError.Unacknowledged else mret tt.

(** [process_delivery] up to the acknowledgement it sends: the disposition of one message, once the
    outbox was published. *)
Definition process_delivery (language : OutputLanguage.t) (ack : outbound_message → bool)
    (next : option (option (string * string))) : M BusError.t DeliveryDisposition.t :=
  message ← lift (ok_or BusError.Unavailable next);
  '(subject, bytes) ← lift (ok_or BusError.Unavailable message);
  disposition ← on_err (λ e : Empty_set, match e with end) (handle language subject bytes);
  _ ← publish_outbox ack;
  mret disposition.
End Bus.
