(* ===== verification/BusSpec.v ===== *)
(** * BusSpec: what a delivery may do, and what the outbox publication guarantees *)

From S2P Require Import Prelude Text External Store Tx Demo Reports Inbox Intake IntakeSpec.
From S2P Require Import Coordinator Settlement Schedule Bus.

Section Deliveries.
Context `{External} `{!BusExternal}.

(** The tenant an envelope carries is the owner its payload names: the decoded command's, or, of a
    payload that does not decode, the one under its [owner] key. *)
Definition names_owner {C} (decode : json → option C) (owner_of : C → string) (e : inbound_envelope) : Prop :=
  ∃ tenant, ie_tenant e = Some tenant ∧
    match decode (ie_payload e) with
    | Some c => owner_of c = tenant
    | None => json_get "owner" (ie_payload e) ≫= tenant_of_value = Some tenant
    end.

(** The message is one this service takes: from the producer its subject belongs to, of the subject's
    type, and for the owner its payload names; an occurrence names its schedule, and its operation and
    owner are the envelope's. *)
Inductive authorized (subject bytes : string) : Prop :=
| authorized_command e :
    decode_command_envelope bytes = Some e → ie_producer e = PLATFORM_PRODUCER →
    (subject = CMD_SCHEDULE ∧ ie_type e = OCCURRENCE_COMMAND_TYPE ∧
       (∃ c, occurrence_of_payload (ie_payload e) = Some c ∧ validate_occurrence c = true ∧
          ie_aggregate e = oc_ref c) ∧ is_Some (occurrence_authority e)) ∨
    (subject = CMD_SUBSCRIPTION ∧ ie_type e = SUBSCRIPTION_COMMAND_TYPE ∧
       names_owner subscription_of_payload sc_owner e) ∨
    (subject = CMD_RUN ∧ ie_type e = RUN_COMMAND_TYPE ∧ names_owner run_of_payload rc_owner e) →
    authorized subject bytes
| authorized_event e :
    decode_event_envelope bytes = Some e → ie_producer e = KNOWLEDGE_PRODUCER →
    (subject = EVT_COMPLETED ∧ ie_type e = COMPLETED_EVENT_TYPE ∧
       ∃ f, completed_of_payload (ie_payload e) = Some f ∧ ie_tenant e = Some (fc_owner f)) ∨
    (subject = EVT_FAILED ∧ ie_type e = FAILED_EVENT_TYPE ∧
       ∃ f, failed_of_payload (ie_payload e) = Some f ∧ ie_tenant e = Some (ff_owner f)) →
    authorized subject bytes.

(** A handler that always answers, changes nothing unless it acknowledges, and changes something only
    under the condition. *)
Definition guarded (P : Prop) (m : delivery) : Prop :=
  ∀ w r w', m w = (r, w') → ∃ x, r = Ok x ∧
    (x ≠ DeliveryDisposition.Ack → w_db w' = w_db w) ∧ (¬ P → w_db w' = w_db w).

Lemma guarded_term P : guarded P term.
Proof. intros w r w' [-> ->]%ret_eq. by exists DeliveryDisposition.Term. Qed.

Lemma guarded_or_term {A} P (o : option A) (k : A → delivery) :
  (∀ a, o = Some a → guarded P (k a)) → guarded P (or_term o k).
Proof. destruct o; [intros Hk; by apply Hk|intros _; apply guarded_term]. Qed.

Lemma guarded_answer {E} (P : Prop) disposition (m : M E IntakeOutcome.t) :
  (∀ r, disposition r ≠ DeliveryDisposition.Ack → r ≠ Ok IntakeOutcome.Applied) →
  (∀ w r w', m w = (r, w') → (r = Ok IntakeOutcome.Applied ∧ P) ∨ w_db w' = w_db w) →
  guarded P (answer disposition m).
Proof.
  intros Hdisp Hm w r w'. rewrite /answer /observe /mbind /M_bind.
  destruct (m w) as [x w1] eqn:Hw. intros [-> ->]%ret_eq. exists (disposition x). split; [done|].
  destruct (Hm _ _ _ Hw) as [[-> HP]|Hd]; [|done]. split; [by intros ?%Hdisp|done].
Qed.

Lemma guarded_intake (P : Prop) (m : M IntakeError.t IntakeOutcome.t) :
  (∀ w r w', m w = (r, w') → (r = Ok IntakeOutcome.Applied ∧ P) ∨ w_db w' = w_db w) →
  guarded P (answer intake_disposition m).
Proof. apply guarded_answer. by intros [[]|[]]. Qed.

Lemma guarded_coordinator (P : Prop) (m : M CoordinatorError.t IntakeOutcome.t) :
  (∀ w r w', m w = (r, w') → (r = Ok IntakeOutcome.Applied ∧ P) ∨ w_db w' = w_db w) →
  guarded P (answer coordinator_disposition m).
Proof. apply guarded_answer. by intros [[]|[]]. Qed.

Lemma guarded_unreadable (P : Prop) e kind :
  (∀ tenant, ie_tenant e = Some tenant → json_get "owner" (ie_payload e) ≫= tenant_of_value = Some tenant → P) →
  guarded P (reject_unreadable_delivery e kind).
Proof.
  intros HP. apply guarded_or_term. intros tenant Ht. apply guarded_intake.
  intros w r w' [(->&?&?&_&Ho&_)|[? _]]%reject_unreadable_inv; eauto.
Qed.

Lemma guarded_command language subject bytes :
  guarded (authorized subject bytes) (handle_command language subject bytes).
Proof.
  apply guarded_or_term. intros e He.
  destruct (bool_decide (ie_producer e = _)) eqn:Hp; simpl; [|apply guarded_term].
  apply bool_decide_eq_true in Hp. case_bool_decide as Hs1; [|case_bool_decide as Hs2; [|case_bool_decide as Hs3]].
  - rewrite /handle_occurrence. destruct (bool_decide (ie_type e = _)) eqn:Ht; simpl; [|apply guarded_term].
    apply bool_decide_eq_true in Ht. apply guarded_or_term. intros c Hc.
    destruct (validate_occurrence c) eqn:Hv, (bool_decide (ie_aggregate e = _)) eqn:Ha; simpl;
      try apply guarded_term. apply bool_decide_eq_true in Ha.
    apply guarded_or_term. intros payload _. apply guarded_or_term. intros [operation owner] Hauth.
    apply guarded_coordinator. intros w r w' [(->&_)|[? _]]%accept_occurrence_inv; [left|by right].
    split; [done|]. eapply authorized_command; [done..|]. left.
    split; [done|]. split; [done|]. split; [by exists c|by eexists].
  - rewrite /handle_subscription. destruct (bool_decide (ie_type e = _)) eqn:Ht; simpl; [|apply guarded_term].
    apply bool_decide_eq_true in Ht. destruct (subscription_of_payload (ie_payload e)) as [c|] eqn:Hc.
    + destruct (bool_decide (ie_tenant e = _)) eqn:Ho; simpl; [|apply guarded_term].
      apply bool_decide_eq_true in Ho. apply guarded_or_term. intros payload _. apply guarded_intake.
      intros w r w' [(->&_)|[? _]]%accept_subscription_inv; [left|by right].
      split; [done|]. eapply authorized_command; [done..|]. right; left. split_and!; try done.
      eexists. split; [exact Ho|]. by rewrite Hc.
    + apply guarded_unreadable. intros tenant Htn How. eapply authorized_command; [done..|]. right; left.
      split_and!; try done. exists tenant. split; [done|]. by rewrite Hc.
  - rewrite /handle_run. destruct (bool_decide (ie_type e = _)) eqn:Ht; simpl; [|apply guarded_term].
    apply bool_decide_eq_true in Ht. destruct (run_of_payload (ie_payload e)) as [c|] eqn:Hc.
    + destruct (bool_decide (ie_tenant e = _)) eqn:Ho; simpl; [|apply guarded_term].
      apply bool_decide_eq_true in Ho. apply guarded_or_term. intros payload _. apply guarded_intake.
      intros w r w' [(->&_)|[? _]]%accept_run_inv; [left|by right].
      split; [done|]. eapply authorized_command; [done..|]. right; right. split_and!; try done.
      eexists. split; [exact Ho|]. by rewrite Hc.
    + apply guarded_unreadable. intros tenant Htn How. eapply authorized_command; [done..|]. right; right.
      split_and!; try done. exists tenant. split; [done|]. by rewrite Hc.
  - apply guarded_term.
Qed.

Lemma guarded_event subject bytes : guarded (authorized subject bytes) (handle_event subject bytes).
Proof.
  apply guarded_or_term. intros e He.
  destruct (bool_decide (ie_producer e = _)) eqn:Hp; simpl; [|apply guarded_term].
  apply bool_decide_eq_true in Hp. case_bool_decide as Hs1; [|case_bool_decide as Hs2].
  1,2: destruct (bool_decide (ie_type e = _)) eqn:Ht; simpl; [|apply guarded_term];
    apply bool_decide_eq_true in Ht; apply guarded_or_term; intros f Hf;
    destruct (bool_decide (ie_tenant e = _)) eqn:Ho; simpl; [|apply guarded_term];
    apply bool_decide_eq_true in Ho; apply guarded_or_term; intros payload _; apply guarded_coordinator;
    intros w r w' Hw.
  - apply settle_completion_inv in Hw as [(?&?&?&?&?&?&->&_)|[? _]]; [left|by right]. split; [done|].
    eapply authorized_event; [done..|]. left. split_and!; try done. by exists f.
  - apply settle_failure_inv in Hw as [(?&?&?&?&?&->&_)|[? _]]; [left|by right]. split; [done|].
    eapply authorized_event; [done..|]. right. split_and!; try done. by exists f.
  - apply guarded_term.
Qed.

(** C21: A delivery is answered in every case, changes the database only when it is acknowledged, and
    only when it is authorized: the envelope comes from the producer the subject belongs to, has the
    subject's type and carries the tenant its payload names, also when the payload of a command does not
    decode and is only rejected; an occurrence, whose payload names no owner, is valid, is about the
    schedule it names, and its envelope carries an operation and a tenant.  A refused delivery, or one
    to retry, leaves no trace. *)
Theorem handle_guarded language subject bytes w :
  let '(res, w') := handle language subject bytes w in
  ∃ disposition, res = Ok disposition ∧
    (disposition ≠ DeliveryDisposition.Ack → w_db w' = w_db w) ∧
    (¬ authorized subject bytes → w_db w' = w_db w).
Proof.
  destruct (handle language subject bytes w) as [res w'] eqn:Hw. revert Hw. rewrite /handle.
  repeat case_bool_decide; [apply guarded_command|apply guarded_event|apply guarded_term].
Qed.

(** ** The outbox *)

(** The broker acknowledges the message of the row. *)
Definition accepted (ack : outbound_message → bool) (ko : uuid * outbox_row) : bool :=
  match stored_row ko ≫= wrap_outbox_row with Ok m => ack m | Err _ => false end.

(** The update of one published row. *)
Definition delivered (ack : outbound_message → bool) (now : Z) (ko : uuid * outbox_row) : outbox_row → outbox_row :=
  if accepted ack ko then set_published now else set_backed_off now.

(** Reading and wrapping a row fail as unwrappable alone. *)
Lemma stored_never_unacknowledged ko : stored_row ko ≠ Err BusError.Unacknowledged.
Proof. rewrite /stored_row /unwrappable /ok_or. by destruct (jiff_parse _). Qed.

Lemma wrap_never_unacknowledged row : wrap_outbox_row row ≠ Err BusError.Unacknowledged.
Proof.
  rewrite /wrap_outbox_row /report_envelope /recap_request_envelope /registration_envelope /row_envelope
    /typed_payload /producer /causation /entity /unwrappable /ok_or /mbind /result_bind.
  intros Hw. repeat case_match; simplify_eq.
Qed.

Lemma update_outbox_inv k f w u w' :
  sql BusError.Unavailable (update_outbox k f) w = (Ok u, w') →
  w_now w' = w_now w ∧ w_db w' = with_outbox (w_db w) (update_where (unpublished k) (f (w_now w)) (outbox (w_db w))).
Proof. intros [Hs Hn]%sql_inv. injection Hs as _ Hs. done. Qed.

Lemma unpublished_true k k' o :
  unpublished k k' o = true ↔ k' = k ∧ out_published_at o = None.
Proof. by rewrite /unpublished andb_true_iff !bool_decide_eq_true. Qed.

Lemma lookup_delivered ack now rows (t : gmap uuid outbox_row) k :
  NoDup rows.*1 → (∀ k o, (k, o) ∈ rows → t !! k = Some o ∧ out_published_at o = None) →
  foldl (λ t ko, update_where (unpublished ko.1) (delivered ack now ko) t) t rows !! k =
    (λ o, if decide (k ∈ rows.*1) then delivered ack now (k, o) o else o) <$> t !! k.
Proof.
  revert t. induction rows as [|[k1 o1] rows IH]; intros t Hnd Hrows; simpl.
  { by destruct (t !! k). }
  apply NoDup_cons in Hnd as [Hk1 Hnd]. destruct (Hrows k1 o1) as [Ht1 Hp1]; [set_solver|].
  assert (∀ k o, k ≠ k1 → unpublished k1 k o = false) as Hne.
  { intros k' o' Hn. apply not_true_iff_false. by intros [? _]%unpublished_true. }
  rewrite IH; [|done|].
  - rewrite lookup_update_where. destruct (t !! k) as [o|] eqn:Hk; simpl; [|done]. f_equal.
    destruct (decide (k = k1)) as [->|Hkne].
    + simplify_eq. rewrite (proj2 (unpublished_true _ _ _)) //.
      rewrite decide_False //. by rewrite decide_True; [|set_solver].
    + rewrite Hne //. apply decide_ext. set_solver.
  - intros k' o' Hin. destruct (Hrows k' o') as [Ht' ?]; [set_solver|]. split; [|done].
    rewrite lookup_update_where Ht' /= Hne //. intros ->. apply Hk1, list_elem_of_fmap. by exists (k1, o').
Qed.

Lemma update_outbox_calm k f w r w' :
  sql BusError.Unavailable (update_outbox k f) w = (r, w') → calm w → is_ok r = true ∧ calm w'.
Proof. intros Hw Hc. rewrite sql_calm // in Hw. by injection Hw as <- <-. Qed.

(** The outbox after the rows were handled one by one. *)
Definition after_rows (ack : outbound_message → bool) (now : Z) (rows : list (uuid * outbox_row)) (d : db) : db :=
  with_outbox d (foldl (λ t ko, update_where (unpublished ko.1) (delivered ack now ko) t) (outbox d) rows).

(** The rows are handled up to the first that does not wrap or, unless storage works, that it refuses. *)
Definition handled_up_to (ack : outbound_message → bool) (now : Z) (works : Prop)
    (rows : list (uuid * outbox_row)) (refused : bool) (r : result BusError.t bool) (d d' : db) : Prop :=
  ∃ n, (n ≤ length rows)%nat ∧ d' = after_rows ack now (take n rows) d ∧
    (∀ ko, ko ∈ take n rows → is_ok (stored_row ko ≫= wrap_outbox_row) = true) ∧
    match r with
    | Ok b => n = length rows ∧ b = refused || negb (forallb (accepted ack) rows)
    | Err e => e ≠ BusError.Unacknowledged ∧
        (works → ∃ ko, rows !! n = Some ko ∧ is_ok (stored_row ko ≫= wrap_outbox_row) = false)
    end.

Lemma handled_stop ack now (works : Prop) ko rows refused e d d' :
  e ≠ BusError.Unacknowledged → d' = d → (works → is_ok (stored_row ko ≫= wrap_outbox_row) = false) →
  handled_up_to ack now works (ko :: rows) refused (Err e) d d'.
Proof.
  intros He -> Hko. exists 0%nat. split_and!; [lia|by destruct d|by intros ? ?%elem_of_nil|done|eauto].
Qed.

Lemma handled_next ack now (works works' : Prop) ko rows refused r d d' :
  is_ok (stored_row ko ≫= wrap_outbox_row) = true → (works → works') →
  handled_up_to ack now works' rows (refused || negb (accepted ack ko)) r (after_rows ack now [ko] d) d' →
  handled_up_to ack now works (ko :: rows) refused r d d'.
Proof.
  intros Hwraps Hworks (n&Hle&Hd&Hok&Hr). exists (S n). simpl. split_and!; [lia|done| |].
  - by intros ko' [->|?]%elem_of_cons; [|apply Hok].
  - destruct r; [|by destruct Hr; auto]. destruct Hr as [-> ->]. split; [done|]. by destruct refused, (accepted ack ko).
Qed.

Lemma publish_rows_exact ack rows refused w r w' :
  publish_rows ack rows refused w = (r, w') →
  handled_up_to ack (w_now w) (calm w) rows refused r (w_db w) (w_db w').
Proof.
  revert refused w. induction rows as [|ko rows IH]; intros refused w; simpl.
  { intros [-> ->]%ret_eq. exists 0%nat.
    split_and!; [done|by destruct (w_db w)|by intros ? ?%elem_of_nil|done|by rewrite orb_false_r]. }
  intros [(row&w0&[Hrow ->]%lift_inv&Hw)|(e&Hl&->)]%bind_inv.
  2: { pose proof Hl as [Hd _]%quiet_lift. rewrite /lift in Hl. injection Hl as Hrow _.
       apply handled_stop; [intros ->; by apply stored_never_unacknowledged in Hrow|done|by rewrite Hrow]. }
  apply bind_inv in Hw as [(message&w0&[Hmsg ->]%lift_inv&Hw)|(e&Hl&->)].
  2: { pose proof Hl as [Hd _]%quiet_lift. rewrite /lift in Hl. injection Hl as Hmsg _.
       apply handled_stop; [intros ->; by apply wrap_never_unacknowledged in Hmsg|done|by rewrite Hrow /= Hmsg]. }
  assert (accepted ack ko = ack message ∧ is_ok (stored_row ko ≫= wrap_outbox_row) = true) as [Hacc Hwraps]
    by by rewrite /accepted Hrow /= Hmsg.
  destruct (ack message) eqn:Hack;
    (apply bind_inv in Hw as [([]&w1&Hu&Hw)|(e&Hu&->)]; pose proof (update_outbox_calm _ _ _ _ _ Hu) as Hcalm;
      [|apply sql_Err_db in Hu as [Hd ->]; apply handled_stop; [done|done|by intros [? _]%Hcalm]]);
    apply update_outbox_inv in Hu as [Hn1 Hd1]; apply IH in Hw; rewrite Hn1 Hd1 in Hw;
    (eapply handled_next; [done|by intros [_ ?]%Hcalm|revert Hw]);
    by rewrite /after_rows /= /delivered Hacc ?orb_false_r ?orb_true_r.
Qed.

Lemma publishable_true now k o :
  publishable now k o = true ↔ out_published_at o = None ∧ out_next_attempt_at o ≤ now.
Proof. by rewrite /publishable andb_true_iff bool_decide_eq_true Z.leb_le. Qed.

Lemma elem_of_publish_batch now d k o :
  (k, o) ∈ publish_batch now d → outbox d !! k = Some o ∧ publishable now k o = true.
Proof. intros Hin%elem_of_take_sort_on. by apply elem_of_select_where. Qed.

Lemma publish_batch_nodup now d : NoDup (publish_batch now d).*1.
Proof.
  assert (NoDup (sort_on publish_key (select_where (publishable now) (outbox d))).*1) as Hx
    by (rewrite sort_on_perm; apply NoDup_fst_select_where).
  rewrite -(take_drop PUBLISH_BATCH (sort_on _ _)) fmap_app in Hx. by apply NoDup_app in Hx as [? _].
Qed.

(** What handling makes of a row: nothing it carries changes, an attempt is counted, and it is published
    now, or stays unpublished and is due again after [2 ^ attempts] seconds, at most 256. *)
Record handled_row (published : bool) (now : Z) (o o' : outbox_row) : Prop := {
  hr_subject : out_subject o' = out_subject o;
  hr_key : out_semantic_key o' = out_semantic_key o;
  hr_owner : out_owner o' = out_owner o;
  hr_operation : out_operation o' = out_operation o;
  hr_causation : out_causation o' = out_causation o;
  hr_payload : out_payload o' = out_payload o;
  hr_created : out_created_at o' = out_created_at o;
  hr_attempts : out_attempts o' = out_attempts o + 1;
  hr_published : out_published_at o' = if published then Some now else None;
  hr_due : published = false → 0 ≤ out_attempts o →
    out_next_attempt_at o' = now + 2 ^ Z.min 8 (out_attempts o) * 1000000 ∧
    now + 1000000 ≤ out_next_attempt_at o' ≤ now + 256000000 }.

Lemma delivered_row ack now k o :
  out_published_at o = None → handled_row (accepted ack (k, o)) now o (delivered ack now (k, o) o).
Proof.
  intros Hn. rewrite /delivered. destruct (accepted ack (k, o)); (split; [done..|]); [done|].
  intros _ Ho. rewrite /= /backoff_seconds (Z.min_comm (out_attempts o)).
  pose proof (Z.pow_le_mono_r 2 0 (Z.min 8 (out_attempts o)) ltac:(lia) ltac:(lia)).
  pose proof (Z.pow_le_mono_r 2 (Z.min 8 (out_attempts o)) 8 ltac:(lia) ltac:(lia)). lia.
Qed.

(** The rows a publication takes: due and unpublished, at most thirty-two, the oldest first. *)
Lemma publish_batch_oldest now d :
  (length (publish_batch now d) ≤ 32)%nat ∧ NoDup (publish_batch now d).*1 ∧
  (∀ k o, (k, o) ∈ publish_batch now d →
     outbox d !! k = Some o ∧ out_published_at o = None ∧ out_next_attempt_at o ≤ now) ∧
  (∀ k o, outbox d !! k = Some o → out_published_at o = None → out_next_attempt_at o ≤ now →
     (k, o) ∉ publish_batch now d → length (publish_batch now d) = 32%nat ∧
       ∀ k' o', (k', o') ∈ publish_batch now d → out_created_at o' ≤ out_created_at o).
Proof.
  split_and!; [rewrite /publish_batch length_take /PUBLISH_BATCH; lia|apply publish_batch_nodup| |].
  { by intros k o [? ?%publishable_true]%elem_of_publish_batch. }
  intros k o Hk Hn Hdue Hout.
  assert ((k, o) ∈ sort_on publish_key (select_where (publishable now) (outbox d))) as Hin
    by by apply elem_of_sort_on, elem_of_select_where; split; [|apply publishable_true].
  rewrite -(take_drop PUBLISH_BATCH (sort_on _ _)) in Hin. apply elem_of_app in Hin as [Hin|Hin]; [done|]. split.
  - rewrite /publish_batch length_take.
    apply list_elem_of_lookup in Hin as [i Hi]. apply lookup_lt_Some in Hi.
    rewrite length_drop in Hi. rewrite /PUBLISH_BATCH in Hi |- *. lia.
  - intros k' o' Hin'. eapply take_sort_on_below in Hin; [|exact Hin'].
    apply lexleb_cons in Hin. done.
Qed.

(** What an initial part of the batch leaves of every row. *)
Lemma handled_rows_shown ack now n d :
  let batch := publish_batch now d in let d' := after_rows ack now (take n batch) d in
  (∀ k, outbox d !! k = None → outbox d' !! k = None) ∧
  (∀ k o, outbox d !! k = Some o → ∃ o', outbox d' !! k = Some o' ∧
     ((k, o) ∈ take n batch → handled_row (accepted ack (k, o)) now o o') ∧
     ((k, o) ∉ take n batch → o' = o)).
Proof.
  intros batch d'. destruct (publish_batch_oldest now d) as (_&Hnd&Hbatch&_). fold batch in Hnd, Hbatch.
  assert (∀ k o, (k, o) ∈ take n batch → outbox d !! k = Some o ∧ out_published_at o = None) as Htaken.
  { intros k o Hin. destruct (Hbatch k o) as (?&?&_); [|done].
    rewrite -(take_drop n batch). apply elem_of_app. by left. }
  assert (∀ k, outbox d' !! k = (λ o, if decide (k ∈ (take n batch).*1)
    then delivered ack now (k, o) o else o) <$> outbox d !! k) as Hlook.
  { intros k. apply lookup_delivered; [|by intros k' o' []%Htaken].
    rewrite -(take_drop n batch) fmap_app in Hnd. by apply NoDup_app in Hnd as [? _]. }
  split; [by intros k Hk; rewrite Hlook Hk|]. intros k o Hk. eexists. rewrite Hlook Hk /=. split; [done|].
  assert (k ∈ (take n batch).*1 ↔ (k, o) ∈ take n batch) as Hkey.
  { rewrite list_elem_of_fmap. split; [|by intros ?; exists (k, o)]. intros ([k1 o1]&->&Hin).
    destruct (Htaken k1 o1 Hin) as [? _]. simpl in *. by simplify_eq. }
  split; intros Hin.
  - rewrite decide_True; [|by apply Hkey]. apply delivered_row. by eapply Htaken.
  - by rewrite decide_False; [|by rewrite Hkey].
Qed.

(** Whether every row was accepted, as the loop counts it. *)
Lemma all_accepted ack batch :
  match forallb (accepted ack) batch with
  | true => ∀ ko, ko ∈ batch → accepted ack ko = true
  | false => ∃ ko, ko ∈ batch ∧ accepted ack ko = false
  end.
Proof.
  induction batch as [|ko batch IH]; simpl; [by intros ? ?%elem_of_nil|].
  destruct (accepted ack ko) eqn:Ha; simpl; [|exists ko; split; [by left|done]].
  destruct (forallb _ batch); [by intros ko' [->|?]%elem_of_cons; auto|].
  destruct IH as (ko'&Hin&?). exists ko'. split; [by right|done].
Qed.


(** One row that cannot be wrapped stops every other: while the oldest due row does not decode, a
    publication publishes nothing, changes nothing and fails, however the broker answers, and the
    next one finds the same row first; only rows the broker refuses are passed over. *)
Lemma unwrappable_row_blocks ack w k o rows :
  publish_batch (w_now w) (w_db w) = (k, o) :: rows →
  is_ok (stored_row (k, o) ≫= wrap_outbox_row) = false →
  w_db (publish_outbox ack w).2 = w_db w ∧ is_ok (publish_outbox ack w).1 = false.
Proof.
  intros Hb Hrow. destruct (publish_outbox ack w) as [res w'] eqn:Hw. revert Hw. simpl.
  rewrite /publish_outbox. intros [(batch&w1&Hs&Hw)|(e&[Hd _]%sql_Err_db&->)]%bind_inv; [|done].
  apply sql_inv in Hs as [Hs _]. rewrite Hb in Hs. injection Hs as <- Hd. rewrite Hd.
  apply bind_inv in Hw as [(refused&w2&Hp&_)|(e&Hp&->)].
  - exfalso. simpl in Hp. step Hp as row w3 [Hr ->]%lift_inv. step Hp as message w3 [Hm ->]%lift_inv.
    by rewrite Hr /mbind /= Hm in Hrow.
  - split; [|done]. simpl in Hp. apply bind_inv in Hp as [(row&w3&[Hr ->]%lift_inv&Hp)|(e'&Hl&_)];
      [|by apply quiet_lift in Hl as [-> _]].
    apply bind_inv in Hp as [(message&w3&[Hm ->]%lift_inv&Hp)|(e'&Hl&_)];
      [|by apply quiet_lift in Hl as [-> _]].
    by rewrite Hr /mbind /= Hm in Hrow.
Qed.
End Deliveries.

(** ** Witnesses *)

(** Envelopes over the fixtures: the bytes name the payload; run commands of user 7. *)
Module DemoBus.
#[local] Existing Instance Demo.external.

Definition envelope (id : uuid) (type_ producer tenant : string) : inbound_envelope :=
  InboundEnvelope id type_ producer "aggregate" (EntityRefOf "operation:50" "operation" (Some 50%N)) (Some tenant) (JStr "payload").

Definition bus : BusExternal := {|
  SUBSCRIPTION_COMMAND_TYPE := "channel_digest.subscription.set_requested.v1";
  RUN_COMMAND_TYPE := "channel_digest.run.requested.v1";
  RECAP_COMMAND_TYPE := RECAP_SUBJECT;
  REGISTRATION_COMMAND_TYPE := REGISTRATION_SUBJECT;
  COMPLETED_EVENT_TYPE := "knowledge.channel_digest_recap.completed.v1";
  FAILED_EVENT_TYPE := "knowledge.channel_digest_recap.failed.v1";
  decode_command_envelope b :=
    Demo.when b "run" (envelope 2 "channel_digest.run.requested.v1" PLATFORM_PRODUCER "user:7");
  decode_event_envelope b :=
    match Demo.when b "completed" (envelope 3 "knowledge.channel_digest_recap.completed.v1" KNOWLEDGE_PRODUCER "user:7") with
    | Some e => Some e
    | None => Demo.when b "failed" (envelope 4 "knowledge.channel_digest_recap.failed.v1" KNOWLEDGE_PRODUCER "user:7")
    end;
  subscription_of_payload _ := None;
  run_of_payload _ := Some Demo.run_fixture;
  occurrence_of_payload _ := None;
  completed_of_payload _ := Some (Demo.completed_fixture 0);
  failed_of_payload _ := Some Demo.failed_fixture;
  subscription_to_vec _ := Some "subscribe";
  run_to_vec _ := Some "run";
  occurrence_to_vec _ := Some "occurrence";
  completed_to_vec _ := Some "completed";
  failed_to_vec _ := Some "failed";
  validate_occurrence _ := true;
  tenant_user_id := Demo.tenant_user;
  parse_producer_name := Some;
  report_of_json := Demo.decode_report;
  recap_of_json := Demo.decode_recap;
  registration_of_json := Demo.decode_registration;
  outbound_to_vec e := Some (oe_producer e);
  pg_to_char_micros := int_text;
|}.
End DemoBus.

(** A run command is acknowledged and authorized; the same bytes under another subject are not. *)
Lemma handle_guarded_witness :
  (∃ w', @handle Demo.external DemoBus.bus OutputLanguage.Ru CMD_RUN "run" (Demo.world empty_db)
           = (Ok DeliveryDisposition.Ack, w') ∧ size (runs (w_db w')) = 1%nat) ∧
  w_db (@handle Demo.external DemoBus.bus OutputLanguage.Ru CMD_SUBSCRIPTION "run" (Demo.world empty_db)).2
    = empty_db.
Proof.
  split.
  - destruct (handle OutputLanguage.Ru CMD_RUN "run" (Demo.world empty_db)) as [res w'] eqn:Hw.
    exists w'. split.
    + f_equal. rewrite -[res]/(fst (res, w')) -Hw. vm_compute. reflexivity.
    + rewrite -[w']/(snd (res, w')) -Hw. vm_compute. reflexivity.
  - pose proof (@handle_guarded Demo.external DemoBus.bus OutputLanguage.Ru CMD_SUBSCRIPTION "run"
      (Demo.world empty_db)) as Hg.
    destruct (handle OutputLanguage.Ru CMD_SUBSCRIPTION "run" (Demo.world empty_db)) as [res w'] eqn:Hw.
    destruct Hg as (x&Hres&Hidle&_). apply Hidle.
    assert (x = DeliveryDisposition.Term) as ->; [|done].
    assert (Some x = match res with Ok y => Some y | Err _ => None end) as Hx by by rewrite Hres.
    rewrite -[res]/(fst (res, w')) -Hw in Hx. vm_compute in Hx. by injection Hx.
Defined.


(** A registration row whose payload does not decode, in front of a report. *)
Lemma unwrappable_row_blocks_witness :
  let row subject key created := OutboxRow subject key 7 (Some 50%N) None (JStr "x") created None 0 created None in
  let w := Demo.world (with_outbox empty_db
    {[1%N := row REGISTRATION_SUBJECT "k" 1; 2%N := row REPORT_SUBJECT "operation:50:queued" 2]}) in
  w_db (@publish_outbox Demo.external DemoBus.bus (λ _, true) w).2 = w_db w.
Proof.
  intros row w.
  apply (proj1 (@unwrappable_row_blocks Demo.external DemoBus.bus (λ _, true) w 1%N
    (row REGISTRATION_SUBJECT "k" 1) [(2%N, row REPORT_SUBJECT "operation:50:queued" 2)]
    ltac:(vm_compute; reflexivity) ltac:(vm_compute; reflexivity))).
Defined.
