(* ===== verification/Reaper.v ===== *)
(** * Reaper: [src/src/reaper.rs], the run deadline *)

From S2P Require Import Prelude External Store Tx Runs Reports.

Definition FAILURE_CLASS : string := "deadline_exceeded".

Definition BATCH : nat := 100.

Module ReaperError.
Inductive t := Storage.
(** [From<ReportError>] *)
Definition from (_ : ReportError.t) : t := Storage.
End ReaperError.

Definition open_run (r : run_row) : bool :=
  bool_decide (run_state r ∈ [RunState.Accepted; RunState.Acquiring; RunState.WaitingRecap]).

Definition overdue (threshold : Z) (_ : uuid) (r : run_row) : bool :=
  open_run r && (run_updated_at r <? threshold).

(** [order by updated_at, run_id] *)
Definition reap_key (kr : uuid * run_row) : list Z := [run_updated_at kr.2; Z.of_N kr.1].

(** The rows the update names: the oldest overdue runs, at most [BATCH]. *)
Definition reap_batch (threshold : Z) (d : db) : list (uuid * run_row) :=
  take BATCH (sort_on reap_key (select_where (overdue threshold) (runs d))).

(** The update of [reap_once] with its returned rows. *)
Definition reap_update (threshold : Z) : stmt (list (uuid * run_row)) := λ now d,
  let batch := reap_batch threshold d in
  Ok (batch, with_runs d (update_where (λ k _, bool_decide (k ∈ batch.*1))
                            (set_failed FAILURE_CLASS now) (runs d))).

Section Reaper.
Context `{External}.

(** The report of one reaped run, when it is on demand. *)
Definition report_deadline (kr : uuid * run_row) : M ReaperError.t unit :=
  let r := kr.2 in
  if bool_decide (run_trigger r = RunTrigger.OnDemand)
  then
    row ← on_err ReaperError.from (lift (report_new (run_operation r) (run_owner r)
                                           OperationStatus.Failed "deadline"));
    row ← on_err ReaperError.from (lift (with_error row "channel_digest.run_deadline_exceeded"
                                           "The digest did not finish before its deadline." true));
    on_err ReaperError.from (enqueue row)
  else mret tt.

(** [Reaper::reap_once]; [now] is the process clock and the deadline is in seconds. *)
Definition reap_once (deadline_seconds : Z) (now : Z) : M ReaperError.t nat :=
  transact ReaperError.Storage (
    reaped ← sql ReaperError.Storage (with_cast (jiff_text now) (λ at_,
               reap_update (at_ - deadline_seconds * 1000000)));
    _ ← for_each reaped report_deadline;
    mret (Commit (length reaped))).
End Reaper.
