(* ===== verification/ReaperSpec.v ===== *)
(** * ReaperSpec: what [Reaper.reap_once] does *)

From S2P Require Import Prelude External Store Tx Demo Runs Reports Progress Reaper.

Section ReaperSpec.
Context `{External}.

(** The database after a reaping: exactly the batch is failed, and each of its on-demand runs has
    its report. *)
Record reaped (threshold now : Z) (d d' : db) : Prop := {
  rp_runs : runs d' = update_where (λ k _, bool_decide (k ∈ (reap_batch threshold d).*1))
                        (set_failed FAILURE_CLASS now) (runs d);
  rp_outbox k o : outbox d !! k = Some o → outbox d' !! k = Some o;
  rp_report k r : (k, r) ∈ reap_batch threshold d → run_trigger r = RunTrigger.OnDemand →
    reported (run_operation r) OperationStatus.Failed d';
  rp_frame : d' = with_outbox (with_runs d (runs d')) (outbox d') }.

Lemma report_deadline_inv kr w u w' :
  report_deadline kr w = (Ok u, w') →
  w_now w' = w_now w ∧ w_db w' = with_outbox (w_db w) (outbox (w_db w')) ∧
  (∀ k o, outbox (w_db w) !! k = Some o → outbox (w_db w') !! k = Some o) ∧
  (run_trigger kr.2 = RunTrigger.OnDemand →
     reported (run_operation kr.2) OperationStatus.Failed (w_db w')).
Proof.
  rewrite /report_deadline. case_bool_decide as Ht.
  - intros Hb. step Hb as row w1 [Hrow%report_new_about ->]%on_err_inv%lift_inv.
    step Hb as row2 w1 [Hrow2 ->]%on_err_inv%lift_inv. apply on_err_inv in Hb.
    eapply enqueue_queued in Hb as [(?&?&?) ?]; [|by eapply with_error_about]. done.
  - intros [_ ->]%ret_inv. split_and!; try done. by destruct (w_db w).
Qed.

Lemma report_deadlines_inv l w u w' :
  for_each l report_deadline w = (Ok u, w') →
  w_now w' = w_now w ∧ w_db w' = with_outbox (w_db w) (outbox (w_db w')) ∧
  (∀ k o, outbox (w_db w) !! k = Some o → outbox (w_db w') !! k = Some o) ∧
  (∀ kr, kr ∈ l → run_trigger kr.2 = RunTrigger.OnDemand →
     reported (run_operation kr.2) OperationStatus.Failed (w_db w')).
Proof.
  revert w. induction l as [|kr l IH]; intros w Hw; simpl in Hw.
  - apply ret_inv in Hw as [_ ->]. split_and!; [done|by destruct (w_db w)|done|].
    by intros ? ?%elem_of_nil.
  - step Hw as u1 w1 (Hn1&Hd1&Hg1&Hr1)%report_deadline_inv.
    apply IH in Hw as (Hn&Hd&Hg&Hr). split_and!; [congruence|by rewrite Hd Hd1|by auto|].
    intros kr' [->|Hin]%elem_of_cons Ht; [|by apply Hr]. destruct (Hr1 Ht) as (k&o&Hk&?&?).
    exists k, o. split; [by apply Hg|done].
Qed.

Lemma reap_once_inv deadline now w res w' :
  reap_once deadline now w = (res, w') →
  (∃ at_, pg_timestamptz (jiff_text now) = Some at_ ∧
     res = Ok (length (reap_batch (at_ - deadline * 1000000) (w_db w))) ∧
     reaped (at_ - deadline * 1000000) (w_now w) (w_db w) (w_db w')) ∨
  (w_db w' = w_db w ∧ res = Err ReaperError.Storage).
Proof.
  assert (∀ e, e = ReaperError.Storage) as Hone by by intros [].
  rewrite /reap_once.
  intros [(a&w1&w2&->&Hdb&Hnow&Hb&->)|(->&[(a&w1&w2&->&Hdb&Hnow&Hb)|(e&->)])]%transact_inv.
  - left. step_sql Hb as batch w3 Hreap Hn3. apply with_cast_Ok in Hreap as (at_&Hat&Hreap).
    rewrite /reap_update in Hreap. injection Hreap as <- Hd3.
    step Hb as u w4 (Hn4&Hd4&Hg4&Hr4)%report_deadlines_inv. apply ret_inv in Hb as [[= ->] ->].
    exists at_. rewrite Hdb in Hr4 |- *. split_and!; [done|done|]. split.
    + by rewrite Hd4 -Hd3 /= Hdb Hnow.
    + intros k o Hk. apply Hg4. by rewrite -Hd3 /= Hdb.
    + intros k r Hin Ht. by apply (Hr4 (k, r)).
    + rewrite Hd4 -Hd3 Hdb /=. done.
  - exfalso. destruct Hb as [Hb|Hb]; step Hb as batch w3 _; step Hb as u w4 _;
      by apply ret_inv in Hb as [? _].
  - right. by rewrite (Hone e).
Qed.

Lemma report_deadline_succeeds `{!ReportLaws} kr w :
  able w → succeeds (report_deadline kr) w (λ _, able).
Proof.
  intros Ha. rewrite /report_deadline. case_bool_decide; [|by apply succeeds_ret].
  edestruct (failed_row_accepted (run_operation kr.2) (run_owner kr.2) "deadline"
    "channel_digest.run_deadline_exceeded" "The digest did not finish before its deadline." true id)
    as (row0&row&Hrow0&Hrow&Hok); [done..|].
  eapply succeeds_bind_err_lift; [exact Hrow0|]. eapply succeeds_bind_err_lift; [exact Hrow|].
  apply succeeds_on_err. eapply succeeds_mono; [by apply enqueue_succeeds|]. by intros ? ? _ _ [? _].
Qed.

Lemma reap_once_succeeds `{!ReportLaws} deadline now w :
  able w → is_Some (pg_timestamptz (jiff_text now)) →
  succeeds (reap_once deadline now) w (λ _, able).
Proof.
  intros Ha [at_ Hat]. rewrite /reap_once. apply succeeds_commit; [apply Ha|].
  eapply succeeds_bind_sql; [apply Ha|by rewrite /with_cast /cast_timestamptz Hat|].
  eapply succeeds_bind; [apply succeeds_for_each with (I := able)|].
  - intros kr w' _ Ha'. by apply report_deadline_succeeds.
  - by eapply able_onward; [apply onward_set_db|..].
  - simpl. intros u w' _ _ Ha'. apply succeeds_ret. eauto.
Qed.

Lemma overdue_true threshold k r :
  overdue threshold k r = true ↔ open_run r = true ∧ run_updated_at r < threshold.
Proof. by rewrite /overdue andb_true_iff Z.ltb_lt. Qed.

(** C20: The reaper fails exactly the oldest overdue runs, at most a hundred, and reports each
    on-demand one: a run it takes was not terminal and had not changed since the deadline, any
    overdue run it leaves was changed no earlier than every run it takes, and none is left when the
    batch is not full.  A failed sweep leaves the database untouched, and without a storage fault a
    sweep at an instant the server reads does not fail. *)
Theorem reap_once_exact deadline now w :
  (let '(res, w') := reap_once deadline now w in
  match res with
  | Err _ => w_db w' = w_db w
  | Ok n => ∃ at_, pg_timestamptz (jiff_text now) = Some at_ ∧
      let threshold := at_ - deadline * 1000000 in
      let batch := reap_batch threshold (w_db w) in
      n = length batch ∧ (n ≤ 100)%nat ∧
      reaped threshold (w_now w) (w_db w) (w_db w') ∧
      (∀ k r, (k, r) ∈ batch → runs (w_db w) !! k = Some r ∧ terminal (run_state r) = false ∧
         run_updated_at r < threshold) ∧
      (∀ k r, runs (w_db w) !! k = Some r → terminal (run_state r) = false →
         run_updated_at r < threshold → (k, r) ∉ batch →
         n = 100%nat ∧ ∀ k' r', (k', r') ∈ batch → run_updated_at r' ≤ run_updated_at r)
  end) ∧
  (ReportLaws → able w → is_Some (pg_timestamptz (jiff_text now)) →
     succeeds (reap_once deadline now) w (λ _, able)).
Proof.
  split; [|intros; by apply reap_once_succeeds].
  destruct (reap_once deadline now w) as [res w'] eqn:Hw.
  apply reap_once_inv in Hw as [(at_&Hat&->&Hr)|[Hd ->]]; [|done].
  exists at_. split; [done|]. cbn zeta. split; [done|].
  assert (∀ r, open_run r = true ↔ terminal (run_state r) = false) as Hopen.
  { intros r. rewrite /open_run bool_decide_eq_true. destruct (run_state r); simpl; set_solver. }
  split_and!; [rewrite /reap_batch length_take /BATCH; lia|done| |].
  - intros k r Hin. apply elem_of_take_sort_on, elem_of_select_where in Hin as [Hk Ho].
    apply overdue_true in Ho as [?%Hopen ?]. done.
  - intros k r Hk Ht Hlt Hout.
    assert ((k, r) ∈ sort_on reap_key (select_where (overdue (at_ - deadline * 1000000)) (runs (w_db w))))
      as Hin.
    { rewrite elem_of_sort_on. apply elem_of_select_where. split; [done|].
      apply overdue_true. split; [by apply Hopen|done]. }
    rewrite -(take_drop BATCH (sort_on _ _)) in Hin. apply elem_of_app in Hin as [Hin|Hin]; [done|].
    split.
    + rewrite /reap_batch length_take.
      apply list_elem_of_lookup in Hin as [i Hi]. apply lookup_lt_Some in Hi.
      rewrite length_drop in Hi. rewrite /BATCH in Hi |- *. lia.
    + intros k' r' Hin'. eapply take_sort_on_below in Hin; [|exact Hin'].
      by apply lexleb_cons in Hin.
Qed.
End ReaperSpec.

(** ** Witness *)

(** Run 60, acquiring since instant 5, is past a deadline of no seconds at instant 1000000. *)
Lemma reap_once_exact_witness :
  ∃ w', @reap_once Demo.external 0 1000000000 (Demo.world (Demo.db_with RunState.Acquiring)) = (Ok 1%nat, w') ∧
    run_state <$> runs (w_db w') !! 60%N = Some RunState.Failed.
Proof.
  destruct (@reap_once_exact Demo.external 0 1000000000 (Demo.world (Demo.db_with RunState.Acquiring)))
    as [Hexact Hok].
  destruct (Hok DemoProgress.report_laws) as (n&w'&Hw&_&_).
  - apply DemoProgress.able_world. reflexivity.
  - vm_compute. by eexists.
  - rewrite Hw in Hexact. destruct Hexact as (at_&Hat&->&_&[Hruns _ _ _]&_).
    vm_compute in Hat. injection Hat as <-. exists w'.
    split; [rewrite Hw; f_equal; f_equal; vm_compute; reflexivity|].
    rewrite Hruns. vm_compute. reflexivity.
Defined.
