(* ===== verification/Maintenance.v ===== *)
(** * Maintenance: [src/src/maintenance.rs] and [src/src/retention.rs], body minimization *)

From S2P Require Import Prelude Text External Store Tx Runs.

Module MaintenanceError.
Inductive t := Unavailable.
End MaintenanceError.

Definition SWEEP_BATCH : Z := 5000.
Definition BODIES_METRIC : string := "channel_digests_bodies_minimized_total".
Definition MANIFESTS_METRIC : string := "channel_digests_manifests_minimized_total".

Record sweep_outcome := SweepOutcome { swept_bodies : Z; swept_manifests : Z }.

(** ** Statements *)

Definition expired_body (before : Z) (_ : uuid) (r : revision_row) : bool :=
  (rev_published_at r <? before) && bool_decide (is_Some (rev_body r)).

Definition body_key (kr : uuid * revision_row) : list Z := [rev_published_at kr.2; Z.of_N kr.1].

Definition body_batch (before : Z) (limit : nat) (d : db) : list (uuid * revision_row) :=
  take limit (sort_on body_key (select_where (expired_body before) (revisions d))).

Definition drop_body (now : Z) (r : revision_row) : revision_row :=
  RevisionRow (rev_channel r) (rev_message r) (rev_sha256 r) None (rev_published_at r)
    (rev_observed_at r) (rev_link r) (rev_deleted_at r) (Some now).

(** A negative LIMIT is an error of the server. *)
Definition with_limit {A} (limit : Z) (s : nat → stmt A) : stmt A := λ now d,
  if limit <? 0 then Err SqlConstraint else s (Z.to_nat limit) now d.

Definition minimize_bodies (before : Z) (limit : nat) : stmt nat := λ now d,
  let batch := (body_batch before limit d).*1 in
  Ok (length batch,
      with_revisions d (update_where (λ k _, bool_decide (k ∈ batch)) (drop_body now) (revisions d))).

(** The window start of a manifest's run, when the run is settled. *)
Definition settled_window (d : db) (m : manifest_row) : option Z :=
  r ← runs d !! man_run m;
  if terminal (run_state r) then Some (run_window_start r) else None.

Definition expired_manifest (before : Z) (d : db) (_ : uuid) (m : manifest_row) : bool :=
  bool_decide (is_Some (man_text m)) &&
  match settled_window d m with Some start => start <? before | None => false end.

Definition manifest_key (d : db) (km : uuid * manifest_row) : list Z :=
  [default 0 (settled_window d km.2); Z.of_N km.1].

Definition manifest_batch (before : Z) (limit : nat) (d : db) : list (uuid * manifest_row) :=
  take limit (sort_on (manifest_key d) (select_where (expired_manifest before d) (manifests d))).

Definition drop_text (now : Z) (m : manifest_row) : manifest_row :=
  ManifestRow (man_run m) (man_owner m) (man_sha256 m) (man_source_count m) (man_channel_count m)
    None (Some now) (man_created_at m).

Definition minimize_manifests (before : Z) (limit : nat) : stmt nat := λ now d,
  let batch := (manifest_batch before limit d).*1 in
  Ok (length batch,
      with_manifests d (update_where (λ k _, bool_decide (k ∈ batch)) (drop_text now) (manifests d))).

Section Maintenance.
Context `{External}.

(** [Maintenance::minimize_before] *)
Definition minimize_before (before : string) (limit : Z) : M MaintenanceError.t Z :=
  n ← sql MaintenanceError.Unavailable (with_cast before (λ b, with_limit limit (minimize_bodies b)));
  mret (Z.of_nat n).

(** [Maintenance::minimize_manifests_before] *)
Definition minimize_manifests_before (before : string) (limit : Z) : M MaintenanceError.t Z :=
  n ← sql MaintenanceError.Unavailable (with_cast before (λ b, with_limit limit (minimize_manifests b)));
  mret (Z.of_nat n).

(** [SweepCutoff]: 24 hours per retained day, in nanoseconds. *)
Definition retention_ns (body_days : Z) : Z := 24 * body_days * 3600 * 1000000000.

(** [RetentionSweeper::sweep_once] *)
Definition sweep_once (body_days : Z) (now : Z) : M MaintenanceError.t sweep_outcome :=
  cutoff ← lift (ok_or MaintenanceError.Unavailable (jiff_checked_sub now (retention_ns body_days)));
  bodies ← minimize_before (jiff_text cutoff) SWEEP_BATCH;
  _ ← add_bodies bodies;
  manifests_ ← minimize_manifests_before (jiff_text cutoff) SWEEP_BATCH;
  _ ← add_manifests manifests_;
  mret (SweepOutcome bodies manifests_).

Definition newline : string := String (Ascii.ascii_of_N 10) EmptyString.

Definition metric_text (name help value : string) : string :=
  ("# HELP " +:+ (name +:+ (" " +:+ (help +:+ (newline +:+ ("# TYPE " +:+ (name +:+ (" counter" +:+
   (newline +:+ (name +:+ (" " +:+ (value +:+ newline))))))))))))%string.

(** [RetentionCounter::render] *)
Definition render (metrics : Z * Z) : string :=
  (metric_text BODIES_METRIC "Stored post bodies minimized by the retention sweep."
     (int_text metrics.1) +:+
   metric_text MANIFESTS_METRIC "Manifest texts minimized by the retention sweep or a withdrawal."
     (int_text metrics.2))%string.
End Maintenance.
