(* ===== verification/MaintenanceSpec.v ===== *)
(** * MaintenanceSpec: what a retention sweep may take, and what it leaves *)

From S2P Require Import Prelude Text External Store Tx Demo Runs Maintenance.

Section MaintenanceSpec.
Context `{External}.

(** ** One statement *)

(** A batch of the rows that are expired: [n] of them, the oldest ones, became what [f] makes of them,
    the others stay, and an expired row is only left when the batch was full. *)
Definition batch_taken {V} (limit : Z) (expired : V → Prop) (age : V → Z) (f : V → V) (n : Z)
    (t t' : gmap uuid V) : Prop :=
  ∃ taken : gset uuid, Z.of_nat (size taken) = n ∧ n ≤ limit ∧
    (∀ k, k ∈ taken → ∃ v, t !! k = Some v ∧ expired v) ∧
    (∀ k, t' !! k = (λ v, if decide (k ∈ taken) then f v else v) <$> t !! k) ∧
    (∀ k v, t !! k = Some v → expired v → k ∉ taken →
       n = limit ∧ ∀ k' v', k' ∈ taken → t !! k' = Some v' → age v' ≤ age v).

Lemma batch_spec {V} (p : uuid → V → bool) (key : uuid * V → list Z) (limit : nat) (f : V → V)
    (expired : V → Prop) (age : V → Z) (t : gmap uuid V) :
  (∀ k v, t !! k = Some v → p k v = true ↔ expired v) →
  (∀ k v, p k v = true → head (key (k, v)) = Some (age v)) →
  let batch := (take limit (sort_on key (select_where p t))).*1 in
  batch_taken (Z.of_nat limit) expired age f (Z.of_nat (length batch))
    t (update_where (λ k _, bool_decide (k ∈ batch)) f t).
Proof.
  intros Hp Hkey. cbn zeta. set (batch := take limit (sort_on key (select_where p t))).
  assert (∀ k v, (k, v) ∈ batch → t !! k = Some v ∧ p k v = true) as Hin.
  { intros k v Hb%elem_of_take_sort_on. by apply elem_of_select_where. }
  assert (∀ k v, t !! k = Some v → k ∈ batch.*1 → (k, v) ∈ batch) as Hof.
  { intros k v Hk ([k' v']&->&Hb)%list_elem_of_fmap. pose proof (Hin _ _ Hb) as [? _]. simpl in *. by simplify_eq. }
  exists (list_to_set batch.*1). split_and!.
  - rewrite size_list_to_set; [done|].
    assert (NoDup (sort_on key (select_where p t)).*1) as Hnd
      by (rewrite sort_on_perm; apply NoDup_fst_select_where).
    rewrite -(take_drop limit (sort_on key _)) fmap_app in Hnd. by apply NoDup_app in Hnd as [? _].
  - rewrite length_fmap length_take. lia.
  - intros k ([k' v]&->&Hb)%elem_of_list_to_set%list_elem_of_fmap. exists v.
    destruct (Hin _ _ Hb) as [? ?]. split; [done|]. by eapply Hp.
  - intros k. rewrite lookup_update_where. apply option_fmap_ext. intros v.
    case_bool_decide as Hb; [rewrite decide_True //|rewrite decide_False //]; by rewrite elem_of_list_to_set.
  - intros k v Hk Hex Hn. rewrite elem_of_list_to_set in Hn. apply (Hp k v Hk) in Hex.
    assert ((k, v) ∈ sort_on key (select_where p t)) as Hall by by apply elem_of_sort_on, elem_of_select_where.
    rewrite -(take_drop limit (sort_on key _)) in Hall. apply elem_of_app in Hall as [Hb|Hd].
    { destruct Hn. apply list_elem_of_fmap. by exists (k, v). }
    split.
    + rewrite length_fmap length_take. apply list_elem_of_lookup in Hd as [i Hi]. apply lookup_lt_Some in Hi.
      rewrite length_drop in Hi. lia.
    + intros k' v' Hk' Hv'. rewrite elem_of_list_to_set in Hk'. pose proof (Hof k' v' Hv' Hk') as Hb.
      pose proof (take_sort_on_below key _ _ _ _ Hb Hd) as Hle.
      pose proof (Hkey _ _ (proj2 (Hin _ _ Hb))) as H1. pose proof (Hkey _ _ Hex) as H2.
      destruct (key (k', v')), (key (k, v)); simplify_eq/=. by apply lexleb_cons in Hle.
Qed.

(** The posts before and after a body minimization up to [before], of [n] posts. *)
Definition bodies_dropped (limit before now n : Z) (d d' : db) : Prop :=
  d' = with_revisions d (revisions d') ∧
  batch_taken limit (λ r, rev_published_at r < before ∧ is_Some (rev_body r)) rev_published_at
    (λ r, RevisionRow (rev_channel r) (rev_message r) (rev_sha256 r) None (rev_published_at r)
            (rev_observed_at r) (rev_link r) (rev_deleted_at r) (Some now))
    n (revisions d) (revisions d').

(** The manifests before and after a text minimization, of [n] manifests: only settled runs' texts go. *)
Definition texts_dropped (limit before now n : Z) (d d' : db) : Prop :=
  d' = with_manifests d (manifests d') ∧
  batch_taken limit (λ m, is_Some (man_text m) ∧
      ∃ r, runs d !! man_run m = Some r ∧ terminal (run_state r) = true ∧ run_window_start r < before)
    (λ m, from_option run_window_start 0 (runs d !! man_run m))
    (λ m, ManifestRow (man_run m) (man_owner m) (man_sha256 m) (man_source_count m) (man_channel_count m)
            None (Some now) (man_created_at m))
    n (manifests d) (manifests d').

Lemma expired_body_true before k r :
  expired_body before k r = true ↔ rev_published_at r < before ∧ is_Some (rev_body r).
Proof. by rewrite /expired_body andb_true_iff Z.ltb_lt bool_decide_eq_true. Qed.

Lemma expired_manifest_true before d k m :
  expired_manifest before d k m = true ↔ is_Some (man_text m) ∧
    ∃ r, runs d !! man_run m = Some r ∧ terminal (run_state r) = true ∧ run_window_start r < before.
Proof.
  rewrite /expired_manifest /settled_window andb_true_iff bool_decide_eq_true. f_equiv.
  destruct (runs d !! man_run m) as [r|]; simpl; [|naive_solver].
  destruct (terminal (run_state r)) eqn:Ht; [rewrite Z.ltb_lt|]; naive_solver.
Qed.

Lemma minimize_before_inv before limit w res w' :
  minimize_before before limit w = (res, w') →
  w_now w' = w_now w ∧ w_metrics w' = w_metrics w ∧
  match res with
  | Err _ => w_db w' = w_db w
  | Ok n => ∃ b, pg_timestamptz before = Some b ∧ bodies_dropped limit b (w_now w) n (w_db w) (w_db w')
  end.
Proof.
  rewrite /minimize_before. intros [(n&w1&Hs&[-> ->]%ret_eq)|(e&Hs&->)]%bind_inv.
  2: { pose proof (timeless_sql _ _ _ _ _ Hs) as Hn. pose proof (sql_metrics _ _ _ _ _ Hs) as Hm.
       by apply sql_Err_db in Hs as [-> _]. }
  pose proof (sql_metrics _ _ _ _ _ Hs) as Hm. apply sql_inv in Hs as [Hs Hn].
  split_and!; [done..|]. apply with_cast_Ok in Hs as (b&Hb&Hs). exists b. split; [done|].
  rewrite /with_limit in Hs. destruct (limit <? 0) eqn:Hl; [done|]. apply Z.ltb_ge in Hl.
  rewrite /minimize_bodies in Hs. injection Hs as <- <-. split; [done|].
  rewrite -{1}(Z2Nat.id limit) //. apply batch_spec; [intros k r _; apply expired_body_true|done].
Qed.

Lemma minimize_manifests_before_inv before limit w res w' :
  minimize_manifests_before before limit w = (res, w') →
  w_now w' = w_now w ∧ w_metrics w' = w_metrics w ∧
  match res with
  | Err _ => w_db w' = w_db w
  | Ok n => ∃ b, pg_timestamptz before = Some b ∧ texts_dropped limit b (w_now w) n (w_db w) (w_db w')
  end.
Proof.
  rewrite /minimize_manifests_before. intros [(n&w1&Hs&[-> ->]%ret_eq)|(e&Hs&->)]%bind_inv.
  2: { pose proof (timeless_sql _ _ _ _ _ Hs) as Hn. pose proof (sql_metrics _ _ _ _ _ Hs) as Hm.
       by apply sql_Err_db in Hs as [-> _]. }
  pose proof (sql_metrics _ _ _ _ _ Hs) as Hm. apply sql_inv in Hs as [Hs Hn].
  split_and!; [done..|]. apply with_cast_Ok in Hs as (b&Hb&Hs). exists b. split; [done|].
  rewrite /with_limit in Hs. destruct (limit <? 0) eqn:Hl; [done|]. apply Z.ltb_ge in Hl.
  rewrite /minimize_manifests in Hs. injection Hs as <- <-. split; [done|].
  rewrite -{1}(Z2Nat.id limit) //. apply batch_spec; [intros k m _; apply expired_manifest_true|].
  intros k m (_&r&Hr&Ht&_)%expired_manifest_true. by rewrite /= /settled_window Hr /= Ht.
Qed.

(** C30: The retention sweep drops only what may go, and all of it in time.  It drops the bodies of
    posts published before the cutoff, and then the manifest texts of settled runs whose window began
    before it: of each the oldest, at most five thousand, and nothing else of any row; a run that is
    not settled keeps its manifest text; an expired body, or text, is left only when the batch was full;
    the answer is the exact number of rows of each, and the counters grow by it.  A sweep that fails has
    dropped nothing, or the bodies alone, and then counted them. *)
Theorem sweep_once_exact days now w :
  let '(res, w') := sweep_once days now w in
  let dropped b := bodies_dropped 5000 b (w_now w) in
  match res with
  | Err _ => (w_db w' = w_db w ∧ w_metrics w' = w_metrics w) ∨
      ∃ cutoff b n, jiff_checked_sub now (24 * days * 3600 * 1000000000) = Some cutoff ∧
        pg_timestamptz (jiff_text cutoff) = Some b ∧ dropped b n (w_db w) (w_db w') ∧
        w_metrics w' = (((w_metrics w).1 + n) mod 2 ^ 64, (w_metrics w).2)
  | Ok o => ∃ cutoff b d1, jiff_checked_sub now (24 * days * 3600 * 1000000000) = Some cutoff ∧
      pg_timestamptz (jiff_text cutoff) = Some b ∧
      dropped b (swept_bodies o) (w_db w) d1 ∧
      texts_dropped 5000 b (w_now w) (swept_manifests o) d1 (w_db w') ∧
      w_metrics w' = (((w_metrics w).1 + swept_bodies o) mod 2 ^ 64,
                      ((w_metrics w).2 + swept_manifests o) mod 2 ^ 64)
  end.
Proof.
  destruct (sweep_once days now w) as [res w'] eqn:Hw. revert Hw. rewrite /sweep_once.
  intros [(cutoff&w1&[Hc%ok_or_Ok ->]%lift_inv&Hw)|(e&Hl&->)]%bind_inv.
  2: { left. revert Hl. rewrite /lift. by intros [= _ ->]. }
  apply bind_inv in Hw as [(bodies&w2&Hb&Hw)|(e&Hb&->)];
    [|apply minimize_before_inv in Hb as (_&?&?); by left].
  apply minimize_before_inv in Hb as (Hn2&Hm2&b&Hcast&Hdrop).
  apply bind_inv in Hw as [(u&w3&(Hd3&Hn3&Hm3)%add_bodies_inv&Hw)|(e&Hl&_)]; [|by rewrite /add_bodies in Hl].
  apply bind_inv in Hw as [(texts&w4&Ht&Hw)|(e&Ht&->)].
  2: { apply minimize_manifests_before_inv in Ht as (_&Hm4&->). right. exists cutoff, b, bodies.
       rewrite Hd3 Hm4 Hm3 Hm2. by split_and!. }
  apply minimize_manifests_before_inv in Ht as (Hn4&Hm4&b'&Hcast'&Htexts).
  rewrite Hcast in Hcast'. injection Hcast' as <-.
  apply bind_inv in Hw as [(u'&w5&(Hd5&Hn5&Hm5)%add_manifests_inv&Hw)|(e&Hl&_)];
    [|by rewrite /add_manifests in Hl].
  apply ret_eq in Hw as [-> ->]. exists cutoff, b, (w_db w2).
  rewrite Hd3 Hn3 Hn2 in Htexts. rewrite Hd5. split_and!; try done. by rewrite Hm5 Hm4 Hm3 Hm2.
Qed.

(** A post published at the cutoff or later keeps its row, whatever happens to the sweep. *)
Lemma sweep_once_recent days now w k r :
  (∀ cutoff b, jiff_checked_sub now (retention_ns days) = Some cutoff →
     pg_timestamptz (jiff_text cutoff) = Some b → b ≤ rev_published_at r) →
  revisions (w_db w) !! k = Some r → revisions (w_db (sweep_once days now w).2) !! k = Some r.
Proof.
  intros Hrecent Hk. destruct (sweep_once days now w) as [res w'] eqn:Hw. revert Hw. rewrite /sweep_once.
  intros [(cutoff&w1&[Hc%ok_or_Ok ->]%lift_inv&Hw)|(e&Hl&->)]%bind_inv;
    [|apply quiet_lift in Hl as [Hq _]; by rewrite /= Hq].
  simpl. assert (revisions (w_db w') = revisions (w_db w) ∨
    ∃ b, pg_timestamptz (jiff_text cutoff) = Some b ∧ ∃ n d, bodies_dropped SWEEP_BATCH b (w_now w) n (w_db w) d ∧
      revisions (w_db w') = revisions d) as [->|(b&Hb&n&d&[_ (taken&_&_&Hex&Hd&_)]&->)]; [|done|].
  - apply bind_inv in Hw as [(bodies&w2&Hb&Hw)|(e&Hb&->)];
      [|apply minimize_before_inv in Hb as (_&_&->); by left].
    apply minimize_before_inv in Hb as (_&_&b&Hcast&Hdrop).
    right. exists b. split; [done|]. exists bodies, (w_db w2). split; [done|].
    apply bind_inv in Hw as [(u&w3&(Hd3&_&_)%add_bodies_inv&Hw)|(e&Hl&_)]; [|by rewrite /add_bodies in Hl].
    apply bind_inv in Hw as [(texts&w4&Ht&Hw)|(e&Ht&->)].
    + apply minimize_manifests_before_inv in Ht as (_&_&b'&_&[Hd4 _]).
      apply bind_inv in Hw as [(u'&w5&(Hd5&_&_)%add_manifests_inv&Hw)|(e&Hl&_)];
        [|by rewrite /add_manifests in Hl].
      apply ret_eq in Hw as [_ ->]. by rewrite Hd5 Hd4 /= Hd3.
    + apply minimize_manifests_before_inv in Ht as (_&_&->). by rewrite Hd3.
  - rewrite Hd Hk /=. case_decide as Ht; [|done]. destruct (Hex k Ht) as (r'&Hr'&Hlt&_).
    specialize (Hrecent _ _ Hc Hb). simplify_eq. lia.
Qed.
End MaintenanceSpec.

(** ** Witness *)

(** An old post and an old settled run, next to an old run that is still waiting. *)
Lemma sweep_once_exact_witness :
  let day := 24 * 3600 * 1000000 in
  let row s := RunRow 7 50 RunTrigger.Scheduled "k" 0 1 OutputLanguage.En s None false 5 5 in
  let manifest run := ManifestRow run 7 (Demo.digest "aa") 1 1 (Some "text") None 6 in
  let d := with_manifests (with_runs (with_revisions empty_db
      {[101%N := RevisionRow 1 9 (Demo.digest "x") (Some "x") day 0 "l" None None]})
      {[60%N := row RunState.Completed; 61%N := row RunState.WaitingRecap]})
      {[70%N := manifest 60%N; 71%N := manifest 61%N]} in
  ∃ o w', @sweep_once Demo.external 30 (40 * day * 1000) (Demo.world d) = (Ok o, w') ∧
    o = SweepOutcome 1 1 ∧ man_text <$> manifests (w_db w') !! 71%N = Some (Some "text") ∧
    w_metrics w' = (1, 1) ∧ ∃ d1, bodies_dropped 5000 (10 * day) 10 1 d d1 ∧ texts_dropped 5000 (10 * day) 10 1 d1 (w_db w').
Proof.
  intros day row manifest d.
  pose proof (@sweep_once_exact Demo.external 30 (40 * day * 1000) (Demo.world d)) as Hx.
  destruct (sweep_once 30 (40 * day * 1000) (Demo.world d)) as [[o|e] w'] eqn:Hw; [|by vm_compute in Hw].
  exists o, w'. split; [reflexivity|]. destruct Hx as (c&b&d1&Hc&Hb&Hbodies&Htexts&_).
  assert (o = SweepOutcome 1 1) as -> by (vm_compute in Hw; by injection Hw).
  assert (b = 10 * day) as -> by (vm_compute in Hc; injection Hc as <-; vm_compute in Hb; by injection Hb as <-).
  split_and!; [reflexivity| | |exists d1; split; [exact Hbodies|exact Htexts]]; vm_compute in Hw; injection Hw as <-; reflexivity.
Defined.
