(* ===== verification/Registration.v ===== *)
(** * Registration: [src/src/registration.rs], the daily schedule registration *)

From S2P Require Import Prelude External Store Tx Runs Reports.

Definition SERVICE_NAME : string := "ratatoskr-channel-digests".
Definition SCHEDULE_NAME : string := "daily-digest".
Definition OPERATION_KIND : string := "channel_digest.schedule.occurrence".

Module RegistrationOutcome.
Inductive t := Enqueued | Unchanged | Skipped.
End RegistrationOutcome.

Module RegistrationError.
Inductive t := Unavailable.
End RegistrationError.

(** [ScheduleConfig] *)
Record schedule_config := ScheduleConfig {
  sched_owner : uuid;
  sched_cron : string;
  sched_enabled : bool;
  sched_language : OutputLanguage.t }.

(** [order by created_at desc, outbox_id desc limit 1] *)
Definition registration_key (ko : uuid * outbox_row) : list Z :=
  [- out_created_at ko.2; - Z.of_N ko.1].

Definition latest_registration (d : db) : option string :=
  (λ ko : uuid * outbox_row, out_semantic_key ko.2) <$>
    head (sort_on registration_key
      (select_where (λ _ o, bool_decide (out_subject o = REGISTRATION_SUBJECT)) (outbox d))).

(** [insert into outbox_messages ... on conflict (subject, semantic_key) do update]: the row is
    queued again under the new identity; the columns the update does not name stay. *)
Definition upsert_registration (outbox_id : uuid) (key : string) (owner : uuid) (payload : json)
    : stmt unit := λ now d,
  match find_where (outbox_keyed REGISTRATION_SUBJECT key) (outbox d) with
  | None =>
      insert_outbox_strict outbox_id
        (new_outbox_row REGISTRATION_SUBJECT key owner None None payload now) d
  | Some (old_id, old) =>
      match delete old_id (outbox d) !! outbox_id with
      | Some _ => Err SqlConstraint
      | None =>
          Ok (tt, with_outbox d
            (<[outbox_id := OutboxRow (out_subject old) (out_semantic_key old) (out_owner old)
                 (out_operation old) (out_causation old) payload now None 0 now None]>
               (delete old_id (outbox d))))
      end
  end.

Section Registration.
Context `{External}.

(** [registration] *)
Definition registration (s : schedule_config) : result RegistrationError.t schedule_registration :=
  let unavailable {A} (o : option A) := ok_or RegistrationError.Unavailable o in
  service ← unavailable (parse_registration_label SERVICE_NAME);
  name ← unavailable (parse_registration_label SCHEDULE_NAME);
  cron ← unavailable (parse_cron (sched_cron s));
  kind ← unavailable (parse_operation_kind OPERATION_KIND);
  Ok (ScheduleRegistration service name (sched_owner s) cron OCCURRENCE_COMMAND_TYPE kind
        (sched_enabled s)).

Definition bool_text (b : bool) : string := if b then "true" else "false".

(** The SHA-256 of owner, cron expression and enablement. *)
Definition registration_digest (s : schedule_config) : string :=
  sha256_digest_hex (uuid_text (sched_owner s) +:+ ("|" +:+ (sched_cron s +:+ ("|" +:+
    bool_text (sched_enabled s)))))%string.

(** [enqueue_schedule_registration] *)
Definition enqueue_schedule_registration (schedule : option schedule_config)
    : M RegistrationError.t RegistrationOutcome.t :=
  match schedule with
  | None => mret RegistrationOutcome.Skipped
  | Some s =>
      reg ← lift (registration s);
      payload ← lift (ok_or RegistrationError.Unavailable (registration_value reg));
      let semantic_key := registration_digest s in
      transact RegistrationError.Unavailable (
        latest ← sql RegistrationError.Unavailable (read latest_registration);
        if bool_decide (latest = Some semantic_key)
        then mret (Abandon RegistrationOutcome.Unchanged)
        else
          outbox_id ← now_v7;
          _ ← sql RegistrationError.Unavailable
                (upsert_registration outbox_id semantic_key (sched_owner s) payload);
          mret (Commit RegistrationOutcome.Enqueued))
  end.
End Registration.
