(* ===== verification/RegistrationSpec.v ===== *)
(** * RegistrationSpec: the schedule registration is queued once per change *)

From S2P Require Import Prelude External Store Tx Demo Reports Registration.

Section RegistrationSpec.
Context `{External}.

(** ** The upsert *)

Lemma upsert_registration_inv outbox_id key owner payload now d u d' :
  upsert_registration outbox_id key owner payload now d = Ok (u, d') →
  ∃ o, outbox d' !! outbox_id = Some o ∧ out_subject o = REGISTRATION_SUBJECT ∧
    out_semantic_key o = key ∧ out_payload o = payload ∧ out_published_at o = None ∧
    out_created_at o = now ∧ out_next_attempt_at o = now ∧ out_attempts o = 0 ∧
    d' = with_outbox d (outbox d') ∧
    (∀ k x, k ≠ outbox_id → outbox d' !! k = Some x → outbox d !! k = Some x) ∧
    (∀ k x, outbox d !! k = Some x →
       out_subject x ≠ REGISTRATION_SUBJECT ∨ out_semantic_key x ≠ key → outbox d' !! k = Some x).
Proof.
  rewrite /upsert_registration. destruct (find_where _ _) as [[old_id old]|] eqn:Hf.
  - apply find_where_Some in Hf as [Hold Hkey%outbox_keyed_true]. destruct Hkey as [Hs Hk].
    destruct (delete old_id (outbox d) !! outbox_id) eqn:Hn; [done|]. intros [= _ <-]. simpl.
    eexists. rewrite lookup_insert_eq. split_and!; try done.
    + intros k x Hne. rewrite lookup_insert_ne; [|done]. by intros [_ ?]%lookup_delete_Some.
    + intros k x Hx Hne. assert (k ≠ old_id) as Hko by (intros ->; simplify_eq; tauto).
      rewrite lookup_insert_ne; [by rewrite lookup_delete_ne|].
      intros <-. rewrite lookup_delete_ne in Hn; [congruence|done].
  - intros (Hn&->&_)%insert_outbox_strict_spec. simpl. eexists. rewrite lookup_insert_eq.
    split_and!; try done.
    + intros k x Hne. by rewrite lookup_insert_ne.
    + intros k x Hx _. rewrite lookup_insert_ne; [done|congruence].
Qed.

Lemma enqueue_schedule_registration_inv s w res w' :
  enqueue_schedule_registration (Some s) w = (res, w') →
  (∃ reg payload id u, res = Ok RegistrationOutcome.Enqueued ∧ registration s = Ok reg ∧
     registration_value reg = Some payload ∧
     latest_registration (w_db w) ≠ Some (registration_digest s) ∧
     upsert_registration id (registration_digest s) (sched_owner s) payload (w_now w) (w_db w)
       = Ok (u, w_db w')) ∨
  (w_db w' = w_db w ∧ res = Ok RegistrationOutcome.Unchanged ∧
     latest_registration (w_db w) = Some (registration_digest s)) ∨
  (w_db w' = w_db w ∧ ∃ e, res = Err e).
Proof.
  rewrite /enqueue_schedule_registration.
  intros [(reg&w0&[Hreg ->]%lift_inv&Hw)|(e&Hl&->)]%bind_inv;
    [|right; right; apply quiet_lift in Hl as [-> _]; eauto].
  apply bind_inv in Hw as [(payload&w0&[Hpay%ok_or_Ok ->]%lift_inv&Hw)|(e&Hl&->)];
    [|right; right; apply quiet_lift in Hl as [-> _]; eauto]. cbv zeta in Hw.
  apply transact_inv in Hw as [(a&w1&w2&->&Hdb&Hnow&Hb&->)|(->&[(a&w1&w2&->&Hdb&Hnow&Hb)|(e&->)])];
    [| |right; right; eauto].
  - left. step_sql Hb as latest w3 Hs Hn3. rewrite /read in Hs. injection Hs as <- Hd3.
    case_bool_decide as Hne; [by apply ret_inv in Hb as [? _]|].
    step Hb as id w4 (Hd4&Hn4&_)%now_v7_inv. step_sql Hb as u w5 Hup Hn5.
    apply ret_inv in Hb as [[= ->] ->]. exists reg, payload, id, u. rewrite -Hdb. split_and!; try done.
    replace (w_now w) with (w_now w4) by congruence. by rewrite Hd3 -Hd4.
  - right; left. split; [done|]. destruct Hb as [Hb|Hb]; step_sql Hb as latest w3 Hs Hn3;
      rewrite /read in Hs; injection Hs as <- Hd3; case_bool_decide as Heq.
    2,4: step Hb as id w4 _; step Hb as u w5 _; by apply ret_inv in Hb as [? _].
    + by apply ret_inv in Hb as [? _].
    + apply ret_inv in Hb as [[= ->] _]. by rewrite -Hdb.
Qed.

(** The schedule registration is queued exactly when the configuration changed: nothing without a
    schedule, nothing when the latest queued registration has the configuration's digest, and
    otherwise one unpublished message under that digest, due at once, with every other message kept;
    a failed call changes nothing. *)
Lemma registration_outcome schedule w :
  let '(res, w') := enqueue_schedule_registration schedule w in
  let d := w_db w in let d' := w_db w' in
  match res with
  | Ok RegistrationOutcome.Enqueued => ∃ s reg id o, schedule = Some s ∧ registration s = Ok reg ∧
      latest_registration d ≠ Some (registration_digest s) ∧
      outbox d' !! id = Some o ∧ out_subject o = REGISTRATION_SUBJECT ∧
      out_semantic_key o = registration_digest s ∧ registration_value reg = Some (out_payload o) ∧
      out_published_at o = None ∧ out_next_attempt_at o = w_now w ∧
      d' = with_outbox d (outbox d') ∧
      (∀ k x, k ≠ id → outbox d' !! k = Some x → outbox d !! k = Some x) ∧
      (∀ k x, outbox d !! k = Some x → out_subject x ≠ REGISTRATION_SUBJECT ∨
         out_semantic_key x ≠ registration_digest s → outbox d' !! k = Some x)
  | Ok RegistrationOutcome.Unchanged => d' = d ∧
      ∃ s, schedule = Some s ∧ latest_registration d = Some (registration_digest s)
  | Ok RegistrationOutcome.Skipped => d' = d ∧ schedule = None
  | Err _ => d' = d
  end.
Proof.
  destruct (enqueue_schedule_registration schedule w) as [res w'] eqn:Hw. cbn zeta.
  destruct schedule as [s|]; [|by apply ret_eq in Hw as [-> ->]].
  apply enqueue_schedule_registration_inv in Hw
    as [(reg&payload&id&u&->&Hreg&Hpay&Hl&Hup)|[(Hd&->&Hl)|(Hd&e&->)]]; [|split; eauto|done].
  apply upsert_registration_inv in Hup as (o&?&?&?&Hp&?&?&?&?&?&?&?).
  exists s, reg, id, o. rewrite Hp. done.
Qed.

(** The newest row of a table by a key is the head of the sorted rows. *)
Lemma head_newest {V} (p : uuid → V → bool) (key : uuid * V → list Z) (t : gmap uuid V) k v :
  t !! k = Some v → p k v = true →
  (∀ k' v', t !! k' = Some v' → p k' v' = true → k' ≠ k → lexleb (key (k', v')) (key (k, v)) = false) →
  head (sort_on key (select_where p t)) = Some (k, v).
Proof.
  intros Hk Hp Hlt. pose proof (sort_on_sorted key (select_where p t)) as Hs.
  assert (∀ x, x ∈ sort_on key (select_where p t) ↔ t !! x.1 = Some x.2 ∧ p x.1 x.2 = true) as Hin.
  { intros [k' v']. by rewrite elem_of_sort_on elem_of_select_where. }
  destruct (sort_on key (select_where p t)) as [|[k' v'] l].
  { by destruct (proj1 (elem_of_nil (k, v)) (proj2 (Hin (k, v)) (conj Hk Hp))). }
  destruct (proj1 (Hin (k', v'))) as [Hk' Hp']; [set_solver|]. simpl in *.
  destruct (decide (k' = k)) as [->|Hne]; [by simplify_eq|]. exfalso.
  assert ((k, v) ∈ (k', v') :: l) as Hx by by apply Hin.
  apply elem_of_cons in Hx as [[= <- <-]|Hx]; [done|].
  inversion Hs as [|? ? _ Hall]; subst. rewrite Forall_forall in Hall. specialize (Hall _ Hx).
  simpl in Hall. by rewrite (Hlt k' v') in Hall.
Qed.

(** A registration settles: once a changed configuration was queued, and its row is newer than
    every other registration, the next start of the service finds it unchanged and queues nothing. *)
Lemma registration_settles s w w1 w2 :
  enqueue_schedule_registration (Some s) w = (Ok RegistrationOutcome.Enqueued, w1) →
  (∀ k o, outbox (w_db w) !! k = Some o → out_subject o = REGISTRATION_SUBJECT →
     out_created_at o < w_now w) →
  w_db w2 = w_db w1 → calm w2 →
  enqueue_schedule_registration (Some s) w2 = (Ok RegistrationOutcome.Unchanged, w2).
Proof.
  intros Hw Hold Hdb Hc.
  apply enqueue_schedule_registration_inv in Hw
    as [(reg&payload&id&u&_&Hreg&Hpay&_&Hup)|[(_&?&_)|(_&?&?)]]; [|done|done].
  apply upsert_registration_inv in Hup as (o&Hid&Hs&Hk&_&_&Hcr&_&_&_&Hback&_).
  assert (latest_registration (w_db w2) = Some (registration_digest s)) as Hl.
  { rewrite /latest_registration Hdb.
    rewrite (head_newest _ registration_key _ id o Hid); [by rewrite /= Hk|by apply bool_decide_eq_true|].
    intros k' o' Hk' Hs'%bool_decide_eq_true Hne. pose proof (Hold k' o' (Hback _ _ Hne Hk') Hs').
    rewrite /registration_key /= Hcr. destruct (- out_created_at o' <? - w_now w) eqn:H1; [lia|].
    destruct (- w_now w <? - out_created_at o') eqn:H2; [done|lia]. }
  rewrite /enqueue_schedule_registration Hreg bind_lift_Ok Hpay bind_lift_Ok /transact draw_fault_none //.
  erewrite bind_sql_calm; [|done|reflexivity]. rewrite Hl bool_decide_eq_true_2 //=. by destruct w2.
Qed.

End RegistrationSpec.

(** ** Witnesses *)

Definition daily : schedule_config := ScheduleConfig 7 "0 7 * * *" true OutputLanguage.En.

