(* ===== verification/Delta.v ===== *)
(** * Delta: what one atomic step of the program may do to the database

    [delta d d'] is the abstract specification of every transaction and of every statement outside a
    transaction: runs move forward, rows other components rely on stay, and whatever is new carries
    its evidence.  It is a preorder, so a handler that is a sequence of such steps respects it, and
    so does any interleaving of the steps of several handlers. *)

From S2P Require Import Prelude External Store Tx Subscriptions Runs Reports Inbox Coordinator.

Section Delta.
Context `{External}.

(** A manifest keeps its identity for ever; its text may only be dropped. *)
Record manifest_le (m m' : manifest_row) : Prop := {
  ml_run : man_run m' = man_run m;
  ml_owner : man_owner m' = man_owner m;
  ml_sha : man_sha256 m' = man_sha256 m;
  ml_sources : man_source_count m' = man_source_count m;
  ml_channels : man_channel_count m' = man_channel_count m;
  ml_text : man_text m' = man_text m ∨ man_text m' = None }.

#[export] Instance manifest_le_preorder : PreOrder manifest_le.
Proof.
  split; [split; auto|]. intros a b c [????? Hab] [????? Hbc].
  split; try congruence. destruct Hbc as [->| ->]; auto.
Qed.

(** The same message: its subject and key, its owner and its payload. *)
Definition same_content (o o' : outbox_row) : Prop :=
  out_subject o' = out_subject o ∧ out_semantic_key o' = out_semantic_key o ∧
  out_owner o' = out_owner o ∧ out_payload o' = out_payload o.

#[export] Instance same_content_preorder : PreOrder same_content.
Proof. split; [intros o; by split_and!|]. intros a b c (?&?&?&?) (?&?&?&?). split_and!; congruence. Qed.

(** A queued message other than a schedule registration stays. *)
Definition outbox_kept (d d' : db) : Prop :=
  ∀ k o, outbox d !! k = Some o → out_subject o ≠ REGISTRATION_SUBJECT →
    ∃ k' o', outbox d' !! k' = Some o' ∧ same_content o o'.

#[export] Instance outbox_kept_preorder : PreOrder outbox_kept.
Proof.
  split; [intros d k o Hk _; by exists k, o|]. intros a b c Hab Hbc k o Hk Hs.
  destruct (Hab k o Hk Hs) as (k1&o1&H1&Hsame). destruct (Hbc k1 o1 H1) as (k2&o2&H2&Hsame2).
  { destruct Hsame as [-> _]. done. }
  exists k2, o2. split; [done|]. by etrans.
Qed.

Lemma outbox_kept_grows d d' :
  (∀ k o, outbox d !! k = Some o → outbox d' !! k = Some o) → outbox_kept d d'.
Proof. intros Hg k o Hk _. exists k, o. split; [auto|done]. Qed.

Lemma outbox_kept_reported d d' operation status :
  outbox_kept d d' → reported operation status d → reported operation status d'.
Proof.
  intros Hk (k&o&Ho&Hs&Hsk). destruct (Hk k o Ho) as (k'&o'&?&?&?&_); [by rewrite Hs|].
  exists k', o'. split_and!; congruence.
Qed.

(** ** The evidence of what is new *)

(** Some terminal status of the run's operation is reported. *)
Definition settled_report (r : run_row) (d : db) : Prop :=
  ∃ status, status ∈ [OperationStatus.Succeeded; OperationStatus.PartiallySucceeded; OperationStatus.Failed] ∧
    reported (run_operation r) status d.

(** A recap request names the manifest: its owner and run, its reference and digest, and how many
    posts of how many channels it holds. *)
Definition requests (mid : uuid) (m : manifest_row) (request : json) : Prop :=
  json_get "owner" request = Some (JStr ("user:" +:+ uuid_text (man_owner m))) ∧
  json_get "digest_run_id" request = Some (JStr (uuid_text (man_run m))) ∧
  json_get "manifest_ref" request = Some (JStr ("channel-digest-manifest:" +:+ uuid_text mid)) ∧
  json_get "manifest_digest" request ≫= json_get "hex" = Some (JStr (man_sha256 m)) ∧
  json_get "source_count" request = Some (JNum (man_source_count m)) ∧
  json_get "channel_count" request = Some (JNum (man_channel_count m)).

Lemma requests_kept mid m m' request : manifest_le m m' → requests mid m request → requests mid m' request.
Proof. intros [Hr Ho Hs Hn Hc _]. by rewrite /requests Hr Ho Hs Hn Hc. Qed.

(** A waiting run has a manifest of its owner, and the recap request that is queued for it names that
    manifest. *)
Definition backed (k : uuid) (r : run_row) (d : db) : Prop :=
  ∃ mid m oid o, manifests d !! mid = Some m ∧ man_run m = k ∧ man_owner m = run_owner r ∧
    outbox d !! oid = Some o ∧ out_subject o = RECAP_SUBJECT ∧ out_semantic_key o = uuid_text k ∧
    out_owner o = run_owner r ∧ requests mid m (out_payload o).

(** A result belongs to a run in the state of its outcome and to a manifest of that run. *)
Definition linked (x : result_row) (d : db) : Prop :=
  ∃ r m, runs d !! res_run x = Some r ∧ run_state r = Outcome.run_state (res_outcome x) ∧
    run_owner r = res_owner x ∧ manifests d !! res_manifest x = Some m ∧ man_run m = res_run x ∧
    result_row_allowed x = true.

(** A manifest row belongs to a stored run, within the bounds of one digest. *)
Definition manifest_sound (m : manifest_row) (d : db) : Prop :=
  is_Some (runs d !! man_run m) ∧ 1 ≤ man_source_count m ≤ 100 ∧ 1 ≤ man_channel_count m ≤ 20.

Definition manifest_unique (d : db) : Prop :=
  ∀ k1 k2 m1 m2, manifests d !! k1 = Some m1 → manifests d !! k2 = Some m2 →
    man_run m1 = man_run m2 → k1 = k2.

(** [digest_manifests_text_xor_minimized] *)
Definition text_xor_minimized (d : db) : Prop :=
  ∀ k m, manifests d !! k = Some m → (man_text m = None ↔ is_Some (man_minimized_at m)).

(** A stored manifest text hashes to the digest of its row. *)
Definition texts_intact (d : db) : Prop :=
  ∀ k m t, manifests d !! k = Some m → man_text m = Some t → man_sha256 m = sha256_hex t.

(** A deleted post has no body, and a row lost its body exactly when it was minimized. *)
Definition revisions_sound (d : db) : Prop :=
  ∀ k r, revisions d !! k = Some r →
    (is_Some (rev_deleted_at r) → rev_body r = None) ∧
    (rev_body r = None ↔ is_Some (rev_minimized_at r)).

Record delta (d d' : db) : Prop := {
  dl_runs : runs_le d d';
  dl_manifests k m : manifests d !! k = Some m → ∃ m', manifests d' !! k = Some m' ∧ manifest_le m m';
  dl_results k x : results d !! k = Some x → results d' !! k = Some x;
  dl_outbox : outbox_kept d d';
  dl_inbox : inbox_kept d d';
  dl_terminal k r' : runs d' !! k = Some r' → terminal (run_state r') = true →
    run_trigger r' = RunTrigger.OnDemand →
    (∃ r, runs d !! k = Some r ∧ terminal (run_state r) = true) ∨ settled_report r' d';
  dl_waiting k r' : runs d' !! k = Some r' → run_state r' = RunState.WaitingRecap →
    (∃ r, runs d !! k = Some r ∧ run_state r = RunState.WaitingRecap) ∨ backed k r' d';
  dl_result k x : results d' !! k = Some x → results d !! k = Some x ∨ linked x d';
  dl_manifest k m' : manifests d' !! k = Some m' →
    (∃ m, manifests d !! k = Some m ∧ manifest_le m m') ∨ manifest_sound m' d';
  dl_unique : manifest_unique d → manifest_unique d';
  dl_text : text_xor_minimized d → text_xor_minimized d';
  dl_intact : texts_intact d → texts_intact d';
  dl_revisions : revisions_sound d → revisions_sound d';
  dl_runs_wf : runs_wf d → runs_wf d';
  dl_subscriptions : subscriptions_wf d → subscriptions_wf d' }.

(** ** Evidence is kept *)

Lemma settled_report_kept r r' d d' :
  run_le r r' → outbox_kept d d' → settled_report r d → settled_report r' d'.
Proof.
  intros Hle Hk (st&?&?). exists st. split; [done|]. rewrite (keep_operation _ _ Hle).
  by eapply outbox_kept_reported.
Qed.

Lemma backed_kept k r r' d d' : delta d d' → run_le r r' → backed k r d → backed k r' d'.
Proof.
  intros Hd Hle (mid&m&oid&o&Hm&Hr&Ho&Hoid&Hs&Hk&Hoo&Hreq).
  destruct (dl_manifests _ _ Hd _ _ Hm) as (m'&Hm'&Hml). pose proof (requests_kept _ _ _ _ Hml Hreq) as Hreq'.
  destruct Hml as [Hmr Hmo _ _ _ _].
  destruct (dl_outbox _ _ Hd _ _ Hoid) as (oid'&o'&?&?&?&?&Hp); [by rewrite Hs|].
  exists mid, m', oid', o'. rewrite (keep_owner _ _ Hle) Hp. split_and!; (done || congruence).
Qed.

Lemma outcome_terminal o : terminal (Outcome.run_state o) = true.
Proof. by destruct o. Qed.

Lemma linked_kept x d d' : delta d d' → linked x d → linked x d'.
Proof.
  intros Hd (r&m&Hr&Hs&Ho&Hm&Hmr&Ha).
  destruct (dl_runs _ _ Hd _ _ Hr) as (r'&Hr'&Hle).
  destruct (dl_manifests _ _ Hd _ _ Hm) as (m'&Hm'&Hml).
  exists r', m'. split_and!; try done.
  - rewrite -Hs. eapply state_le_terminal; [|by apply Hle]. rewrite Hs. apply outcome_terminal.
  - by rewrite (keep_owner _ _ Hle).
  - by rewrite (ml_run _ _ Hml).
Qed.

Lemma manifest_sound_kept m m' d d' :
  delta d d' → manifest_le m m' → manifest_sound m d → manifest_sound m' d'.
Proof.
  intros Hd [Hr _ _ Hs Hc _] ([r Hrun]&?&?). rewrite /manifest_sound Hr Hs Hc. split; [|done].
  destruct (dl_runs _ _ Hd _ _ Hrun) as (r'&?&_). by eexists.
Qed.

#[export] Instance delta_preorder : PreOrder delta.
Proof.
  split.
  - intros d. split; try done; eauto.
    + intros k m Hk. exists m. by split.
    + intros k m Hk. left. exists m. by split.
  - intros a b c Hab Hbc. split.
    + etrans; [apply Hab|apply Hbc].
    + intros k m Hk. destruct (dl_manifests _ _ Hab _ _ Hk) as (m1&H1&?).
      destruct (dl_manifests _ _ Hbc _ _ H1) as (m2&?&?). exists m2. split; [done|]. by etrans.
    + intros k x Hk. by apply Hbc, Hab.
    + etrans; [apply Hab|apply Hbc].
    + etrans; [apply Hab|apply Hbc].
    + intros k r' Hk Ht Htr. destruct (dl_terminal _ _ Hbc _ _ Hk Ht Htr) as [(r&Hr&Hrt)|?]; [|by right].
      destruct (dl_runs _ _ Hbc _ _ Hr) as (r2&Hr2&Hle). rewrite Hk in Hr2. simplify_eq.
      rewrite (keep_trigger _ _ Hle) in Htr.
      destruct (dl_terminal _ _ Hab _ _ Hr Hrt Htr) as [?|Hs]; [by left|right].
      eapply settled_report_kept; [done|apply Hbc|done].
    + intros k r' Hk Hw. destruct (dl_waiting _ _ Hbc _ _ Hk Hw) as [(r&Hr&Hrw)|?]; [|by right].
      destruct (dl_runs _ _ Hbc _ _ Hr) as (r2&Hr2&Hle). rewrite Hk in Hr2. simplify_eq.
      destruct (dl_waiting _ _ Hab _ _ Hr Hrw) as [?|Hs]; [by left|right]. by eapply backed_kept.
    + intros k x Hk. destruct (dl_result _ _ Hbc _ _ Hk) as [H1|?]; [|by right].
      destruct (dl_result _ _ Hab _ _ H1) as [?|?]; [by left|right]. by eapply linked_kept.
    + intros k m' Hk. destruct (dl_manifest _ _ Hbc _ _ Hk) as [(m&Hm&Hle)|?]; [|by right].
      destruct (dl_manifest _ _ Hab _ _ Hm) as [(m0&?&?)|?].
      * left. exists m0. split; [done|]. by etrans.
      * right. by eapply manifest_sound_kept.
    + intros. by apply Hbc, Hab.
    + intros. by apply Hbc, Hab.
    + intros. by apply Hbc, Hab.
    + intros. by apply Hbc, Hab.
    + intros. by apply Hbc, Hab.
    + intros. by apply Hbc, Hab.
Qed.

(** ** Sufficient conditions *)

Lemma runs_wf_same d d' : runs d' = runs d → runs_wf d → runs_wf d'.
Proof. intros Heq [H1 H2]. split; rewrite Heq; eauto. Qed.

Lemma subscriptions_wf_same d d' :
  channels d' = channels d → subscriptions d' = subscriptions d →
  subscriptions_wf d → subscriptions_wf d'.
Proof. intros Hc Hs [H1 H2 H3 H4]. split; rewrite ?Hc ?Hs; eauto. Qed.

Lemma revisions_sound_same d d' : revisions d' = revisions d → revisions_sound d → revisions_sound d'.
Proof. rewrite /revisions_sound. by intros ->. Qed.

(** Runs, manifests and results are not touched. *)
Lemma delta_outside d d' :
  runs d' = runs d → manifests d' = manifests d → results d' = results d →
  outbox_kept d d' → inbox_kept d d' →
  (revisions_sound d → revisions_sound d') → (subscriptions_wf d → subscriptions_wf d') →
  delta d d'.
Proof.
  intros Hr Hm Hx Ho Hi Hrev Hs. split; try done.
  - by apply runs_le_same.
  - rewrite Hm. intros k m Hk. exists m. by split.
  - by rewrite Hx.
  - rewrite Hr. eauto.
  - rewrite Hr. eauto.
  - rewrite Hx. auto.
  - rewrite Hm. intros k m Hk. left. exists m. by split.
  - by rewrite /manifest_unique Hm.
  - by rewrite /text_xor_minimized Hm.
  - by rewrite /texts_intact Hm.
  - by apply runs_wf_same.
Qed.

(** Runs move without becoming terminal or waiting; nothing else is touched but the mailboxes. *)
Lemma delta_runs d d' :
  manifests d' = manifests d → results d' = results d → revisions d' = revisions d →
  channels d' = channels d → subscriptions d' = subscriptions d →
  outbox_kept d d' → inbox_kept d d' → runs_le d d' → (runs_wf d → runs_wf d') →
  (∀ k r', runs d' !! k = Some r' → (2 ≤ state_rank (run_state r'))%nat →
     ∃ r, runs d !! k = Some r ∧ run_state r = run_state r') →
  delta d d'.
Proof.
  intros Hm Hx Hrev Hc Hs Ho Hi Hle Hwf Hnew.
  assert (∀ s, terminal s = true → (2 ≤ state_rank s)%nat) as Hrank by (intros []; simpl; (done || lia)).
  split; try done.
  - rewrite Hm. intros k m Hk. exists m. by split.
  - by rewrite Hx.
  - intros k r' Hk Ht _. left. destruct (Hnew k r' Hk (Hrank _ Ht)) as (r&?&Heq). exists r.
    by rewrite Heq.
  - intros k r' Hk Hw. left. destruct (Hnew k r' Hk) as (r&?&Heq); [rewrite Hw; simpl; lia|].
    exists r. by rewrite Heq.
  - rewrite Hx. auto.
  - rewrite Hm. intros k m Hk. left. exists m. by split.
  - by rewrite /manifest_unique Hm.
  - by rewrite /text_xor_minimized Hm.
  - by rewrite /texts_intact Hm.
  - by rewrite /revisions_sound Hrev.
  - by apply subscriptions_wf_same.
Qed.

(** Manifest texts and post bodies are dropped, each with its instant. *)
Lemma delta_minimized d d' p q now f g :
  manifests d' = update_where p f (manifests d) → revisions d' = update_where q g (revisions d) →
  runs d' = runs d → results d' = results d → outbox d' = outbox d → inbox d' = inbox d →
  channels d' = channels d → subscriptions d' = subscriptions d →
  (∀ m, f m = ManifestRow (man_run m) (man_owner m) (man_sha256 m) (man_source_count m)
                (man_channel_count m) None (Some now) (man_created_at m)) →
  (∀ r, rev_body (g r) = None ∧ is_Some (rev_minimized_at (g r))) →
  delta d d'.
Proof.
  intros Hm Hrev Hr Hx Ho Hi Hc Hs Hf Hg.
  assert (∀ b m, manifest_le m (if b : bool then f m else m)) as Hle.
  { intros [] m; [|done]. rewrite Hf. split; simpl; auto. }
  split; try done.
  - by apply runs_le_same.
  - rewrite Hm. intros k m Hk. rewrite lookup_update_where Hk /=. by eexists.
  - by rewrite Hx.
  - intros k o Hk _. exists k, o. by rewrite Ho.
  - by apply inbox_kept_same.
  - rewrite Hr. eauto.
  - rewrite Hr. eauto.
  - rewrite Hx. auto.
  - rewrite Hm. intros k m' (m&Hk&->)%lookup_update_where_Some. left. by exists m.
  - rewrite /manifest_unique Hm. intros Hu k1 k2 m1 m2 (x1&H1&->)%lookup_update_where_Some
      (x2&H2&->)%lookup_update_where_Some. rewrite (ml_run _ _ (Hle _ x1)) (ml_run _ _ (Hle _ x2)).
    by apply Hu.
  - rewrite /text_xor_minimized Hm. intros Hxor k m' (m&Hk&->)%lookup_update_where_Some.
    destruct (p k m); [|by eapply Hxor]. rewrite Hf /=. split; [by eexists|done].
  - rewrite /texts_intact Hm. intros Hi' k m' t (m&Hk&->)%lookup_update_where_Some.
    destruct (p k m); [by rewrite Hf|by eapply Hi'].
  - rewrite /revisions_sound Hrev. intros Hrs k r' (r&Hk&->)%lookup_update_where_Some.
    destruct (q k r); [|by eapply Hrs]. destruct (Hg r) as [-> ?]. done.
  - by apply runs_wf_same.
  - by apply subscriptions_wf_same.
Qed.
End Delta.
