(* ===== verification/Units.v ===== *)
(** * Units: the atomic steps of the program, and that each of them is a [delta]

    A unit is a transaction, or a statement outside a transaction.  Units of different handlers
    interleave freely; inside a unit the database of the others is not seen. *)

From S2P Require Import Prelude Text External Store Tx Subscriptions Runs Reports Inbox Intake.
From S2P Require Import IntakeSpec Manifest Revisions Provider Acquisition Coordinator Settlement.
From S2P Require Import Schedule Delta Executor Bus Reaper ReaperSpec Maintenance Registration.

(** A property that a step keeps, as a relation. *)
Definition keeps (P : db → Prop) (d d' : db) : Prop := P d → P d'.

#[export] Instance keeps_preorder P : PreOrder (keeps P).
Proof. split; [by intros d Hd|]. intros a b c Hab Hbc Ha. by apply Hbc, Hab. Qed.

Section Units.
Context `{External}.

(** ** Natural keys stay unique *)

Lemma runs_wf_insert_same k r r' d d' :
  runs d !! k = Some r → run_owner r' = run_owner r → run_trigger r' = run_trigger r →
  run_idempotency_key r' = run_idempotency_key r → run_window_start r' = run_window_start r →
  run_window_end r' = run_window_end r → runs d' = <[k := r']> (runs d) → runs_wf d → runs_wf d'.
Proof.
  intros Hk Ho Ht Hi Hs He Hd [Hord Hu].
  assert (∀ k1 r1, runs d' !! k1 = Some r1 → ∃ r0, runs d !! k1 = Some r0 ∧
    run_owner r1 = run_owner r0 ∧ run_trigger r1 = run_trigger r0 ∧
    run_idempotency_key r1 = run_idempotency_key r0 ∧ run_window_start r1 = run_window_start r0 ∧
    run_window_end r1 = run_window_end r0) as Hback.
  { intros k1 r1. rewrite Hd lookup_insert_Some. intros [[<- <-]|[_ H1]]; [by exists r|by exists r1]. }
  split.
  - intros k1 r1 (r0&H0&_&_&_&->&->)%Hback. eauto.
  - intros k1 k2 r1 r2 (r10&H1&->&->&->&->&->)%Hback (r20&H2&Ho2&Ht2&Hi2&Hs2&He2)%Hback.
    rewrite natural_key_true Ho2 Ht2 Hi2 Hs2 He2 -(natural_key_true _ _ _ _ _ k2). by apply Hu.
Qed.

Lemma keeps_runs_wf_same {A} (s : stmt A) :
  (∀ now d a d', s now d = Ok (a, d') → runs d' = runs d) → stmt_evolves (keeps runs_wf) s.
Proof. intros Hs now d a d' Ha Hwf. by eapply runs_wf_same; [eapply Hs|]. Qed.

Lemma keeps_runs_wf_enqueue row : evolves (keeps runs_wf) (enqueue row).
Proof.
  rewrite /enqueue. evolve. apply keeps_runs_wf_same.
  by intros now d a' d' ->%insert_outbox_frame.
Qed.

Lemma keeps_runs_wf_insert {A} (s : Z → db → result sql_error (A * db)) :
  (∀ now d a d', s now d = Ok (a, d') →
     d' = d ∨ ∃ id row b, insert_run id row d = Ok (b, d')) →
  stmt_evolves (keeps runs_wf) s.
Proof.
  intros Hs now d a d' Ha Hwf. destruct (Hs _ _ _ _ Ha) as [->|(id&row&b&Hi)]; [done|].
  by eapply insert_run_wf.
Qed.

Lemma accept_occurrence_runs_wf o : evolves (keeps runs_wf) (accept_occurrence o).
Proof.
  pose proof keeps_runs_wf_enqueue.
  rewrite /accept_occurrence /fan_out. evolve.
  - apply keeps_runs_wf_same. by intros now d a d' (_&[(_&->&_)|(_&_&->)])%claim_spec.
  - apply keeps_runs_wf_insert. eauto 10.
  - apply keeps_runs_wf_same. by intros now d b d' ->%complete_inbox_frame.
Qed.

Lemma create_digest_run_wf run_id owner operation trigger key start end_ :
  stmt_evolves (keeps runs_wf) (create_digest_run run_id owner operation trigger key start end_).
Proof.
  apply keeps_runs_wf_insert. intros now d x d'. rewrite /create_digest_run /mbind /=.
  destruct (insert_run _ _ _) as [[b d1]|] eqn:Hi; [|done].
  destruct b; simpl; [intros; simplify_eq; eauto 10|].
  destruct (find_where _ _) as [[]|]; intros; simplify_eq; eauto 10.
Qed.

Lemma decide_run_runs_wf message_id payload command :
  evolves (keeps runs_wf) (decide_run message_id payload command).
Proof.
  pose proof keeps_runs_wf_enqueue. pose proof create_digest_run_wf.
  rewrite /decide_run. evolve.
  - apply keeps_runs_wf_same. by intros now d a d' (_&[(_&->&_)|(_&_&->)])%claim_spec.
  - intros now d n d' Hu Hwf. eapply update_runs_wf; [exact Hu| |done].
    intros now' r. left. apply run_le_set_language.
  - apply keeps_runs_wf_same. by intros now d b d' ->%complete_inbox_frame.
Qed.

(** ** The transactions of the handlers *)

Lemma inbox_kept_insert message_id subject key m d d' :
  ¬ seen message_id subject key d → inbox d' = <[message_id := m]> (inbox d) → inbox_kept d d'.
Proof.
  intros Hn Hi k x Hk. exists x. rewrite Hi lookup_insert_ne; [done|]. intros <-. apply Hn.
  apply any_where_true. exists message_id, x. split; [done|]. apply inbox_taken_true. auto.
Qed.

Lemma delta_rejected r now d d' : rejected r now d d' → delta d d'.
Proof.
  intros [Hu Hi Ho _ Hf]. eapply delta_outside; try by rewrite Hf.
  - by apply outbox_kept_grows.
  - eapply inbox_kept_insert; [exact Hu|exact Hi].
  - apply subscriptions_wf_same; by rewrite Hf.
Qed.

Lemma delta_subscription_applied message_id payload command now d d' :
  subscription_applied message_id payload command now d d' → delta d d'.
Proof.
  intros [Hu (sid&cid&row&d0&d1&Hc0&Hs0&Hset&Hc1&Hs1) Hi Ho _ Hf].
  eapply delta_outside; try by rewrite Hf.
  - by apply outbox_kept_grows.
  - eapply inbox_kept_insert; [exact Hu|exact Hi].
  - intros Hwf. eapply subscriptions_wf_same; [exact Hc1|exact Hs1|].
    eapply set_subscription_wf; [exact Hset|]. by eapply subscriptions_wf_same.
Qed.

Lemma evolves_decide_subscription message_id payload command :
  evolves delta (decide_subscription message_id payload command).
Proof.
  intros w. destruct (decide_subscription _ _ _ _) as [res w'] eqn:Hw. simpl.
  apply decide_subscription_inv in Hw as [[_ Ha]|[-> _]]; [|done].
  by eapply delta_subscription_applied.
Qed.

Lemma evolves_reject r : evolves delta (reject r).
Proof.
  intros w. destruct (reject r w) as [res w'] eqn:Hw. simpl.
  apply reject_inv in Hw as [[_ Ha]|[-> _]]; [|done]. by eapply delta_rejected.
Qed.

Lemma state_rank_set_language l now r : run_state (set_language l now r) = run_state r.
Proof. done. Qed.

Lemma evolves_decide_run message_id payload command :
  evolves delta (decide_run message_id payload command).
Proof.
  intros w. destruct (decide_run message_id payload command w) as [res w'] eqn:Hw. simpl.
  pose proof (evolves_elim _ _ _ _ _ (decide_run_runs_wf message_id payload command) Hw) as Hwf.
  apply decide_run_inv in Hw as [[_ [Hu (st&en&r&_&_&_&Hr&Hd) Hi Ho _ Hf]]|[-> _]]; [|done].
  eapply delta_runs; try by rewrite Hf.
  - by apply outbox_kept_grows.
  - eapply inbox_kept_insert; [exact Hu|exact Hi].
  - intros k r0 Hk. rewrite Hd. destruct (decide (k = rc_run command)) as [->|Hne].
    + exists (set_language (rc_language command) (w_now w) r). rewrite lookup_insert_eq.
      split; [done|]. destruct Hr as [[Hn _]|[Hs _]]; simplify_eq. apply run_le_set_language.
    + exists r0. by rewrite lookup_insert_ne.
  - exact Hwf.
  - intros k r'. rewrite Hd lookup_insert_Some. intros [[<- <-]|[_ Hk]] Hrank; [|by eauto].
    destruct Hr as [[_ ->]|[Hs _]]; [simpl in Hrank; lia|by exists r].
Qed.

Lemma evolves_accept_occurrence o : evolves delta (accept_occurrence o).
Proof.
  intros w. destruct (accept_occurrence o w) as [res w'] eqn:Hw. simpl.
  pose proof (evolves_elim _ _ _ _ _ (accept_occurrence_runs_wf o) Hw) as Hwf.
  apply accept_occurrence_inv in Hw as [[_ [due [_ Hk Hn _ Hi Hu Ho _ Hf]]]|[-> _]]; [|done].
  eapply delta_runs; try by rewrite Hf.
  - by apply outbox_kept_grows.
  - eapply inbox_kept_insert; [exact Hu|exact Hi].
  - intros k r Hr. exists r. split; [by apply Hk|done].
  - exact Hwf.
  - intros k r' Hr' Hrank. apply Hn in Hr' as [?|(p&ow&win&_&_&->)]; [by eauto|]. simpl in Hrank. lia.
Qed.

(** A run that was open or waiting and is terminal now, with the report it owes. *)
Lemma settled_report_of r status d d' :
  outbox_reports r status d d' →
  status ∈ [OperationStatus.Succeeded; OperationStatus.PartiallySucceeded; OperationStatus.Failed] →
  run_trigger r = RunTrigger.OnDemand → settled_report r d'.
Proof. intros Ho Hs Ht. exists status. split; [done|]. by eapply outbox_reports_reported. Qed.

Lemma outbox_reports_outbox_kept r status d d' : outbox_reports r status d d' → outbox_kept d d'.
Proof. intros Ho. apply outbox_kept_grows. intros k o. by eapply outbox_reports_grows. Qed.

Lemma delta_run_finished run_id owner f status d d' :
  run_finished run_id owner f status d d' →
  (∀ r, run_state r ∈ open_states → run_le r (f r) ∧ terminal (run_state (f r)) = true ∧
     run_state (f r) ≠ RunState.WaitingRecap) →
  status ∈ [OperationStatus.Succeeded; OperationStatus.PartiallySucceeded; OperationStatus.Failed] →
  delta d d'.
Proof.
  intros (r&Hr&Ho&Hs&Hd&Hq) Hf Hst. destruct (Hf r Hs) as (Hle&Hterm&Hnw).
  assert (runs d' = <[run_id := f r]> (runs d)) as Hruns by by rewrite Hd.
  split; try by rewrite Hd.
  - intros k r0 Hk. rewrite Hruns. destruct (decide (k = run_id)) as [->|Hne].
    + exists (f r). rewrite lookup_insert_eq. by simplify_eq.
    + exists r0. by rewrite lookup_insert_ne.
  - rewrite Hd /=. intros k m Hk. by exists m.
  - by eapply outbox_reports_outbox_kept.
  - apply inbox_kept_same. by rewrite Hd.
  - intros k r'. rewrite Hruns lookup_insert_Some. intros [[<- <-]|[_ Hk]] Ht Htr; [right|by left; eauto].
    eapply settled_report_kept; [exact Hle|done|]. eapply settled_report_of; [done|done|].
    by rewrite -(keep_trigger _ _ Hle).
  - intros k r'. rewrite Hruns lookup_insert_Some. intros [[<- <-]|[_ Hk]] Hw; [done|by left; eauto].
  - rewrite Hd /=. auto.
  - rewrite Hd /=. intros k m Hk. left. by exists m.
  - destruct Hle. by eapply runs_wf_insert_same.
  - apply subscriptions_wf_same; by rewrite Hd.
Qed.

Lemma open_not_terminal s s' : s ∈ open_states → (2 ≤ state_rank s')%nat → state_le s s'.
Proof.
  rewrite /open_states. intros Hs Hr. right.
  apply list_elem_of_In in Hs. destruct Hs as [<-|[<-|[]]]; simpl in *; lia.
Qed.

Lemma evolves_complete_empty_run run_id owner : evolves delta (complete_empty_run run_id owner).
Proof.
  intros w. destruct (complete_empty_run _ _ _) as [res w'] eqn:Hw. simpl.
  apply complete_empty_run_inv in Hw as [[_ Hf]|[-> _]]; [|done].
  eapply delta_run_finished; [exact Hf| |set_solver]. intros r Hs. split; [|done].
  apply run_le_set_state, open_not_terminal; [done|simpl; lia].
Qed.

Lemma evolves_fail_run run_id owner failure : evolves delta (fail_run run_id owner failure).
Proof.
  intros w. destruct (fail_run _ _ _ _) as [res w'] eqn:Hw. simpl.
  apply fail_run_inv in Hw as [[_ Hf]|[-> _]]; [|done].
  eapply delta_run_finished; [exact Hf| |set_solver]. intros r Hs. split; [|done].
  apply run_le_set_failed, open_not_terminal; [done|simpl; lia].
Qed.

(** A run with no manifest yet gets its only one. *)
Lemma one_manifest_insert d k row :
  (∀ k' x, manifests d !! k' = Some x → man_run x ≠ man_run row) →
  manifest_unique d → manifest_unique (with_manifests d (<[k := row]> (manifests d))).
Proof.
  intros Hun Hu k1 k2 m1 m2. rewrite /= !lookup_insert_Some.
  intros [[<- <-]|[_ H1]] [[<- <-]|[_ H2]] Heq; [done| | |by eapply Hu].
  - exfalso. by apply (Hun _ _ H2).
  - exfalso. by apply (Hun _ _ H1).
Qed.

Lemma evolves_commit_manifest m bytes :
  cman_sha256 m = sha256_hex (cman_text m) → evolves delta (commit_manifest m bytes).
Proof.
  intros Hsha w. destruct (commit_manifest m bytes w) as [res w'] eqn:Hw. simpl.
  apply commit_manifest_inv in Hw
    as [(_&value&op&oid&r&Hreq&Hr&Ho&Hs&Hn&Hun&Hoid&Hs1&Hc1&Hd)|[-> _]]; [|done].
  set (d := w_db w) in *. set (d' := w_db w') in *. clearbody d d'.
  assert (∃ row, man_run row = cman_run m ∧ man_owner row = cman_owner m ∧
    man_source_count row = Z.of_nat (cman_source_count m) ∧
    man_channel_count row = Z.of_nat (cman_channel_count m) ∧
    man_text row = Some (cman_text m) ∧ man_sha256 row = cman_sha256 m ∧
    man_minimized_at row = None ∧
    manifests d' = <[cman_id m := row]> (manifests d)) as (row&Hrr&Hro&Hrs&Hrc&Hrt&Hrsha&Hrm&Hm').
  { eexists. split_and!; [..|by rewrite Hd]; done. }
  assert (runs d' = <[cman_run m := set_state RunState.WaitingRecap (w_now w) r]> (runs d)) as Hruns
    by by rewrite Hd.
  assert (run_le r (set_state RunState.WaitingRecap (w_now w) r)) as Hle
    by (apply run_le_set_state, open_not_terminal; [done|simpl; lia]).
  split; try by rewrite Hd.
  - intros k r0 Hk. rewrite Hruns. destruct (decide (k = cman_run m)) as [->|Hne].
    + eexists. rewrite lookup_insert_eq. split; [done|]. by simplify_eq.
    + exists r0. by rewrite lookup_insert_ne.
  - intros k x Hk. exists x. rewrite Hm' lookup_insert_ne; [done|congruence].
  - apply outbox_kept_grows. intros k o Hk. rewrite Hd /= lookup_insert_ne; [done|congruence].
  - apply inbox_kept_same. by rewrite Hd.
  - intros k r'. rewrite Hruns lookup_insert_Some. intros [[<- <-]|[_ Hk]] Ht _; [done|by left; eauto].
  - intros k r'. rewrite Hruns lookup_insert_Some. intros [[<- <-]|[_ Hk]] Ht; [right|by left; eauto].
    exists (cman_id m), row, oid. eexists. rewrite Hm' lookup_insert_eq.
    apply checked_recap_request_Ok in Hreq as (q&_&_&_&_&?&?&?&?&?&?).
    split_and!; [done|done|by rewrite Hro|by rewrite Hd /= lookup_insert_eq|done|done|done|].
    rewrite /requests Hro Hrr Hrsha Hrs Hrc. by split_and!.
  - rewrite Hd /=. auto.
  - intros k m'. rewrite Hm' lookup_insert_Some. intros [[<- <-]|[_ Hk]]; [right|by left; exists m'].
    rewrite /manifest_sound Hrr Hrs Hrc Hruns. split; [|done]. eexists. by rewrite lookup_insert_eq.
  - rewrite /manifest_unique Hm'. apply one_manifest_insert. by rewrite Hrr.
  - intros Hx k m'. rewrite Hm' lookup_insert_Some. intros [[<- <-]|[_ Hk]]; [|by eapply Hx].
    rewrite Hrm Hrt. by split; [|intros []].
  - intros Hx k m' t. rewrite Hm' lookup_insert_Some. intros [[<- <-]|[_ Hk]]; [|by eapply Hx].
    rewrite Hrt Hrsha. by intros [= <-].
  - eapply (runs_wf_insert_same _ _ _ _ _ Hr); [..|exact Hruns]; done.
  - apply subscriptions_wf_same; by rewrite Hd.
Qed.

(** A settlement, given the run that waited and a manifest of it. *)
Lemma delta_settled message_id subject key sha run_id result_id r r' row status now d d' :
  settled message_id subject key sha run_id result_id r' row status now d d' →
  runs d !! run_id = Some r → run_le r r' → run_state r' = Outcome.run_state (res_outcome row) →
  run_owner r' = res_owner row → res_run row = run_id →
  (∃ m, manifests d !! res_manifest row = Some m ∧ man_run m = run_id) →
  status ∈ [OperationStatus.Succeeded; OperationStatus.PartiallySucceeded; OperationStatus.Failed] →
  delta d d'.
Proof.
  intros (Hd&Hq&Hun&Hnone&_&Hall) Hr Hle Hst Ho Hrr (m&Hm&Hmr) Hstatus.
  assert (runs d' = <[run_id := r']> (runs d)) as Hruns by by rewrite Hd.
  assert (results d' = <[result_id := row]> (results d)) as Hres by by rewrite Hd.
  assert (manifests d' = manifests d) as Hman by by rewrite Hd.
  split; try by rewrite Hd.
  - intros k r0 Hk. rewrite Hruns. destruct (decide (k = run_id)) as [->|Hne].
    + exists r'. rewrite lookup_insert_eq. by simplify_eq.
    + exists r0. by rewrite lookup_insert_ne.
  - rewrite Hman. intros k x Hk. by exists x.
  - intros k x Hk. rewrite Hres lookup_insert_ne; [done|congruence].
  - by eapply outbox_reports_outbox_kept.
  - eapply inbox_kept_insert; [exact Hun|by rewrite Hd].
  - intros k r0. rewrite Hruns lookup_insert_Some. intros [[<- <-]|[_ Hk]] Ht Htr; [right|by left; eauto].
    by eapply settled_report_of.
  - intros k r0. rewrite Hruns lookup_insert_Some. intros [[<- <-]|[_ Hk]] Hw; [|by left; eauto].
    exfalso. rewrite Hst in Hw. by destruct (res_outcome row).
  - intros k x. rewrite Hres lookup_insert_Some. intros [[<- <-]|[_ Hk]]; [right|by left].
    exists r', m. rewrite Hruns Hrr lookup_insert_eq Hman Ho. split_and!; done.
  - rewrite Hman. intros k x Hk. left. by exists x.
  - destruct Hle. eapply (runs_wf_insert_same _ _ _ _ _ Hr); [..|exact Hruns]; done.
  - apply subscriptions_wf_same; by rewrite Hd.
Qed.

Lemma waiting_le_outcome r o : run_state r = RunState.WaitingRecap → state_le (run_state r) (Outcome.run_state o).
Proof. intros ->. right. destruct o; simpl; lia. Qed.

Lemma evolves_apply_completion message_id completion fact analysis_id incomplete :
  evolves delta (apply_completion message_id completion fact analysis_id incomplete).
Proof.
  intros w. destruct (apply_completion _ _ _ _ _ _) as [res w'] eqn:Hw. simpl.
  apply apply_completion_inv in Hw as [(_&r&mid&m&Hr&Ho&Hs&Hm&Hmr&Hset)|[-> _]]; [|done].
  eapply delta_settled; [exact Hset|exact Hr|..]; simpl; try done.
  - by apply run_le_set_state, waiting_le_outcome.
  - by exists m.
  - rewrite /completion_status. case_match; set_solver.
Qed.

(** The manifest of the run was read before the transaction; manifests are never removed. *)
Lemma delta_apply_failure message_id failure fact manifest_id m w res w' :
  apply_failure message_id failure fact manifest_id w = (res, w') →
  manifests (w_db w) !! manifest_id = Some m → man_run m = ff_run fact →
  delta (w_db w) (w_db w').
Proof.
  intros Hw Hm Hmr.
  apply apply_failure_inv in Hw as [(_&r&rid&Hr&Ho&Hs&_&Hset)|[-> _]]; [|done].
  eapply delta_settled; [exact Hset|exact Hr|..]; simpl; try done; [| |set_solver].
  - apply run_le_set_failed. rewrite Hs. right. simpl. lia.
  - by exists m.
Qed.

Lemma evolves_reap_once deadline now : evolves delta (reap_once deadline now).
Proof.
  intros w. destruct (reap_once deadline now w) as [res w'] eqn:Hw. simpl.
  apply reap_once_inv in Hw as [(at_&_&_&Hreap)|[-> _]]; [|done].
  set (threshold := at_ - deadline * 1000000) in *. clearbody threshold.
  set (d := w_db w) in *. set (d' := w_db w') in *. clearbody d d'.
  destruct Hreap as [Hruns Ho Hrep Hf].
  assert (∀ k r, runs d !! k = Some r → k ∈ (reap_batch threshold d).*1 →
    (k, r) ∈ reap_batch threshold d ∧ terminal (run_state r) = false) as Hbatch.
  { intros k r Hk ([k' r']&->&Hin)%list_elem_of_fmap. pose proof Hin as Hsel.
    apply elem_of_take_sort_on, elem_of_select_where in Hsel as [Hk' Hov]. simpl in *. simplify_eq.
    split; [done|]. apply overdue_true in Hov as [Hop _]. revert Hop.
    rewrite /open_run bool_decide_eq_true. destruct (run_state r); simpl; set_solver. }
  assert (runs_le d d') as Hle.
  { intros k r Hk. rewrite Hruns lookup_update_where Hk /=. eexists. split; [done|].
    case_bool_decide as Hin; [|done]. destruct (Hbatch _ _ Hk Hin) as [_ Hnt].
    apply run_le_set_failed. destruct (run_state r); simpl in *; try done; right; simpl; lia. }
  split; try by rewrite Hf.
  - rewrite Hf /=. intros k m Hk. by exists m.
  - by apply outbox_kept_grows.
  - apply inbox_kept_same. by rewrite Hf.
  - intros k r'. rewrite Hruns. intros (r&Hk&->)%lookup_update_where_Some Ht Htr.
    case_bool_decide as Hin; [right|by left; eauto]. destruct (Hbatch _ _ Hk Hin) as [Hin1 _].
    exists OperationStatus.Failed. split; [set_solver|]. by apply (Hrep k r Hin1).
  - intros k r'. rewrite Hruns. intros (r&Hk&->)%lookup_update_where_Some Hw.
    case_bool_decide; [done|by left; eauto].
  - rewrite Hf /=. auto.
  - rewrite Hf /=. intros k m Hk. left. by exists m.
  - intros Hwf. eapply (runs_wf_same (with_runs d (runs d'))); [done|].
    eapply (update_runs_wf (λ k _, bool_decide (k ∈ (reap_batch threshold d).*1))
      (set_failed FAILURE_CLASS) (w_now w) d (count_where _ _)); [|by intros; right; split_and!|exact Hwf].
    by rewrite /update_runs Hruns.
  - apply subscriptions_wf_same; by rewrite Hf.
Qed.

(** ** The executor's own statements *)

(** A message is queued and nothing else happens. *)
Definition queues (d d' : db) : Prop :=
  d' = with_outbox d (outbox d') ∧ (∀ k o, outbox d !! k = Some o → outbox d' !! k = Some o).

Lemma enqueue_queues row w u w' : enqueue row w = (Ok u, w') → queues (w_db w) (w_db w').
Proof.
  intros (_&_&payload&oid&b&_&Hi)%enqueue_inv. split; [by eapply insert_outbox_frame|].
  intros k o. by eapply insert_outbox_grows.
Qed.

Lemma begin_acquisition_inv run w res w' :
  begin_acquisition run w = (res, w') →
  (res = Ok true ∧ ∃ r d1, runs (w_db w) !! pend_run_id run = Some r ∧
     run_state r = RunState.Accepted ∧
     d1 = with_runs (w_db w)
            (<[pend_run_id run := set_state RunState.Acquiring (w_now w) r]> (runs (w_db w))) ∧
     queues d1 (w_db w')) ∨
  (w_db w' = w_db w ∧ res ≠ Ok true).
Proof.
  rewrite /begin_acquisition.
  set (p := λ k r, bool_decide (k = pend_run_id run) && bool_decide (run_state r = RunState.Accepted)).
  intros [(a&w1&w2&->&Hdb&Hnow&Hb&->)|(->&[(a&w1&w2&->&Hdb&Hnow&Hb)|(e&->)])]%transact_inv.
  - left. rewrite /exec_sql in Hb. step_sql Hb as changed w3 Hu Hn3.
    rewrite /update_runs in Hu. injection Hu as Hc Hd3. rewrite Hdb Hnow in Hc Hd3 |- *.
    destruct (changed =? 1)%nat eqn:H1; simpl in Hb; [|by apply ret_inv in Hb as [? _]].
    apply Nat.eqb_eq in H1. subst changed.
    assert (∀ k r, p k r = true → k = pend_run_id run ∧ run_state r = RunState.Accepted) as Hp.
    { intros k r. by rewrite /p andb_true_iff !bool_decide_eq_true. }
    destruct (proj1 (count_where_pos p (runs (w_db w)))) as (k&r&Hk&Hpk); [lia|].
    destruct (Hp _ _ Hpk) as [-> Hst].
    step Hb as owned w4 Hown. apply on_err_inv in Hown.
    apply on_demand_operation_inv in Hown as (Hd4&_&_).
    assert (queues (w_db w3) (w_db w2)) as Hq.
    { destruct owned as [op|].
      - step Hb as u w5 Hrep. step Hrep as row w6 [_ ->]%on_err_inv%lift_inv.
        apply on_err_inv, enqueue_queues in Hrep. apply ret_inv in Hb as [_ ->]. by rewrite -Hd4.
      - step Hb as u w5 Hu. apply ret_inv in Hu as [_ ->]. apply ret_inv in Hb as [_ ->]. rewrite Hd4.
        split; [by destruct (w_db w3)|done]. }
    split; [destruct owned; step Hb as u w5 Hu; apply ret_inv in Hb as [Ha _]; by simplify_eq|].
    eexists r, _. split_and!; [done|done|done|].
    rewrite -Hd3 (update_where_key p _ _ (pend_run_id run)) in Hq; [|by intros ?? [? _]%Hp].
    rewrite Hk Hpk in Hq.
    exact Hq.
  - right. split; [done|]. destruct Hb as [Hb|Hb].
    + exfalso. step Hb as changed w3 _. destruct (changed =? 1)%nat; simpl in Hb;
        [|by apply ret_inv in Hb as [? _]].
      step Hb as owned w4 _. destruct owned; step Hb as u w5 _; by apply ret_inv in Hb as [? _].
    + step Hb as changed w3 _. destruct (changed =? 1)%nat; simpl in Hb;
        [|apply ret_inv in Hb as [[= ->] _]; done].
      exfalso. step Hb as owned w4 _. destruct owned; step Hb as u w5 _; by apply ret_inv in Hb as [? _].
  - right. by split.
Qed.

Lemma begin_acquisition_runs_wf run : evolves (keeps runs_wf) (begin_acquisition run).
Proof.
  pose proof keeps_runs_wf_enqueue.
  rewrite /begin_acquisition /exec_sql /exec_error /on_demand_operation. evolve.
  intros now d n d' Hu Hwf. eapply update_runs_wf; [exact Hu| |done].
  intros now' r. right. by split_and!.
Qed.

Lemma evolves_begin_acquisition run : evolves delta (begin_acquisition run).
Proof.
  intros w. destruct (begin_acquisition run w) as [res w'] eqn:Hw. simpl.
  pose proof (evolves_elim _ _ _ _ _ (begin_acquisition_runs_wf run) Hw) as Hwf.
  apply begin_acquisition_inv in Hw as [(_&r&d1&Hr&Hs&->&Hd&Hg)|[-> _]]; [|done]. simpl in Hg.
  set (d := w_db w) in *. set (d' := w_db w') in *. clearbody d d'.
  assert (runs d' = <[pend_run_id run := set_state RunState.Acquiring (w_now w) r]> (runs d)) as Hruns
    by by rewrite Hd.
  eapply delta_runs; try by rewrite Hd.
  - by apply outbox_kept_grows.
  - apply inbox_kept_same. by rewrite Hd.
  - intros k r0 Hk. rewrite Hruns. destruct (decide (k = pend_run_id run)) as [->|Hne].
    + eexists. rewrite lookup_insert_eq. split; [done|]. simplify_eq.
      apply run_le_set_state. rewrite Hs. right. simpl. lia.
    + exists r0. by rewrite lookup_insert_ne.
  - exact Hwf.
  - intros k r'. rewrite Hruns lookup_insert_Some. intros [[<- <-]|[_ Hk]] Hrank; [simpl in Hrank; lia|by eauto].
Qed.

Lemma evolves_record_acquisition run_id incomplete : evolves delta (record_acquisition run_id incomplete).
Proof.
  rewrite /record_acquisition /exec_sql. evolve. intros now d n d' Hu.
  assert (runs_wf d → runs_wf d') as Hwf.
  { eapply update_runs_wf; [exact Hu|]. intros ??. left. apply run_le_set_incomplete. }
  rewrite /update_runs in Hu. injection Hu as _ <-. eapply delta_runs; try done.
  - by apply outbox_kept_grows.
  - by apply inbox_kept_same.
  - intros k r Hk. rewrite /= lookup_update_where Hk /=. eexists. split; [done|].
    case_bool_decide; [apply run_le_set_incomplete|done].
  - intros k r' (r&Hk&->)%lookup_update_where_Some _. exists r. split; [done|]. by case_match.
Qed.

Lemma evolves_checkpoint q p state retry_after : evolves delta (checkpoint_lease q p state retry_after).
Proof.
  rewrite /checkpoint_lease. evolve. intros now d u d' [= _ <-].
  eapply delta_outside; try done;
    [by apply outbox_kept_grows|by apply inbox_kept_same|by apply subscriptions_wf_same].
Qed.

Lemma append_revision_delta revision_id channel message digest body link published observed :
  stmt_evolves delta (append_revision revision_id channel message digest body link published observed).
Proof.
  intros now d u d'. rewrite /append_revision. destruct (negb _); [done|].
  destruct (find_where _ _) as [[]|]; [by intros [= _ <-]|].
  destruct (revisions d !! revision_id) eqn:Hn, (channels d !! channel); try done. intros [= _ <-].
  eapply delta_outside; try done;
    [by apply outbox_kept_grows|by apply inbox_kept_same| |by apply subscriptions_wf_same].
  intros Hs k r. rewrite /= lookup_insert_Some. intros [[<- <-]|[_ Hk]]; [|by eapply Hs].
  simpl. split; [by intros []|]. split; [done|by intros []].
Qed.

Lemma evolves_append o : evolves delta (append o).
Proof. pose proof append_revision_delta. rewrite /append. evolve. Qed.

Lemma withdraw_delta channel proved present deleted :
  stmt_evolves delta (withdraw_statement channel proved present deleted).
Proof.
  intros now d a d' [= _ <-]. eapply (delta_minimized _ _ _ _ now); try reflexivity.
  intros r. split; [done|]. by eexists.
Qed.

Lemma evolves_withdraw_missing channel proved present deleted :
  evolves delta (withdraw_missing channel proved present deleted).
Proof. pose proof withdraw_delta. rewrite /withdraw_missing. evolve. Qed.

(** ** The retention sweep *)

Lemma update_where_nothing {V} (f : V → V) (t : gmap uuid V) :
  t = update_where (λ _ _, false) f t.
Proof. by rewrite update_where_none. Qed.

Lemma stmt_evolves_limit {R : db → db → Prop} {A} limit (s : nat → stmt A) :
  (∀ n, stmt_evolves R (s n)) → stmt_evolves R (with_limit limit s).
Proof. intros Hs now d a d'. rewrite /with_limit. case_match; [done|]. apply Hs. Qed.

Lemma minimize_bodies_delta before limit : stmt_evolves delta (minimize_bodies before limit).
Proof.
  intros now d n d' [= _ <-].
  eapply (delta_minimized _ _ (λ _ _, false) _ now (drop_text now)); try reflexivity.
  - apply update_where_nothing.
  - intros r. split; [done|]. by eexists.
Qed.

Lemma minimize_manifests_delta before limit : stmt_evolves delta (minimize_manifests before limit).
Proof.
  intros now d n d' [= _ <-].
  eapply (delta_minimized _ _ _ (λ _ _, false) now _ (drop_body now)); try reflexivity.
  - apply update_where_nothing.
  - intros r. split; [done|]. by eexists.
Qed.

Lemma evolves_minimize_before before limit : evolves delta (minimize_before before limit).
Proof.
  pose proof minimize_bodies_delta. pose proof @stmt_evolves_limit. rewrite /minimize_before. evolve.
Qed.

Lemma evolves_minimize_manifests_before before limit :
  evolves delta (minimize_manifests_before before limit).
Proof.
  pose proof minimize_manifests_delta. pose proof @stmt_evolves_limit.
  rewrite /minimize_manifests_before. evolve.
Qed.

(** ** The outbox *)

Lemma outbox_delta d d' : d' = with_outbox d (outbox d') → outbox_kept d d' → delta d d'.
Proof.
  intros Hd Ho. eapply delta_outside; [..|exact Ho| | |]; try by rewrite Hd.
  - apply inbox_kept_same. by rewrite Hd.
  - apply subscriptions_wf_same; by rewrite Hd.
Qed.

Lemma upsert_registration_delta outbox_id key owner payload :
  stmt_evolves delta (upsert_registration outbox_id key owner payload).
Proof.
  intros now d u d'. rewrite /upsert_registration.
  destruct (find_where _ _) as [[old_id old]|] eqn:Hf.
  - apply find_where_Some in Hf as [Hold Hkey].
    destruct (delete old_id (outbox d) !! outbox_id) eqn:Hn; [done|]. intros [= _ <-].
    apply outbox_delta; [done|]. intros k o Hk Hs. exists k, o. simpl.
    assert (k ≠ old_id) as Hne.
    { intros ->. simplify_eq. apply outbox_keyed_true in Hkey as [? _]. done. }
    rewrite lookup_insert_ne; [by rewrite lookup_delete_ne|].
    intros <-. by rewrite lookup_delete_ne in Hn; simplify_eq.
  - intros (Hn&->&_)%insert_outbox_strict_spec. apply outbox_delta; [done|].
    apply outbox_kept_grows. intros k o Hk. simpl. rewrite lookup_insert_ne; [done|congruence].
Qed.

Lemma evolves_enqueue_schedule_registration s : evolves delta (enqueue_schedule_registration s).
Proof. pose proof upsert_registration_delta. rewrite /enqueue_schedule_registration. evolve. Qed.

Lemma update_outbox_delta outbox_id f :
  (∀ now o, same_content o (f now o)) → stmt_evolves delta (update_outbox outbox_id f).
Proof.
  intros Hf now d u d' [= _ <-]. apply outbox_delta; [done|]. intros k o Hk _.
  exists k. eexists. rewrite /= lookup_update_where Hk /=. split; [done|].
  case_match; [apply Hf|done].
Qed.
End Units.
