(* ===== verification/ResultReader.v ===== *)
(** * ResultReader: [src/src/result_reader.rs], the bounded read of a recap Knowledge owns

    The HTTP client and the transport are libraries: a client is the function from the request the
    reader sends to the response it gets, [None] when the transport failed.  The body arrives in
    chunks, [None] for one that failed. *)

From S2P Require Import Prelude Text External Store Tx Demo.

Module KnowledgeResultReadError.
Inductive t := Unavailable | Invalid.
#[export] Instance eq_dec : EqDecision t.
Proof. solve_decision. Defined.
End KnowledgeResultReadError.
Export (hints) KnowledgeResultReadError.
Import KnowledgeResultReadError.

Record result_digest := ResultDigest { rd_algorithm : string; rd_hex : string }.

Record knowledge_envelope := KnowledgeEnvelope {
  ke_analysis_id : uuid;
  ke_result_digest : result_digest;
  ke_recap : json }.

Record knowledge_result_projection := KnowledgeResultProjection {
  kp_analysis_id : uuid;
  kp_result_digest_hex : string;
  kp_recap : json }.

Record knowledge_result_reader := KnowledgeResultReader {
  kr_base_url : string;
  kr_service_secret : string;
  kr_max_response_bytes : Z }.

Record http_request := HttpRequest { hq_url : string; hq_bearer : string; hq_accept : string }.

Record http_response := HttpResponse {
  hr_status : Z;
  hr_content_type : option string;
  hr_content_length : option Z;
  hr_chunks : list (option string) }.

Abbreviation http_client := (http_request → option http_response).

(** [HeaderValue::to_str] of the http crate, and the decoder serde derives for the envelope. *)
Class HttpExternal := {
  header_to_str : string → option string;
  decode_knowledge_envelope : string → option knowledge_envelope;
}.

Definition semicolon : Ascii.ascii := Eval compute in Ascii.ascii_of_N 59.

Definition is_sha256_hex (value : string) : bool :=
  bool_decide (byte_len value = 64) && all_bytes (λ c, in_range 48 57 c || in_range 97 102 c) value.

(** [JsonValue::is_object] *)
Definition is_object (v : json) : bool := match v with JObj _ => true | _ => false end.

(** [usize::saturating_add] *)
Definition saturating_add (a b : Z) : Z := Z.min (a + b) (2 ^ 64 - 1).

(** The loop over the body stream. *)
Fixpoint read_body (max : Z) (bytes : string) (chunks : list (option string))
    : result KnowledgeResultReadError.t string :=
  match chunks with
  | [] => Ok bytes
  | None :: _ => Err Unavailable
  | Some chunk :: rest =>
      if max <? saturating_add (byte_len bytes) (byte_len chunk) then Err Invalid
      else read_body max (bytes +:+ chunk)%string rest
  end.

Section ResultReader.
Context `{External} `{HttpExternal}.

(** The request [read] sends. *)
Definition read_request (reader : knowledge_result_reader) (analysis_id : uuid) : http_request :=
  HttpRequest
    (kr_base_url reader +:+ ("/internal/channel-digest-results/" +:+ uuid_text analysis_id))%string
    (kr_service_secret reader) "application/json".

Definition content_type_is_json (response : http_response) : bool :=
  match hr_content_type response ≫= header_to_str with
  | Some value => eq_ignore_ascii_case (trim (before semicolon value)) "application/json"
  | None => false
  end.

(** The linkage of a decoded envelope to the analysis and digest that were asked for. *)
Definition linkage_holds (analysis_id : uuid) (expected : string) (e : knowledge_envelope) : bool :=
  negb (negb (bool_decide (ke_analysis_id e = analysis_id))
        || negb (bool_decide (rd_algorithm (ke_result_digest e) = "sha256"))
        || negb (is_sha256_hex (rd_hex (ke_result_digest e)))
        || negb (bool_decide (rd_hex (ke_result_digest e) = expected))
        || negb (is_object (ke_recap e))).

(** [KnowledgeResultReader::read] *)
Definition read_result (reader : knowledge_result_reader) (client : http_client)
    (analysis_id : uuid) (expected_digest_hex : string)
    : result KnowledgeResultReadError.t knowledge_result_projection :=
  if negb (is_sha256_hex expected_digest_hex) then Err Invalid
  else
    response ← ok_or Unavailable (client (read_request reader analysis_id));
    if (500 <=? hr_status response) && (hr_status response <? 600) then Err Unavailable
    else if negb (hr_status response =? 200) then Err Invalid
    else if negb (content_type_is_json response) then Err Invalid
    else if match hr_content_length response with
            | Some length => kr_max_response_bytes reader <? length
            | None => false
            end then Err Invalid
    else
      bytes ← read_body (kr_max_response_bytes reader) EmptyString (hr_chunks response);
      envelope ← ok_or Invalid (decode_knowledge_envelope bytes);
      if negb (linkage_holds analysis_id expected_digest_hex envelope) then Err Invalid
      else Ok (KnowledgeResultProjection analysis_id (rd_hex (ke_result_digest envelope))
                 (ke_recap envelope)).
End ResultReader.

(** ** The body *)

Lemma saturating_add_bound max a b :
  max < 2 ^ 64 - 1 → (max <? saturating_add a b) = (max <? a + b).
Proof. rewrite /saturating_add. intros. destruct (Z.ltb_spec max (a + b)), (Z.ltb_spec max (Z.min (a + b) (2 ^ 64 - 1))); lia. Qed.

Lemma read_body_Ok max acc chunks bytes :
  max < 2 ^ 64 - 1 → byte_len acc ≤ max →
  read_body max acc chunks = Ok bytes ↔
    ∃ l, chunks = Some <$> l ∧ bytes = (acc +:+ join l)%string ∧ byte_len bytes ≤ max.
Proof.
  intros Hmax. revert acc; induction chunks as [|[chunk|] rest IH]; intros acc Hacc; simpl.
  - split.
    + intros [= <-]. exists []. by rewrite join_nil text_app_nil_r.
    + intros ([|? ?]&?&->&_); [|done]. by rewrite join_nil text_app_nil_r.
  - rewrite saturating_add_bound //. destruct (Z.ltb_spec max (byte_len acc + byte_len chunk)).
    + split; [done|]. intros ([|c l]&Heq&->&Hlen); [done|]; rewrite fmap_cons in Heq; simplify_eq.
      rewrite join_cons !byte_len_app in Hlen. pose proof (byte_len_nonneg (join l)). lia.
    + rewrite IH ?byte_len_app //. split.
      * intros (l&->&->&Hlen). exists (chunk :: l). by rewrite join_cons -text_app_assoc.
      * intros ([|c l]&Heq&->&Hlen); [done|]; rewrite fmap_cons in Heq; simplify_eq. exists l.
        by rewrite join_cons -text_app_assoc in Hlen |- *.
  - split; [done|]. by intros ([|? ?]&?&_).
Qed.

Lemma read_body_Unavailable max acc chunks :
  max < 2 ^ 64 - 1 → byte_len acc ≤ max →
  read_body max acc chunks = Err Unavailable ↔
    ∃ l rest, chunks = (Some <$> l) ++ None :: rest ∧ byte_len (acc +:+ join l) ≤ max.
Proof.
  intros Hmax. revert acc; induction chunks as [|[chunk|] rest IH]; intros acc Hacc; simpl.
  - split; [done|]. by intros ([|? ?]&?&?&_).
  - rewrite saturating_add_bound //. destruct (Z.ltb_spec max (byte_len acc + byte_len chunk)).
    + split; [done|]. intros ([|c l]&r&Heq&Hlen); [done|]; rewrite fmap_cons -app_comm_cons in Heq; simplify_eq.
      rewrite join_cons !byte_len_app in Hlen. pose proof (byte_len_nonneg (join l)). lia.
    + rewrite IH ?byte_len_app //. split.
      * intros (l&r&->&Hlen). exists (chunk :: l), r. by rewrite join_cons -text_app_assoc.
      * intros ([|c l]&r&Heq&Hlen); [done|]; rewrite fmap_cons -app_comm_cons in Heq; simplify_eq. exists l, r.
        by rewrite join_cons -text_app_assoc in Hlen |- *.
  - split; [|done]. intros _. exists [], rest. by rewrite join_nil text_app_nil_r.
Qed.

(** ** The read *)

Lemma some_none_clash {A} (l l' : list A) rest : (Some <$> l) ++ None :: rest = Some <$> l' → False.
Proof.
  intros H. assert ((None : option A) ∈ Some <$> l') as (?&?&_)%list_elem_of_fmap; [|done].
  rewrite -H. set_solver.
Qed.

Section ReadSpec.
Context `{External} `{HttpExternal} (reader : knowledge_result_reader) (client : http_client).
Context (id : uuid) (hex : string).

(** The response is one the reader takes the body of. *)
Definition acceptable (r : http_response) : Prop :=
  hr_status r = 200 ∧ content_type_is_json r = true ∧
  (∀ n, hr_content_length r = Some n → n ≤ kr_max_response_bytes reader).

Lemma linkage_holds_true e :
  linkage_holds id hex e = true ↔
    ke_analysis_id e = id ∧ ke_result_digest e = ResultDigest "sha256" hex ∧
    is_sha256_hex hex = true ∧ ∃ members, ke_recap e = JObj members.
Proof.
  rewrite /linkage_holds negb_true_iff !orb_false_iff !negb_false_iff !bool_decide_eq_true.
  destruct e as [a [alg h] rec]; simpl. split.
  - intros [[[[-> ->] Hh] ->] Ho]. destruct rec; try done. eauto.
  - intros (->&[= -> ->]&Hh&members&->). done.
Qed.

(** The three guards on the head of the response. *)
Lemma head_guards {A} r (k : result KnowledgeResultReadError.t A) :
  let guarded :=
    if negb (hr_status r =? 200) then Err Invalid
    else if negb (content_type_is_json r) then Err Invalid
    else if match hr_content_length r with
            | Some n => kr_max_response_bytes reader <? n
            | None => false
            end then Err Invalid else k in
  (acceptable r ∧ guarded = k) ∨ (¬ acceptable r ∧ guarded = Err Invalid).
Proof.
  rewrite /acceptable. destruct (Z.eqb_spec (hr_status r) 200) as [Hs|]; simpl; [|tauto].
  destruct (content_type_is_json r); simpl; [|naive_solver].
  destruct (hr_content_length r) as [n|]; [|left; naive_solver].
  destruct (Z.ltb_spec (kr_max_response_bytes reader) n); [right|left].
  - split; [|done]. intros (_&_&Hn). specialize (Hn n eq_refl). lia.
  - split; [|done]. split_and!; [done|done|]. by intros m [= <-].
Qed.

(** What is made of a complete body. *)
Lemma decoded_Ok bytes p :
  (envelope ← ok_or Invalid (decode_knowledge_envelope bytes);
   if negb (linkage_holds id hex envelope) then Err Invalid
   else Ok (KnowledgeResultProjection id (rd_hex (ke_result_digest envelope)) (ke_recap envelope)))
    = Ok p ↔
  is_sha256_hex hex = true ∧ ∃ e members, decode_knowledge_envelope bytes = Some e ∧
    e = KnowledgeEnvelope id (ResultDigest "sha256" hex) (JObj members) ∧
    p = KnowledgeResultProjection id hex (JObj members).
Proof.
  destruct (decode_knowledge_envelope bytes) as [e|]; simpl; [|naive_solver].
  destruct (linkage_holds id hex e) eqn:Hl; simpl.
  - apply linkage_holds_true in Hl as (Hi&Hd&Hx&members&Hr). destruct e as [i d rec]; simplify_eq/=.
    naive_solver.
  - split; [done|]. intros (Hx&?&members&[= <-]&->&_).
    assert (linkage_holds id hex (KnowledgeEnvelope id (ResultDigest "sha256" hex) (JObj members)) = true);
      [apply linkage_holds_true; eauto|congruence].
Qed.

Lemma decoded_not_unavailable bytes :
  (envelope ← ok_or Invalid (decode_knowledge_envelope bytes);
   if negb (linkage_holds id hex envelope) then Err Invalid
   else Ok (KnowledgeResultProjection id (rd_hex (ke_result_digest envelope)) (ke_recap envelope)))
    ≠ Err Unavailable.
Proof. destruct (decode_knowledge_envelope bytes); simpl; [|done]. by case_match. Qed.

(** C29: A recap is served only as Knowledge linked it, and only within the byte limit.  A read
    returns a projection exactly when the digest asked for is a lowercase SHA-256, the one request
    answered 200 with a JSON content type and no declared length above the limit, every chunk
    arrived, the whole body is within the limit and decodes to an envelope of the same analysis and
    digest whose recap is an object; the projection then repeats that linkage.  It is unavailable
    exactly when the transport failed, the status was 5xx, or a chunk failed after a body within the
    limit; everything else is invalid. *)
Theorem read_exact :
  kr_max_response_bytes reader < 2 ^ 64 - 1 → 0 ≤ kr_max_response_bytes reader →
  let answer := client (read_request reader id) in
  (∀ p, read_result reader client id hex = Ok p ↔
     is_sha256_hex hex = true ∧ ∃ r chunks e members,
       answer = Some r ∧ acceptable r ∧ hr_chunks r = Some <$> chunks ∧
       byte_len (join chunks) ≤ kr_max_response_bytes reader ∧
       decode_knowledge_envelope (join chunks) = Some e ∧
       e = KnowledgeEnvelope id (ResultDigest "sha256" hex) (JObj members) ∧
       p = KnowledgeResultProjection id hex (JObj members)) ∧
  (read_result reader client id hex = Err Unavailable ↔
     is_sha256_hex hex = true ∧
     (answer = None ∨ ∃ r, answer = Some r ∧
        (500 ≤ hr_status r < 600 ∨
         acceptable r ∧ ∃ chunks rest, hr_chunks r = (Some <$> chunks) ++ None :: rest ∧
           byte_len (join chunks) ≤ kr_max_response_bytes reader))).
Proof.
  intros Hmax Hpos answer. rewrite /read_result -/answer.
  destruct (is_sha256_hex hex) eqn:Hhex; simpl; [|naive_solver].
  destruct answer as [r|]; simpl; [|naive_solver].
  destruct ((500 <=? hr_status r) && (hr_status r <? 600)) eqn:H5.
  { assert (500 ≤ hr_status r < 600) by lia. split; [|naive_solver].
    intros p. split; [done|]. intros (_&r'&?&?&?&[= <-]&[? _]&_). lia. }
  assert (¬ 500 ≤ hr_status r < 600) as Hn5 by lia.
  destruct (head_guards r (bytes ← read_body (kr_max_response_bytes reader) EmptyString (hr_chunks r);
    envelope ← ok_or Invalid (decode_knowledge_envelope bytes);
    if negb (linkage_holds id hex envelope) then Err Invalid
    else Ok (KnowledgeResultProjection id (rd_hex (ke_result_digest envelope)) (ke_recap envelope))))
    as [[Ha Hg]|[Hna Hg]]; cbv zeta in Hg; rewrite Hg; clear Hg.
  2: { split; [intros p|]; (split; [done|]).
       - by intros (_&r'&?&?&?&[= <-]&?&_).
       - intros (_&[?|(r'&[= <-]&[?|[? _]])]); done. }
  destruct (read_body _ _ _) as [bytes|x] eqn:Hb; simpl.
  - apply read_body_Ok in Hb as (l&Hl&->&Hlen); [|done|done]. rewrite text_app_nil in Hlen |- *.
    split.
    + intros p. rewrite decoded_Ok. split; [naive_solver|].
      intros (_&r'&l'&e&members&[= <-]&_&Hl'&_&Hd&He&Hp). split; [done|].
      rewrite Hl' in Hl. apply (inj (fmap Some)) in Hl as ->. eauto.
    + split; [by intros ?%decoded_not_unavailable|].
      intros (_&[?|(r'&[= <-]&[?|(_&l'&rest&Hl'&_)])]); [done|done|].
      rewrite Hl' in Hl. by apply some_none_clash in Hl.
  - split.
    + intros p. split; [done|]. intros (_&r'&l&?&?&[= <-]&_&Hl&Hlen&_).
      assert (read_body (kr_max_response_bytes reader) EmptyString (hr_chunks r) = Ok (join l)); [|congruence].
      apply read_body_Ok; [done|done|]. exists l. by rewrite text_app_nil.
    + assert (x = Unavailable ↔ read_body (kr_max_response_bytes reader) EmptyString (hr_chunks r) = Err Unavailable)
        as Hx by (rewrite Hb; split; congruence).
      rewrite read_body_Unavailable // in Hx. split.
      * intros [= Hu%Hx]. destruct Hu as (l&rest&Hl&Hlen). split; [done|]. right.
        exists r. split; [done|]. right. split; [done|]. exists l, rest. by rewrite text_app_nil in Hlen.
      * intros (_&[?|(r'&[= <-]&[?|(_&l&rest&Hl&Hlen)])]); [done|done|]. f_equal. apply Hx.
        exists l, rest. by rewrite text_app_nil.
Qed.
End ReadSpec.

(** ** A concrete Knowledge: one result, analysis 90, in two chunks *)

Module DemoReader.
Definition recap : json := JObj [("title", JStr "digest")].

Definition hex : string := Demo.digest "bb".

#[local] Instance http : HttpExternal := {|
  header_to_str := Some;
  decode_knowledge_envelope body :=
    Demo.when body "envelope" (KnowledgeEnvelope 90 (ResultDigest "sha256" hex) recap) |}.

Definition reader : knowledge_result_reader :=
  KnowledgeResultReader "http://127.0.0.1:8096" "reader" 65536.

Definition response : http_response :=
  HttpResponse 200 (Some "Application/JSON; charset=utf-8") (Some 8) [Some "enve"; Some "lope"].

Definition client : http_client := λ q,
  if bool_decide (hq_url q = "http://127.0.0.1:8096/internal/channel-digest-results/90")
  then Some response else None.
End DemoReader.

Lemma read_exact_witness :
  @read_result Demo.external DemoReader.http DemoReader.reader DemoReader.client 90 DemoReader.hex =
  Ok (KnowledgeResultProjection 90 DemoReader.hex DemoReader.recap).
Proof.
  apply (@read_exact Demo.external DemoReader.http DemoReader.reader DemoReader.client);
    [by vm_compute|by vm_compute|].
  split; [by vm_compute|].
  exists DemoReader.response, ["enve"; "lope"],
    (KnowledgeEnvelope 90 (ResultDigest "sha256" DemoReader.hex) DemoReader.recap), [("title", JStr "digest")].
  split; [by vm_compute|]. split; [|by vm_compute].
  split; [done|]. split; [by vm_compute|]. intros n [= <-]. by vm_compute.
Defined.
