(* ===== verification/Api.v ===== *)
(** * Api: [src/src/api.rs], the owner-scoped projections

    Routing and extraction are axum's: a request arrives as the route axum matched, its header map,
    its query text and the text of its path parameter.  A handler runs in [M Z response]: its error
    is the bare status code an early return answers with. *)

From S2P Require Import Prelude Text External Store Tx ResultReader.

Record api_state := ApiState {
  as_secret : string;
  as_page_limit : Z;
  as_result_reader : knowledge_result_reader }.

(** The public view types of the contract crate, with the members the struct literals name. *)
Record subscription_view := SubscriptionView {
  sv_subscription_id : uuid; sv_channel_username : string; sv_enabled : bool }.

Record result_summary_view := ResultSummaryView {
  rs_result_id : uuid; rs_run_id : uuid; rs_outcome : Outcome.t;
  rs_failure_class : option string; rs_created_at : Z }.

Record result_view_of := ResultView {
  rv_result_id : uuid; rv_run_id : uuid; rv_outcome : Outcome.t; rv_recap_id : option uuid;
  rv_citation_count : option Z; rv_result_digest : option result_digest;
  rv_recap : option (list (string * json)); rv_failure_class : option string }.

Inductive response_body :=
| NoBody
| Rejection
| Text (text : string)
| SubscriptionPage (views : list subscription_view)
| ResultPage (views : list result_summary_view)
| ResultBody (view : result_view_of).

Record response := Response {
  rp_status : Z; rp_content_type : option string; rp_cache_control : option string;
  rp_body : response_body }.

(** The routes of [router]: those under [/v1], and [/ready]; the texts are path parameters. *)
Inductive owner_route :=
| Subscriptions
| Manifest (manifest_id : string)
| Results
| Result (result_id : string).

Inductive route := Ready | V1 (r : owner_route).

Record request := Request { rq_headers : string → option string; rq_query : string }.

(** Contract identifiers and header names, and the extractors axum and serde provide:
    [decode_page_query] gives the member of the query, when it has one. *)
Class ApiExternal := {
  HEADER_OWNER_ID : string;
  HEADER_DIGEST_RUN_ID : string;
  HEADER_MANIFEST_DIGEST : string;
  parse_user_id : string → option uuid;
  parse_subscription_id : string → option uuid;
  parse_result_id : string → option uuid;
  parse_channel_username : string → option string;
  parse_failure_class : string → option string;
  decode_page_query : string → option (option Z);
  path_uuid : string → option uuid;
}.

Definition OK : Z := 200.
Definition BAD_REQUEST : Z := 400.
Definition UNAUTHORIZED : Z := 401.
Definition NOT_FOUND : Z := 404.
Definition GONE : Z := 410.
Definition INTERNAL_SERVER_ERROR : Z := 500.
Definition BAD_GATEWAY : Z := 502.
Definition SERVICE_UNAVAILABLE : Z := 503.

Definition default_page_size : Z := 50.
Definition MAX_REQUESTED_PAGE_SIZE : Z := 100.

(** [StatusCode::into_response] and [Json::into_response] *)
Definition status_response (status : Z) : response := Response status None None NoBody.
Definition json_response (body : response_body) : response :=
  Response OK (Some "application/json") None body.

(** A byte of a slice, zero past its end. *)
Definition byte_at (s : string) (index : nat) : N :=
  match String.get index s with Some c => byte_of c | None => 0%N end.

Definition constant_time_equal (left right : string) : bool :=
  let difference :=
    foldl (λ difference index, N.lor difference (N.lxor (byte_at left index) (byte_at right index)))
      (N.lxor (N.of_nat (String.length left)) (N.of_nat (String.length right)))
      (seq 0 (Nat.max (String.length left) (String.length right))) in
  (difference =? 0)%N.

Definition outcome_of (stored : string) : option Outcome.t :=
  if bool_decide (stored = "completed") then Some Outcome.Completed
  else if bool_decide (stored = "partial") then Some Outcome.Partial
  else if bool_decide (stored = "failed") then Some Outcome.Failed
  else None.

Definition result_failure (status : Z) (_outcome : string) : Z := status.

(** ** The reads *)

(** The inner join of the owner's subscriptions with their channels. *)
Definition joined_subscriptions (owner : uuid) (d : db) : list (uuid * subscription_row * channel_row) :=
  omap (λ ks : uuid * subscription_row, (λ c, (ks, c)) <$> channels d !! sub_channel ks.2)
    (select_where (λ _ s, bool_decide (sub_owner s = owner)) (subscriptions d)).

Definition subscription_key (row : uuid * subscription_row * channel_row) : list Z :=
  [- sub_first_activated_at row.1.2; - Z.of_N row.1.1].

Definition subscription_page (owner : uuid) (limit : Z) (d : db)
    : list (uuid * subscription_row * channel_row) :=
  take (Z.to_nat limit) (sort_on subscription_key (joined_subscriptions owner d)).

Definition owned_results (owner : uuid) (d : db) : list (uuid * result_row) :=
  select_where (λ _ r, bool_decide (res_owner r = owner)) (results d).

Definition result_key (row : uuid * result_row) : list Z :=
  [- res_created_at row.2; - Z.of_N row.1].

Definition result_page (owner : uuid) (limit : Z) (d : db) : list (uuid * result_row) :=
  take (Z.to_nat limit) (sort_on result_key (owned_results owner d)).

(** The manifest the three claims of a request name. *)
Definition claimed_manifest (manifest_id owner run_id : uuid) (digest : string) (d : db)
    : option manifest_row :=
  m ← manifests d !! manifest_id;
  if bool_decide (man_owner m = owner) && bool_decide (man_run m = run_id) &&
     bool_decide (man_sha256 m = digest)
  then Some m else None.

Definition owned_result (result_id owner : uuid) (d : db) : option result_row :=
  r ← results d !! result_id;
  if bool_decide (res_owner r = owner) then Some r else None.

Section Api.
Context `{External} `{HttpExternal} `{BusExternal} `{ApiExternal}.
Context (state : api_state) (client : http_client).

Definition header_text (rq : request) (name : string) : option string :=
  rq_headers rq name ≫= header_to_str.

(** ** Middleware *)

Definition authorize (rq : request) (next : M Z response) : M Z response :=
  let supplied := header_text rq "authorization" ≫= strip_prefix "Bearer " in
  if negb match supplied with
          | Some value => constant_time_equal value (as_secret state)
          | None => false
          end
  then fail UNAUTHORIZED
  else next.

Definition require_owner (rq : request) (next : uuid → M Z response) : M Z response :=
  match header_text rq HEADER_OWNER_ID ≫= parse_user_id with
  | Some owner => next owner
  | None => fail UNAUTHORIZED
  end.

Definition no_store (r : response) : response :=
  Response (rp_status r) (rp_content_type r) (Some "no-store") (rp_body r).

(** ** Handlers *)

Definition ready : M Z response :=
  _ ← sql SERVICE_UNAVAILABLE (read (λ _, 1));
  mret (status_response OK).

Definition checked_page_size (page_size : Z) : result Z Z :=
  if (page_size =? 0) || (MAX_REQUESTED_PAGE_SIZE <? page_size) then Err BAD_REQUEST
  else
    let clamped := Z.min page_size (as_page_limit state) in
    Ok (if clamped <? 2 ^ 63 then clamped else 2 ^ 63 - 1).

Definition subscription_view_of (row : uuid * subscription_row * channel_row)
    : option subscription_view :=
  subscription_id ← parse_subscription_id (uuid_text row.1.1);
  channel_username ← parse_channel_username (ch_username row.2);
  Some (SubscriptionView subscription_id channel_username (sub_enabled row.1.2)).

Definition list_subscriptions (owner : uuid) (page_size : Z) : M Z response :=
  limit ← lift (checked_page_size page_size);
  rows ← sql SERVICE_UNAVAILABLE (read (subscription_page owner limit));
  match mapM subscription_view_of rows with
  | Some views => mret (json_response (SubscriptionPage views))
  | None => fail (result_failure INTERNAL_SERVER_ERROR "stored_value_invalid")
  end.

Definition get_manifest (owner manifest_id : uuid) (rq : request) : M Z response :=
  match header_text rq HEADER_DIGEST_RUN_ID ≫= parse_run_id,
        header_text rq HEADER_MANIFEST_DIGEST ≫= parse_digest_hex with
  | Some run_id, Some digest =>
      row ← sql SERVICE_UNAVAILABLE (read (claimed_manifest manifest_id owner run_id digest));
      match man_text <$> row with
      | Some (Some text) => mret (Response OK (Some "application/json") None (Text text))
      | Some None => fail GONE
      | None => fail NOT_FOUND
      end
  | _, _ => fail NOT_FOUND
  end.

(** [map(parse).transpose().ok()?] on an optional stored class *)
Definition parse_class (class : option string) : option (option string) :=
  match class with
  | Some text => Some <$> parse_failure_class text
  | None => Some None
  end.

Definition result_summary (row : uuid * result_row) : option result_summary_view :=
  result_id ← parse_result_id (uuid_text row.1);
  run_id ← parse_run_id (uuid_text (res_run row.2));
  outcome ← outcome_of (Outcome.as_str (res_outcome row.2));
  safe_failure_class ← parse_class (res_failure_class row.2);
  created_at ← jiff_parse (pg_to_char_micros (res_created_at row.2));
  Some (ResultSummaryView result_id run_id outcome safe_failure_class created_at).

Definition list_results (owner : uuid) (page_size : Z) : M Z response :=
  limit ← lift (checked_page_size page_size);
  rows ← sql SERVICE_UNAVAILABLE (read (result_page owner limit));
  match mapM result_summary rows with
  | Some views => mret (json_response (ResultPage views))
  | None => fail (result_failure INTERNAL_SERVER_ERROR "stored_value_invalid")
  end.

Definition reader_failure (error : KnowledgeResultReadError.t) : Z :=
  match error with
  | KnowledgeResultReadError.Unavailable => result_failure SERVICE_UNAVAILABLE "upstream_unavailable"
  | KnowledgeResultReadError.Invalid => result_failure BAD_GATEWAY "upstream_invalid"
  end.

(** [Value::as_object] *)
Definition as_object (v : json) : option (list (string * json)) :=
  match v with JObj members => Some members | _ => None end.

(** [u16::try_from] on an [i32] *)
Definition u16_try_from (n : Z) : option Z := if (0 <=? n) && (n <? 2 ^ 16) then Some n else None.

Definition result_view (id : uuid) (row : result_row) : result Z result_view_of :=
  let invalid := result_failure INTERNAL_SERVER_ERROR "stored_value_invalid" in
  let invalid_upstream := result_failure BAD_GATEWAY "upstream_invalid" in
  result_id ← ok_or invalid (parse_result_id (uuid_text id));
  run_id ← ok_or invalid (parse_run_id (uuid_text (res_run row)));
  outcome ← ok_or invalid (outcome_of (Outcome.as_str (res_outcome row)));
  if bool_decide (outcome = Outcome.Failed) then
    class ← ok_or invalid (parse_class (res_failure_class row));
    Ok (ResultView result_id run_id outcome None None None None class)
  else
    match res_recap row, res_digest_hex row with
    | Some recap_id, Some digest_hex =>
        projection ← map_err reader_failure
          (read_result (as_result_reader state) client recap_id digest_hex);
        members ← ok_or invalid_upstream (as_object (kp_recap projection));
        citations ← ok_or invalid (u16_try_from (res_citations row));
        hex ← ok_or invalid_upstream (parse_digest_hex (kp_result_digest_hex projection));
        Ok (ResultView result_id run_id outcome (Some recap_id) (Some citations)
              (Some (ResultDigest "sha256" hex)) (Some members) None)
    | _, _ => Err (result_failure BAD_GATEWAY "local_linkage_invalid")
    end.

Definition get_result (owner result_id : uuid) : M Z response :=
  row ← sql (result_failure SERVICE_UNAVAILABLE "storage_unavailable")
          (read (owned_result result_id owner));
  match row with
  | Some row =>
      view ← lift (result_view result_id row);
      mret (json_response (ResultBody view))
  | None => fail NOT_FOUND
  end.

(** ** The router *)

(** An extractor axum runs before the handler: its rejection is a 400 with a text of its own. *)
Definition extract {A} (o : option A) (handler : A → M Z response) : M Z response :=
  match o with
  | Some a => handler a
  | None => mret (Response BAD_REQUEST (Some "text/plain; charset=utf-8") None Rejection)
  end.

Definition page_query (rq : request) : option Z :=
  default default_page_size <$> decode_page_query (rq_query rq).

Definition owner_scoped (rt : owner_route) (rq : request) (owner : uuid) : M Z response :=
  match rt with
  | Subscriptions => extract (page_query rq) (list_subscriptions owner)
  | Manifest id => extract (path_uuid id) (λ id, get_manifest owner id rq)
  | Results => extract (page_query rq) (list_results owner)
  | Result id => extract (path_uuid id) (get_result owner)
  end.

Definition dispatch (rt : route) (rq : request) : M Z response :=
  authorize rq
    match rt with
    | Ready => ready
    | V1 rt => require_owner rq (owner_scoped rt rq)
    end.

(** [router]: the response to one request, never cacheable. *)
Definition router (rt : route) (rq : request) : world → response * world := λ w,
  let '(r, w') := dispatch rt rq w in
  (no_store match r with Ok response => response | Err status => status_response status end, w').
End Api.
