(* ===== verification/System.v ===== *)
(** * System: the whole program as a step relation on its database

    [step] is one atomic unit of one worker, with whatever arguments and clock.  Every handler is a
    sequence of steps and every step is a [delta]; an execution of the program, with its workers
    interleaving at their transactions, is a sequence of steps, so the theorems below hold of every
    reachable database whatever the bus delivers, the provider answers or the storage refuses. *)

From S2P Require Import Prelude Text External Store Tx Demo Subscriptions Runs Reports Inbox Intake.
From S2P Require Import IntakeSpec Manifest Revisions Provider Acquisition Coordinator Settlement.
From S2P Require Import Schedule Delta Executor Bus Reaper ReaperSpec Maintenance Registration Units.

Section System.
Context `{External} `{!BusExternal}.

(** The database before and after a call in some world. *)
Definition performs {E A} (m : M E A) (d d' : db) : Prop := ∃ w, w_db w = d ∧ w_db (m w).2 = d'.

Lemma performs_at {E A} (m : M E A) w : performs m (w_db w) (w_db (m w).2).
Proof. by exists w. Qed.

Inductive step : relation db :=
| step_reject r d d' : performs (reject r) d d' → step d d'
| step_subscription i p c d d' : performs (decide_subscription i p c) d d' → step d d'
| step_run i p c d d' : performs (decide_run i p c) d d' → step d d'
| step_occurrence o d d' : performs (accept_occurrence o) d d' → step d d'
| step_completion i p f a b d d' : performs (apply_completion i p f a b) d d' → step d d'
| step_failure i p f k m d d' :
    manifests d !! k = Some m → man_run m = ff_run f →
    performs (apply_failure i p f k) d d' → step d d'
| step_begin r d d' : performs (begin_acquisition r) d d' → step d d'
| step_checkpoint q p s t d d' : performs (checkpoint_lease q p s t) d d' → step d d'
| step_append o d d' : performs (append o) d d' → step d d'
| step_withdraw c r p x d d' : performs (withdraw_missing c r p x) d d' → step d d'
| step_record r b d d' : performs (record_acquisition r b) d d' → step d d'
| step_manifest i o r start end_ sources m b d d' :
    build i o r start end_ sources = Ok m → performs (commit_manifest m b) d d' → step d d'
| step_empty r o d d' : performs (complete_empty_run r o) d d' → step d d'
| step_fail r o f d d' : performs (fail_run r o f) d d' → step d d'
| step_reap n t d d' : performs (reap_once n t) d d' → step d d'
| step_bodies t n d d' : performs (minimize_before t n) d d' → step d d'
| step_texts t n d d' : performs (minimize_manifests_before t n) d d' → step d d'
| step_register s d d' : performs (enqueue_schedule_registration s) d d' → step d d'
| step_published k d d' :
    performs (sql BusError.Unavailable (update_outbox k set_published)) d d' → step d d'
| step_backed_off k d d' :
    performs (sql BusError.Unavailable (update_outbox k set_backed_off)) d d' → step d d'.

(** ** Every step is a [delta] *)

Lemma performs_delta {E A} (m : M E A) d d' : evolves delta m → performs m d d' → delta d d'.
Proof. intros Hm (w&<-&<-). apply Hm. Qed.

Lemma built_digest i o r start end_ sources m :
  build i o r start end_ sources = Ok m → cman_sha256 m = sha256_hex (cman_text m).
Proof. intros (_&_&?&?&?&?&?&_&_&_&_&_&_&_&_&->)%build_inv. done. Qed.

Lemma step_delta d d' : step d d' → delta d d'.
Proof.
  destruct 1; try (eapply performs_delta; [|eassumption]; first
    [ apply evolves_reject | apply evolves_decide_subscription | apply evolves_decide_run
    | apply evolves_accept_occurrence | apply evolves_apply_completion
    | apply evolves_begin_acquisition | apply evolves_checkpoint | apply evolves_append
    | apply evolves_withdraw_missing | apply evolves_record_acquisition
    | by eapply evolves_commit_manifest, built_digest | apply evolves_complete_empty_run | apply evolves_fail_run
    | apply evolves_reap_once | apply evolves_minimize_before
    | apply evolves_minimize_manifests_before | apply evolves_enqueue_schedule_registration
    | apply evolves_sql; [apply _|by apply update_outbox_delta] ]).
  match goal with Hp : performs _ _ _ |- _ => destruct Hp as (w&<-&<-) end.
  destruct (apply_failure _ _ _ _ _) as [res w'] eqn:Hw. by eapply delta_apply_failure.
Qed.

Lemma steps_delta d d' : rtc step d d' → delta d d'.
Proof.
  induction 1 as [d|d1 d2 d3 Hs _ IH]; [done|]. etrans; [by apply step_delta|exact IH].
Qed.

(** ** Every handler is a sequence of steps *)

Notation steps := (rtc step).

Lemma unit_steps {E A} (m : M E A) : (∀ d d', performs m d d' → step d d') → evolves steps m.
Proof. intros Hm w. apply rtc_once, Hm. by exists w. Qed.

Ltac atomic := apply unit_steps; intros; by econstructor.

Lemma reject_steps r : evolves steps (reject r).
Proof. atomic. Qed.
Lemma decide_subscription_steps i p c : evolves steps (decide_subscription i p c).
Proof. atomic. Qed.
Lemma decide_run_steps i p c : evolves steps (decide_run i p c).
Proof. atomic. Qed.
Lemma accept_occurrence_steps o : evolves steps (accept_occurrence o).
Proof. atomic. Qed.
Lemma apply_completion_steps i p f a b : evolves steps (apply_completion i p f a b).
Proof. atomic. Qed.
Lemma begin_acquisition_steps r : evolves steps (begin_acquisition r).
Proof. atomic. Qed.
Lemma checkpoint_steps q p s t : evolves steps (checkpoint_lease q p s t).
Proof. atomic. Qed.
Lemma append_steps o : evolves steps (append o).
Proof. atomic. Qed.
Lemma withdraw_missing_steps c r p x : evolves steps (withdraw_missing c r p x).
Proof. atomic. Qed.
Lemma record_acquisition_steps r b : evolves steps (record_acquisition r b).
Proof. atomic. Qed.
Lemma commit_manifest_steps i o r start end_ sources m b :
  build i o r start end_ sources = Ok m → evolves steps (commit_manifest m b).
Proof. intros Hb. apply unit_steps. intros. by eapply step_manifest. Qed.
Lemma complete_empty_run_steps r o : evolves steps (complete_empty_run r o).
Proof. atomic. Qed.
Lemma fail_run_steps r o f : evolves steps (fail_run r o f).
Proof. atomic. Qed.
Lemma reap_once_steps n t : evolves steps (reap_once n t).
Proof. atomic. Qed.
Lemma minimize_before_steps t n : evolves steps (minimize_before t n).
Proof. atomic. Qed.
Lemma minimize_manifests_before_steps t n : evolves steps (minimize_manifests_before t n).
Proof. atomic. Qed.
Lemma enqueue_schedule_registration_steps s : evolves steps (enqueue_schedule_registration s).
Proof. atomic. Qed.
Lemma set_published_steps k : evolves steps (sql BusError.Unavailable (update_outbox k set_published)).
Proof. atomic. Qed.
Lemma set_backed_off_steps k : evolves steps (sql BusError.Unavailable (update_outbox k set_backed_off)).
Proof. atomic. Qed.

#[local] Hint Resolve reject_steps decide_subscription_steps decide_run_steps accept_occurrence_steps
  apply_completion_steps begin_acquisition_steps checkpoint_steps append_steps withdraw_missing_steps
  record_acquisition_steps complete_empty_run_steps fail_run_steps
  reap_once_steps minimize_before_steps minimize_manifests_before_steps
  enqueue_schedule_registration_steps set_published_steps set_backed_off_steps : steps.

(** Decomposes a handler to its units. *)
Ltac walk := repeat first [solve [auto 2 with steps nocore] | evolve_step].

Lemma reading_steps {E A} (e : E) (s : stmt A) :
  (∀ now d a d', s now d = Ok (a, d') → d' = d) → evolves steps (sql e s).
Proof. intros Hs. apply evolves_sql; [apply _|]. by intros now d a d' ->%Hs. Qed.

Lemma finish_steps r s : evolves steps (finish r s).
Proof. rewrite /finish. walk. Qed.
#[local] Hint Resolve finish_steps : steps.

Lemma accept_subscription_steps i p : evolves steps (accept_subscription i p).
Proof. rewrite /accept_subscription. walk. Qed.

Lemma accept_run_steps i p : evolves steps (accept_run i p).
Proof. rewrite /accept_run. walk. Qed.

Lemma reject_unreadable_steps i k t p : evolves steps (reject_unreadable i k t p).
Proof. rewrite /reject_unreadable. walk. Qed.

Lemma settle_completion_steps i p : evolves steps (settle_completion i p).
Proof.
  pose proof (λ id, reading_steps Storage (stored_result id) (stored_result_reads id)) as Hr.
  rewrite /settle_completion. walk; apply Hr.
Qed.

(** The manifest was read in a statement of its own, before the transaction that uses it. *)
Lemma settle_failure_steps i p : evolves steps (settle_failure i p).
Proof.
  intros w. destruct (settle_failure i p w) as [res w'] eqn:Hw. simpl. rewrite /settle_failure in Hw.
  apply bind_quiet in Hw as [(fact&w1&_&Hd1&_&Hw)|[-> _]]; [|done|apply quiet_lift].
  destruct (negb _); [apply fail_eq in Hw as [_ ->]; by rewrite Hd1|].
  apply bind_quiet in Hw as [(dur&w2&[Hdur _]%sql_inv&Hd2&_&Hw)|[-> _]];
    [|by rewrite Hd1|apply quiet_read].
  rewrite /read in Hdur. injection Hdur as Hdur _. rewrite -Hd1 -Hd2.
  destruct dur as [[[r mid] m]|]; [|by apply fail_eq in Hw as [_ ->]].
  apply durable_evidence_Some in Hdur as (_&_&Hm&Hmr&_).
  case_match; [by apply ret_eq in Hw as [_ ->]|].
  case_match; [by apply fail_eq in Hw as [_ ->]|].
  apply rtc_once. eapply (step_failure i p fact mid m); [by rewrite Hd2|done|].
  exists w2. by rewrite Hw.
Qed.

(** ** The walk over one channel *)

Lemma resume_steps q : evolves steps (resume q).
Proof.
  rewrite /resume. apply evolves_bind; [apply _| |walk].
  apply reading_steps. by intros ???? [= _ <-].
Qed.
#[local] Hint Resolve resume_steps : steps.

Lemma resolve_steps pv q u p : evolves steps (resolve pv q u p).
Proof. rewrite /resolve. walk. Qed.
#[local] Hint Resolve resolve_steps : steps.

Lemma store_page_steps q u win posts stored reached seen :
  evolves steps (store_page q u win posts stored reached seen).
Proof. revert stored reached seen. induction posts; intros; simpl; walk. Qed.
#[local] Hint Resolve store_page_steps : steps.

Lemma withdraw_absent_steps c b page : evolves steps (withdraw_absent c b page).
Proof. rewrite /withdraw_absent. walk. Qed.
#[local] Hint Resolve withdraw_absent_steps : steps.

Lemma take_page_steps q u win p seen page : evolves steps (take_page q u win p seen page).
Proof. rewrite /take_page. walk. Qed.
#[local] Hint Resolve take_page_steps : steps.

Lemma page_loop_steps pv q u c win p seen left_ : evolves steps (page_loop pv q u c win p seen left_).
Proof. apply (page_loop_ind pv q u c win (λ _ _ m, evolves steps m)); rewrite /page_body; intros; walk. Qed.
#[local] Hint Resolve page_loop_steps : steps.

Lemma execute_steps pv q : evolves steps (execute pv q).
Proof. rewrite /execute /close_walk. walk. Qed.
#[local] Hint Resolve execute_steps : steps.

(** ** The executor *)

Lemma acquire_each_steps pv run l t : evolves steps (acquire_each pv run l t).
Proof. revert t. induction l; intros; simpl; walk. Qed.
#[local] Hint Resolve acquire_each_steps : steps.

Lemma commit_steps run sources incomplete : evolves steps (commit run sources incomplete).
Proof.
  rewrite /commit /exec_error. destruct sources as [|s l]; [walk|].
  apply evolves_bind; [apply _|walk|]. intros manifest_id.
  destruct (build _ _ _ _ _ _) as [m|e] eqn:Hb; [|walk].
  apply evolves_bind; [apply _|walk|]. intros bytes.
  apply evolves_bind; [apply _| |walk]. by eapply evolves_on_err, commit_manifest_steps.
Qed.
#[local] Hint Resolve commit_steps : steps.

Lemma settle_sources_steps n run b : evolves steps (settle_sources n run b).
Proof. rewrite /settle_sources /select_sources /exec_sql. walk. Qed.
#[local] Hint Resolve settle_sources_steps : steps.

Lemma execute_run_steps pv n run : evolves steps (execute_run pv n run).
Proof. rewrite /execute_run /subscribed_channels /acquire /exec_sql /exec_error. walk. Qed.
#[local] Hint Resolve execute_run_steps : steps.

Lemma execute_one_steps pv n : evolves steps (execute_one pv n).
Proof.
  rewrite /execute_one /select_pending /exec_sql. apply evolves_bind; [apply _| |walk].
  apply reading_steps. by intros ???? [= _ <-].
Qed.

(** ** The sweep, the bus and the outbox *)

Lemma sweep_once_steps days now : evolves steps (sweep_once days now).
Proof. rewrite /sweep_once. walk. Qed.

Lemma publish_rows_steps ack rows refused : evolves steps (publish_rows ack rows refused).
Proof. revert refused. induction rows; intros; simpl; walk. Qed.
#[local] Hint Resolve publish_rows_steps : steps.

Lemma publish_outbox_steps ack : evolves steps (publish_outbox ack).
Proof.
  rewrite /publish_outbox. apply evolves_bind; [apply _| |walk].
  apply reading_steps. by intros ???? [= _ <-].
Qed.
#[local] Hint Resolve publish_outbox_steps settle_completion_steps settle_failure_steps
  accept_subscription_steps accept_run_steps reject_unreadable_steps : steps.

Lemma handle_steps language subject bytes : evolves steps (handle language subject bytes).
Proof.
  rewrite /handle /handle_command /handle_event /handle_occurrence /handle_subscription /handle_run
    /reject_unreadable_delivery /or_term /term /answer. walk.
Qed.
#[local] Hint Resolve handle_steps : steps.

Lemma process_delivery_steps language ack next : evolves steps (process_delivery language ack next).
Proof. rewrite /process_delivery. walk. Qed.

(** ** The workers *)

(** One round of one worker of the service. *)
Inductive worker :=
| Consumer (language : OutputLanguage.t) (ack : outbound_message → bool)
    (next : option (option (string * string)))
| Publisher (ack : outbound_message → bool)
| Execution (pv : uuid → provider) (source_count : nat)
| Deadline (seconds now : Z)
| Retention (days now : Z)
| Registrar (schedule : option schedule_config).

(** The database after the round. *)
Definition round (p : worker) (w : world) : db :=
  match p with
  | Consumer language ack next => w_db (process_delivery language ack next w).2
  | Publisher ack => w_db (publish_outbox ack w).2
  | Execution pv n => w_db (execute_one pv n w).2
  | Deadline seconds now => w_db (reap_once seconds now w).2
  | Retention days now => w_db (sweep_once days now w).2
  | Registrar s => w_db (enqueue_schedule_registration s w).2
  end.

Lemma round_steps p w : steps (w_db w) (round p w).
Proof.
  destruct p; simpl; [apply process_delivery_steps|apply publish_outbox_steps|apply execute_one_steps
    |apply reap_once_steps|apply sweep_once_steps|apply enqueue_schedule_registration_steps].
Qed.

(** ** Reachable databases *)

(** Databases the migrated, empty one leads to by units of any workers in any order. *)
Definition reachable (d : db) : Prop := steps empty_db d.

Lemma reachable_delta d : reachable d → delta empty_db d.
Proof. apply steps_delta. Qed.
End System.
