(* ===== verification/Queue.v ===== *)
(** * Queue: every queued message can be published

    The outbox is written by the reports, the recap requests and the schedule registration, and read
    back by the publication of [Bus], which decodes a row from JSON into the typed message and refuses
    to publish anything when one row does not decode.  [typed_row] says what a row was made from; every
    unit of the program keeps the outbox typed, and a typed row decodes. *)

From S2P Require Import Prelude Text External Store Tx Demo Subscriptions Runs Reports Inbox Intake.
From S2P Require Import IntakeSpec Manifest Revisions Acquisition Coordinator Executor Bus BusSpec Reaper Maintenance.
From S2P Require Import Registration Units System.

Section Queue.
Context `{External} `{!BusExternal}.

(** A causation names a command or an event by its identity, or there is none. *)
Definition attributed (causation : option string) : Prop :=
  ∀ c, causation = Some c → ∃ kind u, kind ∈ ["command"; "event"] ∧
    c = (kind +:+ (":" +:+ uuid_text u))%string.

(** What a row was serialized from. *)
Inductive typed_row (o : outbox_row) : Prop :=
| typed_report r :
    out_subject o = REPORT_SUBJECT → validate_operation_reported r = true →
    operation_reported_value r = Some (out_payload o) → out_operation o = Some (rep_operation r) →
    out_semantic_key o = report_key (rep_operation r) (rep_status r) →
    attributed (out_causation o) → typed_row o
| typed_recap q :
    out_subject o = RECAP_SUBJECT → validate_recap_requested q = true →
    recap_requested_value q = Some (out_payload o) → out_operation o = Some (rq_operation q) →
    out_causation o = None → typed_row o
| typed_registration s reg :
    out_subject o = REGISTRATION_SUBJECT → registration s = Ok reg →
    registration_value reg = Some (out_payload o) → out_causation o = None → typed_row o.

Definition outbox_typed (d : db) : Prop := ∀ k o, outbox d !! k = Some o → typed_row o.

(** Everything a row was made from stays; only its delivery columns may change, and a published row
    stays published. *)
Definition same_message (o o' : outbox_row) : Prop :=
  out_subject o' = out_subject o ∧ out_semantic_key o' = out_semantic_key o ∧
  out_operation o' = out_operation o ∧ out_causation o' = out_causation o ∧
  out_payload o' = out_payload o ∧ out_owner o' = out_owner o ∧ out_created_at o' = out_created_at o ∧
  (is_Some (out_published_at o) → out_published_at o' = out_published_at o).

#[export] Instance same_message_preorder : PreOrder same_message.
Proof.
  split; [intros a; by split_and!|]. intros a b c (?&?&?&?&?&?&?&Hab) (?&?&?&?&?&?&?&Hbc).
  split_and!; try congruence. intros Hp. rewrite Hbc Hab //.
Qed.

(** A queued message other than a schedule registration stays under its identity; a registration is
    queued again under a new one. *)
Definition messages_kept (d d' : db) : Prop :=
  ∀ k o, outbox d !! k = Some o → out_subject o ≠ REGISTRATION_SUBJECT →
    ∃ o', outbox d' !! k = Some o' ∧ same_message o o'.

Record typed (d d' : db) : Prop := {
  ty_typed : outbox_typed d → outbox_typed d';
  ty_kept : messages_kept d d' }.

#[export] Instance typed_preorder : PreOrder typed.
Proof.
  split; [split; [done|by intros k o Hk _; exists o]|]. intros a b c [Hab Kab] [Hbc Kbc].
  split; [by intros Ha; apply Hbc, Hab|]. intros k o Hk Hs.
  destruct (Kab k o Hk Hs) as (o1&Hk1&H1). destruct (Kbc k o1 Hk1) as (o2&Hk2&H2).
  { destruct H1 as [-> _]. done. }
  exists o2. split; [done|]. by etrans.
Qed.

(** ** Statements *)

Lemma typed_frame d d' : outbox d' = outbox d → typed d d'.
Proof. intros Hd. split; rewrite /outbox_typed /messages_kept Hd; [done|]. intros k o Hk _. by exists o. Qed.

Lemma typed_same {A} (s : stmt A) :
  (∀ now d a d', s now d = Ok (a, d') → outbox d' = outbox d) → stmt_evolves typed s.
Proof. intros Hs now d a d' Ha. by eapply typed_frame, Hs. Qed.

Lemma typed_insert d d' k o :
  outbox d' = <[k := o]> (outbox d) → outbox d !! k = None → typed_row o → typed d d'.
Proof.
  intros Hd Hn Ho. split.
  - intros Ht k' o'. rewrite Hd lookup_insert_Some. intros [[_ <-]|[_ ?]]; eauto.
  - intros k' o' Hk _. exists o'. split; [|done]. rewrite Hd lookup_insert_ne //. congruence.
Qed.

Lemma typed_insert_outbox oid row : (∀ now, typed_row (row now)) →
  stmt_evolves typed (λ now d, insert_outbox oid (row now) d).
Proof.
  intros Ho now d b d' (_&[(_&->&_)|(_&?&->&_)])%insert_outbox_spec; [done|].
  by eapply typed_insert.
Qed.

Lemma typed_insert_outbox_strict oid row : (∀ now, typed_row (row now)) →
  stmt_evolves typed (λ now d, insert_outbox_strict oid (row now) d).
Proof. intros Ho now d b d' (?&->&_)%insert_outbox_strict_spec. by eapply typed_insert. Qed.

Lemma typed_same_message o o' : same_message o o' → typed_row o → typed_row o'.
Proof.
  intros (Hs&Hk&Ho&Hc&Hp&_) [r|q|s reg]; [eapply typed_report|eapply typed_recap|eapply typed_registration];
    rewrite ?Hs ?Hk ?Ho ?Hc ?Hp; eauto.
Qed.

Lemma typed_update_outbox k f :
  (∀ now o, out_published_at o = None → same_message o (f now o)) → stmt_evolves typed (update_outbox k f).
Proof.
  intros Hf now d u d' [= _ <-].
  assert (∀ k' o, same_message o (if unpublished k k' o then f now o else o)) as Hsame.
  { intros k' o. destruct (unpublished k k' o) eqn:Hu; [|done]. apply Hf.
    by apply unpublished_true in Hu as [_ ?]. }
  split.
  - intros Ht k' o'. simpl. intros (o&Hk&->)%lookup_update_where_Some.
    eapply typed_same_message; [apply Hsame|eauto].
  - intros k' o Hk _. simpl. rewrite lookup_update_where Hk /=. eexists. by split.
Qed.

(** ** Reports *)

(** A report row as the builders make it. *)
Definition sound_report (row : operation_report_row) : Prop :=
  attributed (orr_causation row) ∧ rep_operation (orr_report row) = orr_operation row.

Lemma report_new_sound operation owner status stage row :
  report_new operation owner status stage = Ok row → sound_report row.
Proof. rewrite /report_new. destruct (parse_operation_stage _); [|done]. by intros [= <-]. Qed.

Lemma command_sound row u :
  sound_report row → sound_report (caused_by row ("command:" +:+ uuid_text u)%string).
Proof. intros [_ Hr]. split; [|done]. intros c [= <-]. exists "command", u. split; [set_solver|done]. Qed.

Lemma event_sound row u :
  sound_report row → sound_report (caused_by row ("event:" +:+ uuid_text u)%string).
Proof. intros [_ Hr]. split; [|done]. intros c [= <-]. exists "event", u. split; [set_solver|done]. Qed.

Lemma with_error_sound row code message retryable row' :
  with_error row code message retryable = Ok row' → sound_report row → sound_report row'.
Proof.
  rewrite /with_error. destruct (parse_error_code _); [|done]. destruct (parse_safe_message _); [|done].
  by intros [= <-].
Qed.

Lemma with_warning_sound row code message row' :
  with_warning row code message = Ok row' → sound_report row → sound_report row'.
Proof.
  rewrite /with_warning. destruct (parse_error_code _); [|done]. destruct (parse_safe_message _); [|done].
  by intros [= <-].
Qed.

Lemma with_result_sound row target row' :
  with_result row target = Ok row' → sound_report row → sound_report row'.
Proof.
  rewrite /with_result. destruct (parse_result_kind _); [|done]. destruct (parse_entity_ref _); [|done].
  by intros [= <-].
Qed.

(** A bind on a pure result, with what the result is. *)
Lemma evolves_lift_bind R `{!PreOrder R} {E A B} (r : result E A) (k : A → M E B) :
  (∀ a, r = Ok a → evolves R (k a)) → evolves R (lift r ≫= k).
Proof. intros Hk w. rewrite /mbind /M_bind /lift. destruct r; simpl; [by apply Hk|done]. Qed.

Lemma typed_enqueue row : sound_report row → evolves typed (enqueue row).
Proof.
  intros [Hc Hr]. rewrite /enqueue. destruct (validate_operation_reported _) eqn:Hv; simpl; [|evolve].
  apply evolves_lift_bind; [apply _|]. intros payload Hp.
  rewrite /ok_or in Hp. destruct (operation_reported_value _) eqn:Ho; simplify_eq.
  apply evolves_bind; [apply _|evolve|]. intros oid.
  apply evolves_bind; [apply _| |evolve]. apply evolves_sql; [apply _|]. apply typed_insert_outbox. intros now.
  eapply (typed_report _ (orr_report row)); simpl; rewrite ?Hr; done.
Qed.

(** ** Units *)

Lemma evolves_on_err_lift_bind R `{!PreOrder R} {E F A B} (f : E → F) (r : result E A) (k : A → M F B) :
  (∀ a, r = Ok a → evolves R (k a)) → evolves R (on_err f (lift r) ≫= k).
Proof. intros Hk w. rewrite /mbind /M_bind /on_err /lift. destruct r; simpl; [by apply Hk|done]. Qed.

#[local] Hint Resolve report_new_sound command_sound event_sound with_error_sound with_warning_sound
  with_result_sound : sound.

Create HintDb typed.

(** A statement that does not touch the outbox. *)
Ltac aside :=
  apply typed_same; intros ????;
  cbv beta zeta delta [insert_inbox insert_manifest insert_manifest_sources insert_result insert_run
    update_runs read minimize_bodies minimize_manifests reap_update withdraw_statement
    append_revision create_digest_run set_subscription with_limit with_cast];
  repeat first
    [ progress rewrite /mbind /result_bind /=
    | match goal with
      | |- (match ?x with _ => _ end) = _ → _ => destruct x eqn:?
      | H : (match ?x with _ => _ end) = Ok _ |- _ => destruct x eqn:?
      end
    | progress simplify_eq/=
    | progress intros ];
  done.

(** Decomposes a unit, remembering what its pure results are. *)
Ltac queue_step :=
  first
    [ progress intros
    | solve [auto 2 with typed nocore]
    | apply evolves_lift_bind; [apply _|]
    | apply evolves_on_err_lift_bind; [apply _|]
    | apply evolves_on_err
    | apply typed_enqueue
    | apply evolves_sql; [apply _|]
    | apply evolves_try_sql; [apply _|]
    | evolve_step ].

Lemma typed_claim message_id subject key sha : stmt_evolves typed (claim message_id subject key sha).
Proof. apply typed_same. by intros now d a d' (_&[(_&->&_)|(_&_&->)])%claim_spec. Qed.

Lemma typed_complete_inbox message_id : stmt_evolves typed (complete_inbox message_id).
Proof. apply typed_same. by intros now d b d' ->%complete_inbox_frame. Qed.

#[local] Hint Resolve typed_claim typed_complete_inbox : typed.

Lemma typed_reject r : evolves typed (reject r).
Proof.
  rewrite /reject /report_storage. repeat queue_step.
  - aside.
  - eapply with_error_sound; [done|]. by eapply command_sound, report_new_sound.
Qed.

Lemma typed_decide_subscription i p c : evolves typed (decide_subscription i p c).
Proof.
  rewrite /decide_subscription /report_storage. repeat queue_step.
  - apply typed_same. by intros now d x d' ->%set_subscription_frame.
  - by eapply command_sound, report_new_sound.
Qed.

Lemma typed_decide_run i p c : evolves typed (decide_run i p c).
Proof.
  rewrite /decide_run /report_storage. repeat queue_step.
  all: try aside.
  - by eapply command_sound, report_new_sound.
Qed.

Lemma typed_on_demand_operation run_id owner : evolves typed (on_demand_operation run_id owner).
Proof. rewrite /on_demand_operation. repeat queue_step. Qed.

#[local] Hint Resolve typed_on_demand_operation : typed.

Lemma typed_accept_occurrence o : evolves typed (accept_occurrence o).
Proof.
  rewrite /accept_occurrence /fan_out /report_error. repeat queue_step.
  all: try aside.
  - by eapply command_sound, report_new_sound.
Qed.

Lemma typed_report_completion run_id owner event_id ref omitted incomplete :
  evolves typed (report_completion run_id owner event_id ref omitted incomplete).
Proof.
  rewrite /report_completion. repeat queue_step.
  all: simplify_eq; eauto 7 with sound.
Qed.

Lemma typed_report_recap_failure run_id owner event_id failure_class retryable :
  evolves typed (report_recap_failure run_id owner event_id failure_class retryable).
Proof.
  rewrite /report_recap_failure. repeat queue_step.
  eauto with sound.
Qed.

#[local] Hint Resolve typed_report_completion typed_report_recap_failure : typed.

Lemma typed_apply_completion i p f a b : evolves typed (apply_completion i p f a b).
Proof.
  rewrite /apply_completion /report_error. repeat queue_step. all: aside.
Qed.

Lemma typed_apply_failure i p f k : evolves typed (apply_failure i p f k).
Proof.
  rewrite /apply_failure /report_error. repeat queue_step. all: aside.
Qed.

Lemma typed_begin_acquisition run : evolves typed (begin_acquisition run).
Proof.
  rewrite /begin_acquisition /exec_sql /exec_error. repeat queue_step. all: first [aside|eauto with sound].
Qed.

Lemma typed_complete_empty_run r o : evolves typed (complete_empty_run r o).
Proof.
  rewrite /complete_empty_run /report_error. repeat queue_step. all: first [aside|eauto with sound].
Qed.

Lemma typed_fail_run r o f : evolves typed (fail_run r o f).
Proof.
  rewrite /fail_run /report_error. repeat queue_step. all: first [aside|eauto with sound].
Qed.

Lemma typed_reap_once n t : evolves typed (reap_once n t).
Proof.
  rewrite /reap_once /report_deadline. repeat queue_step. all: first [aside|eauto with sound].
Qed.

Lemma typed_commit_manifest m b : evolves typed (commit_manifest m b).
Proof.
  rewrite /commit_manifest. apply evolves_lift_bind; [apply _|]. intros [request operation].
  rewrite /checked_recap_request /ok_or. destruct (decode_recap_requested b) as [q|]; simpl; [|done].
  destruct (validate_recap_requested q) eqn:Hv; simpl; [|done].
  destruct (recap_requested_value q) as [v|] eqn:Hr; simpl; [|done].
  case_match; [|done]. intros [= <- <-]. repeat queue_step. all: try aside.
  apply typed_insert_outbox_strict. intros now. by eapply (typed_recap _ q).
Qed.

Lemma typed_upsert_registration oid key owner payload s reg :
  registration s = Ok reg → registration_value reg = Some payload →
  stmt_evolves typed (upsert_registration oid key owner payload).
Proof.
  intros Hreg Hp now d u d'. rewrite /upsert_registration.
  destruct (find_where _ _) as [[old_id old]|] eqn:Hf.
  - apply find_where_Some in Hf as [Hold [Hs _]%outbox_keyed_true].
    destruct (delete old_id (outbox d) !! oid) eqn:Hd; [done|]. intros [= _ <-]. split.
    + intros Ht k o. simpl. rewrite lookup_insert_Some lookup_delete_Some.
      intros [[_ <-]|[_ [_ Hk]]]; [|by eapply Ht].
      eapply (typed_registration _ s reg); simpl; try done.
      destruct (Ht _ _ Hold) as [? Hs1|? Hs1|]; [by rewrite Hs in Hs1|by rewrite Hs in Hs1|done].
    + intros k o Hk Hne. exists o. split; [|done].
      assert (delete old_id (outbox d) !! k = Some o) as Hk'.
      { apply lookup_delete_Some. split; [|done]. intros <-. by rewrite Hold in Hk; simplify_eq. }
      simpl. rewrite lookup_insert_ne //. congruence.
  - apply (typed_insert_outbox_strict oid (λ now, new_outbox_row REGISTRATION_SUBJECT key owner None None payload now)).
    intros now'. by eapply (typed_registration _ s reg).
Qed.

Lemma typed_enqueue_schedule_registration s : evolves typed (enqueue_schedule_registration s).
Proof.
  rewrite /enqueue_schedule_registration /ok_or. destruct s as [s|]; [|repeat queue_step].
  apply evolves_lift_bind; [apply _|]. intros reg Hreg.
  apply evolves_lift_bind; [apply _|]. intros payload Hp.
  destruct (registration_value reg) eqn:Hv; simplify_eq. repeat queue_step.
  by eapply typed_upsert_registration.
Qed.

Lemma step_typed d d' : step d d' → typed d d'.
Proof.
  assert (∀ {E A} (m : M E A), evolves typed m → performs m d d' → typed d d') as Hp
    by (intros E A m Hm (w&<-&<-); apply Hm).
  destruct 1; (eapply Hp; [|eassumption]);
    auto 2 using typed_reject, typed_decide_subscription, typed_decide_run, typed_accept_occurrence,
      typed_apply_completion, typed_apply_failure, typed_begin_acquisition, typed_commit_manifest,
      typed_complete_empty_run, typed_fail_run, typed_reap_once, typed_enqueue_schedule_registration.
  - rewrite /checkpoint_lease. repeat queue_step. aside.
  - rewrite /append. repeat queue_step. aside.
  - rewrite /withdraw_missing. repeat queue_step. aside.
  - rewrite /record_acquisition /exec_sql. repeat queue_step. aside.
  - rewrite /minimize_before. repeat queue_step. aside.
  - rewrite /minimize_manifests_before. repeat queue_step. aside.
  - apply evolves_sql; [apply _|]. apply typed_update_outbox. intros now o Hn. split_and!; try done.
    rewrite Hn. by intros [].
  - apply evolves_sql; [apply _|]. apply typed_update_outbox. intros now o Hn. by split_and!.
Qed.

Lemma steps_typed d d' : rtc step d d' → typed d d'.
Proof. induction 1 as [d0|d0 d1 d2 Hst _ IH]; [done|]. etrans; [by apply step_typed|exact IH]. Qed.

Lemma reachable_typed d : reachable d → outbox_typed d.
Proof. intros Hr. apply (steps_typed _ _ Hr). by intros k o. Qed.

(** ** Publication *)

(** What the contract crates and [serde_json] document: a value serializes to JSON its own type reads
    back, a label is kept verbatim, a reference of a known kind to a UUID is an entity reference,
    and an envelope always serializes. *)
Class EnvelopeLaws : Prop := {
  report_reads_back r v : operation_reported_value r = Some v → report_of_json v = Some r;
  recap_reads_back q v : recap_requested_value q = Some v → recap_of_json v = Some q;
  registration_reads_back r v : registration_value r = Some v → registration_of_json v = Some r;
  label_verbatim s t : parse_registration_label s = Some t → t = s;
  producer_named : is_Some (parse_producer_name PRODUCER);
  entity_named kind u :
    kind ∈ ["operation"; "command"; "event"; "channel-digest-run"] →
    is_Some (parse_entity_ref (kind +:+ (":" +:+ uuid_text u))%string);
  registration_named :
    is_Some (parse_entity_ref
      ("schedule-registration:" +:+ (SERVICE_NAME +:+ ("." +:+ SCHEDULE_NAME)))%string);
  envelope_serializes e : is_Some (outbound_to_vec e);
  recap_subject : RECAP_COMMAND_TYPE = RECAP_SUBJECT;
  registration_subject : REGISTRATION_COMMAND_TYPE = REGISTRATION_SUBJECT;
}.

(** The row as [publish_outbox] reads it at the instant. *)
Definition read_row (k : uuid) (o : outbox_row) (at_ : Z) : stored_outbox_row :=
  StoredOutboxRow k (out_subject o) (out_owner o) (out_operation o) (out_causation o) at_ (out_payload o).

(** The typed message a row was queued as: its payload is the serialization of that message. *)
Definition queued_as (o : outbox_row) (p : outbound_payload) : Prop :=
  match p with
  | ReportPayload r =>
      out_subject o = REPORT_SUBJECT ∧ out_operation o = Some (rep_operation r) ∧
      out_semantic_key o = report_key (rep_operation r) (rep_status r) ∧
      validate_operation_reported r = true ∧ operation_reported_value r = Some (out_payload o)
  | RecapPayload q =>
      out_subject o = RECAP_SUBJECT ∧ out_operation o = Some (rq_operation q) ∧
      validate_recap_requested q = true ∧ recap_requested_value q = Some (out_payload o)
  | RegistrationPayload r =>
      out_subject o = REGISTRATION_SUBJECT ∧ reg_service_name r = SERVICE_NAME ∧
      reg_name r = SCHEDULE_NAME ∧ reg_command_type r = OCCURRENCE_COMMAND_TYPE ∧
      (∃ s, registration s = Ok r) ∧ registration_value r = Some (out_payload o)
  end.

(** The entities an envelope is about: the operation of a report, the run and the operation of a recap
    request, the schedule and the command itself of a registration. *)
Definition aggregate_of (p : outbound_payload) : string :=
  match p with
  | ReportPayload r => "operation:" +:+ uuid_text (rep_operation r)
  | RecapPayload q => "channel-digest-run:" +:+ uuid_text (rq_run q)
  | RegistrationPayload r => "schedule-registration:" +:+ (reg_service_name r +:+ ("." +:+ reg_name r))
  end%string.

Definition correlation_of (k : uuid) (p : outbound_payload) : string :=
  match p with
  | ReportPayload r => "operation:" +:+ uuid_text (rep_operation r)
  | RecapPayload q => "operation:" +:+ uuid_text (rq_operation q)
  | RegistrationPayload _ => "command:" +:+ uuid_text k
  end%string.

(** The envelope of a row at an instant: its identity, producer, entities, causation and tenant. *)
Record envelope_of (k : uuid) (o : outbox_row) (at_ : Z) (e : outbound_envelope) : Prop := {
  eo_id : oe_id e = k;
  eo_at : oe_at e = at_;
  eo_producer : parse_producer_name PRODUCER = Some (oe_producer e);
  eo_aggregate : parse_entity_ref (aggregate_of (oe_payload e)) = Some (oe_aggregate e);
  eo_correlation : parse_entity_ref (correlation_of k (oe_payload e)) = Some (oe_correlation e);
  eo_causation :
    match out_causation o with
    | None => oe_causation e = None
    | Some raw => ∃ c, parse_entity_ref raw = Some c ∧ oe_causation e = Some c
    end;
  eo_tenant : oe_tenant e = tenant_of_user (out_owner o);
  eo_payload : queued_as o (oe_payload e) }.

(** The class of a subject in front of it: a report is an event, the others are commands. *)
Definition wire_subject (o : outbox_row) : string :=
  if bool_decide (out_subject o = REPORT_SUBJECT) then ("evt." +:+ out_subject o)%string
  else ("cmd." +:+ out_subject o)%string.

Section Publication.
Context `{!EnvelopeLaws}.

Lemma row_envelope_Ok k o at_ payload :
  is_Some (parse_entity_ref (aggregate_of payload)) → is_Some (parse_entity_ref (correlation_of k payload)) →
  attributed (out_causation o) → queued_as o payload →
  ∃ bytes e, row_envelope (read_row k o at_) payload (aggregate_of payload) (correlation_of k payload) = Ok bytes ∧
    envelope_of k o at_ e ∧ oe_payload e = payload ∧ outbound_to_vec e = Some bytes.
Proof.
  intros [a Ha] [c Hc] Hcause Hq. destruct producer_named as [p Hp].
  assert (∃ cause, causation (read_row k o at_) = Ok cause ∧ match out_causation o with
    | None => cause = None | Some raw => ∃ c, parse_entity_ref raw = Some c ∧ cause = Some c end) as (cause&Hcs&Hce).
  { rewrite /causation /entity /=. destruct (out_causation o) as [raw|] eqn:Hraw; [|by eexists].
    destruct (Hcause raw eq_refl) as (kind&u&Hk&->).
    destruct (entity_named kind u) as [e He]; [set_solver|]. rewrite He. eexists. split; [done|by eexists]. }
  set (e := OutboundEnvelope k at_ p a c cause (tenant_of_user (out_owner o)) payload).
  destruct (envelope_serializes e) as [bytes Hb]. exists bytes, e.
  rewrite /row_envelope /producer /entity Hp Ha Hc Hcs /= -/e Hb. by split_and!.
Qed.

Lemma registration_Ok s reg :
  registration s = Ok reg →
  reg_service_name reg = SERVICE_NAME ∧ reg_name reg = SCHEDULE_NAME ∧
  reg_command_type reg = OCCURRENCE_COMMAND_TYPE.
Proof.
  rewrite /registration /ok_or.
  destruct (parse_registration_label SERVICE_NAME) as [l|] eqn:Hl; [|done].
  destruct (parse_registration_label SCHEDULE_NAME) as [n|] eqn:Hn; [|done]. simpl.
  destruct (parse_cron _); [|done]. simpl. destruct (parse_operation_kind _); [|done]. simpl.
  intros [= <-]. simpl. by apply label_verbatim in Hl as ->, Hn as ->.
Qed.

Lemma typed_row_wraps k o at_ :
  typed_row o →
  ∃ e bytes, envelope_of k o at_ e ∧
    wrap_outbox_row (read_row k o at_) = Ok (OutboundMessage (wire_subject o) k bytes) ∧
    outbound_to_vec e = Some bytes.
Proof.
  rewrite /wrap_outbox_row /wire_subject /=.
  intros [r Hs Hv Hp Ho Hk Hc|q Hs Hv Hp Ho Hc|s reg Hs Hr Hp Hc].
  - destruct (row_envelope_Ok k o at_ (ReportPayload r)) as (bytes&e&Hrow&He&_&Hvec);
      [apply (entity_named "operation"); set_solver..|done|done|].
    exists e, bytes. split; [done|]. split; [|done].
    rewrite bool_decide_eq_true_2 // /report_envelope /typed_payload /= (report_reads_back _ _ Hp) /= Hv /=.
    by rewrite Hrow.
  - destruct (row_envelope_Ok k o at_ (RecapPayload q)) as (bytes&e&Hrow&He&_&Hvec);
      [apply (entity_named "channel-digest-run"); set_solver|apply (entity_named "operation"); set_solver
      |by rewrite Hc|done|].
    exists e, bytes. split; [done|]. split; [|done].
    rewrite Hs /COMMAND_SUBJECTS recap_subject registration_subject /recap_request_envelope /typed_payload /= (recap_reads_back _ _ Hp) /= Hv /=.
    by rewrite Hrow.
  - pose proof (registration_Ok _ _ Hr) as (Hsv&Hn&Hct).
    destruct (row_envelope_Ok k o at_ (RegistrationPayload reg)) as (bytes&e&Hrow&He&_&Hvec);
      [rewrite /= Hsv Hn; apply registration_named|apply (entity_named "command"); set_solver
      |by rewrite Hc|by split_and!; eauto|].
    exists e, bytes. split; [done|]. split; [|done].
    rewrite Hs /COMMAND_SUBJECTS recap_subject registration_subject /registration_envelope /typed_payload /= (registration_reads_back _ _ Hp) /=.
    rewrite bool_decide_eq_true_2 // /=. by rewrite Hrow.
Qed.

(** C4: What is queued is what is published, however often.  Every message any unit of any worker ever
    queued (a report, a recap request, a schedule registration) wraps at any instant, and the envelope
    it wraps into carries the typed message whose serialization is the row's payload (a registration
    is the one of a schedule), under the row's own identity, from this service, about the entities the
    message names, with the row's causation and its owner's tenant: serialization into the outbox and
    decoding out of it lose nothing and refuse nothing.  And whatever the workers do later, the row of
    a report or of a recap request wraps to the very same message, identity and bytes, and once
    published stays so: a publication that is repeated because its acknowledgement was lost repeats
    the identity the broker deduplicates by. *)
Theorem queued_messages_roundtrip d k o at_ :
  reachable d → outbox d !! k = Some o →
  (∃ e bytes, envelope_of k o at_ e ∧
    wrap_outbox_row (read_row k o at_) = Ok (OutboundMessage (wire_subject o) k bytes) ∧
    outbound_to_vec e = Some bytes) ∧
  ∀ d', out_subject o ≠ REGISTRATION_SUBJECT → rtc step d d' →
    ∃ o', outbox d' !! k = Some o' ∧
      stored_row (k, o') ≫= wrap_outbox_row = stored_row (k, o) ≫= wrap_outbox_row ∧
      (is_Some (out_published_at o) → out_published_at o' = out_published_at o).
Proof.
  intros Hr Hk. split; [apply typed_row_wraps; by eapply reachable_typed|].
  intros d' Hs Hst%steps_typed. destruct (ty_kept _ _ Hst k o Hk Hs) as (o'&Hk'&(Hsub&_&Hop&Hc&Hp&Ho&Hat&Hpub)).
  exists o'. split; [done|]. split; [|done]. by rewrite /stored_row /= Hsub Hop Hc Hp Ho Hat.
Qed.

Lemma publish_rows_calm ack rows refused w :
  calm w → (∀ ko, ko ∈ rows → is_ok (stored_row ko ≫= wrap_outbox_row) = true) →
  publish_rows ack rows refused w =
    (Ok (refused || negb (forallb (accepted ack) rows)),
     set_db w (with_outbox (w_db w)
       (foldl (λ t ko, update_where (unpublished ko.1) (delivered ack (w_now w) ko) t)
          (outbox (w_db w)) rows))).
Proof.
  revert refused w. induction rows as [|ko rows IH]; intros refused w Hc Hok; simpl.
  { by rewrite orb_false_r; destruct w as [[]]. }
  assert (∃ row message, stored_row ko = Ok row ∧ wrap_outbox_row row = Ok message ∧
    accepted ack ko = ack message) as (row&message&Hrow&Hmsg&Hacc).
  { specialize (Hok ko ltac:(set_solver)). rewrite /accepted /mbind /result_bind in Hok |- *.
    destruct (stored_row ko) as [row|]; [|done]. exists row. destruct (wrap_outbox_row row) as [m|]; [|done].
    by exists m. }
  rewrite /delivered Hrow bind_lift_Ok Hmsg bind_lift_Ok Hacc. destruct (ack message); simpl;
    (erewrite bind_sql_calm; [|done|reflexivity]); rewrite IH //; simpl; try (intros; apply Hok; set_solver);
    by rewrite ?orb_true_r.
Qed.

(** The outbox is never blocked.  On every reachable database, without a storage fault and when the
    server prints instants the program reads, a publication handles each of the oldest due rows, at
    most thirty-two, exactly by what the broker answers for its message: acknowledged rows are
    published at this instant, refused rows stay unpublished, are backed off and do not keep the
    others back, no other row changes; and it succeeds exactly when none was refused.  A row that
    does not wrap, which would stop every later publication, is never queued. *)
Lemma publication_exact ack w :
  calm w → reachable (w_db w) →
  (∀ k o, outbox (w_db w) !! k = Some o →
     is_Some (jiff_parse (pg_to_char_micros (out_created_at o)))) →
  let batch := publish_batch (w_now w) (w_db w) in
  ∃ w', publish_outbox ack w =
      (if forallb (accepted ack) batch then Ok tt else Err BusError.Unacknowledged, w') ∧
    calm w' ∧ w_db w' = with_outbox (w_db w) (outbox (w_db w')) ∧
    (∀ ko, ko ∈ batch → is_ok (stored_row ko ≫= wrap_outbox_row) = true) ∧
    (∀ k, outbox (w_db w') !! k =
      (λ o, if decide (k ∈ batch.*1)
            then (if accepted ack (k, o) then set_published (w_now w) o else set_backed_off (w_now w) o)
            else o) <$> outbox (w_db w) !! k) ∧
    ∀ ko, ko ∈ batch → out_published_at <$> outbox (w_db w') !! ko.1 =
      Some (if accepted ack ko then Some (w_now w) else None).
Proof.
  intros Hc Hr Hp batch. pose proof (publish_batch_nodup (w_now w) (w_db w)) as Hnd.
  pose proof (elem_of_publish_batch (w_now w) (w_db w)) as Hbatch.
  assert (∀ ko, ko ∈ batch → is_ok (stored_row ko ≫= wrap_outbox_row) = true) as Hok.
  { intros [k o] [Hk _]%Hbatch. destruct (Hp _ _ Hk) as [at_ Hat]. rewrite /stored_row /= Hat /=.
    destruct (typed_row_wraps k o at_) as (?&?&_&Hw&_); [by eapply reachable_typed|].
    rewrite /read_row in Hw. by rewrite Hw. }
  set (after := foldl (λ t ko, update_where (unpublished ko.1) (delivered ack (w_now w) ko) t)
    (outbox (w_db w)) batch).
  assert (∀ k, after !! k = (λ o, if decide (k ∈ batch.*1) then delivered ack (w_now w) (k, o) o else o) <$>
    outbox (w_db w) !! k) as Hafter.
  { intros k. apply lookup_delivered; [done|]. by intros k' o' [? [? _]%publishable_true]%Hbatch. }
  exists (set_db w (with_outbox (w_db w) after)). split_and!; [|done|done|exact Hok| |].
  - rewrite /publish_outbox. erewrite bind_sql_calm; [|done|reflexivity].
    rewrite (_ : set_db w (w_db w) = w); [|by destruct w].
    erewrite bind_Ok; [|by apply publish_rows_calm]. fold batch.
    destruct (forallb (accepted ack) batch) eqn:Hf; simpl; reflexivity.
  - intros k. simpl. rewrite Hafter. destruct (outbox (w_db w) !! k) as [o|]; simpl; [|done].
    f_equal. rewrite /delivered. case_decide; [|done]. by destruct (accepted ack (k, o)).
  - intros [k o] Hin. destruct (Hbatch _ _ Hin) as [Hk [Hp' _]%publishable_true].
    rewrite /= Hafter Hk /= decide_True; [|apply list_elem_of_fmap; by exists (k, o)].
    rewrite /delivered. by destruct (accepted ack (k, o)); rewrite /= ?Hp'.
Qed.
End Publication.
End Queue.

(** ** Witnesses *)

Module DemoQueue.
#[local] Existing Instance Demo.external.

Lemma queue_laws : @EnvelopeLaws Demo.external DemoBus.bus.
Proof.
  split; simpl; try by intros; eexists.
  - intros r v [= <-]. apply Demo.decode_encode_report.
  - intros q v [= <-]. apply Demo.decode_encode_recap.
  - intros r v [= <-]. apply Demo.decode_encode_registration.
  - by intros s t [= <-].
Qed.

(** A run command was accepted; its report is queued. *)
Definition accepted_run : world :=
  Demo.world (w_db (@accept_run Demo.external 1%N "run" (Demo.world empty_db)).2).

Lemma accepted_run_reachable : @reachable Demo.external (w_db accepted_run).
Proof. exact (@accept_run_steps Demo.external 1%N "run" (Demo.world empty_db)). Qed.

Lemma accepted_run_instants k o :
  outbox (w_db accepted_run) !! k = Some o →
  is_Some (jiff_parse (@pg_to_char_micros DemoBus.bus (out_created_at o))).
Proof.
  intros _. change (is_Some (Demo.instant_parse (int_text (out_created_at o)))).
  rewrite /Demo.instant_parse Demo.int_of_text. by eexists.
Qed.
End DemoQueue.

Lemma queued_messages_roundtrip_witness :
  ∃ o e bytes, outbox (w_db DemoQueue.accepted_run) !! 1000%N = Some o ∧
    @envelope_of Demo.external DemoBus.bus 1000 o 10000 e ∧
    @wrap_outbox_row Demo.external DemoBus.bus (read_row 1000 o 10000) =
      Ok (OutboundMessage (wire_subject o) 1000 bytes) ∧
    ∀ ack, is_Some (outbox (w_db (@publish_outbox Demo.external DemoBus.bus ack DemoQueue.accepted_run).2) !! 1000%N).
Proof.
  destruct (outbox (w_db DemoQueue.accepted_run) !! 1000%N) as [o|] eqn:Ho; [|by vm_compute in Ho].
  destruct (@queued_messages_roundtrip Demo.external DemoBus.bus DemoQueue.queue_laws
    (w_db DemoQueue.accepted_run) 1000 o 10000 DemoQueue.accepted_run_reachable Ho)
    as [(e&bytes&Hq&Hw&_) Hlater].
  exists o, e, bytes. split; [reflexivity|]. split; [exact Hq|]. split; [exact Hw|].
  intros ack. destruct (Hlater (w_db (@publish_outbox Demo.external DemoBus.bus ack DemoQueue.accepted_run).2))
    as (o'&Ho'&_).
  - vm_compute in Ho. injection Ho as <-. discriminate.
  - exact (@publish_outbox_steps Demo.external DemoBus.bus ack DemoQueue.accepted_run).
  - exists o'. exact Ho'.
Defined.

Lemma publication_exact_witness :
  (∃ w', @publish_outbox Demo.external DemoBus.bus (λ _, true) DemoQueue.accepted_run = (Ok tt, w')) ∧
  (∃ w', @publish_outbox Demo.external DemoBus.bus (λ _, false) DemoQueue.accepted_run
     = (Err BusError.Unacknowledged, w')).
Proof.
  pose proof (λ ack, @publication_exact Demo.external DemoBus.bus DemoQueue.queue_laws ack
    DemoQueue.accepted_run eq_refl DemoQueue.accepted_run_reachable DemoQueue.accepted_run_instants) as Hp.
  split.
  - destruct (Hp (λ _, true)) as (w'&Hw&_). exists w'. rewrite Hw. vm_compute. reflexivity.
  - destruct (Hp (λ _, false)) as (w'&Hw&_). exists w'. rewrite Hw. vm_compute. reflexivity.
Defined.
