(* ===== verification/Staged.v ===== *)
(** * Staged: manifests and recap requests belong to runs that left the queue

    [staged d]: a run that may still be executed has no manifest and no recap request yet, and every
    listed message belongs to a stored manifest.  The executor relies on it, because a second manifest
    of one run would be refused.  Every unit keeps it: all but the commitment of a manifest add none of
    the three ([upstream]), and the commitment moves its run out of the queue. *)

From S2P Require Import Prelude Text External Store Tx Demo Subscriptions Runs Reports Inbox Intake.
From S2P Require Import IntakeSpec Manifest Revisions Acquisition Coordinator Settlement Executor Bus.
From S2P Require Import BusSpec Reaper Maintenance Registration Delta Units System.

Section Staged.
Context `{External}.

(** The run was stored and is no longer accepted or acquiring. *)
Definition dequeued (run : uuid) (d : db) : Prop :=
  ∃ r, runs d !! run = Some r ∧ run_state r ∉ open_states.

Record staged (d : db) : Prop := {
  sg_manifest k m : manifests d !! k = Some m → dequeued (man_run m) d;
  sg_source s : s ∈ manifest_sources d → is_Some (manifests d !! s.1.1);
  sg_request k o : outbox d !! k = Some o → out_subject o = RECAP_SUBJECT →
    ∃ run, out_semantic_key o = uuid_text run ∧ dequeued run d }.

(** Nothing of the three is new. *)
Record upstream (d d' : db) : Prop := {
  up_manifest k m' : manifests d' !! k = Some m' → ∃ m, manifests d !! k = Some m ∧ man_run m' = man_run m;
  up_source s : s ∈ manifest_sources d' → s ∈ manifest_sources d;
  up_request k o' : outbox d' !! k = Some o' → out_subject o' = RECAP_SUBJECT →
    ∃ k0 o, outbox d !! k0 = Some o ∧ out_subject o = RECAP_SUBJECT ∧ out_semantic_key o = out_semantic_key o' }.

#[export] Instance upstream_preorder : PreOrder upstream.
Proof.
  split; [split; eauto|]. intros a b c [Mab Sab Rab] [Mbc Sbc Rbc]. split; [|by auto|].
  - intros k m2 Hk. destruct (Mbc _ _ Hk) as (m1&Hk1&?). destruct (Mab _ _ Hk1) as (m&?&?). exists m.
    split; [done|congruence].
  - intros k o2 Hk Hs. destruct (Rbc _ _ Hk Hs) as (k1&o1&Hk1&Hs1&?).
    destruct (Rab _ _ Hk1 Hs1) as (k0&o&?&?&?). exists k0, o. split_and!; congruence.
Qed.

(** ** What keeps it *)

Lemma open_rank s : s ∈ open_states ↔ (state_rank s < 2)%nat.
Proof. rewrite /open_states. destruct s; simpl; (split; [set_solver by lia|intros ?; first [lia|set_solver]]). Qed.

Lemma dequeued_kept run d d' : runs_le d d' → dequeued run d → dequeued run d'.
Proof.
  intros Hle (r&Hr&Hs). destruct (Hle _ _ Hr) as (r'&Hr'&Hrl). exists r'. split; [done|].
  rewrite open_rank in Hs. rewrite open_rank. destruct (state_forward _ _ Hrl) as [<-|?]; lia.
Qed.

Lemma upstream_staged d d' : delta d d' → upstream d d' → staged d → staged d'.
Proof.
  intros Hd [Hm Hs Hr] [Gm Gs Gr]. split.
  - intros k m' (m&Hk&->)%Hm. eapply dequeued_kept; [apply Hd|by eapply Gm].
  - intros s [m Hk]%Hs%Gs. destruct (dl_manifests _ _ Hd _ _ Hk) as (m'&?&_). by exists m'.
  - intros k o' Hk Hsub. destruct (Hr _ _ Hk Hsub) as (k0&o&Hk0&Hs0&<-).
    destruct (Gr _ _ Hk0 Hs0) as (run&?&?). exists run. split; [done|]. eapply dequeued_kept; [apply Hd|done].
Qed.

(** ** Statements *)

Lemma upstream_frame d d' :
  manifests d' = manifests d → manifest_sources d' = manifest_sources d → outbox d' = outbox d → upstream d d'.
Proof. intros Hm Hs Ho. split; rewrite ?Hm ?Hs ?Ho; eauto. Qed.

Lemma upstream_same {A} (s : stmt A) :
  (∀ now d a d', s now d = Ok (a, d') →
     manifests d' = manifests d ∧ manifest_sources d' = manifest_sources d ∧ outbox d' = outbox d) →
  stmt_evolves upstream s.
Proof. intros Hs now d a d' (?&?&?)%Hs. by apply upstream_frame. Qed.

(** Rows of another subject come and go. *)
Lemma upstream_outbox d f :
  (∀ k o, f !! k = Some o → out_subject o = RECAP_SUBJECT →
     ∃ k0 o0, outbox d !! k0 = Some o0 ∧ out_subject o0 = RECAP_SUBJECT ∧ out_semantic_key o0 = out_semantic_key o) →
  upstream d (with_outbox d f).
Proof. intros Hf. split; simpl; eauto. Qed.

Lemma upstream_insert_outbox oid row : (∀ now, out_subject (row now) ≠ RECAP_SUBJECT) →
  stmt_evolves upstream (λ now d, insert_outbox oid (row now) d).
Proof.
  intros Ho now d b d' (_&[(_&->&_)|(_&_&->&_)])%insert_outbox_spec; [done|].
  apply upstream_outbox. intros k o [[_ <-]|[_ ?]]%lookup_insert_Some Hs; [by destruct (Ho now)|eauto].
Qed.

Lemma upstream_update_outbox k f :
  (∀ now o, out_subject (f now o) = out_subject o ∧ out_semantic_key (f now o) = out_semantic_key o) →
  stmt_evolves upstream (update_outbox k f).
Proof.
  intros Hf now d u d' [= _ <-]. apply upstream_outbox.
  intros k' o' (o&Hk&->)%lookup_update_where_Some Hs. exists k', o.
  destruct (unpublished k k' o); [|done]. destruct (Hf now o) as [H1 H2]. by rewrite -H1 -H2.
Qed.

Lemma upstream_manifests d p f :
  (∀ m, man_run (f m) = man_run m) → upstream d (with_manifests d (update_where p f (manifests d))).
Proof.
  intros Hf. split; simpl; eauto. intros k m' (m&Hk&->)%lookup_update_where_Some. exists m.
  split; [done|]. by destruct (p k m).
Qed.

Lemma upstream_enqueue row : evolves upstream (enqueue row).
Proof.
  rewrite /enqueue. evolve. apply (upstream_insert_outbox _ (λ now, _)). done.
Qed.

(** A statement that touches none of the three tables. *)
Ltac elsewhere :=
  apply upstream_same; intros ????;
  cbv beta zeta delta [insert_inbox insert_result insert_run update_runs read minimize_bodies
    reap_update append_revision create_digest_run set_subscription with_limit with_cast complete_inbox];
  repeat first
    [ progress rewrite /mbind /result_bind /=
    | match goal with
      | |- (match ?x with _ => _ end) = _ → _ => destruct x eqn:?
      | H : (match ?x with _ => _ end) = Ok _ |- _ => destruct x eqn:?
      end
    | progress simplify_eq/=
    | progress intros ];
  done.

Ltac upstream_step := first [ apply upstream_enqueue | evolve_step ].

Lemma upstream_claim message_id subject key sha : stmt_evolves upstream (claim message_id subject key sha).
Proof. apply upstream_same. by intros now d a d' (_&[(_&->&_)|(_&_&->)])%claim_spec. Qed.

Lemma upstream_complete_inbox message_id : stmt_evolves upstream (complete_inbox message_id).
Proof. apply upstream_same. by intros now d b d' ->%complete_inbox_frame. Qed.

Lemma upstream_registration oid key owner payload : stmt_evolves upstream (upsert_registration oid key owner payload).
Proof.
  intros now d u d'. rewrite /upsert_registration. destruct (find_where _ _) as [[old_id old]|] eqn:Hf.
  - apply find_where_Some in Hf as [_ [Hs _]%outbox_keyed_true].
    destruct (delete old_id (outbox d) !! oid); [done|]. intros [= _ <-]. apply upstream_outbox.
    intros k o [[_ <-]|[_ [_ ?]%lookup_delete_Some]]%lookup_insert_Some Ho; [|eauto].
    by rewrite /= Hs in Ho.
  - intros (_&->&_)%insert_outbox_strict_spec. apply upstream_outbox.
    intros k o [[_ <-]|[_ ?]]%lookup_insert_Some Ho; [done|eauto].
Qed.

#[local] Hint Resolve upstream_claim upstream_complete_inbox : evolves.

Lemma step_upstream d d' :
  step d d' → upstream d d' ∨ ∃ m b, performs (commit_manifest m b) d d'.
Proof.
  assert (∀ {E A} (m : M E A), evolves upstream m → performs m d d' → upstream d d') as Hp
    by (intros E A m Hm (w&<-&<-); apply Hm).
  destruct 1; lazymatch goal with
    | _ : performs (commit_manifest _ _) _ _ |- _ => right; by eauto
    | _ => left; (eapply Hp; [|eassumption])
    end.
  - rewrite /reject /report_storage. repeat upstream_step. all: elsewhere.
  - rewrite /decide_subscription /report_storage. repeat upstream_step. all: try elsewhere.
    all: apply upstream_same; by intros now d0 x0 d1 ->%set_subscription_frame.
  - rewrite /decide_run /report_storage. repeat upstream_step. all: elsewhere.
  - rewrite /accept_occurrence /fan_out /report_error. repeat upstream_step. all: elsewhere.
  - rewrite /apply_completion /report_completion /report_error. repeat upstream_step. all: elsewhere.
  - rewrite /apply_failure /report_recap_failure /report_error. repeat upstream_step. all: elsewhere.
  - rewrite /begin_acquisition /exec_sql /exec_error. repeat upstream_step. all: elsewhere.
  - rewrite /checkpoint_lease. repeat upstream_step. elsewhere.
  - rewrite /append. repeat upstream_step. elsewhere.
  - rewrite /withdraw_missing. repeat upstream_step. intros now d0 x0 d1 [= _ <-].
    transitivity (with_revisions d0 (update_where (withdraws_revision c r p x) (withdraw_row now) (revisions d0)));
      [by apply upstream_frame|by apply (upstream_manifests (with_revisions d0 _))].
  - rewrite /record_acquisition /exec_sql. repeat upstream_step. elsewhere.
  - rewrite /complete_empty_run /report_error. repeat upstream_step. all: elsewhere.
  - rewrite /fail_run /report_error. repeat upstream_step. all: elsewhere.
  - rewrite /reap_once /report_deadline. repeat upstream_step. all: elsewhere.
  - rewrite /minimize_before. repeat upstream_step. all: elsewhere.
  - rewrite /minimize_manifests_before. repeat upstream_step.
    apply stmt_evolves_cast; [apply _|]. intros at_. apply stmt_evolves_limit. intros limit.
    intros now d0 x0 d1 [= _ <-]. by apply upstream_manifests.
  - rewrite /enqueue_schedule_registration. repeat upstream_step. apply upstream_registration.
  - apply evolves_sql; [apply _|]. by apply upstream_update_outbox.
  - apply evolves_sql; [apply _|]. by apply upstream_update_outbox.
Qed.

(** The commitment of a manifest takes its run out of the queue. *)
Lemma commit_staged m b w : staged (w_db w) → staged (w_db (commit_manifest m b w).2).
Proof.
  intros Hg. destruct (commit_manifest m b w) as [res w'] eqn:Hw. simpl.
  apply commit_manifest_inv in Hw as [(_&v&op&oid&r&_&Hr&_&Ho&_&_&_&_&_&->)|[-> _]]; [|done].
  destruct Hg as [Gm Gs Gr].
  assert (∀ run, dequeued run (w_db w) ∨ run = cman_run m →
    dequeued run (manifest_committed m op v oid r (w_now w) (w_db w))) as Hdq.
  { intros run Hrun. rewrite /dequeued /=. destruct (decide (run = cman_run m)) as [->|Hne].
    - rewrite lookup_insert_eq. eexists. split; [done|]. by rewrite open_rank /=; lia.
    - rewrite lookup_insert_ne //. by destruct Hrun. }
  split; simpl.
  - intros k x [[_ <-]|[_ Hk]]%lookup_insert_Some; apply Hdq; [by right|left; eauto].
  - intros s. rewrite elem_of_union elem_of_list_to_set.
    intros [([c i]&->&_)%list_elem_of_fmap|Hs%Gs]; simpl; [by rewrite lookup_insert_eq|].
    destruct (decide (s.1.1 = cman_id m)) as [->|]; [by rewrite lookup_insert_eq|by rewrite lookup_insert_ne].
  - intros k o [[_ <-]|[_ Hk]]%lookup_insert_Some Hs; [exists (cman_run m); split; [done|by apply Hdq; right]|].
    destruct (Gr _ _ Hk Hs) as (run&?&?). exists run. split; [done|]. apply Hdq. by left.
Qed.

Lemma step_staged d d' : step d d' → staged d → staged d'.
Proof.
  intros Hst Hg. destruct (step_upstream _ _ Hst) as [Hu|(m&b&w&<-&<-)]; [|by apply commit_staged].
  eapply upstream_staged; [by apply step_delta|done..].
Qed.

Lemma steps_staged d d' : rtc step d d' → staged d → staged d'.
Proof. induction 1 as [|d0 d1 d2 Hst _ IH]; [done|]. intros Hg. by apply IH, (step_staged d0). Qed.

Lemma reachable_staged d : reachable d → staged d.
Proof. intros Hd. by apply (steps_staged empty_db). Qed.
End Staged.
