(* ===== verification/Safety.v ===== *)
(** * Safety: what holds of every reachable database of the whole program

    The theorems quantify over executions: any number of units of any workers in any order, with
    arbitrary deliveries, provider answers, clocks and storage faults. *)

From S2P Require Import Prelude Text External Store Tx Demo Subscriptions Runs Reports Inbox Intake.
From S2P Require Import IntakeSpec Manifest Revisions Provider Acquisition Coordinator Settlement.
From S2P Require Import Schedule Delta Executor Bus Reaper Maintenance Registration Units System.

(** One execution over the fixtures: a subscription, a run, its acquisition and its settlement. *)
Module Trace.
Definition pending : pending_run :=
  PendingRun 60 7 "1000000" "2000000" OutputLanguage.En RunState.Accepted 50.
Definition sources : list manifest_source :=
  [ManifestSource 5 1001 "rustlang" None 3 (Demo.digest "aa") "1500000" (canonical_link "rustlang" 3)
     "aa" 1].
Definition manifest : canonical_manifest :=
  CanonicalManifest 70 7 60 "aa" (Demo.digest "aa") 1 1 [(1001%N, 3)].
Definition observed : observed_revision := ObservedRevision 1001 5 "hello" "link" "1500000" "2000000".
Definition w1 : world :=
  (@decide_subscription Demo.external 1 "subscribe" (Demo.subscription_fixture true) (Demo.world empty_db)).2.
Definition w2 : world := (@decide_run Demo.external 2 "run" Demo.run_fixture w1).2.
Definition w3 : world := (@begin_acquisition Demo.external pending w2).2.
Definition w4 : world := (@append Demo.external observed w3).2.
Definition w5 : world := (@commit_manifest Demo.external manifest "recap" w4).2.
Definition w6 : world :=
  (@apply_completion Demo.external 3 "completed" (Demo.completed_fixture 0) 90 false w5).2.
End Trace.

Section Safety.
Context `{External}.

(** Every round of every worker of the service (a delivery with the outbox it publishes, a
    publication, an executor pass, a deadline sweep, a retention sweep, the schedule registration) is
    a sequence of atomic units, whatever the world; so everything proved of reachable databases holds
    after it, at a failure in its middle too. *)
Lemma worker_refines `{!BusExternal} p w : rtc step (w_db w) (round p w).
Proof. apply round_steps. Qed.

(** C2: A settled run is final: no worker, delivery or interleaving changes the state of a run that
    is completed, partial or failed, nor the identity, window and natural key of any run, and no
    stored result is ever altered. *)
Theorem settled_run_final d d' :
  rtc step d d' →
  (∀ k r, runs d !! k = Some r → ∃ r', runs d' !! k = Some r' ∧
     run_owner r' = run_owner r ∧ run_operation r' = run_operation r ∧
     run_trigger r' = run_trigger r ∧ run_idempotency_key r' = run_idempotency_key r ∧
     run_window_start r' = run_window_start r ∧ run_window_end r' = run_window_end r ∧
     (state_rank (run_state r) ≤ state_rank (run_state r'))%nat ∧
     (terminal (run_state r) = true → run_state r' = run_state r)) ∧
  (∀ k x, results d !! k = Some x → results d' !! k = Some x).
Proof.
  intros Hd%steps_delta. split; [|by intros; apply Hd].
  intros k r Hk. destruct (dl_runs _ _ Hd _ _ Hk) as (r'&Hr'&[]). exists r'.
  split_and!; try done.
  - destruct state_forward as [->|?]; lia.
  - intros Ht. by apply state_le_terminal.
Qed.

Lemma settled_reported d k r :
  reachable d → runs d !! k = Some r → terminal (run_state r) = true →
  run_trigger r = RunTrigger.OnDemand → settled_report r d.
Proof.
  intros Hd%reachable_delta Hk Ht Htr.
  by destruct (dl_terminal _ _ Hd _ _ Hk Ht Htr) as [(r0&Hr0&_)|?].
Qed.

(** C1: Every settled on-demand run is answered: in every reachable database a terminal on-demand
    run has a terminal report (succeeded, partially succeeded or failed) of its operation in the
    outbox, queued with the settlement itself. *)
Theorem settled_run_reported d k r :
  reachable d → runs d !! k = Some r → terminal (run_state r) = true →
  run_trigger r = RunTrigger.OnDemand → settled_report r d.
Proof. apply settled_reported. Qed.

(** C3: Results and waiting runs carry their evidence: in every reachable database a result belongs
    to a run in the state of its outcome and to that run's manifest; a run that waits for its recap has
    a manifest of its owner and, in the outbox, a recap request of its owner that names exactly this
    manifest, by owner, run, reference, digest and counts; and no run has two manifests. *)
Theorem results_backed d :
  reachable d →
  (∀ k x, results d !! k = Some x → linked x d) ∧
  (∀ k r, runs d !! k = Some r → run_state r = RunState.WaitingRecap → backed k r d) ∧
  (∀ k m, manifests d !! k = Some m → manifest_sound m d) ∧ manifest_unique d.
Proof.
  intros Hd%reachable_delta. split_and!.
  - intros k x Hk. by destruct (dl_result _ _ Hd _ _ Hk).
  - intros k r Hk Hw. by destruct (dl_waiting _ _ Hd _ _ Hk Hw) as [(?&?&_)|?].
  - intros k m Hk. by destruct (dl_manifest _ _ Hd _ _ Hk) as [(?&?&_)|?].
  - by apply Hd.
Qed.


(** C31: Every reachable database is well formed: at most twenty active subscriptions per owner, one
    channel per username and one subscription per owner and channel; non-empty windows and one run
    per natural key; a deleted post has no body, and a post has no body, and a manifest no text,
    exactly when the row records the instant of its minimization; and a text that is kept hashes to
    the digest of its row. *)
Theorem tables_well_formed d :
  reachable d →
  subscriptions_wf d ∧ runs_wf d ∧ revisions_sound d ∧ text_xor_minimized d ∧ texts_intact d.
Proof.
  intros Hd%reachable_delta. split_and!; apply Hd; [apply subscriptions_wf_empty|by split|done..].
Qed.

(** C5: Exactly once: after a message was handled, any later redelivery of it, with whatever the
    other workers did in between, leaves the database untouched; so does a different message under
    the same subject and idempotency key.  This covers the messages that decode: commands, schedule
    occurrences and recap facts. *)
Theorem handled_once message_id payload d w :
  rtc step d (w_db w) →
  (∀ c, decode_subscription_set payload = Some c →
     seen message_id SUBSCRIPTION_SUBJECT (sc_idempotency_key c) d →
     w_db (accept_subscription message_id payload w).2 = w_db w) ∧
  (∀ c, decode_run_requested payload = Some c →
     seen message_id RUN_SUBJECT (rc_idempotency_key c) d →
     w_db (accept_run message_id payload w).2 = w_db w) ∧
  (∀ o, seen (occ_message_id o) OCCURRENCE_SUBJECT (occ_key o) d →
     w_db (accept_occurrence o w).2 = w_db w) ∧
  (∀ f, decode_recap_completed payload = Some f →
     seen message_id COMPLETED_SUBJECT (uuid_text (fc_result f)) d →
     w_db (settle_completion message_id payload w).2 = w_db w) ∧
  (∀ f, decode_recap_failed payload = Some f →
     seen message_id FAILED_SUBJECT (uuid_text (ff_run f)) d →
     w_db (settle_failure message_id payload w).2 = w_db w).
Proof.
  intros Hk%steps_delta%dl_inbox. split_and!; intros x.
  - intros Hd Hs%(seen_kept _ _ _ _ _ Hk). destruct (accept_subscription _ _ _) as [res w'] eqn:Hw.
    apply accept_subscription_inv in Hw as [(_&x'&Hd'&[[_ Ha]|[? Ha]])|[? _]]; [| |done];
      destruct Ha; by simplify_eq/=.
  - intros Hd Hs%(seen_kept _ _ _ _ _ Hk). destruct (accept_run _ _ _) as [res w'] eqn:Hw.
    apply accept_run_inv in Hw as [(_&x'&Hd'&[[_ Ha]|[? Ha]])|[? _]]; [| |done];
      destruct Ha; by simplify_eq/=.
  - intros Hs%(seen_kept _ _ _ _ _ Hk). destruct (accept_occurrence _ _) as [res w'] eqn:Hw.
    apply accept_occurrence_inv in Hw as [[_ [due []]]|[? _]]; done.
  - intros Hd Hs%(seen_kept _ _ _ _ _ Hk). destruct (settle_completion _ _ _) as [res w'] eqn:Hw.
    apply settle_completion_inv in Hw as [(x'&?&?&?&?&?&_&Hd'&_&_&_&_&_&_&_&_&_&Hset)|[? _]]; [|done].
    destruct Hset as (_&_&Hun&_). by simplify_eq/=.
  - intros Hd Hs%(seen_kept _ _ _ _ _ Hk). destruct (settle_failure _ _ _) as [res w'] eqn:Hw.
    apply settle_failure_inv in Hw as [(x'&?&?&?&?&_&Hd'&_&_&_&_&_&_&_&Hset)|[? _]]; [|done].
    destruct Hset as (_&_&Hun&_). by simplify_eq/=.
Qed.
End Safety.

(** ** The trace *)

Lemma trace_accepted : @reachable Demo.external (w_db Trace.w2).
Proof.
  apply (rtc_l _ (w_db (Demo.world empty_db)) (w_db Trace.w1)).
  { rewrite /Trace.w1. eapply step_subscription, performs_at. }
  apply rtc_once. rewrite /Trace.w2. eapply step_run, performs_at.
Qed.

Lemma trace_waiting : @reachable Demo.external (w_db Trace.w5).
Proof.
  rewrite /reachable. etrans; [exact trace_accepted|].
  apply (rtc_l _ _ (w_db Trace.w3)). { rewrite /Trace.w3. eapply step_begin, performs_at. }
  apply (rtc_l _ _ (w_db Trace.w4)). { rewrite /Trace.w4. eapply step_append, performs_at. }
  apply rtc_once. rewrite /Trace.w5.
  eapply (@step_manifest Demo.external 70 7 60 "1000000" "2000000" Trace.sources);
    [by vm_compute|apply performs_at].
Qed.

Lemma trace_settles : rtc (@step Demo.external) (w_db Trace.w5) (w_db Trace.w6).
Proof. apply rtc_once. rewrite /Trace.w6. eapply step_completion, performs_at. Qed.

Lemma trace_settled : @reachable Demo.external (w_db Trace.w6).
Proof. rewrite /reachable. etrans; [apply trace_waiting|apply trace_settles]. Qed.

(** The waiting run of the trace is completed and then final. *)
Lemma settled_run_final_witness :
  ∃ r', runs (w_db Trace.w6) !! 60%N = Some r' ∧ run_state r' = RunState.Completed ∧ run_owner r' = 7%N.
Proof.
  destruct (@settled_run_final Demo.external _ _ trace_settles) as [Hruns _].
  destruct (runs (w_db Trace.w5) !! 60%N) as [r|] eqn:Hr; [|by vm_compute in Hr].
  destruct (Hruns _ _ Hr) as (r'&Hr'&Ho&_). exists r'. split; [exact Hr'|].
  assert (run_owner r = 7%N) as Hro by (vm_compute in Hr; by injection Hr as <-).
  split; [|by rewrite Ho Hro]. vm_compute in Hr'. by injection Hr' as <-.
Defined.

Lemma settled_run_reported_witness :
  ∃ r, runs (w_db Trace.w6) !! 60%N = Some r ∧ @settled_report Demo.external r (w_db Trace.w6).
Proof.
  destruct (runs (w_db Trace.w6) !! 60%N) as [r|] eqn:Hr; [|by vm_compute in Hr].
  exists r. split; [done|].
  apply (@settled_run_reported Demo.external (w_db Trace.w6) 60%N r trace_settled Hr);
    vm_compute in Hr; by injection Hr as <-.
Defined.

Lemma results_backed_witness :
  (∃ x, results (w_db Trace.w6) !! 80%N = Some x ∧ linked x (w_db Trace.w6)) ∧
  (∃ r, runs (w_db Trace.w5) !! 60%N = Some r ∧ @backed Demo.external 60%N r (w_db Trace.w5)).
Proof.
  split.
  - destruct (results (w_db Trace.w6) !! 80%N) as [x|] eqn:Hx; [|by vm_compute in Hx].
    exists x. split; [done|]. by apply (@results_backed Demo.external (w_db Trace.w6) trace_settled) in Hx.
  - destruct (runs (w_db Trace.w5) !! 60%N) as [r|] eqn:Hr; [|by vm_compute in Hr].
    exists r. split; [done|].
    apply (@results_backed Demo.external (w_db Trace.w5) trace_waiting); [done|].
    vm_compute in Hr. by injection Hr as <-.
Defined.


Lemma tables_well_formed_witness :
  size (subscriptions (w_db Trace.w6)) = 1%nat ∧ subscriptions_wf (w_db Trace.w6).
Proof.
  split; [vm_compute; reflexivity|]. exact (proj1 (@tables_well_formed Demo.external _ trace_settled)).
Defined.

(** The run command of the trace again, after its run was settled. *)
Lemma handled_once_witness :
  let w := Demo.world (w_db Trace.w6) in
  w_db (@accept_run Demo.external 2%N "run" w).2 = w_db w.
Proof.
  intros w. destruct (@handled_once Demo.external 2%N "run" (w_db Trace.w5) w trace_settles) as (_&Hr&_).
  apply (Hr Demo.run_fixture); [reflexivity|vm_compute; reflexivity].
Defined.
