(* ===== verification/ApiSpec.v ===== *)
(** * ApiSpec: what the owner API answers *)

From S2P Require Import Prelude Text External Store Tx Demo Coordinator Delta System Safety.
From S2P Require Import BusSpec ResultReader Api.

(** ** The secret comparison *)

Lemma foldl_lor_zero {A} (f : A → N) (l : list A) (init : N) :
  foldl (λ acc x, N.lor acc (f x)) init l = 0%N ↔ init = 0%N ∧ Forall (λ x, f x = 0%N) l.
Proof.
  revert init; induction l as [|x l IH]; intros init; simpl; [naive_solver constructor|].
  rewrite IH N.lor_eq_0_iff Forall_cons. tauto.
Qed.

Lemma lxor_zero a b : N.lxor a b = 0%N ↔ a = b.
Proof. split; [apply N.lxor_eq|intros ->; apply N.lxor_nilpotent]. Qed.

Lemma byte_of_inj c d : byte_of c = byte_of d → c = d.
Proof.
  rewrite /byte_of. intros H. by rewrite -(Ascii.ascii_N_embedding c) H Ascii.ascii_N_embedding.
Qed.

Lemma bytes_eq s t :
  String.length s = String.length t →
  (∀ i, (i < String.length s)%nat → byte_at s i = byte_at t i) → s = t.
Proof.
  revert t; induction s as [|c s IH]; intros [|d t]; simpl; try done.
  intros [= Hlen] Hb. f_equal.
  - apply byte_of_inj. apply (Hb 0%nat). lia.
  - apply IH; [done|]. intros i Hi. apply (Hb (S i)). lia.
Qed.

Lemma constant_time_equal_true s t : constant_time_equal s t = true ↔ s = t.
Proof.
  rewrite /constant_time_equal N.eqb_eq foldl_lor_zero lxor_zero Forall_forall. split.
  - intros [Hlen Hb]. apply bytes_eq; [lia|]. intros i Hi.
    apply lxor_zero, Hb, elem_of_seq. lia.
  - intros ->. split; [done|]. intros i _. by apply lxor_zero.
Qed.

(** ** The errors of a fallible computation *)

Definition fails_with {E A} (P : E → Prop) (r : result E A) : Prop := ∀ e, r = Err e → P e.

Lemma fails_with_Ok {E A} (P : E → Prop) (a : A) : fails_with P (Ok a).
Proof. by intros e ?. Qed.

Lemma fails_with_Err {E A} (P : E → Prop) e : P e → fails_with P (Err e : result E A).
Proof. by intros ? e' [= <-]. Qed.

Lemma fails_with_ok_or {E A} (P : E → Prop) e (o : option A) : P e → fails_with P (ok_or e o).
Proof. intros ? e'. destruct o; simpl; congruence. Qed.

Lemma fails_with_map_err {E F A} (P : F → Prop) (f : E → F) (r : result E A) :
  fails_with (λ e, P (f e)) r → fails_with P (map_err f r).
Proof. intros Hr e. destruct r as [a|x]; simpl; [done|]. intros [= <-]. by apply Hr. Qed.

Lemma fails_with_bind {E A B} (P : E → Prop) (r : result E A) (k : A → result E B) :
  fails_with P r → (∀ a, fails_with P (k a)) → fails_with P (r ≫= k).
Proof. intros Hr Hk e. destruct r as [a|x]; simpl; [apply Hk|]. intros [= <-]. by apply Hr. Qed.

(** Decomposes a fallible computation into its failures. *)
Ltac fallible :=
  repeat first
    [ progress intros
    | apply fails_with_bind
    | apply fails_with_ok_or
    | apply fails_with_map_err
    | apply fails_with_Ok
    | apply fails_with_Err
    | case_match ].

Section ApiSpec.
Context `{External} `{HttpExternal} `{BusExternal} `{ApiExternal}.
Context (state : api_state) (client : http_client).

(** ** Who is let in *)

Definition bearer_holds (rq : request) : Prop :=
  header_text rq "authorization" = Some ("Bearer " +:+ as_secret state)%string.

Definition owner_of (rq : request) : option uuid := header_text rq HEADER_OWNER_ID ≫= parse_user_id.

Definition authorized (rt : route) (rq : request) : Prop :=
  bearer_holds rq ∧ match rt with Ready => True | V1 _ => is_Some (owner_of rq) end.

Lemma authorize_spec rq next w :
  (bearer_holds rq ∧ authorize state rq next w = next w) ∨
  (¬ bearer_holds rq ∧ authorize state rq next w = (Err UNAUTHORIZED, w)).
Proof.
  rewrite /authorize /bearer_holds. destruct (header_text rq "authorization") as [v|]; cbn [mbind option_bind].
  2: by right.
  destruct (strip_prefix "Bearer " v) as [s|] eqn:Hs.
  - apply strip_prefix_Some in Hs as ->. destruct (constant_time_equal s (as_secret state)) eqn:He; [left|right]; simpl.
    + apply constant_time_equal_true in He as ->. done.
    + split; [|done]. intros [= Heq%text_app_inj_l]. by rewrite Heq -not_true_iff_false constant_time_equal_true in He.
  - right. split; [|done]. intros [= ->]. assert (strip_prefix "Bearer " ("Bearer " +:+ as_secret state) = Some (as_secret state)); [|congruence].
    by apply strip_prefix_Some.
Qed.

(** A handler that only reads: it never answers as the authorization does, and an answer with
    content is a success. *)
Definition status_of (r : result Z response) : Z :=
  match r with Ok x => rp_status x | Err s => s end.

Definition served (m : M Z response) : Prop :=
  ∀ w r w', m w = (r, w') →
    w_db w' = w_db w ∧ status_of r ≠ UNAUTHORIZED ∧
    match r with
    | Ok x => rp_status x = OK ∨ rp_body x = Rejection
    | Err _ => True
    end.

Lemma served_fail s : s ≠ UNAUTHORIZED → served (fail s).
Proof. by intros Hs w r w' [-> ->]%fail_eq. Qed.

Lemma served_ok x : rp_status x = OK → served (mret x).
Proof. intros Hx w r w' [-> ->]%ret_eq. simpl. rewrite Hx. auto. Qed.

Lemma served_read {A} s (f : db → A) k :
  s ≠ UNAUTHORIZED → (∀ a, served (k a)) → served (sql s (read f) ≫= k).
Proof.
  intros Hs Hk w r w' [(a&w1&Hm&Hr)|(e&Hm&->)]%bind_inv.
  - apply Hk in Hr. apply quiet_read in Hm as [<- _]. done.
  - apply sql_Err_db in Hm as [Hd ->]. simpl. auto.
Qed.

Lemma served_lift {A} (x : result Z A) k :
  (∀ e, x = Err e → e ≠ UNAUTHORIZED) → (∀ a, served (k a)) → served (lift x ≫= k).
Proof.
  intros He Hk w r w'. rewrite /lift /mbind /M_bind. destruct x as [a|e].
  - apply Hk.
  - intros [= <- <-]. simpl. auto.
Qed.

Lemma served_extract {A} (o : option A) k : (∀ a, served (k a)) → served (extract o k).
Proof. intros Hk. destruct o; [apply Hk|]. intros w r w' [-> ->]%ret_eq. simpl. auto. Qed.

Lemma checked_page_size_status n e : checked_page_size state n = Err e → e = BAD_REQUEST.
Proof. rewrite /checked_page_size. case_match; [congruence|]. cbv zeta. case_match; congruence. Qed.

Lemma result_view_status id row e : result_view state client id row = Err e → e ≠ UNAUTHORIZED.
Proof.
  revert e. change (fails_with (λ e, e ≠ UNAUTHORIZED) (result_view state client id row)).
  rewrite /result_view /result_failure. fallible; try done. intros [] ?; done.
Qed.

Lemma owner_scoped_served rt rq owner : served (owner_scoped state client rt rq owner).
Proof.
  destruct rt; simpl; apply served_extract; intros a.
  - apply served_lift; [by intros ? ->%checked_page_size_status|]. intros limit.
    apply served_read; [done|]. intros rows. case_match; [by apply served_ok|by apply served_fail].
  - rewrite /get_manifest. repeat case_match; try by apply served_fail.
    apply served_read; [done|]. intros row. repeat case_match; (by apply served_ok) || by apply served_fail.
  - apply served_lift; [by intros ? ->%checked_page_size_status|]. intros limit.
    apply served_read; [done|]. intros rows. case_match; [by apply served_ok|by apply served_fail].
  - apply served_read; [done|]. intros [row|]; [|by apply served_fail].
    apply served_lift; [apply result_view_status|]. intros view. by apply served_ok.
Qed.


Lemma ready_served : served ready.
Proof. apply served_read; [done|]. intros _. by apply served_ok. Qed.

(** The two guards in front of the handler. *)
Lemma dispatch_spec rt rq w :
  (authorized rt rq ∧ ∃ m, served m ∧ dispatch state client rt rq w = m w ∧
     match rt with
     | Ready => m = ready
     | V1 r => ∃ owner, owner_of rq = Some owner ∧ m = owner_scoped state client r rq owner
     end) ∨
  (¬ authorized rt rq ∧ dispatch state client rt rq w = (Err UNAUTHORIZED, w)).
Proof.
  rewrite /dispatch /authorized. destruct (authorize_spec rq (match rt with
    | Ready => ready | V1 r => require_owner rq (owner_scoped state client r rq) end) w)
    as [[Hb ->]|[Hb ->]]; [|right; tauto].
  destruct rt as [|r]; [left; split; [done|]; exists ready; by split; [apply ready_served|]|].
  rewrite /require_owner -/(owner_of rq). destruct (owner_of rq) as [owner|]; [left|right].
  - split; [by eauto|]. exists (owner_scoped state client r rq owner).
    split; [apply owner_scoped_served|eauto].
  - split; [|done]. intros [_ [? ?]]. done.
Qed.

(** C26: The API is closed and read-only.  No request changes the database; every response is marked
    as not cacheable; the response is 401 exactly when the bearer is not the service secret, byte for
    byte, or an owner route carries no user identity, and then nothing was read; and a response other
    than 200 has no content of the service. *)
Theorem router_guarded rt rq w :
  let '(x, w') := router state client rt rq w in
  w_db w' = w_db w ∧ rp_cache_control x = Some "no-store" ∧
  (rp_status x = UNAUTHORIZED ↔ ¬ authorized rt rq) ∧
  (¬ authorized rt rq → x = no_store (status_response UNAUTHORIZED) ∧ w' = w) ∧
  (rp_status x ≠ OK → rp_body x = NoBody ∨ rp_body x = Rejection).
Proof.
  rewrite /router. destruct (dispatch_spec rt rq w) as [(Ha&m&Hm&->&_)|[Ha ->]].
  - destruct (m w) as [r w'] eqn:Hw. apply Hm in Hw as (Hd&Hs&Hr).
    split; [done|]. split; [done|]. destruct r as [x|s]; simpl in *; naive_solver.
  - simpl. split_and!; auto. tauto.
Qed.

(** A request of an owner reaches the handler. *)
Lemma router_handler r rq owner w :
  bearer_holds rq → owner_of rq = Some owner →
  router state client (V1 r) rq w =
    let '(x, w') := owner_scoped state client r rq owner w in
    (no_store match x with Ok x => x | Err s => status_response s end, w').
Proof.
  intros Hb Ho. rewrite /router. destruct (dispatch_spec (V1 r) rq w) as [(_&m&_&->&o&Ho'&->)|[Hn _]].
  - rewrite Ho in Ho'. by injection Ho' as <-.
  - destruct Hn. split; [done|]. by rewrite Ho.
Qed.

(** ** Manifests *)

(** The row that the claims of a request name. *)
Definition claims (rq : request) (owner manifest_id : uuid) (m : manifest_row) (d : db) : Prop :=
  manifests d !! manifest_id = Some m ∧ man_owner m = owner ∧
  header_text rq HEADER_DIGEST_RUN_ID ≫= parse_run_id = Some (man_run m) ∧
  header_text rq HEADER_MANIFEST_DIGEST ≫= parse_digest_hex = Some (man_sha256 m).

Lemma claimed_manifest_Some id owner run digest d m :
  claimed_manifest id owner run digest d = Some m ↔
    manifests d !! id = Some m ∧ man_owner m = owner ∧ man_run m = run ∧ man_sha256 m = digest.
Proof.
  rewrite /claimed_manifest. destruct (manifests d !! id) as [m'|]; simpl; [|naive_solver].
  destruct (_ && _) eqn:Hb; [rewrite !andb_true_iff !bool_decide_eq_true in Hb; naive_solver|].
  split; [done|]. intros ([= <-]&?&?&?). rewrite !andb_false_iff !bool_decide_eq_false in Hb. naive_solver.
Qed.

(** The answer to a manifest request, as a function of the row it names. *)
Definition manifest_answer (row : option manifest_row) : response :=
  no_store match row with
  | Some m => match man_text m with
              | Some text => Response OK (Some "application/json") None (Text text)
              | None => status_response GONE
              end
  | None => status_response NOT_FOUND
  end.

(** A manifest is served to who can name it.  To an authorized request for a manifest of the
    path, the service answers 200 with the stored canonical text verbatim, when the owner, the run
    and the digest the request claims are those of the row and the text is there; an empty 410 when
    they are and the text was minimized; and the same empty 404 for an absent manifest, another
    owner's, and a missing, malformed or different claim. *)
Lemma manifest_served rq owner path id w :
  bearer_holds rq → owner_of rq = Some owner → path_uuid path = Some id → calm w →
  let x := (router state client (V1 (Manifest path)) rq w).1 in
  (∃ m, claims rq owner id m (w_db w) ∧ x = manifest_answer (Some m)) ∨
  ((∀ m, ¬ claims rq owner id m (w_db w)) ∧ x = manifest_answer None).
Proof.
  intros Hb Ho Hp Hc. cbv zeta. rewrite (router_handler _ _ owner) //= Hp /= /get_manifest /claims.
  destruct (header_text rq HEADER_DIGEST_RUN_ID ≫= parse_run_id) as [run|]; [|right; naive_solver].
  destruct (header_text rq HEADER_MANIFEST_DIGEST ≫= parse_digest_hex) as [digest|]; [|right; naive_solver].
  rewrite (bind_sql_calm _ _ _ _ (claimed_manifest id owner run digest (w_db w)) (w_db w)) //.
  destruct (claimed_manifest _ _ _ _ _) as [m|] eqn:Hm; simpl.
  - apply claimed_manifest_Some in Hm as (Hm&Hmo&Hr&Hd). left. exists m. split; [naive_solver|].
    rewrite /manifest_answer. by destruct (man_text m).
  - right. split; [|done]. intros m (Hk&Hmo&[= Hr]&[= Hd]).
    assert (claimed_manifest id owner run digest (w_db w) = Some m); [|congruence].
    by apply claimed_manifest_Some.
Qed.


(** ** Lists *)

(** The answer to a list request: a page of the [stored] rows, [later] ones first, each [shown] as a view
    of the page [wrap]s. *)
Definition list_answer {A V} (stored : A → Prop) (later : A → A → Prop) (shown : A → V → Prop)
    (wrap : list V → response_body) (rq : request) (x : response) : Prop :=
  match decode_page_query (rq_query rq) with
  | None => rp_status x = 400 ∧ rp_body x = Rejection
  | Some asked =>
      let n := match asked with Some n => n | None => 50 end in
      let size := Z.to_nat (Z.min n (as_page_limit state)) in
      if decide (n = 0 ∨ 100 < n) then x = no_store (status_response 400)
      else ∃ rows, NoDup rows ∧ StronglySorted later rows ∧ (length rows ≤ size)%nat ∧
        (∀ a, a ∈ rows → stored a) ∧
        (∀ b, stored b → b ∉ rows → length rows = size ∧ ∀ a, a ∈ rows → later a b) ∧
        ((∃ views, Forall2 shown rows views ∧ x = no_store (json_response (wrap views))) ∨
         ((∃ a, a ∈ rows ∧ ∀ v, ¬ shown a v) ∧ x = no_store (status_response 500)))
  end.

Lemma checked_page_size_exact n :
  checked_page_size state n =
    if (n =? 0) || (100 <? n) then Err BAD_REQUEST else Ok (Z.min n (as_page_limit state)).
Proof.
  rewrite /checked_page_size /MAX_REQUESTED_PAGE_SIZE. destruct ((n =? 0) || (100 <? n)) eqn:Hn; [done|].
  cbv zeta. destruct (Z.ltb_spec (Z.min n (as_page_limit state)) (2 ^ 63)); [done|lia].
Qed.

Lemma list_answered {A V} (stored : A → Prop) (later : A → A → Prop) (shown : A → V → Prop)
    (key : A → list Z) (view : A → option V) wrap (all : db → list A) rq w :
  calm w → NoDup (all (w_db w)) → (∀ a, a ∈ all (w_db w) ↔ stored a) →
  (∀ a b, lexleb (key a) (key b) = true → later a b) → (∀ a v, view a = Some v ↔ shown a v) →
  list_answer stored later shown wrap rq
    (no_store match (extract (page_query rq) (λ page_size,
         limit ← lift (checked_page_size state page_size);
         rows ← sql SERVICE_UNAVAILABLE (read (λ d, take (Z.to_nat limit) (sort_on key (all d))));
         match mapM view rows with
         | Some views => mret (json_response (wrap views))
         | None => fail (result_failure INTERNAL_SERVER_ERROR "stored_value_invalid")
         end) w).1 with Ok x => x | Err s => status_response s end).
Proof.
  intros Hc Hnd Hall Hkey Hview. rewrite /list_answer /page_query.
  destruct (decode_page_query _) as [asked|]; simpl; [|done].
  assert (default default_page_size asked = match asked with Some n => n | None => 50 end) as -> by by destruct asked.
  set (n := match asked with Some n => n | None => 50 end). rewrite checked_page_size_exact.
  destruct (decide (n = 0 ∨ 100 < n)) as [Hn|Hn].
  { assert ((n =? 0) || (100 <? n) = true) as -> by (destruct Hn; lia). done. }
  assert ((n =? 0) || (100 <? n) = false) as -> by lia.
  set (size := Z.to_nat (Z.min n (as_page_limit state))).
  rewrite bind_lift_Ok (bind_sql_calm _ _ _ _ (take size (sort_on key (all (w_db w)))) (w_db w)) //.
  set (page := take size (sort_on key (all (w_db w)))). exists page.
  assert (∀ a, a ∈ page ∨ a ∈ drop size (sort_on key (all (w_db w))) ↔ stored a) as Hstored.
  { intros a. by rewrite -elem_of_app /page take_drop elem_of_sort_on Hall. }
  split_and!.
  - apply (sublist_NoDup _ (sort_on key (all (w_db w)))); [by rewrite sort_on_perm|apply sublist_take].
  - pose proof (sort_on_sorted key (all (w_db w))) as Hs. rewrite -(take_drop size (sort_on key _)) in Hs.
    apply StronglySorted_app_1_l in Hs. eapply StronglySorted_weaken; [|exact Hs]. auto.
  - rewrite length_take. lia.
  - intros a Ha. apply Hstored. by left.
  - intros b [?|Hb]%Hstored Hnb; [done|]. split.
    + rewrite /page length_take. apply list_elem_of_lookup in Hb as [i Hi]. apply lookup_lt_Some in Hi.
      rewrite length_drop in Hi. lia.
    + intros a Ha. apply Hkey. by eapply take_sort_on_below.
  - destruct (mapM view page) as [views|] eqn:Hm.
    + left. exists views. split; [|done]. apply mapM_Some in Hm. eapply Forall2_impl; [exact Hm|].
      intros a v. apply Hview.
    + right. split; [|done]. apply mapM_None, Exists_exists in Hm as (a&Ha&Hv). exists a. split; [done|].
      intros v Hs%Hview. congruence.
Qed.

Lemma elem_of_owned_results owner d k r :
  (k, r) ∈ owned_results owner d ↔ results d !! k = Some r ∧ res_owner r = owner.
Proof. by rewrite elem_of_select_where bool_decide_eq_true. Qed.

Lemma elem_of_joined owner d k s c :
  ((k, s), c) ∈ joined_subscriptions owner d ↔
    subscriptions d !! k = Some s ∧ sub_owner s = owner ∧ channels d !! sub_channel s = Some c.
Proof.
  rewrite /joined_subscriptions list_elem_of_omap. split.
  - intros ([k' s']&Hin&(c'&Hc&[= <- <- <-])%fmap_Some). apply elem_of_select_where in Hin.
    rewrite bool_decide_eq_true in Hin. simpl in *. naive_solver.
  - intros (Hk&Ho&Hc). exists (k, s). rewrite elem_of_select_where bool_decide_eq_true /= Hc. auto.
Qed.

Lemma joined_nodup owner d : NoDup (joined_subscriptions owner d).
Proof.
  rewrite /joined_subscriptions. pose proof (NoDup_select_where (λ _ s, bool_decide (sub_owner s = owner))
    (subscriptions d)) as Hnd. induction Hnd as [|ks l Hin Hnd IH]; simpl; [constructor|].
  destruct (channels d !! _) as [c|]; simpl; [|done]. constructor; [|done].
  intros (ks'&Hks&(c'&_&[= <- _])%fmap_Some)%list_elem_of_omap. done.
Qed.

(** What the two lists hold, in which order, and how a row is shown. *)
Definition result_of (owner : uuid) (d : db) (a : uuid * result_row) : Prop :=
  results d !! a.1 = Some a.2 ∧ res_owner a.2 = owner.

Definition later_result (a b : uuid * result_row) : Prop :=
  res_created_at b.2 < res_created_at a.2 ∨ (res_created_at b.2 = res_created_at a.2 ∧ (b.1 ≤ a.1)%N).

Definition result_shown (a : uuid * result_row) (v : result_summary_view) : Prop :=
  parse_result_id (uuid_text a.1) = Some (rs_result_id v) ∧
  parse_run_id (uuid_text (res_run a.2)) = Some (rs_run_id v) ∧ rs_outcome v = res_outcome a.2 ∧
  match res_failure_class a.2 with
  | None => rs_failure_class v = None
  | Some text => ∃ class, parse_failure_class text = Some class ∧ rs_failure_class v = Some class
  end ∧
  jiff_parse (pg_to_char_micros (res_created_at a.2)) = Some (rs_created_at v).

Definition subscription_of (owner : uuid) (d : db) (a : uuid * subscription_row * channel_row) : Prop :=
  subscriptions d !! a.1.1 = Some a.1.2 ∧ sub_owner a.1.2 = owner ∧ channels d !! sub_channel a.1.2 = Some a.2.

Definition later_subscription (a b : uuid * subscription_row * channel_row) : Prop :=
  sub_first_activated_at b.1.2 < sub_first_activated_at a.1.2 ∨
  (sub_first_activated_at b.1.2 = sub_first_activated_at a.1.2 ∧ (b.1.1 ≤ a.1.1)%N).

Definition subscription_shown (a : uuid * subscription_row * channel_row) (v : subscription_view) : Prop :=
  parse_subscription_id (uuid_text a.1.1) = Some (sv_subscription_id v) ∧
  parse_channel_username (ch_username a.2) = Some (sv_channel_username v) ∧ sv_enabled v = sub_enabled a.1.2.

Lemma listed_results owner d a : a ∈ owned_results owner d ↔ result_of owner d a.
Proof. destruct a. apply elem_of_owned_results. Qed.

Lemma listed_subscriptions owner d a : a ∈ joined_subscriptions owner d ↔ subscription_of owner d a.
Proof. destruct a as [[]]. apply elem_of_joined. Qed.

(** The order [desc, desc] of both queries. *)
Lemma newest_first (t t' : Z) (k k' : N) :
  lexleb [- t; - Z.of_N k] [- t'; - Z.of_N k'] = true → t' < t ∨ (t' = t ∧ (k' ≤ k)%N).
Proof. rewrite /lexleb. repeat case_match; lia. Qed.

Lemma outcome_of_as_str o : outcome_of (Outcome.as_str o) = Some o.
Proof. by destruct o. Qed.

Lemma result_summary_shown a v : result_summary a = Some v ↔ result_shown a v.
Proof.
  rewrite /result_summary /result_shown /parse_class outcome_of_as_str.
  destruct (parse_result_id _) as [i|]; simpl; [|naive_solver].
  destruct (parse_run_id _) as [u|]; simpl; [|naive_solver].
  destruct (res_failure_class a.2) as [text|]; simpl; [destruct (parse_failure_class text); simpl; [|naive_solver]|];
    (destruct (jiff_parse _); simpl; [|naive_solver]); destruct v; naive_solver.
Qed.

Lemma subscription_view_shown a v : subscription_view_of a = Some v ↔ subscription_shown a v.
Proof.
  rewrite /subscription_view_of /subscription_shown.
  destruct (parse_subscription_id _) as [i|]; simpl; [|naive_solver].
  destruct (parse_channel_username _); simpl; [|naive_solver]. destruct v; naive_solver.
Qed.

(** C28: The two lists are pages of the owner's own rows.  With working storage, a request with a page
    size from 1 to 100 (50 when it names none) gets the owner's newest rows, newest first (results by
    their creation, subscriptions by their first activation) and the greater identity first at one
    instant, as many as it asked for or the configured ceiling allows, and no other row of the owner
    is newer than one on the page; each is shown with its own identity, state and instant; a stored
    value the contract refuses makes the whole page a bare 500; another page size is a 400. *)
Theorem lists_exact rq owner w :
  bearer_holds rq → owner_of rq = Some owner → calm w →
  list_answer (result_of owner (w_db w)) later_result result_shown ResultPage rq
    (router state client (V1 Results) rq w).1 ∧
  list_answer (subscription_of owner (w_db w)) later_subscription subscription_shown SubscriptionPage rq
    (router state client (V1 Subscriptions) rq w).1.
Proof.
  intros Hb Ho Hc. rewrite !(router_handler _ _ owner) //. split.
  - pose proof (list_answered (result_of owner (w_db w)) later_result result_shown result_key result_summary
      ResultPage (owned_results owner) rq w Hc (NoDup_select_where _ _) (listed_results owner _)
      (λ a b, newest_first _ _ _ _) result_summary_shown) as Hl.
    revert Hl. cbn [owner_scoped]. rewrite /list_results /result_page.
    by destruct (extract _ _ w) as [r w'].
  - pose proof (list_answered (subscription_of owner (w_db w)) later_subscription subscription_shown
      subscription_key subscription_view_of SubscriptionPage (joined_subscriptions owner) rq w Hc
      (joined_nodup _ _) (listed_subscriptions owner _) (λ a b, newest_first _ _ _ _) subscription_view_shown) as Hl.
    revert Hl. cbn [owner_scoped]. rewrite /list_subscriptions /subscription_page.
    by destruct (extract _ _ w) as [r w'].
Qed.

(** ** Results *)

(** The reads of the contract's identifiers accept what the service itself wrote. *)
Class ApiLaws : Prop := {
  parse_result_id_text u : parse_result_id (uuid_text u) = Some u;
  parse_run_id_text u : parse_run_id (uuid_text u) = Some u;
  parse_digest_hex_sha256 s : is_sha256_hex s = true → parse_digest_hex s = Some s;
}.

Lemma hex64_is_sha256 s : hex64 s = true → is_sha256_hex s = true.
Proof.
  rewrite /hex64 /is_sha256_hex !andb_true_iff Nat.eqb_eq bool_decide_eq_true /byte_len.
  intros [Hl Ha]. split; [lia|]. clear Hl. induction s as [|c s IH]; [done|].
  simpl in *. apply andb_true_iff in Ha as [Ha ?]. apply andb_true_iff. split; [exact Ha|by apply IH].
Qed.

Lemma read_result_inv id hex p :
  read_result (as_result_reader state) client id hex = Ok p →
  kp_result_digest_hex p = hex ∧ ∃ members, kp_recap p = JObj members.
Proof.
  rewrite /read_result. destruct (negb (is_sha256_hex hex)); [done|]. destruct (client _) as [r|]; simpl; [|done].
  destruct (_ && _); [done|]. destruct (negb _); [done|]. destruct (negb _); [done|].
  destruct (match hr_content_length r with Some n => _ | None => _ end); [done|].
  destruct (read_body _ _ _) as [bytes|]; simpl; [|done].
  destruct (decode_knowledge_envelope bytes) as [e|]; simpl; [|done]. case_match eqn:Hl; [done|].
  apply negb_false_iff, linkage_holds_true in Hl as (_&Hd&_&members&Hrec). intros [= <-].
  rewrite Hd Hrec. eauto.
Qed.

Lemma result_view_failed `{!ApiLaws} id row :
  res_outcome row = Outcome.Failed →
  result_view state client id row =
    match parse_class (res_failure_class row) with
    | Some class => Ok (ResultView id (res_run row) Outcome.Failed None None None None class)
    | None => Err INTERNAL_SERVER_ERROR
    end.
Proof.
  intros Hf. rewrite /result_view parse_result_id_text parse_run_id_text outcome_of_as_str /= Hf /=.
  by destruct (parse_class _).
Qed.

Lemma result_view_settled `{!ApiLaws} id row recap hex :
  res_outcome row ≠ Outcome.Failed → res_recap row = Some recap → res_digest_hex row = Some hex →
  hex64 hex = true → 0 ≤ res_citations row →
  match read_result (as_result_reader state) client recap hex with
  | Err KnowledgeResultReadError.Unavailable => result_view state client id row = Err SERVICE_UNAVAILABLE
  | Err KnowledgeResultReadError.Invalid => result_view state client id row = Err BAD_GATEWAY
  | Ok p => ∃ members, kp_recap p = JObj members ∧ result_view state client id row =
      if res_citations row <? 2 ^ 16
      then Ok (ResultView id (res_run row) (res_outcome row) (Some recap) (Some (res_citations row))
                 (Some (ResultDigest "sha256" hex)) (Some members) None)
      else Err INTERNAL_SERVER_ERROR
  end.
Proof.
  intros Hf Hrec Hhex Hh64 Hc.
  rewrite /result_view parse_result_id_text parse_run_id_text outcome_of_as_str /=.
  rewrite bool_decide_eq_false_2 // Hrec Hhex.
  destruct (read_result _ _ _ _) as [p|[]] eqn:Hp; simpl; [|done|done].
  apply read_result_inv in Hp as (->&members&Hm). exists members. split; [done|].
  rewrite Hm /= /u16_try_from. replace (0 <=? res_citations row) with true by lia. simpl.
  destruct (res_citations row <? 2 ^ 16); simpl; [|done].
  by rewrite parse_digest_hex_sha256; [|by apply hex64_is_sha256].
Qed.


Lemma reachable_allowed d id row :
  reachable d → results d !! id = Some row → result_row_allowed row = true.
Proof. intros Hd%reachable_delta Hk. by destruct (dl_result _ _ Hd _ _ Hk) as [?|(?&?&_&_&_&_&_&?)]. Qed.

Lemma result_row_allowed_settled row :
  result_row_allowed row = true → res_outcome row ≠ Outcome.Failed →
  0 ≤ res_citations row ∧ ∃ recap hex, res_recap row = Some recap ∧ res_digest_hex row = Some hex ∧
    hex64 hex = true.
Proof.
  rewrite /result_row_allowed. rewrite !andb_true_iff. intros [[Hc Hh] Ho] Hf.
  assert (is_Some (res_recap row) ∧ is_Some (res_digest_hex row)) as [[recap Hr] [hex Hx]].
  { destruct (res_outcome row); [..|done]; by rewrite andb_true_iff !bool_decide_eq_true in Ho. }
  rewrite Hx in Hh. split; [lia|]. by exists recap, hex.
Qed.

(** A result is answered from its own row, and a recap only through its linkage.  In a reachable
    database, an authorized request for a result of the path is answered 404 when the owner has no
    such result; from the row alone, without asking Knowledge, when the result is failed; and
    otherwise from the one read of the recap the row links, 503 when Knowledge is unavailable and 502
    when its answer is not that recap.  No stored row lacks its linkage. *)
Lemma result_answered `{!ApiLaws} rq owner path id w :
  reachable (w_db w) → bearer_holds rq → owner_of rq = Some owner → path_uuid path = Some id → calm w →
  let x := (router state client (V1 (Result path)) rq w).1 in
  ((∀ row, results (w_db w) !! id = Some row → res_owner row ≠ owner) →
     x = no_store (status_response NOT_FOUND)) ∧
  (∀ row, results (w_db w) !! id = Some row → res_owner row = owner →
     (res_outcome row = Outcome.Failed → x = no_store
        match parse_class (res_failure_class row) with
        | Some class => json_response (ResultBody
            (ResultView id (res_run row) Outcome.Failed None None None None class))
        | None => status_response INTERNAL_SERVER_ERROR
        end) ∧
     (res_outcome row ≠ Outcome.Failed →
        ∃ recap hex, res_recap row = Some recap ∧ res_digest_hex row = Some hex ∧ x = no_store
        match read_result (as_result_reader state) client recap hex with
        | Err KnowledgeResultReadError.Unavailable => status_response SERVICE_UNAVAILABLE
        | Err KnowledgeResultReadError.Invalid => status_response BAD_GATEWAY
        | Ok p =>
            if res_citations row <? 2 ^ 16
            then json_response (ResultBody (ResultView id (res_run row) (res_outcome row) (Some recap)
                   (Some (res_citations row)) (Some (ResultDigest "sha256" hex))
                   (as_object (kp_recap p)) None))
            else status_response INTERNAL_SERVER_ERROR
        end)).
Proof.
  intros Hreach Hb Ho Hp Hc. cbv zeta. rewrite (router_handler _ _ owner) //= Hp /= /get_result.
  rewrite (bind_sql_calm _ _ _ _ (owned_result id owner (w_db w)) (w_db w)) //. rewrite /owned_result.
  destruct (results (w_db w) !! id) as [row|] eqn:Hk; simpl; [|by split; [|intros ? [=]]].
  destruct (decide (res_owner row = owner)) as [Hro|Hro].
  2: { rewrite bool_decide_eq_false_2 //. split; [done|]. by intros ? [= <-] ?. }
  rewrite bool_decide_eq_true_2 //. split; [intros Hn; by destruct (Hn row eq_refl)|].
  intros ? [= <-] _. split; intros Hf.
  - rewrite result_view_failed //. by destruct (parse_class _).
  - pose proof (reachable_allowed _ _ _ Hreach Hk) as Hall.
    destruct (result_row_allowed_settled _ Hall Hf) as (Hcit&recap&hex&Hrec&Hhex&Hh64).
    exists recap, hex. split; [done|]. split; [done|].
    pose proof (result_view_settled id row recap hex Hf Hrec Hhex Hh64 Hcit) as Hv.
    destruct (read_result _ _ _ _) as [p|[]]; [|by rewrite Hv|by rewrite Hv].
    destruct Hv as (members&->&->). by destruct (_ <? _).
Qed.

(** ** One owner's API does not see another's rows *)

(** A call whose answer does not depend on the world. *)
Definition answers_alike {A} (m : M Z A) (w1 w2 : world) : Prop := (m w1).1 = (m w2).1.

Definition constant {A} (m : M Z A) : Prop := ∀ w1 w2, answers_alike m w1 w2.

Lemma constant_ret {A} (a : A) : constant (mret a).
Proof. done. Qed.

Lemma constant_fail {A} s : constant (fail s : M Z A).
Proof. done. Qed.

Lemma constant_lift {A B} (r : result Z A) (k : A → M Z B) :
  (∀ a, constant (k a)) → constant (lift r ≫= k).
Proof. intros Hk w1 w2. rewrite /answers_alike /lift /mbind /M_bind. destruct r; [apply Hk|done]. Qed.

Lemma alike_read {A B} e (f : db → A) (k : A → M Z B) w1 w2 :
  w_faults w1 = w_faults w2 → f (w_db w1) = f (w_db w2) → (∀ a, constant (k a)) →
  answers_alike (sql e (read f) ≫= k) w1 w2.
Proof.
  intros Hf Hd Hk. rewrite /answers_alike /sql /mbind /M_bind /draw_fault Hf /read.
  destruct (w_faults w2) as [|[] fs]; simpl; [|done|]; rewrite Hd; apply Hk.
Qed.

(** The two databases hold the same rows of the owner. *)
Record same_for (owner : uuid) (d1 d2 : db) : Prop := {
  same_subscriptions k s :
    sub_owner s = owner → subscriptions d1 !! k = Some s ↔ subscriptions d2 !! k = Some s;
  same_channels k s : subscriptions d1 !! k = Some s → sub_owner s = owner →
    channels d1 !! sub_channel s = channels d2 !! sub_channel s;
  same_manifests k m :
    man_owner m = owner → manifests d1 !! k = Some m ↔ manifests d2 !! k = Some m;
  same_results k r :
    res_owner r = owner → results d1 !! k = Some r ↔ results d2 !! k = Some r }.


Lemma NoDup_joined owner d : NoDup (joined_subscriptions owner d).
Proof.
  rewrite /joined_subscriptions.
  pose proof (NoDup_select_where (λ _ s, bool_decide (sub_owner s = owner)) (subscriptions d)) as Hnd.
  revert Hnd. generalize (select_where (λ _ s, bool_decide (sub_owner s = owner)) (subscriptions d)).
  induction l as [|ks l IH]; intros Hnd; [constructor|]. inv Hnd. simpl.
  destruct (channels d !! sub_channel ks.2); simpl; [|by apply IH].
  constructor; [|by apply IH]. intros (ks'&Hin&(?&_&[= <- _])%fmap_Some)%list_elem_of_omap. done.
Qed.

Lemma result_page_same owner limit d1 d2 :
  same_for owner d1 d2 → result_page owner limit d1 = result_page owner limit d2.
Proof.
  intros Hs. rewrite /result_page. f_equal. apply sort_on_perm_eq.
  - apply NoDup_Permutation; [apply NoDup_select_where..|]. intros [k r].
    rewrite !elem_of_owned_results. pose proof (same_results _ _ _ Hs k r). tauto.
  - intros [k r] [k' r'] Hr%elem_of_owned_results Hr'%elem_of_owned_results.
    rewrite /result_key /=. intros [= _ Hk]. assert (k = k') as -> by lia. f_equal. naive_solver congruence.
Qed.

Lemma subscription_page_same owner limit d1 d2 :
  same_for owner d1 d2 → subscription_page owner limit d1 = subscription_page owner limit d2.
Proof.
  intros Hs. rewrite /subscription_page. f_equal. apply sort_on_perm_eq.
  - apply NoDup_Permutation; [apply NoDup_joined..|]. intros [[k s] c].
    rewrite !elem_of_joined. pose proof (same_subscriptions _ _ _ Hs k s) as Hk.
    pose proof (same_channels _ _ _ Hs k s) as Hc. split.
    + intros (Hk1&Ho1&Hc1). rewrite -Hc //. tauto.
    + intros (Hk1&Ho1&Hc1). assert (subscriptions d1 !! k = Some s) by tauto. rewrite Hc //.
  - intros [[k s] c] [[k' s'] c'] Hr%elem_of_joined Hr'%elem_of_joined.
    rewrite /subscription_key /=. intros [= _ Hk]. assert (k = k') as -> by lia.
    destruct Hr as (Hr&_&Hc1), Hr' as (Hr'&_&Hc2). rewrite Hr in Hr'. by simplify_eq.
Qed.


Lemma claimed_manifest_same id owner run digest d1 d2 :
  same_for owner d1 d2 → claimed_manifest id owner run digest d1 = claimed_manifest id owner run digest d2.
Proof.
  intros Hs. apply option_eq. intros m. rewrite !claimed_manifest_Some.
  pose proof (same_manifests _ _ _ Hs id m). naive_solver.
Qed.

Lemma owned_result_Some id owner d r :
  owned_result id owner d = Some r ↔ results d !! id = Some r ∧ res_owner r = owner.
Proof.
  rewrite /owned_result. destruct (results d !! id) as [r'|]; simpl; [|naive_solver].
  destruct (decide (res_owner r' = owner)) as [Ho|Ho];
    [rewrite bool_decide_eq_true_2 //|rewrite bool_decide_eq_false_2 //]; naive_solver.
Qed.

Lemma owned_result_same id owner d1 d2 :
  same_for owner d1 d2 → owned_result id owner d1 = owned_result id owner d2.
Proof.
  intros Hs. apply option_eq. intros r. rewrite !owned_result_Some.
  pose proof (same_results _ _ _ Hs id r). naive_solver.
Qed.

Lemma alike_lift {A B} (r : result Z A) (k : A → M Z B) w1 w2 :
  (∀ a, answers_alike (k a) w1 w2) → answers_alike (lift r ≫= k) w1 w2.
Proof. intros Hk. rewrite /answers_alike /lift /mbind /M_bind. destruct r; [apply Hk|done]. Qed.

Ltac steady :=
  repeat first
    [ progress intros
    | apply constant_ret
    | apply constant_fail
    | apply constant_lift
    | case_match ].

Lemma owner_scoped_alike r rq owner w1 w2 :
  same_for owner (w_db w1) (w_db w2) → w_faults w1 = w_faults w2 →
  answers_alike (owner_scoped state client r rq owner) w1 w2.
Proof.
  intros Hs Hf. destruct r as [|path| |path]; simpl.
  - destruct (page_query rq) as [n|]; [|done]. rewrite /= /list_subscriptions.
    apply alike_lift. intros limit. apply alike_read; [done|by apply subscription_page_same|steady].
  - destruct (path_uuid path) as [id|]; [|done]. rewrite /= /get_manifest.
    destruct (_ ≫= parse_run_id) as [run|]; [|done]. destruct (_ ≫= parse_digest_hex) as [digest|]; [|done].
    apply alike_read; [done|by apply claimed_manifest_same|steady].
  - destruct (page_query rq) as [n|]; [|done]. rewrite /= /list_results.
    apply alike_lift. intros limit. apply alike_read; [done|by apply result_page_same|steady].
  - destruct (path_uuid path) as [id|]; [|done]. rewrite /= /get_result.
    apply alike_read; [done|by apply owned_result_same|steady].
Qed.

(** C25: Owners are isolated.  The response to a request of one owner is a function of that owner's
    rows and of what Knowledge answers: two databases that hold the same subscriptions (with their
    channels), manifests and results of the owner give the same response to every owner route,
    whatever they hold of other owners; in particular another owner's row and an absent row cannot be
    told apart. *)
Theorem owner_isolation r rq owner w1 w2 :
  owner_of rq = Some owner → same_for owner (w_db w1) (w_db w2) → w_faults w1 = w_faults w2 →
  (router state client (V1 r) rq w1).1 = (router state client (V1 r) rq w2).1.
Proof.
  intros Ho Hs Hf. rewrite /router.
  destruct (dispatch_spec (V1 r) rq w1) as [(Ha&m&_&->&o&Ho1&->)|[Ha ->]],
    (dispatch_spec (V1 r) rq w2) as [(Ha'&m'&_&->&o'&Ho2&->)|[Ha' ->]]; try done.
  rewrite Ho in Ho1. rewrite Ho in Ho2. simplify_eq.
  pose proof (owner_scoped_alike r rq _ w1 w2 Hs Hf) as Heq. rewrite /answers_alike in Heq.
  destruct (owner_scoped _ _ _ _ _ w1) as [x1 w1'], (owner_scoped _ _ _ _ _ w2) as [x2 w2'].
  simpl in *. by rewrite Heq.
Qed.

Lemma bind_lift_body {A B} (r : result Z A) (k : A → M Z B) w x w' :
  (lift r ≫= k) w = (Ok x, w') → ∃ a, r = Ok a ∧ k a w = (Ok x, w').
Proof. rewrite /lift /mbind /M_bind. destruct r; [eauto|done]. Qed.

(** Only the manifest route answers with a text, and it is the text of the claimed row. *)
Lemma owner_scoped_text r rq owner w x w' text :
  owner_scoped state client r rq owner w = (Ok x, w') → rp_body x = Text text →
  ∃ id m, claims rq owner id m (w_db w) ∧ man_text m = Some text.
Proof.
  intros Hw Ht. destruct r as [|path| |path]; simpl in Hw.
  - destruct (page_query rq); [|by apply ret_inv in Hw as [-> _]]. apply bind_lift_body in Hw as (limit&_&Hw).
    run_inv. case_match; [|by apply fail_inv in Hw]. apply ret_inv in Hw as [-> _]. done.
  - destruct (path_uuid path) as [id|]; [|by apply ret_inv in Hw as [-> _]]. rewrite /= /get_manifest in Hw.
    destruct (header_text rq HEADER_DIGEST_RUN_ID ≫= _) as [run|] eqn:Hrun; [|by apply fail_inv in Hw].
    destruct (header_text rq HEADER_MANIFEST_DIGEST ≫= _) as [digest|] eqn:Hdig; [|by apply fail_inv in Hw].
    step_sql Hw as row w1 Hm Hn. injection Hm as <- _.
    destruct (claimed_manifest _ _ _ _ _) as [m|] eqn:Hm; simpl in Hw; [|by apply fail_inv in Hw].
    destruct (man_text m) as [t|] eqn:Hmt; [|by apply fail_inv in Hw]. apply ret_inv in Hw as [-> _].
    apply claimed_manifest_Some in Hm as (Hm&Hmo&<-&<-). exists id, m. simpl in Ht. simplify_eq. done.
  - destruct (page_query rq); [|by apply ret_inv in Hw as [-> _]]. apply bind_lift_body in Hw as (limit&_&Hw).
    run_inv. case_match; [|by apply fail_inv in Hw]. apply ret_inv in Hw as [-> _]. done.
  - destruct (path_uuid path) as [id|]; [|by apply ret_inv in Hw as [-> _]]. rewrite /= /get_result in Hw.
    step_sql Hw as row w1 Hm Hn. destruct row as [row|]; [|by apply fail_inv in Hw].
    apply bind_lift_body in Hw as (view&_&Hw). apply ret_inv in Hw as [-> _]. done.
Qed.

(** What a reader of a manifest gets is what was committed.  In every reachable database, the
    body of a text answer hashes to the very digest the request claimed, whatever minimization,
    withdrawal or settlement happened since the manifest was committed. *)
Lemma served_manifest_intact rt rq w text :
  reachable (w_db w) → rp_body (router state client rt rq w).1 = Text text →
  header_text rq HEADER_MANIFEST_DIGEST ≫= parse_digest_hex = Some (sha256_hex text).
Proof.
  intros Hr%reachable_delta%dl_intact; [|by intros ????].
  rewrite /router. destruct (dispatch_spec rt rq w) as [(_&m&_&->&Hm)|[_ ->]]; [|done].
  destruct (m w) as [[x|s] w'] eqn:Hw; simpl; [|done]. intros Ht. destruct rt as [|r].
  - rewrite Hm in Hw. rewrite /ready in Hw. run_inv.
  - destruct Hm as (owner&_&->). destruct (owner_scoped_text _ _ _ _ _ _ _ Hw Ht) as (id&row&Hc&Hmt).
    destruct Hc as (Hk&_&_&Hd). by rewrite Hd (Hr _ _ _ Hk Hmt).
Qed.


(** C27: A manifest is served to who can name it, and what is served is what was committed.  To an
    authorized request for a manifest of the path, the service, with working storage, answers 200 with the stored canonical
    text verbatim, when the owner, the run and the digest the request claims are those of the row and
    the text is there; an empty 410 when they are and the text was minimized; and the same empty 404
    for an absent manifest, another owner's, and a missing, malformed or different claim.  In every
    reachable database a text any route answers with hashes to the very digest the request claimed,
    whatever minimization, withdrawal or settlement happened since the commitment. *)
Theorem get_manifest_exact rq w :
  (∀ owner path id, bearer_holds rq → owner_of rq = Some owner → path_uuid path = Some id → calm w →
     let x := (router state client (V1 (Manifest path)) rq w).1 in
     (∃ m, claims rq owner id m (w_db w) ∧ x = manifest_answer (Some m)) ∨
     ((∀ m, ¬ claims rq owner id m (w_db w)) ∧ x = manifest_answer None)) ∧
  (∀ rt text, reachable (w_db w) → rp_body (router state client rt rq w).1 = Text text →
     header_text rq HEADER_MANIFEST_DIGEST ≫= parse_digest_hex = Some (sha256_hex text)).
Proof. split; intros; [by apply manifest_served|by eapply served_manifest_intact]. Qed.
End ApiSpec.

(** ** A concrete API over the trace: owner 7 with manifest 70 and result 80 *)

Module DemoApi.
#[local] Existing Instances Demo.external DemoReader.http DemoBus.bus.

#[local] Instance api : ApiExternal := {|
  HEADER_OWNER_ID := "x-ratatoskr-owner-id";
  HEADER_DIGEST_RUN_ID := "x-ratatoskr-digest-run-id";
  HEADER_MANIFEST_DIGEST := "x-ratatoskr-manifest-digest";
  parse_user_id := Demo.uuid_parse;
  parse_subscription_id := Demo.uuid_parse;
  parse_result_id := Demo.uuid_parse;
  parse_channel_username := Some;
  parse_failure_class := Some;
  decode_page_query q := if bool_decide (q = "") then Some None else Some <$> Demo.int_of q;
  path_uuid := Demo.uuid_parse;
|}.

Definition state : api_state := ApiState "secret" 100 DemoReader.reader.

Definition request_of (query : string) : request := Request (λ name,
  if bool_decide (name = "authorization") then Some "Bearer secret"
  else if bool_decide (name = "x-ratatoskr-owner-id") then Some "7"
  else if bool_decide (name = "x-ratatoskr-digest-run-id") then Some "60"
  else if bool_decide (name = "x-ratatoskr-manifest-digest") then Some (Demo.digest "aa")
  else None) query.

Lemma api_laws : ApiLaws.
Proof.
  split; [exact Demo.uuid_parse_text|exact Demo.uuid_parse_text|done].
Qed.

(** The settled database of the trace. *)
Definition settled : world := Demo.world (w_db Trace.w6).
End DemoApi.

Lemma get_manifest_exact_witness :
  (∃ m, (@router Demo.external DemoReader.http DemoBus.bus DemoApi.api DemoApi.state DemoReader.client
           (V1 (Manifest "70")) (DemoApi.request_of "") DemoApi.settled).1 = manifest_answer (Some m) ∧
        man_text m = Some "aa") ∧
  @header_text DemoReader.http (DemoApi.request_of "") "x-ratatoskr-manifest-digest" ≫=
    @parse_digest_hex Demo.external =
  Some (@sha256_hex Demo.external "aa").
Proof.
  destruct (@get_manifest_exact Demo.external DemoReader.http DemoBus.bus DemoApi.api DemoApi.state
    DemoReader.client (DemoApi.request_of "") DemoApi.settled) as [Hm Hs].
  split; [|apply (Hs (V1 (Manifest "70")) "aa"); [apply trace_settled|by vm_compute]].
  destruct (Hm 7%N "70" 70%N) as [(m&(Hk&_)&Hx)|[Hn _]];
    [by vm_compute|by vm_compute|by vm_compute|done| |].
  - exists m. split; [exact Hx|]. vm_compute in Hk. by injection Hk as <-.
  - destruct (manifests (w_db DemoApi.settled) !! 70%N) as [m|] eqn:Hman; [|by vm_compute in Hman].
    destruct (Hn m). split; [exact Hman|]. vm_compute in Hman. injection Hman as <-. by vm_compute.
Defined.


Lemma lists_exact_witness :
  let x := (@router Demo.external DemoReader.http DemoBus.bus DemoApi.api DemoApi.state DemoReader.client
     (V1 Results) (DemoApi.request_of "5") DemoApi.settled).1 in
  rp_status x = OK ∧ ∃ rows views, NoDup rows ∧ (length rows ≤ 5)%nat ∧
    (∀ a, a ∈ rows → result_of 7 (w_db DemoApi.settled) a) ∧
    Forall2 (@result_shown Demo.external DemoBus.bus DemoApi.api) rows views ∧
    x = no_store (json_response (ResultPage views)).
Proof.
  intros x. assert (rp_status x = OK) as Hok by (vm_compute; reflexivity). split; [exact Hok|].
  destruct (@lists_exact Demo.external DemoReader.http DemoBus.bus DemoApi.api DemoApi.state
    DemoReader.client (DemoApi.request_of "5") 7 DemoApi.settled) as [Hl _];
    [by vm_compute|by vm_compute|done|].
  assert (@decode_page_query DemoApi.api (rq_query (DemoApi.request_of "5")) = Some (Some 5)) as Hq
    by (vm_compute; reflexivity).
  rewrite /list_answer Hq in Hl. cbv zeta in Hl. destruct (decide (5 = 0 ∨ 100 < 5)) as [[?|?]|_]; [lia..|].
  destruct Hl as (rows&Hnd&_&Hlen&Hin&_&[(views&Hv&Hx)|[_ Hx]]).
  - exists rows, views. split_and!; [exact Hnd| |exact Hin|exact Hv|exact Hx].
    etrans; [exact Hlen|]. apply Nat.leb_le. vm_compute. reflexivity.
  - assert (x = no_store (status_response 500)) as Hx' by exact Hx. rewrite Hx' in Hok.
    vm_compute in Hok. discriminate Hok.
Defined.

Lemma result_answered_witness :
  rp_status (@router Demo.external DemoReader.http DemoBus.bus DemoApi.api DemoApi.state DemoReader.client
     (V1 (Result "80")) (DemoApi.request_of "") DemoApi.settled).1 = OK ∧
  rp_status (@router Demo.external DemoReader.http DemoBus.bus DemoApi.api DemoApi.state DemoReader.client
     (V1 (Result "81")) (DemoApi.request_of "") DemoApi.settled).1 = NOT_FOUND.
Proof.
  split.
  - destruct (results (w_db DemoApi.settled) !! 80%N) as [r|] eqn:Hr; [|by vm_compute in Hr].
    destruct (@result_answered Demo.external DemoReader.http DemoBus.bus DemoApi.api DemoApi.state
      DemoReader.client DemoApi.api_laws (DemoApi.request_of "") 7 "80" 80 DemoApi.settled) as [_ Hx];
      [apply trace_settled|by vm_compute|by vm_compute|by vm_compute|reflexivity|].
    assert ((res_owner r, res_outcome r, res_citations r) = (7%N, Outcome.Completed, 1) ∧
            (res_recap r, res_digest_hex r) = (Some 90%N, Some DemoReader.hex)) as [[= Ho Hc Hn] [= Hr' Hh]].
    { vm_compute in Hr. injection Hr as <-. split; vm_compute; reflexivity. }
    destruct (Hx r Hr Ho) as [_ Hs]. destruct Hs as (recap&hex&Hrec&Hhex&Heq); [by rewrite Hc|].
    rewrite Heq. rewrite Hr' in Hrec. rewrite Hh in Hhex. injection Hrec as <-. injection Hhex as <-.
    rewrite Hn. vm_compute. reflexivity.
  - destruct (@result_answered Demo.external DemoReader.http DemoBus.bus DemoApi.api DemoApi.state
      DemoReader.client DemoApi.api_laws (DemoApi.request_of "") 7 "81" 81 DemoApi.settled) as [Hx _];
      [apply trace_settled|by vm_compute|by vm_compute|by vm_compute|reflexivity|].
    rewrite Hx; [reflexivity|]. intros row Hr. by vm_compute in Hr.
Defined.

(** Another owner's result makes no difference. *)
Lemma same_for_foreign owner d k r :
  res_owner r ≠ owner → results d !! k = None →
  same_for owner d (with_results d (<[k := r]> (results d))).
Proof.
  intros Hr Hk. split; try done. intros k' r' Ho. simpl. destruct (decide (k' = k)) as [->|Hne].
  - rewrite lookup_insert_eq Hk. naive_solver.
  - by rewrite lookup_insert_ne.
Qed.

(** The same request, with and without a result of owner 8. *)
Lemma owner_isolation_witness :
  let d := w_db Trace.w6 in
  let d' := with_results d (<[81%N := ResultRow 61 71 8 Outcome.Failed None None 0 None 5]> (results d)) in
  (@router Demo.external DemoReader.http DemoBus.bus DemoApi.api DemoApi.state DemoReader.client
     (V1 Results) (DemoApi.request_of "5") (Demo.world d)).1 =
  (@router Demo.external DemoReader.http DemoBus.bus DemoApi.api DemoApi.state DemoReader.client
     (V1 Results) (DemoApi.request_of "5") (Demo.world d')).1.
Proof.
  intros d d'. apply (@owner_isolation Demo.external DemoReader.http DemoBus.bus DemoApi.api DemoApi.state
    DemoReader.client Results (DemoApi.request_of "5") 7);
    [vm_compute; reflexivity| |unfold Demo.world; cbn [w_faults]; reflexivity].
  unfold Demo.world, d'. cbn [w_db]. apply same_for_foreign; [discriminate|vm_compute; reflexivity].
Defined.
