(* ===== verification/Journey.v ===== *)
(** * Journey: from the fact of Knowledge on the bus to the answer of its owner

    One theorem across the message bus, the coordinator, the outbox, the other workers and the owner
    API: what Knowledge says of a run, that its recap was written or why it was not, reaches the owner
    of the run, and no one else. *)

From S2P Require Import Prelude Text External Store Tx Demo Subscriptions Runs Reports Progress Inbox.
From S2P Require Import Coordinator Settlement Delta Bus BusSpec System Safety ResultReader Api ApiSpec.

Section Waiting.
Context `{External} `{!BusExternal}.

(** In a reachable database a run that waits for its recap is ready for it: it has exactly one
    manifest, and neither has a result. *)
Lemma waiting_awaits d run r :
  reachable d → runs d !! run = Some r → run_state r = RunState.WaitingRecap →
  ∃ mid m, awaits run (run_owner r) r mid m d.
Proof.
  intros Hd%reachable_delta Hr Hs.
  destruct (dl_waiting _ _ Hd _ _ Hr Hs) as [(?&?&_)|(mid&m&_&_&Hm&Hmr&Hmo&_)]; [done|].
  exists mid, m. split; try done.
  - intros k x Hk Hx. apply (dl_unique _ _ Hd) with x m; [by intros ??? ?|done|done|congruence].
  - intros k x Hk. destruct (dl_result _ _ Hd _ _ Hk) as [?|(r'&m'&Hr'&Hs'&_&Hm'&Hmr'&_)]; [done|].
    assert (res_run x ≠ run) as Hne.
    { intros <-. assert (r' = r) as -> by congruence. rewrite Hs in Hs'. by destruct (res_outcome x). }
    split; [done|]. intros Heq. apply Hne. rewrite Heq in Hm'. congruence.
Qed.

(** ** The facts

    Knowledge says that a recap was written, or why it was not.  The two deliveries differ in route,
    decoder and evidence; the journey is the same. *)

Inductive recap_fact :=
| Written (f : recap_completed)
| Refused (f : recap_failed).

Definition fact_run (fact : recap_fact) : uuid :=
  match fact with Written f => fc_run f | Refused f => ff_run f end.

Definition fact_owner (fact : recap_fact) : string :=
  match fact with Written f => fc_owner f | Refused f => ff_owner f end.

(** The subject it arrives under, its event type, and the subject and key it is deduplicated by. *)
Definition fact_route (fact : recap_fact) : string :=
  match fact with Written _ => EVT_COMPLETED | Refused _ => EVT_FAILED end.

Definition fact_type (fact : recap_fact) : string :=
  match fact with Written _ => COMPLETED_EVENT_TYPE | Refused _ => FAILED_EVENT_TYPE end.

Definition fact_subject (fact : recap_fact) : string :=
  match fact with Written _ => COMPLETED_SUBJECT | Refused _ => FAILED_SUBJECT end.

Definition fact_key (fact : recap_fact) : string :=
  match fact with Written f => uuid_text (fc_result f) | Refused f => uuid_text (ff_run f) end.

Definition fact_of_payload (fact : recap_fact) (payload : json) : option recap_fact :=
  match fact with
  | Written _ => Written <$> completed_of_payload payload
  | Refused _ => Refused <$> failed_of_payload payload
  end.

Definition fact_to_vec (fact : recap_fact) : option string :=
  match fact with Written f => completed_to_vec f | Refused f => failed_to_vec f end.

Definition settle (fact : recap_fact) (message_id : uuid) (payload : string)
    : M CoordinatorError.t IntakeOutcome.t :=
  match fact with
  | Written _ => settle_completion message_id payload
  | Refused _ => settle_failure message_id payload
  end.

(** What the fact must carry for its own sake. *)
Definition sound_fact (fact : recap_fact) (payload : string) : Prop :=
  match fact with
  | Written f => sound_completion payload f
  | Refused f => decode_recap_failed payload = Some f ∧ validate_recap_failed f = true
  end.

(** It names the waiting run and its manifest. *)
Definition fact_matches (fact : recap_fact) (r : run_row) (m : manifest_row) : Prop :=
  match fact with
  | Written f => completion_matches f r m = true
  | Refused f => ff_manifest_digest_hex f = man_sha256 m
  end.

(** The identity of the result: the fact's own, or one that is drawn. *)
Definition fact_fresh (fact : recap_fact) (w : world) : Prop :=
  match fact with
  | Written f => results (w_db w) !! fc_result f = None
  | Refused _ => fresh_in w (results (w_db w))
  end.

(** What becomes of run [r]. *)
Definition fact_outcome (fact : recap_fact) (r : run_row) : Outcome.t :=
  match fact with
  | Written f => completion_outcome (fc_omitted_count f) (run_incomplete r)
  | Refused _ => Outcome.Failed
  end.

Definition fact_status (fact : recap_fact) (r : run_row) : OperationStatus.t :=
  match fact with
  | Written f => completion_status (fc_omitted_count f) (run_incomplete r)
  | Refused _ => OperationStatus.Failed
  end.

(** The result row holds the evidence of the fact. *)
Definition evidenced (fact : recap_fact) (id : uuid) (row : result_row) : Prop :=
  match fact with
  | Written f => id = fc_result f ∧ is_Some (res_recap row) ∧
      res_recap row = analysis_id_of (fc_analysis_ref f) ∧
      res_digest_hex row = Some (fc_result_digest_hex f) ∧ res_citations row = fc_included_count f
  | Refused f => res_recap row = None ∧ res_failure_class row = Some (classify_failure (ff_code f)).1
  end.

(** ** The delivery *)

(** The message is an authorized event, and the payload it is settled from is the fact. *)
Record carries (bytes : string) (e : inbound_envelope) (fact : recap_fact) (payload : string) : Prop := {
  ca_envelope : decode_event_envelope bytes = Some e;
  ca_producer : ie_producer e = KNOWLEDGE_PRODUCER;
  ca_type : ie_type e = fact_type fact;
  ca_fact : fact_of_payload fact (ie_payload e) = Some fact;
  ca_tenant : ie_tenant e = Some (fact_owner fact);
  ca_payload : fact_to_vec fact = Some payload;
  ca_sound : sound_fact fact payload }.

Lemma handle_fact language bytes e fact payload w :
  carries bytes e fact payload →
  handle language (fact_route fact) bytes w =
    let '(r, w') := settle fact (ie_id e) payload w in (Ok (coordinator_disposition r), w').
Proof.
  intros [He Hp Ht Hf Hten Hv _]. rewrite /handle /handle_event He /=.
  destruct fact as [f|f]; simpl in *; apply fmap_Some in Hf as (x&Hf&[= <-]);
    rewrite Hp /= Ht Hf /= Hten Hv /= !bool_decide_eq_true_2 //=.
  - rewrite /answer /observe /mbind /M_bind. by destruct (settle_completion _ _ w).
  - rewrite /answer /observe /mbind /M_bind. by destruct (settle_failure _ _ w).
Qed.

(** A fact about a run that is settled changes nothing. *)
Lemma late_fact language bytes e fact payload r w :
  carries bytes e fact payload → runs (w_db w) !! fact_run fact = Some r → terminal (run_state r) = true →
  w_db (handle language (fact_route fact) bytes w).2 = w_db w.
Proof.
  intros Hc Hr Ht. rewrite (handle_fact _ _ _ _ _ _ Hc). pose proof (ca_sound _ _ _ _ Hc) as Hs.
  assert (w_db (settle fact (ie_id e) payload w).2 = w_db w) as <-; [|by case_match].
  destruct fact as [f|f]; simpl in *.
  - destruct (settle_completion _ _ _) as [res w'] eqn:Hw. apply settle_completion_inv in Hw
      as [(x&an&r'&m0&mid&m&->&Hd&_&_&Hr'&_&_&_&Hm&_)|[? _]]; [|done].
    destruct Hs as [Hd' _ _ _ _ _]. simplify_eq. rewrite /completion_matches in Hm. by destruct (run_state r).
  - destruct (settle_failure _ _ _) as [res w'] eqn:Hw. apply settle_failure_inv in Hw
      as [(x&r'&mid&m&rid&->&Hd&_&Hr'&_&Hs'&_)|[? _]]; [|done].
    destruct Hs as [Hd' _]. simplify_eq. by rewrite Hs' in Ht.
Qed.
End Waiting.

(** ** The journey *)

Section Journey.
Context `{External} `{!HttpExternal} `{!BusExternal} `{!ApiExternal}.
Context (state : api_state) (client : http_client).

(** Result [id] is stored: the run is in its state, the on-demand operation is reported. *)
Record stored (fact : recap_fact) (r : run_row) (id : uuid) (row : result_row) (d : db) : Prop := {
  st_run : ∃ r', runs d !! fact_run fact = Some r' ∧ run_state r' = Outcome.run_state (fact_outcome fact r);
  st_result : results d !! id = Some row;
  st_run_of : res_run row = fact_run fact;
  st_owner : res_owner row = run_owner r;
  st_outcome : res_outcome row = fact_outcome fact r;
  st_evidence : evidenced fact id row;
  st_report : run_trigger r = RunTrigger.OnDemand → reported (run_operation r) (fact_status fact r) d }.

Lemma completion_not_failed n b : completion_outcome n b ≠ Outcome.Failed.
Proof. rewrite /completion_outcome. by destruct (_ && _). Qed.

Lemma stored_kept fact r id row d d' : delta d d' → stored fact r id row d → stored fact r id row d'.
Proof.
  intros Hd [(r'&Hr&Hs) Hrow ? ? ? ? Hrep]. split; [|by apply Hd|done..|].
  - destruct (dl_runs _ _ Hd _ _ Hr) as (r2&Hr2&Hle). exists r2. split; [done|]. rewrite -Hs.
    apply state_le_terminal; [rewrite Hs; apply outcome_terminal|apply Hle].
  - intros Ht. eapply outbox_kept_reported; [apply Hd|by apply Hrep].
Qed.

(** An applied fact is stored. *)
Lemma settled_stored message_id fact payload w w' r :
  settle fact message_id payload w = (Ok IntakeOutcome.Applied, w') → sound_fact fact payload →
  runs (w_db w) !! fact_run fact = Some r → ∃ id row, stored fact r id row (w_db w').
Proof.
  destruct fact as [fact|fact]; simpl; intros Hw Hsound Hr.
  - apply settle_completion_inv in Hw
      as [(f&an&r1&m0&mid&m&_&Hd&_&Han&Hr1&Ho&_&_&_&_&_&(Hdb&Hout&_))|[_ ?]]; [|done].
    destruct Hsound as [Hdec _ _ _ _ _]. simplify_eq. exists (fc_result f). eexists.
    split; [|by rewrite Hdb /= lookup_insert_eq|done..| |].
    + eexists. rewrite Hdb /=. by rewrite lookup_insert_eq.
    + simpl. by rewrite Han.
    + intros Ht. by apply (outbox_reports_reported _ _ _ _ Hout).
  - apply settle_failure_inv in Hw
      as [(f&r1&mid&m&id&_&Hd&_&Hr1&Ho&_&_&_&_&(Hdb&Hout&_))|[_ ?]]; [|done].
    destruct Hsound as [Hdec _]. simplify_eq. exists id. eexists.
    split; [|by rewrite Hdb /= lookup_insert_eq|done..|].
    + eexists. rewrite Hdb /=. by rewrite lookup_insert_eq.
    + intros Ht. by apply (outbox_reports_reported _ _ _ _ Hout).
Qed.

(** A sound fact that names a waiting run is applied. *)
Lemma fact_applied `{!ExternalLaws} `{!ReportLaws} message_id fact payload r mid m w :
  able w → sound_fact fact payload → awaits (fact_run fact) (tenant_user (fact_owner fact)) r mid m (w_db w) →
  fact_matches fact r m → ¬ seen message_id (fact_subject fact) (fact_key fact) (w_db w) → fact_fresh fact w →
  ∃ w', settle fact message_id payload w = (Ok IntakeOutcome.Applied, w').
Proof.
  intros Ha Hs Haw Hm Hns Hf. destruct fact as [f|f]; simpl in *.
  - destruct (settle_completion_succeeds message_id payload f r mid m w) as (o&w1&Hw&_&->&_); eauto.
  - destruct Hs as [Hdec Hval].
    destruct (settle_failure_succeeds message_id payload f r mid m w) as (o&w1&Hw&_&->&_); eauto.
Qed.

(** What the owner is answered for the result: the recap the fact names, under its digest, or the
    class of the failure. *)
Definition fact_response (fact : recap_fact) (r : run_row) (id : uuid) : response :=
  match fact with
  | Written f =>
      match analysis_id_of (fc_analysis_ref f) with
      | Some analysis =>
          match read_result (as_result_reader state) client analysis (fc_result_digest_hex f) with
          | Err KnowledgeResultReadError.Unavailable => status_response SERVICE_UNAVAILABLE
          | Err KnowledgeResultReadError.Invalid => status_response BAD_GATEWAY
          | Ok p =>
              if fc_included_count f <? 2 ^ 16
              then json_response (ResultBody (ResultView id (fc_run f) (fact_outcome fact r) (Some analysis)
                     (Some (fc_included_count f)) (Some (ResultDigest "sha256" (fc_result_digest_hex f)))
                     (as_object (kp_recap p)) None))
              else status_response INTERNAL_SERVER_ERROR
          end
      | None => status_response NOT_FOUND
      end
  | Refused f =>
      match parse_class (Some (classify_failure (ff_code f)).1) with
      | Some class => json_response (ResultBody
          (ResultView id (ff_run f) Outcome.Failed None None None None class))
      | None => status_response INTERNAL_SERVER_ERROR
      end
  end.

Lemma stored_answered `{!ApiLaws} fact r id row rq owner path w :
  reachable (w_db w) → stored fact r id row (w_db w) → calm w →
  bearer_holds state rq → owner_of rq = Some owner → path_uuid path = Some id →
  (router state client (V1 (Result path)) rq w).1 = no_store
    (if decide (owner = run_owner r) then fact_response fact r id else status_response NOT_FOUND).
Proof.
  intros Hreach [_ Hrow Hrun Ho Hout Hev _] Hc Hb Hown Hp.
  destruct (result_answered state client rq owner path id w) as [Hnone Hsome]; [done..|].
  case_decide as Heq; [|apply Hnone; intros row' Hrow'; congruence].
  destruct (Hsome row Hrow) as [Hfailed Hok]; [by rewrite Ho|]. destruct fact as [f|f]; simpl in *.
  - destruct Hev as (->&_&Hrec&Hhex&Hcit).
    destruct Hok as (rec&hex&Hrec'&Hhex'&->); [rewrite Hout; apply completion_not_failed|].
    rewrite -Hrec Hrec'. rewrite Hhex in Hhex'. injection Hhex' as <-. by rewrite Hcit Hrun Hout.
  - destruct Hev as [_ Hclass]. by rewrite (Hfailed Hout) Hclass Hrun.
Qed.

(** C7: What Knowledge says of a run reaches its owner, and only its owner.  In a reachable database, a
    run waits for its recap; an authorized event that the recap was written, or failed, names it, its
    owner and its manifest exactly, is seen for the first time, and no storage fault strikes.  Then the
    delivery is acknowledged, and whatever any worker does afterwards, in any order and under any
    faults: the run stays completed (partial when something was omitted) or failed; its on-demand
    operation is reported so; no event about the run, neither this one again nor another, changes
    anything; and a request for the result is answered, to the owner of the run, with the recap the
    event named under its digest (or the failure to read it from Knowledge), or with the class of the
    failure, and to everyone else with 404. *)
Theorem recap_delivered `{!ExternalLaws} `{!ReportLaws} `{!ApiLaws} language bytes e fact payload r w :
  reachable (w_db w) → able w → carries bytes e fact payload →
  runs (w_db w) !! fact_run fact = Some r → run_owner r = tenant_user (fact_owner fact) →
  run_state r = RunState.WaitingRecap →
  (∀ k m, manifests (w_db w) !! k = Some m → man_run m = fact_run fact → fact_matches fact r m) →
  ¬ seen (ie_id e) (fact_subject fact) (fact_key fact) (w_db w) → fact_fresh fact w →
  ∃ w1 id row,
    handle language (fact_route fact) bytes w = (Ok DeliveryDisposition.Ack, w1) ∧ evidenced fact id row ∧
    ∀ w2, rtc step (w_db w1) (w_db w2) →
      (∃ r', runs (w_db w2) !! fact_run fact = Some r' ∧
         run_state r' = Outcome.run_state (fact_outcome fact r)) ∧
      results (w_db w2) !! id = Some row ∧
      (run_trigger r = RunTrigger.OnDemand →
         reported (run_operation r) (fact_status fact r) (w_db w2)) ∧
      (∀ bytes' e' late payload', carries bytes' e' late payload' → fact_run late = fact_run fact →
         w_db (handle language (fact_route late) bytes' w2).2 = w_db w2) ∧
      ∀ rq owner path,
        calm w2 → bearer_holds state rq → owner_of rq = Some owner → path_uuid path = Some id →
        (router state client (V1 (Result path)) rq w2).1 = no_store
          (if decide (owner = run_owner r) then fact_response fact r id else status_response NOT_FOUND).
Proof.
  intros Hreach Ha Hc Hr Ho Hs Hmatch Hns Hnew.
  destruct (waiting_awaits _ _ _ Hreach Hr Hs) as (mid&m&Haw). rewrite Ho in Haw.
  pose proof (ca_sound _ _ _ _ Hc) as Hsound.
  destruct (fact_applied (ie_id e) fact payload r mid m w) as (w1&Hw); try done.
  { eapply Hmatch; apply Haw. }
  destruct (settled_stored _ _ _ _ _ _ Hw Hsound Hr) as (id&row&Hst).
  exists w1, id, row. pose proof (handle_fact language _ _ _ _ w Hc) as Hh. rewrite Hw in Hh.
  split_and!; [done|apply Hst|]. intros w2 Hsteps.
  apply (stored_kept _ _ _ _ _ (w_db w2)) in Hst; [|by apply steps_delta].
  split_and!; [apply Hst..| |].
  - intros bytes' e' late payload' Hlate Heq. destruct (st_run _ _ _ _ _ Hst) as (r'&Hr'&Hs').
    eapply late_fact; [done|by rewrite Heq|]. rewrite Hs'. apply outcome_terminal.
  - intros. eapply stored_answered; try done. rewrite /reachable. etrans; [exact Hreach|].
    pose proof (handle_steps language (fact_route fact) bytes w) as Hdelivery. rewrite Hh in Hdelivery.
    by etrans; [exact Hdelivery|].
Qed.
End Journey.

(** ** Witness *)

Module DemoJourney.
(** The waiting run of the trace, with identities of its own for the delivery. *)
Definition waiting : world := DemoProgress.resumed (w_db Trace.w5).

Lemma waiting_run_able : able waiting.
Proof. apply DemoProgress.able_resumed. vm_compute. reflexivity. Qed.

(** No result is stored yet. *)
Lemma waiting_results_fresh : fresh_in waiting (results (w_db waiting)).
Proof. intros n _. vm_compute. reflexivity. Qed.

Definition completed : recap_fact := Written (Demo.completed_fixture 0).
Definition failed : recap_fact := Refused Demo.failed_fixture.

Lemma completed_carried : @carries Demo.external DemoBus.bus "completed"
  (DemoBus.envelope 3 "knowledge.channel_digest_recap.completed.v1" KNOWLEDGE_PRODUCER "user:7")
  completed "completed".
Proof.
  split; [reflexivity..|]. split; [reflexivity|reflexivity|vm_compute; by eexists|by eexists|vm_compute; reflexivity|].
  apply Z.leb_le. vm_compute. reflexivity.
Qed.

Lemma failed_carried : @carries Demo.external DemoBus.bus "failed"
  (DemoBus.envelope 4 "knowledge.channel_digest_recap.failed.v1" KNOWLEDGE_PRODUCER "user:7") failed "failed".
Proof. split; [reflexivity..|]. by split. Qed.

(** Run 60 of owner 7 waits, asked for by a command, and a fact of the trace names its only manifest. *)
Lemma waiting_run : ∃ r, runs (w_db waiting) !! 60%N = Some r ∧ run_owner r = 7%N ∧
  run_state r = RunState.WaitingRecap ∧
  (∀ k m, manifests (w_db waiting) !! k = Some m → man_run m = 60%N →
     @fact_matches completed r m ∧ @fact_matches failed r m).
Proof.
  destruct (runs (w_db waiting) !! 60%N) as [r|] eqn:Hr; [|by vm_compute in Hr].
  exists r. vm_compute in Hr. injection Hr as <-. do 3 (split; [vm_compute; reflexivity|]).
  intros k m Hk _. apply elem_of_map_to_list in Hk. vm_compute in Hk.
  apply list_elem_of_singleton in Hk. injection Hk as -> ->. split; vm_compute; reflexivity.
Qed.
End DemoJourney.

(** The owner of the waiting run reads the recap; owner 8 does not.  With the failure instead, the run
    fails, and a completion that comes late changes nothing. *)
Lemma recap_delivered_witness :
  (∃ w1, @handle Demo.external DemoBus.bus OutputLanguage.En EVT_COMPLETED "completed" DemoJourney.waiting
      = (Ok DeliveryDisposition.Ack, w1) ∧
    rp_status (@router Demo.external DemoReader.http DemoBus.bus DemoApi.api DemoApi.state DemoReader.client
      (V1 (Result "80")) (DemoApi.request_of "") w1).1 = OK) ∧
  (∃ w1, @handle Demo.external DemoBus.bus OutputLanguage.En EVT_FAILED "failed" DemoJourney.waiting
      = (Ok DeliveryDisposition.Ack, w1) ∧
    w_db (@handle Demo.external DemoBus.bus OutputLanguage.En EVT_COMPLETED "completed" w1).2 = w_db w1).
Proof.
  destruct DemoJourney.waiting_run as (r&Hr&Ho&Hs&Hm). split.
  - destruct (@recap_delivered Demo.external DemoReader.http DemoBus.bus DemoApi.api DemoApi.state
      DemoReader.client Demo.laws DemoProgress.report_laws DemoApi.api_laws OutputLanguage.En "completed"
      (DemoBus.envelope 3 "knowledge.channel_digest_recap.completed.v1" KNOWLEDGE_PRODUCER "user:7")
      DemoJourney.completed "completed" r DemoJourney.waiting) as (w1&id&row&Hw&Hev&Hlater).
    + exact trace_waiting.
    + exact DemoJourney.waiting_run_able.
    + exact DemoJourney.completed_carried.
    + exact Hr.
    + rewrite Ho. vm_compute. reflexivity.
    + exact Hs.
    + intros k m Hk Hk'. exact (proj1 (Hm k m Hk Hk')).
    + apply not_true_iff_false. vm_compute. reflexivity.
    + vm_compute. reflexivity.
    + exists w1. split; [exact Hw|].
      destruct Hev as [-> _]. destruct (Hlater w1 (rtc_refl _ _)) as (_&_&_&_&Hread).
      rewrite (Hread (DemoApi.request_of "") 7%N "80"); [|..].
      * rewrite Ho. vm_compute. reflexivity.
      * apply (f_equal snd) in Hw. rewrite -[w1]/(snd (Ok (E:=Empty_set) DeliveryDisposition.Ack, w1)) -Hw. vm_compute. reflexivity.
      * vm_compute. reflexivity.
      * vm_compute. reflexivity.
      * vm_compute. reflexivity.
  - destruct (@recap_delivered Demo.external DemoReader.http DemoBus.bus DemoApi.api DemoApi.state
      DemoReader.client Demo.laws DemoProgress.report_laws DemoApi.api_laws OutputLanguage.En "failed"
      (DemoBus.envelope 4 "knowledge.channel_digest_recap.failed.v1" KNOWLEDGE_PRODUCER "user:7")
      DemoJourney.failed "failed" r DemoJourney.waiting) as (w1&id&row&Hw&_&Hlater).
    + exact trace_waiting.
    + exact DemoJourney.waiting_run_able.
    + exact DemoJourney.failed_carried.
    + exact Hr.
    + rewrite Ho. vm_compute. reflexivity.
    + exact Hs.
    + intros k m Hk Hk'. exact (proj2 (Hm k m Hk Hk')).
    + apply not_true_iff_false. vm_compute. reflexivity.
    + exact DemoJourney.waiting_results_fresh.
    + exists w1. split; [exact Hw|].
      destruct (Hlater w1 (rtc_refl _ _)) as (_&_&_&Hlate&_).
      exact (Hlate _ _ _ _ DemoJourney.completed_carried eq_refl).
Defined.
