(* ===== verification/Config.v ===== *)
(** * Config: [src/src/config.rs], the strict role-scoped configuration

    A process environment is a list of entries in the order the system gives them.  The grammars of
    socket addresses, URIs and log filters are those of the libraries that parse them. *)

From S2P Require Import Prelude Text External Store Registration Api.

Module Role.
Inductive t := Api | Worker.
#[export] Instance eq_dec : EqDecision t.
Proof. solve_decision. Defined.
End Role.
Export (hints) Role.

Module LogFormat.
Inductive t := Json | Pretty.
End LogFormat.

(** [std::net::SocketAddr], an address as its 32 or 128 bits. *)
Inductive ip_addr := V4 (bits : Z) | V6 (bits : Z).
Record socket_addr := SocketAddr { sa_ip : ip_addr; sa_port : Z }.

(** [http::Uri] *)
Record uri := Uri {
  uri_scheme : option string; uri_authority : option string; uri_path_and_query : option string }.

Class ConfigExternal := {
  parse_socket_addr : string → option socket_addr;
  parse_uri : string → option uri;
  env_filter_valid : string → bool;
}.

Definition DEFAULT_SCHEDULE_CRON : string := "0 6 * * *".
Definition DEFAULT_SCHEDULE_LANGUAGE : OutputLanguage.t := OutputLanguage.Ru.
Definition DEFAULT_LOG_FILTER : string := "info,hyper=warn,h2=warn,sqlx=warn".

Record config_error := ConfigError { ce_key : string; ce_reason : string }.

Record limits := Limits {
  lim_request_bytes : Z; lim_page_size : Z; lim_source_count : Z; lim_channel_count : Z;
  lim_source_bytes : Z; lim_retry_attempts : Z; lim_shutdown_timeout_ms : Z;
  lim_run_deadline_seconds : Z }.

Record telemetry_config := TelemetryConfig {
  tel_log_format : LogFormat.t; tel_log_filter : string }.

Record retention_config := RetentionConfig { ret_body_days : Z; ret_sweep_interval_seconds : Z }.

Record provider_config := ProviderConfig {
  pc_api_id : Z; pc_api_hash : string; pc_session_file : string; pc_session_key_file : string;
  pc_max_concurrency : Z }.

Record bus_config := BusConfig { bc_endpoint : string; bc_nkey_seed_path : option string }.

Record knowledge_config := KnowledgeConfig {
  kc_base_url : string; kc_service_secret : string; kc_connect_timeout_ms : Z;
  kc_request_timeout_ms : Z; kc_max_response_bytes : Z }.

Record database_config := DatabaseConfig {
  dc_url : string; dc_max_connections : Z; dc_acquire_timeout_ms : Z }.

Record config := Config {
  cfg_role : Role.t; cfg_database : database_config; cfg_api : socket_addr;
  cfg_operator : socket_addr; cfg_limits : limits; cfg_telemetry : telemetry_config;
  cfg_provider : option provider_config; cfg_bus : option bus_config;
  cfg_schedule : option schedule_config; cfg_retention : option retention_config;
  cfg_knowledge_result_reader : option knowledge_config; cfg_service_secret : string }.


(** ** The builder's state *)

Record builder := Builder {
  b_role : Role.t;
  b_database_url : option string;
  b_service_secret : option string;
  b_provider_api_id : option Z;
  b_provider_api_hash : option string;
  b_session_file : option string;
  b_session_key_file : option string;
  b_bus_endpoint : option string;
  b_bus_nkey_seed_path : option string;
  b_schedule_owner : option uuid;
  b_schedule_cron : option string;
  b_schedule_enabled : option bool;
  b_schedule_language : option OutputLanguage.t;
  b_retention : retention_config;
  b_knowledge_base_url : option string;
  b_knowledge_secret : option string;
  b_knowledge_connect_timeout_ms : option Z;
  b_knowledge_request_timeout_ms : option Z;
  b_knowledge_max_response_bytes : option Z;
  b_api_listen_address : socket_addr;
  b_operator_listen_address : socket_addr;
  b_limits : limits;
  b_telemetry : telemetry_config }.

(** ** Assignments to one field *)

Definition set_lim_request_bytes x b :=
    Limits x (lim_page_size b) (lim_source_count b) (lim_channel_count b) (lim_source_bytes b)
    (lim_retry_attempts b) (lim_shutdown_timeout_ms b) (lim_run_deadline_seconds b).

Definition set_lim_page_size x b :=
    Limits (lim_request_bytes b) x (lim_source_count b) (lim_channel_count b) (lim_source_bytes b)
    (lim_retry_attempts b) (lim_shutdown_timeout_ms b) (lim_run_deadline_seconds b).

Definition set_lim_source_count x b :=
    Limits (lim_request_bytes b) (lim_page_size b) x (lim_channel_count b) (lim_source_bytes b)
    (lim_retry_attempts b) (lim_shutdown_timeout_ms b) (lim_run_deadline_seconds b).

Definition set_lim_channel_count x b :=
    Limits (lim_request_bytes b) (lim_page_size b) (lim_source_count b) x (lim_source_bytes b)
    (lim_retry_attempts b) (lim_shutdown_timeout_ms b) (lim_run_deadline_seconds b).

Definition set_lim_source_bytes x b :=
    Limits (lim_request_bytes b) (lim_page_size b) (lim_source_count b) (lim_channel_count b) x
    (lim_retry_attempts b) (lim_shutdown_timeout_ms b) (lim_run_deadline_seconds b).

Definition set_lim_retry_attempts x b :=
    Limits (lim_request_bytes b) (lim_page_size b) (lim_source_count b) (lim_channel_count b)
    (lim_source_bytes b) x (lim_shutdown_timeout_ms b) (lim_run_deadline_seconds b).

Definition set_lim_shutdown_timeout_ms x b :=
    Limits (lim_request_bytes b) (lim_page_size b) (lim_source_count b) (lim_channel_count b)
    (lim_source_bytes b) (lim_retry_attempts b) x (lim_run_deadline_seconds b).

Definition set_lim_run_deadline_seconds x b :=
    Limits (lim_request_bytes b) (lim_page_size b) (lim_source_count b) (lim_channel_count b)
    (lim_source_bytes b) (lim_retry_attempts b) (lim_shutdown_timeout_ms b) x.

Definition set_b_database_url x b :=
    Builder (b_role b) x (b_service_secret b) (b_provider_api_id b) (b_provider_api_hash b)
    (b_session_file b) (b_session_key_file b) (b_bus_endpoint b) (b_bus_nkey_seed_path b)
    (b_schedule_owner b) (b_schedule_cron b) (b_schedule_enabled b) (b_schedule_language b)
    (b_retention b) (b_knowledge_base_url b) (b_knowledge_secret b)
    (b_knowledge_connect_timeout_ms b) (b_knowledge_request_timeout_ms b)
    (b_knowledge_max_response_bytes b) (b_api_listen_address b) (b_operator_listen_address b)
    (b_limits b) (b_telemetry b).

Definition set_b_service_secret x b :=
    Builder (b_role b) (b_database_url b) x (b_provider_api_id b) (b_provider_api_hash b)
    (b_session_file b) (b_session_key_file b) (b_bus_endpoint b) (b_bus_nkey_seed_path b)
    (b_schedule_owner b) (b_schedule_cron b) (b_schedule_enabled b) (b_schedule_language b)
    (b_retention b) (b_knowledge_base_url b) (b_knowledge_secret b)
    (b_knowledge_connect_timeout_ms b) (b_knowledge_request_timeout_ms b)
    (b_knowledge_max_response_bytes b) (b_api_listen_address b) (b_operator_listen_address b)
    (b_limits b) (b_telemetry b).

Definition set_b_provider_api_id x b :=
    Builder (b_role b) (b_database_url b) (b_service_secret b) x (b_provider_api_hash b)
    (b_session_file b) (b_session_key_file b) (b_bus_endpoint b) (b_bus_nkey_seed_path b)
    (b_schedule_owner b) (b_schedule_cron b) (b_schedule_enabled b) (b_schedule_language b)
    (b_retention b) (b_knowledge_base_url b) (b_knowledge_secret b)
    (b_knowledge_connect_timeout_ms b) (b_knowledge_request_timeout_ms b)
    (b_knowledge_max_response_bytes b) (b_api_listen_address b) (b_operator_listen_address b)
    (b_limits b) (b_telemetry b).

Definition set_b_provider_api_hash x b :=
    Builder (b_role b) (b_database_url b) (b_service_secret b) (b_provider_api_id b) x
    (b_session_file b) (b_session_key_file b) (b_bus_endpoint b) (b_bus_nkey_seed_path b)
    (b_schedule_owner b) (b_schedule_cron b) (b_schedule_enabled b) (b_schedule_language b)
    (b_retention b) (b_knowledge_base_url b) (b_knowledge_secret b)
    (b_knowledge_connect_timeout_ms b) (b_knowledge_request_timeout_ms b)
    (b_knowledge_max_response_bytes b) (b_api_listen_address b) (b_operator_listen_address b)
    (b_limits b) (b_telemetry b).

Definition set_b_session_file x b :=
    Builder (b_role b) (b_database_url b) (b_service_secret b) (b_provider_api_id b)
    (b_provider_api_hash b) x (b_session_key_file b) (b_bus_endpoint b) (b_bus_nkey_seed_path b)
    (b_schedule_owner b) (b_schedule_cron b) (b_schedule_enabled b) (b_schedule_language b)
    (b_retention b) (b_knowledge_base_url b) (b_knowledge_secret b)
    (b_knowledge_connect_timeout_ms b) (b_knowledge_request_timeout_ms b)
    (b_knowledge_max_response_bytes b) (b_api_listen_address b) (b_operator_listen_address b)
    (b_limits b) (b_telemetry b).

Definition set_b_session_key_file x b :=
    Builder (b_role b) (b_database_url b) (b_service_secret b) (b_provider_api_id b)
    (b_provider_api_hash b) (b_session_file b) x (b_bus_endpoint b) (b_bus_nkey_seed_path b)
    (b_schedule_owner b) (b_schedule_cron b) (b_schedule_enabled b) (b_schedule_language b)
    (b_retention b) (b_knowledge_base_url b) (b_knowledge_secret b)
    (b_knowledge_connect_timeout_ms b) (b_knowledge_request_timeout_ms b)
    (b_knowledge_max_response_bytes b) (b_api_listen_address b) (b_operator_listen_address b)
    (b_limits b) (b_telemetry b).

Definition set_b_bus_endpoint x b :=
    Builder (b_role b) (b_database_url b) (b_service_secret b) (b_provider_api_id b)
    (b_provider_api_hash b) (b_session_file b) (b_session_key_file b) x (b_bus_nkey_seed_path b)
    (b_schedule_owner b) (b_schedule_cron b) (b_schedule_enabled b) (b_schedule_language b)
    (b_retention b) (b_knowledge_base_url b) (b_knowledge_secret b)
    (b_knowledge_connect_timeout_ms b) (b_knowledge_request_timeout_ms b)
    (b_knowledge_max_response_bytes b) (b_api_listen_address b) (b_operator_listen_address b)
    (b_limits b) (b_telemetry b).

Definition set_b_bus_nkey_seed_path x b :=
    Builder (b_role b) (b_database_url b) (b_service_secret b) (b_provider_api_id b)
    (b_provider_api_hash b) (b_session_file b) (b_session_key_file b) (b_bus_endpoint b) x
    (b_schedule_owner b) (b_schedule_cron b) (b_schedule_enabled b) (b_schedule_language b)
    (b_retention b) (b_knowledge_base_url b) (b_knowledge_secret b)
    (b_knowledge_connect_timeout_ms b) (b_knowledge_request_timeout_ms b)
    (b_knowledge_max_response_bytes b) (b_api_listen_address b) (b_operator_listen_address b)
    (b_limits b) (b_telemetry b).

Definition set_b_schedule_owner x b :=
    Builder (b_role b) (b_database_url b) (b_service_secret b) (b_provider_api_id b)
    (b_provider_api_hash b) (b_session_file b) (b_session_key_file b) (b_bus_endpoint b)
    (b_bus_nkey_seed_path b) x (b_schedule_cron b) (b_schedule_enabled b) (b_schedule_language b)
    (b_retention b) (b_knowledge_base_url b) (b_knowledge_secret b)
    (b_knowledge_connect_timeout_ms b) (b_knowledge_request_timeout_ms b)
    (b_knowledge_max_response_bytes b) (b_api_listen_address b) (b_operator_listen_address b)
    (b_limits b) (b_telemetry b).

Definition set_b_schedule_cron x b :=
    Builder (b_role b) (b_database_url b) (b_service_secret b) (b_provider_api_id b)
    (b_provider_api_hash b) (b_session_file b) (b_session_key_file b) (b_bus_endpoint b)
    (b_bus_nkey_seed_path b) (b_schedule_owner b) x (b_schedule_enabled b) (b_schedule_language b)
    (b_retention b) (b_knowledge_base_url b) (b_knowledge_secret b)
    (b_knowledge_connect_timeout_ms b) (b_knowledge_request_timeout_ms b)
    (b_knowledge_max_response_bytes b) (b_api_listen_address b) (b_operator_listen_address b)
    (b_limits b) (b_telemetry b).

Definition set_b_schedule_enabled x b :=
    Builder (b_role b) (b_database_url b) (b_service_secret b) (b_provider_api_id b)
    (b_provider_api_hash b) (b_session_file b) (b_session_key_file b) (b_bus_endpoint b)
    (b_bus_nkey_seed_path b) (b_schedule_owner b) (b_schedule_cron b) x (b_schedule_language b)
    (b_retention b) (b_knowledge_base_url b) (b_knowledge_secret b)
    (b_knowledge_connect_timeout_ms b) (b_knowledge_request_timeout_ms b)
    (b_knowledge_max_response_bytes b) (b_api_listen_address b) (b_operator_listen_address b)
    (b_limits b) (b_telemetry b).

Definition set_b_schedule_language x b :=
    Builder (b_role b) (b_database_url b) (b_service_secret b) (b_provider_api_id b)
    (b_provider_api_hash b) (b_session_file b) (b_session_key_file b) (b_bus_endpoint b)
    (b_bus_nkey_seed_path b) (b_schedule_owner b) (b_schedule_cron b) (b_schedule_enabled b) x
    (b_retention b) (b_knowledge_base_url b) (b_knowledge_secret b)
    (b_knowledge_connect_timeout_ms b) (b_knowledge_request_timeout_ms b)
    (b_knowledge_max_response_bytes b) (b_api_listen_address b) (b_operator_listen_address b)
    (b_limits b) (b_telemetry b).

Definition set_b_retention x b :=
    Builder (b_role b) (b_database_url b) (b_service_secret b) (b_provider_api_id b)
    (b_provider_api_hash b) (b_session_file b) (b_session_key_file b) (b_bus_endpoint b)
    (b_bus_nkey_seed_path b) (b_schedule_owner b) (b_schedule_cron b) (b_schedule_enabled b)
    (b_schedule_language b) x (b_knowledge_base_url b) (b_knowledge_secret b)
    (b_knowledge_connect_timeout_ms b) (b_knowledge_request_timeout_ms b)
    (b_knowledge_max_response_bytes b) (b_api_listen_address b) (b_operator_listen_address b)
    (b_limits b) (b_telemetry b).

Definition set_b_knowledge_base_url x b :=
    Builder (b_role b) (b_database_url b) (b_service_secret b) (b_provider_api_id b)
    (b_provider_api_hash b) (b_session_file b) (b_session_key_file b) (b_bus_endpoint b)
    (b_bus_nkey_seed_path b) (b_schedule_owner b) (b_schedule_cron b) (b_schedule_enabled b)
    (b_schedule_language b) (b_retention b) x (b_knowledge_secret b)
    (b_knowledge_connect_timeout_ms b) (b_knowledge_request_timeout_ms b)
    (b_knowledge_max_response_bytes b) (b_api_listen_address b) (b_operator_listen_address b)
    (b_limits b) (b_telemetry b).

Definition set_b_knowledge_secret x b :=
    Builder (b_role b) (b_database_url b) (b_service_secret b) (b_provider_api_id b)
    (b_provider_api_hash b) (b_session_file b) (b_session_key_file b) (b_bus_endpoint b)
    (b_bus_nkey_seed_path b) (b_schedule_owner b) (b_schedule_cron b) (b_schedule_enabled b)
    (b_schedule_language b) (b_retention b) (b_knowledge_base_url b) x
    (b_knowledge_connect_timeout_ms b) (b_knowledge_request_timeout_ms b)
    (b_knowledge_max_response_bytes b) (b_api_listen_address b) (b_operator_listen_address b)
    (b_limits b) (b_telemetry b).

Definition set_b_knowledge_connect_timeout_ms x b :=
    Builder (b_role b) (b_database_url b) (b_service_secret b) (b_provider_api_id b)
    (b_provider_api_hash b) (b_session_file b) (b_session_key_file b) (b_bus_endpoint b)
    (b_bus_nkey_seed_path b) (b_schedule_owner b) (b_schedule_cron b) (b_schedule_enabled b)
    (b_schedule_language b) (b_retention b) (b_knowledge_base_url b) (b_knowledge_secret b) x
    (b_knowledge_request_timeout_ms b) (b_knowledge_max_response_bytes b) (b_api_listen_address b)
    (b_operator_listen_address b) (b_limits b) (b_telemetry b).

Definition set_b_knowledge_request_timeout_ms x b :=
    Builder (b_role b) (b_database_url b) (b_service_secret b) (b_provider_api_id b)
    (b_provider_api_hash b) (b_session_file b) (b_session_key_file b) (b_bus_endpoint b)
    (b_bus_nkey_seed_path b) (b_schedule_owner b) (b_schedule_cron b) (b_schedule_enabled b)
    (b_schedule_language b) (b_retention b) (b_knowledge_base_url b) (b_knowledge_secret b)
    (b_knowledge_connect_timeout_ms b) x (b_knowledge_max_response_bytes b) (b_api_listen_address
    b) (b_operator_listen_address b) (b_limits b) (b_telemetry b).

Definition set_b_knowledge_max_response_bytes x b :=
    Builder (b_role b) (b_database_url b) (b_service_secret b) (b_provider_api_id b)
    (b_provider_api_hash b) (b_session_file b) (b_session_key_file b) (b_bus_endpoint b)
    (b_bus_nkey_seed_path b) (b_schedule_owner b) (b_schedule_cron b) (b_schedule_enabled b)
    (b_schedule_language b) (b_retention b) (b_knowledge_base_url b) (b_knowledge_secret b)
    (b_knowledge_connect_timeout_ms b) (b_knowledge_request_timeout_ms b) x (b_api_listen_address
    b) (b_operator_listen_address b) (b_limits b) (b_telemetry b).

Definition set_b_api_listen_address x b :=
    Builder (b_role b) (b_database_url b) (b_service_secret b) (b_provider_api_id b)
    (b_provider_api_hash b) (b_session_file b) (b_session_key_file b) (b_bus_endpoint b)
    (b_bus_nkey_seed_path b) (b_schedule_owner b) (b_schedule_cron b) (b_schedule_enabled b)
    (b_schedule_language b) (b_retention b) (b_knowledge_base_url b) (b_knowledge_secret b)
    (b_knowledge_connect_timeout_ms b) (b_knowledge_request_timeout_ms b)
    (b_knowledge_max_response_bytes b) x (b_operator_listen_address b) (b_limits b) (b_telemetry
    b).

Definition set_b_operator_listen_address x b :=
    Builder (b_role b) (b_database_url b) (b_service_secret b) (b_provider_api_id b)
    (b_provider_api_hash b) (b_session_file b) (b_session_key_file b) (b_bus_endpoint b)
    (b_bus_nkey_seed_path b) (b_schedule_owner b) (b_schedule_cron b) (b_schedule_enabled b)
    (b_schedule_language b) (b_retention b) (b_knowledge_base_url b) (b_knowledge_secret b)
    (b_knowledge_connect_timeout_ms b) (b_knowledge_request_timeout_ms b)
    (b_knowledge_max_response_bytes b) (b_api_listen_address b) x (b_limits b) (b_telemetry b).

Definition set_b_limits x b :=
    Builder (b_role b) (b_database_url b) (b_service_secret b) (b_provider_api_id b)
    (b_provider_api_hash b) (b_session_file b) (b_session_key_file b) (b_bus_endpoint b)
    (b_bus_nkey_seed_path b) (b_schedule_owner b) (b_schedule_cron b) (b_schedule_enabled b)
    (b_schedule_language b) (b_retention b) (b_knowledge_base_url b) (b_knowledge_secret b)
    (b_knowledge_connect_timeout_ms b) (b_knowledge_request_timeout_ms b)
    (b_knowledge_max_response_bytes b) (b_api_listen_address b) (b_operator_listen_address b) x
    (b_telemetry b).

Definition set_b_telemetry x b :=
    Builder (b_role b) (b_database_url b) (b_service_secret b) (b_provider_api_id b)
    (b_provider_api_hash b) (b_session_file b) (b_session_key_file b) (b_bus_endpoint b)
    (b_bus_nkey_seed_path b) (b_schedule_owner b) (b_schedule_cron b) (b_schedule_enabled b)
    (b_schedule_language b) (b_retention b) (b_knowledge_base_url b) (b_knowledge_secret b)
    (b_knowledge_connect_timeout_ms b) (b_knowledge_request_timeout_ms b)
    (b_knowledge_max_response_bytes b) (b_api_listen_address b) (b_operator_listen_address b)
    (b_limits b) x.

(** ** Values *)

Abbreviation config_result := (result config_error).

Definition digit_of (c : Ascii.ascii) : option Z :=
  if in_range 48 57 c then Some (Z.of_N (byte_of c) - 48) else None.

Fixpoint digits (acc : Z) (s : string) : option Z :=
  match s with
  | EmptyString => Some acc
  | String c s' => d ← digit_of c; digits (10 * acc + d) s'
  end.

(** [str::parse] of an integer type with the given range: one sign at most, then digits. *)
Definition parse_integer (lowest highest : Z) (s : string) : option Z :=
  n ← match s with
      | EmptyString => None
      | String c s' =>
          if (byte_of c =? 43)%N then (if bool_decide (s' = EmptyString) then None else digits 0 s')
          else if (byte_of c =? 45)%N && (lowest <? 0)
          then (if bool_decide (s' = EmptyString) then None else Z.opp <$> digits 0 s')
          else digits 0 s
      end;
  if (lowest <=? n) && (n <=? highest) then Some n else None.

Definition u32_max : Z := 2 ^ 32 - 1.
Definition u64_max : Z := 2 ^ 64 - 1.
Definition i32_max : Z := 2 ^ 31 - 1.

(** [parse_positive::<i32>] *)
Definition parse_positive (key value : string) : config_result Z :=
  parsed ← ok_or (ConfigError key "must be a positive integer")
             (parse_integer (- 2 ^ 31) i32_max value);
  if 0 <? parsed then Ok parsed else Err (ConfigError key "must be a positive integer").

(** [parse_range] at an unsigned type with the given largest value. *)
Definition parse_range (highest : Z) (key value : string) (minimum maximum : Z) : config_result Z :=
  parsed ← ok_or (ConfigError key "is outside the finite range") (parse_integer 0 highest value);
  if (minimum <=? parsed) && (parsed <=? maximum) then Ok parsed
  else Err (ConfigError key "is outside the finite range").

Definition nonempty (key value : string) : config_result string :=
  if bool_decide (value = EmptyString) then Err (ConfigError key "must not be empty") else Ok value.

Definition nonempty_secret (key value : string) : config_result string := nonempty key value.

Definition bounded_secret (key value : string) (maximum_bytes : Z) : config_result string :=
  value ← nonempty key value;
  if byte_len value <=? maximum_bytes then Ok value
  else Err (ConfigError key "exceeds the finite byte limit").

(** [Path::is_absolute] on a Unix path *)
Definition is_absolute (path : string) : bool := String.prefix "/" path.

Definition absolute_path (key value : string) : config_result string :=
  if is_absolute value then Ok value else Err (ConfigError key "must be an absolute path").

Definition parse_bool (key value : string) : config_result bool :=
  if bool_decide (value = "true") then Ok true
  else if bool_decide (value = "false") then Ok false
  else Err (ConfigError key "must be true or false").

Definition parse_language (key value : string) : config_result OutputLanguage.t :=
  if bool_decide (value = "ru") then Ok OutputLanguage.Ru
  else if bool_decide (value = "en") then Ok OutputLanguage.En
  else Err (ConfigError key "must be ru or en").

Definition parse_log_format (key value : string) : config_result LogFormat.t :=
  if bool_decide (value = "json") then Ok LogFormat.Json
  else if bool_decide (value = "pretty") then Ok LogFormat.Pretty
  else Err (ConfigError key "must be json or pretty").

(** [IpAddr::is_loopback]: 127.0.0.0/8, or ::1. *)
Definition is_loopback (ip : ip_addr) : bool :=
  match ip with V4 bits => Z.shiftr bits 24 =? 127 | V6 bits => bits =? 1 end.

Definition required {A} (value : option A) (key : string) : config_result A :=
  ok_or (ConfigError key "is required") value.

Section Values.
Context `{ConfigExternal}.

Definition parse_log_filter (key value : string) : config_result string :=
  filter ← nonempty key value;
  if env_filter_valid filter then Ok value
  else Err (ConfigError key "must be a valid log filter directive string").

Definition parse_loopback_address (key value : string) : config_result socket_addr :=
  address ← ok_or (ConfigError key "must be a loopback socket address") (parse_socket_addr value);
  if is_loopback (sa_ip address) && negb (sa_port address =? 0) then Ok address
  else Err (ConfigError key "must be a loopback socket address").

Definition loopback_http_base_url (key value : string) : config_result string :=
  let refused := ConfigError key "must be a loopback HTTP origin" in
  uri ← ok_or refused (parse_uri value);
  authority ← ok_or refused (uri_authority uri);
  address ← ok_or refused (parse_socket_addr authority);
  let path_is_origin :=
    match uri_path_and_query uri with Some path => bool_decide (path = "/") | None => true end in
  if bool_decide (uri_scheme uri = Some "http") && is_loopback (sa_ip address)
     && negb (sa_port address =? 0) && path_is_origin
  then Ok ("http://" +:+ authority)%string else Err refused.
End Values.

(** [TelemetryConfig::default] *)
Definition telemetry_default : telemetry_config := TelemetryConfig LogFormat.Json DEFAULT_LOG_FILTER.

(** ** The builder *)

Section Build.
Context `{External} `{ApiExternal} `{ConfigExternal}.

Definition loopback_v4 : ip_addr := V4 (127 * 2 ^ 24 + 1).

(** [Builder::new] *)
Definition builder_new (role : Role.t) : builder :=
  Builder role None None None None None None None None None None None None
    (RetentionConfig 30 3600) None None None None None
    (SocketAddr loopback_v4 8098)
    (SocketAddr loopback_v4 (if bool_decide (role = Role.Api) then 9469 else 9470))
    (Limits 262144 100 100 20 16384 3 120000 1800)
    telemetry_default.

(** [Builder::apply_limit] *)
Definition apply_limit (b : builder) (key value : string) : config_result builder :=
  let l := b_limits b in
  let set (f : Z → limits → limits) (n : config_result Z) : config_result builder :=
    x ← n; Ok (set_b_limits (f x l) b) in
  if bool_decide (key = "RATATOSKR__LIMITS__REQUEST_BYTES")
  then set set_lim_request_bytes (parse_range u64_max key value 1 1048576)
  else if bool_decide (key = "RATATOSKR__LIMITS__PAGE_SIZE")
  then set set_lim_page_size (parse_range u64_max key value 1 100)
  else if bool_decide (key = "RATATOSKR__LIMITS__SOURCE_COUNT")
  then set set_lim_source_count (parse_range u64_max key value 1 100)
  else if bool_decide (key = "RATATOSKR__LIMITS__CHANNEL_COUNT")
  then set set_lim_channel_count (parse_range u64_max key value 1 20)
  else if bool_decide (key = "RATATOSKR__LIMITS__SOURCE_BYTES")
  then set set_lim_source_bytes (parse_range u64_max key value 1 16384)
  else if bool_decide (key = "RATATOSKR__LIMITS__RETRY_ATTEMPTS")
  then set set_lim_retry_attempts (parse_range u32_max key value 1 10)
  else if bool_decide (key = "RATATOSKR__LIMITS__RUN_DEADLINE_SECONDS")
  then set set_lim_run_deadline_seconds (parse_range u64_max key value 60 86400)
  else if bool_decide (key = "RATATOSKR__LIMITS__SHUTDOWN_TIMEOUT_MS")
  then set set_lim_shutdown_timeout_ms (parse_range u64_max key value 1 130000)
  else Err (ConfigError key "is not recognized for this role").

(** [Builder::apply] *)
Definition apply (b : builder) (key value : string) : config_result builder :=
  let worker := bool_decide (b_role b = Role.Worker) in
  let api := bool_decide (b_role b = Role.Api) in
  if bool_decide (key = "RATATOSKR__DATABASE__URL")
  then x ← nonempty_secret key value; Ok (set_b_database_url (Some x) b)
  else if bool_decide (key = "RATATOSKR__AUTH__SERVICE_SECRET")
  then x ← nonempty_secret key value; Ok (set_b_service_secret (Some x) b)
  else if bool_decide (key = "RATATOSKR__PROVIDER__API_ID") && worker
  then x ← parse_positive key value; Ok (set_b_provider_api_id (Some x) b)
  else if bool_decide (key = "RATATOSKR__PROVIDER__API_HASH") && worker
  then x ← nonempty_secret key value; Ok (set_b_provider_api_hash (Some x) b)
  else if bool_decide (key = "RATATOSKR__PROVIDER__SESSION_FILE") && worker
  then x ← absolute_path key value; Ok (set_b_session_file (Some x) b)
  else if bool_decide (key = "RATATOSKR__PROVIDER__SESSION_KEY_FILE") && worker
  then x ← absolute_path key value; Ok (set_b_session_key_file (Some x) b)
  else if bool_decide (key = "RATATOSKR__BUS__ENDPOINT") && worker
  then x ← nonempty key value; Ok (set_b_bus_endpoint (Some x) b)
  else if bool_decide (key = "RATATOSKR__BUS__NKEY_SEED_PATH") && worker
  then x ← absolute_path key value; Ok (set_b_bus_nkey_seed_path (Some x) b)
  else if bool_decide (key = "RATATOSKR__SCHEDULE__OWNER_USER_ID") && worker
  then x ← ok_or (ConfigError key "must be a canonical user UUID") (parse_user_id value);
       Ok (set_b_schedule_owner (Some x) b)
  else if bool_decide (key = "RATATOSKR__SCHEDULE__CRON") && worker
  then x ← ok_or (ConfigError key "must be a five-field UTC cron expression") (parse_cron value);
       Ok (set_b_schedule_cron (Some x) b)
  else if bool_decide (key = "RATATOSKR__SCHEDULE__ENABLED") && worker
  then x ← parse_bool key value; Ok (set_b_schedule_enabled (Some x) b)
  else if bool_decide (key = "RATATOSKR__SCHEDULE__OUTPUT_LANGUAGE") && worker
  then x ← parse_language key value; Ok (set_b_schedule_language (Some x) b)
  else if bool_decide (key = "RATATOSKR__RETENTION__BODY_DAYS") && worker
  then x ← parse_range u32_max key value 8 3650;
       Ok (set_b_retention (RetentionConfig x (ret_sweep_interval_seconds (b_retention b))) b)
  else if bool_decide (key = "RATATOSKR__RETENTION__SWEEP_INTERVAL_SECONDS") && worker
  then x ← parse_range u64_max key value 60 86400;
       Ok (set_b_retention (RetentionConfig (ret_body_days (b_retention b)) x) b)
  else if bool_decide (key = "RATATOSKR__KNOWLEDGE__BASE_URL") && api
  then x ← loopback_http_base_url key value; Ok (set_b_knowledge_base_url (Some x) b)
  else if bool_decide (key = "RATATOSKR__KNOWLEDGE__RESULT_READER_SERVICE_SECRET") && api
  then x ← bounded_secret key value 4096; Ok (set_b_knowledge_secret (Some x) b)
  else if bool_decide (key = "RATATOSKR__KNOWLEDGE__CONNECT_TIMEOUT_MS") && api
  then x ← parse_range u64_max key value 1 10000;
       Ok (set_b_knowledge_connect_timeout_ms (Some x) b)
  else if bool_decide (key = "RATATOSKR__KNOWLEDGE__REQUEST_TIMEOUT_MS") && api
  then x ← parse_range u64_max key value 1 30000;
       Ok (set_b_knowledge_request_timeout_ms (Some x) b)
  else if bool_decide (key = "RATATOSKR__KNOWLEDGE__MAX_RESPONSE_BYTES") && api
  then x ← parse_range u64_max key value 1 65536;
       Ok (set_b_knowledge_max_response_bytes (Some x) b)
  else if bool_decide (key = "RATATOSKR__API__LISTEN_ADDRESS") && api
  then x ← parse_loopback_address key value; Ok (set_b_api_listen_address x b)
  else if bool_decide (key = "RATATOSKR__OPERATOR__LISTEN_ADDRESS")
  then x ← parse_loopback_address key value; Ok (set_b_operator_listen_address x b)
  else if bool_decide (key = "RATATOSKR__TELEMETRY__LOG_FORMAT")
  then x ← parse_log_format key value;
       Ok (set_b_telemetry (TelemetryConfig x (tel_log_filter (b_telemetry b))) b)
  else if bool_decide (key = "RATATOSKR__TELEMETRY__LOG_FILTER")
  then x ← parse_log_filter key value;
       Ok (set_b_telemetry (TelemetryConfig (tel_log_format (b_telemetry b)) x) b)
  else apply_limit b key value.

(** [Builder::schedule] *)
Definition schedule (b : builder) : config_result (option schedule_config) :=
  match b_schedule_owner b with
  | None =>
      if bool_decide (is_Some (b_schedule_cron b)) || bool_decide (is_Some (b_schedule_enabled b))
         || bool_decide (is_Some (b_schedule_language b))
      then Err (ConfigError "RATATOSKR__SCHEDULE__OWNER_USER_ID" "is required")
      else Ok None
  | Some owner_user_id =>
      Ok (Some (ScheduleConfig owner_user_id (default DEFAULT_SCHEDULE_CRON (b_schedule_cron b))
                  (default true (b_schedule_enabled b))
                  (default DEFAULT_SCHEDULE_LANGUAGE (b_schedule_language b))))
  end.

(** The API arm of [Builder::finish]. *)
Definition finish_api (b : builder) : config_result knowledge_config :=
  connect_timeout_ms ← required (b_knowledge_connect_timeout_ms b)
                         "RATATOSKR__KNOWLEDGE__CONNECT_TIMEOUT_MS";
  request_timeout_ms ← required (b_knowledge_request_timeout_ms b)
                         "RATATOSKR__KNOWLEDGE__REQUEST_TIMEOUT_MS";
  if request_timeout_ms <? connect_timeout_ms
  then Err (ConfigError "RATATOSKR__KNOWLEDGE__CONNECT_TIMEOUT_MS"
              "must not exceed the request timeout")
  else
    base_url ← required (b_knowledge_base_url b) "RATATOSKR__KNOWLEDGE__BASE_URL";
    secret ← required (b_knowledge_secret b) "RATATOSKR__KNOWLEDGE__RESULT_READER_SERVICE_SECRET";
    max_response_bytes ← required (b_knowledge_max_response_bytes b)
                           "RATATOSKR__KNOWLEDGE__MAX_RESPONSE_BYTES";
    Ok (KnowledgeConfig base_url secret connect_timeout_ms request_timeout_ms max_response_bytes).

(** The worker arm of [Builder::finish]. *)
Definition finish_worker (b : builder) : config_result (provider_config * bus_config) :=
  api_id ← required (b_provider_api_id b) "RATATOSKR__PROVIDER__API_ID";
  api_hash ← required (b_provider_api_hash b) "RATATOSKR__PROVIDER__API_HASH";
  session_file ← required (b_session_file b) "RATATOSKR__PROVIDER__SESSION_FILE";
  session_key_file ← required (b_session_key_file b) "RATATOSKR__PROVIDER__SESSION_KEY_FILE";
  endpoint ← required (b_bus_endpoint b) "RATATOSKR__BUS__ENDPOINT";
  Ok (ProviderConfig api_id api_hash session_file session_key_file 2,
      BusConfig endpoint (b_bus_nkey_seed_path b)).

(** [Builder::finish] *)
Definition finish (b : builder) : config_result config :=
  schedule ← schedule b;
  database_url ← required (b_database_url b) "RATATOSKR__DATABASE__URL";
  service_secret ← required (b_service_secret b) "RATATOSKR__AUTH__SERVICE_SECRET";
  '(provider, bus, reader) ←
    match b_role b with
    | Role.Api => k ← finish_api b; Ok (None, None, Some k)
    | Role.Worker => pb ← finish_worker b; Ok (Some pb.1, Some pb.2, None)
    end;
  Ok (Config (b_role b) (DatabaseConfig database_url 8 5000) (b_api_listen_address b)
        (b_operator_listen_address b) (b_limits b) (b_telemetry b) provider bus schedule
        (if bool_decide (b_role b = Role.Worker) then Some (b_retention b) else None)
        reader service_secret).

(** The loop of [Config::from_environment]. *)
Fixpoint apply_all (b : builder) (entries : list (string * string)) : config_result builder :=
  match entries with
  | [] => Ok b
  | (key, value) :: rest =>
      if String.prefix "RATATOSKR__" key
      then b ← apply b key value; apply_all b rest
      else apply_all b rest
  end.

(** [Config::from_environment] *)
Definition from_environment (role : Role.t) (entries : list (string * string))
    : config_result config :=
  b ← apply_all (builder_new role) entries; finish b.
End Build.
