(* ===== verification/ConfigSpec.v ===== *)
(** * ConfigSpec: which environments are accepted, and what an accepted configuration guarantees *)

From Stdlib Require Import DecimalString DecimalZ DecimalPos.
From S2P Require Import Prelude Text External Store Demo Registration Api ApiSpec Config.

(** ** Values that passed *)

(** Decimal digits read back as the number they write. *)
Lemma digits_acc d p : digits (Z.pos p) (NilEmpty.string_of_uint d) = Some (Z.pos (Pos.of_uint_acc d p)).
Proof.
  revert p. induction d as [|d IH|d IH|d IH|d IH|d IH|d IH|d IH|d IH|d IH|d IH]; intros p;
    cbn [NilEmpty.string_of_uint digits Pos.of_uint_acc]; [done|..]; rewrite -IH.
  all: match goal with |- context [digit_of ?c] => let v := eval vm_compute in (digit_of c) in change (digit_of c) with v end.
  all: cbn [mbind option_bind]; f_equal; lia.
Qed.

Lemma digits_uint d : digits 0 (NilEmpty.string_of_uint d) = Some (Z.of_uint d).
Proof.
  rewrite /Z.of_uint. induction d as [|d IH|d|d|d|d|d|d|d|d|d]; cbn [NilEmpty.string_of_uint digits Pos.of_uint]; [done| |..].
  - exact IH.
  - exact (digits_acc d 1).
  - exact (digits_acc d 2).
  - exact (digits_acc d 3).
  - exact (digits_acc d 4).
  - exact (digits_acc d 5).
  - exact (digits_acc d 6).
  - exact (digits_acc d 7).
  - exact (digits_acc d 8).
  - exact (digits_acc d 9).
Qed.

Lemma digits_text p : digits 0 (NilZero.string_of_uint (Pos.to_uint p)) = Some (Z.pos p).
Proof.
  pose proof (digits_uint (Pos.to_uint p)) as Hd. pose proof (DecimalZ.of_to (Z.pos p)) as Hof. simpl in Hof.
  rewrite Hof in Hd. rewrite -Hd. destruct (Pos.to_uint p) eqn:Hp; [|done..]. by destruct (Unsigned.to_uint_nonnil p).
Qed.

(** An integer type reads the text of exactly the numbers it has. *)
Lemma parse_integer_int_text lowest highest n :
  lowest ≤ 0 → parse_integer lowest highest (int_text n) =
    if (lowest <=? n) && (n <=? highest) then Some n else None.
Proof.
  intros Hl. destruct n as [|p|p]; [done|..].
  - change (int_text (Z.pos p)) with (NilZero.string_of_uint (Pos.to_uint p)). pose proof (digits_text p) as Hd.
    rewrite /parse_integer. destruct (Pos.to_uint p) eqn:Hp; [by destruct (Unsigned.to_uint_nonnil p)|..];
      simpl in Hd |- *; by rewrite Hd.
  - change (int_text (Z.neg p)) with (String (Ascii.ascii_of_N 45) (NilZero.string_of_uint (Pos.to_uint p))).
    pose proof (digits_text p) as Hd. rewrite /parse_integer. simpl byte_of.
    destruct (Z.ltb_spec lowest 0); simpl.
    + case_bool_decide as Hs; [by rewrite Hs in Hd|]. by rewrite Hd.
    + destruct (Z.leb_spec lowest (Z.neg p)); [lia|done].
Qed.

Lemma parse_positive_Ok key value n : parse_positive key value = Ok n → 0 < n ≤ i32_max.
Proof.
  rewrite /parse_positive /parse_integer result_bind_Ok. intros (m&Hm%ok_or_Ok&Hn).
  destruct (0 <? m) eqn:H0; [|done]. injection Hn as <-.
  destruct (match value with EmptyString => _ | String _ _ => _ end) as [k|]; simpl in Hm; [|done].
  destruct (_ && _) eqn:Hr in Hm; [|done]. injection Hm as <-. lia.
Qed.

Lemma parse_range_Ok highest key value low high n :
  parse_range highest key value low high = Ok n → low ≤ n ≤ high.
Proof.
  rewrite /parse_range result_bind_Ok. intros (m&_&Hn). destruct (_ && _) eqn:Hr in Hn; [|done].
  injection Hn as <-. lia.
Qed.

Lemma nonempty_Ok key value s : nonempty key value = Ok s → s = value ∧ s ≠ EmptyString.
Proof. rewrite /nonempty. case_bool_decide; [done|]. by intros [= <-]. Qed.

Lemma bounded_secret_Ok key value n s :
  bounded_secret key value n = Ok s → s ≠ EmptyString ∧ byte_len s ≤ n.
Proof.
  rewrite /bounded_secret result_bind_Ok. intros (v&[-> Hv]%nonempty_Ok&Hs).
  destruct (_ <=? n) eqn:Hn; [|done]. injection Hs as <-. split; [done|lia].
Qed.

Lemma absolute_path_Ok key value s : absolute_path key value = Ok s → is_absolute s = true.
Proof. rewrite /absolute_path. destruct (is_absolute value) eqn:Ha; [|done]. by intros [= <-]. Qed.

Lemma parse_range_int_text highest key n low high :
  0 ≤ low → high ≤ highest → is_ok (parse_range highest key (int_text n) low high) = true ↔ low ≤ n ≤ high.
Proof.
  intros Hl Hh. rewrite /parse_range parse_integer_int_text //.
  destruct (_ && _) eqn:H1; simpl; [|split; [done|lia]]. destruct ((low <=? n) && (n <=? high)) eqn:H2; simpl; (split; [done || lia|done || lia]).
Qed.

Lemma parse_positive_int_text key n : is_ok (parse_positive key (int_text n)) = true ↔ 1 ≤ n ≤ i32_max.
Proof.
  rewrite /parse_positive parse_integer_int_text // /i32_max.
  destruct (_ && _) eqn:H1; simpl; [|split; [done|lia]].
  destruct (Z.ltb_spec 0 n); simpl; [split; [lia|done]|split; [done|lia]].
Qed.

Section ConfigSpec.
Context `{External} `{ApiExternal} `{ConfigExternal}.

Definition loopback (a : socket_addr) : Prop := is_loopback (sa_ip a) = true ∧ sa_port a ≠ 0.

Lemma parse_loopback_address_Ok key value a : parse_loopback_address key value = Ok a → loopback a.
Proof.
  rewrite /parse_loopback_address result_bind_Ok. intros (a'&_&Ha).
  destruct (_ && _) eqn:Hb in Ha; [|done]. injection Ha as <-.
  apply andb_true_iff in Hb as [? Hp]. split; [done|]. lia.
Qed.

(** The base URL is a plain HTTP origin of a loopback address. *)
Definition loopback_origin (url : string) : Prop :=
  ∃ authority a, url = ("http://" +:+ authority)%string ∧ parse_socket_addr authority = Some a ∧ loopback a.

Lemma loopback_http_base_url_Ok key value url :
  loopback_http_base_url key value = Ok url → loopback_origin url.
Proof.
  rewrite /loopback_http_base_url. cbv zeta. rewrite result_bind_Ok. intros (u&_&Hu).
  apply result_bind_Ok in Hu as (au&_&Hu). apply result_bind_Ok in Hu as (a&Ha%ok_or_Ok&Hu).
  destruct (_ && _) eqn:Hb in Hu; [|done]. injection Hu as <-. exists au, a.
  rewrite !andb_true_iff in Hb. destruct Hb as [[[_ ?] Hp] _].
  do 3 (split; [done|]). lia.
Qed.

Record limits_within (l : limits) : Prop := {
  lw_request : 1 ≤ lim_request_bytes l ≤ 1048576;
  lw_page : 1 ≤ lim_page_size l ≤ 100;
  lw_sources : 1 ≤ lim_source_count l ≤ 100;
  lw_channels : 1 ≤ lim_channel_count l ≤ 20;
  lw_bytes : 1 ≤ lim_source_bytes l ≤ 16384;
  lw_attempts : 1 ≤ lim_retry_attempts l ≤ 10;
  lw_shutdown : 1 ≤ lim_shutdown_timeout_ms l ≤ 130000;
  lw_deadline : 60 ≤ lim_run_deadline_seconds l ≤ 86400 }.

Definition holds {A} (o : option A) (P : A → Prop) : Prop := ∀ a, o = Some a → P a.

(** The invariant of the builder. *)
Record builder_sound (b : builder) : Prop := {
  bs_database : holds (b_database_url b) (λ s, s ≠ EmptyString);
  bs_secret : holds (b_service_secret b) (λ s, s ≠ EmptyString);
  bs_api_id : holds (b_provider_api_id b) (λ n, 0 < n ≤ i32_max);
  bs_api_hash : holds (b_provider_api_hash b) (λ s, s ≠ EmptyString);
  bs_session : holds (b_session_file b) (λ s, is_absolute s = true);
  bs_session_key : holds (b_session_key_file b) (λ s, is_absolute s = true);
  bs_endpoint : holds (b_bus_endpoint b) (λ s, s ≠ EmptyString);
  bs_seed : holds (b_bus_nkey_seed_path b) (λ s, is_absolute s = true);
  bs_retention : 8 ≤ ret_body_days (b_retention b) ≤ 3650 ∧
    60 ≤ ret_sweep_interval_seconds (b_retention b) ≤ 86400;
  bs_base_url : holds (b_knowledge_base_url b) loopback_origin;
  bs_knowledge : holds (b_knowledge_secret b) (λ s, s ≠ EmptyString ∧ byte_len s ≤ 4096);
  bs_connect : holds (b_knowledge_connect_timeout_ms b) (λ n, 1 ≤ n ≤ 10000);
  bs_request : holds (b_knowledge_request_timeout_ms b) (λ n, 1 ≤ n ≤ 30000);
  bs_response : holds (b_knowledge_max_response_bytes b) (λ n, 1 ≤ n ≤ 65536);
  bs_api_address : loopback (b_api_listen_address b);
  bs_operator_address : loopback (b_operator_listen_address b);
  bs_limits : limits_within (b_limits b);
  bs_schedule : b_role b = Role.Api → b_schedule_owner b = None ∧ b_schedule_cron b = None ∧
    b_schedule_enabled b = None ∧ b_schedule_language b = None }.

Lemma builder_new_sound role : builder_sound (builder_new role).
Proof. split; try done. by destruct role. Qed.

Create HintDb config.
#[local] Hint Resolve parse_positive_Ok parse_range_Ok bounded_secret_Ok absolute_path_Ok
  parse_loopback_address_Ok loopback_http_base_url_Ok : config.
#[local] Hint Extern 1 (_ ≠ EmptyString) => (eapply nonempty_Ok; eassumption) : config.

(** Walks the key match: in each branch the value passed and one field changed. *)
Ltac branches tac :=
  repeat lazymatch goal with
  | |- (if ?c then _ else _) = Ok _ → _ => destruct c eqn:?; [tac|]
  end.

(** A worker's key is not accepted in the API role. *)
Lemma foreign_key (key k : string) (role : Role.t) (P : Prop) :
  bool_decide (key = k) && bool_decide (role = Role.Worker) = true → role = Role.Api → P.
Proof. by intros [_ ->%bool_decide_eq_true]%andb_true_iff. Qed.

(** A sound builder stays sound under any entry. *)
Lemma apply_limit_sound b key value b' :
  builder_sound b → apply_limit b key value = Ok b' → builder_sound b'.
Proof.
  intros Hs. pose proof (bs_limits _ Hs) as Hl. rewrite /apply_limit. cbv zeta beta.
  branches ltac:(intros Hv; apply result_bind_Ok in Hv as (x&Hx%parse_range_Ok&[= <-]);
    destruct Hs; split; try done; destruct Hl; by split).
  done.
Qed.

Lemma apply_sound b key value b' :
  builder_sound b → apply b key value = Ok b' → builder_sound b'.
Proof.
  intros Hs. rewrite /apply. cbv zeta.
  branches ltac:(intros Hv; apply result_bind_Ok in Hv as (x&Hx&[= <-]); destruct Hs; split; try done;
    first [ by intros ? [= <-]; eauto 2 with config | by eauto 2 with config
          | by apply parse_range_Ok in Hx; simpl; lia | by eapply foreign_key ]).
  by apply apply_limit_sound.
Qed.

Lemma apply_limit_role b key value b' : apply_limit b key value = Ok b' → b_role b' = b_role b.
Proof.
  rewrite /apply_limit. cbv zeta beta.
  branches ltac:(by intros (x&Hx&[= <-])%result_bind_Ok). done.
Qed.

Lemma apply_role b key value b' : apply b key value = Ok b' → b_role b' = b_role b.
Proof.
  rewrite /apply. cbv zeta.
  branches ltac:(by intros (x&Hx&[= <-])%result_bind_Ok). apply apply_limit_role.
Qed.

Lemma apply_all_inv (P : builder → Prop) entries b b' :
  (∀ b key value b', P b → apply b key value = Ok b' → P b') →
  P b → apply_all b entries = Ok b' → P b'.
Proof.
  intros Hstep. revert b. induction entries as [|[key value] l IH]; intros b Hb; simpl.
  - by intros [= <-].
  - destruct (String.prefix _ _); [|by apply IH].
    intros (b1&Hb1&Hl)%result_bind_Ok. eapply IH; [|done]. by eapply Hstep.
Qed.

(** ** Keys *)

Definition common_keys : list string :=
  ["RATATOSKR__DATABASE__URL"; "RATATOSKR__AUTH__SERVICE_SECRET"; "RATATOSKR__OPERATOR__LISTEN_ADDRESS";
   "RATATOSKR__TELEMETRY__LOG_FORMAT"; "RATATOSKR__TELEMETRY__LOG_FILTER";
   "RATATOSKR__LIMITS__REQUEST_BYTES"; "RATATOSKR__LIMITS__PAGE_SIZE";
   "RATATOSKR__LIMITS__SOURCE_COUNT"; "RATATOSKR__LIMITS__CHANNEL_COUNT";
   "RATATOSKR__LIMITS__SOURCE_BYTES"; "RATATOSKR__LIMITS__RETRY_ATTEMPTS";
   "RATATOSKR__LIMITS__RUN_DEADLINE_SECONDS"; "RATATOSKR__LIMITS__SHUTDOWN_TIMEOUT_MS"].

Definition api_keys : list string :=
  ["RATATOSKR__API__LISTEN_ADDRESS"; "RATATOSKR__KNOWLEDGE__BASE_URL";
   "RATATOSKR__KNOWLEDGE__RESULT_READER_SERVICE_SECRET"; "RATATOSKR__KNOWLEDGE__CONNECT_TIMEOUT_MS";
   "RATATOSKR__KNOWLEDGE__REQUEST_TIMEOUT_MS"; "RATATOSKR__KNOWLEDGE__MAX_RESPONSE_BYTES"].

Definition worker_keys : list string :=
  ["RATATOSKR__PROVIDER__API_ID"; "RATATOSKR__PROVIDER__API_HASH"; "RATATOSKR__PROVIDER__SESSION_FILE";
   "RATATOSKR__PROVIDER__SESSION_KEY_FILE"; "RATATOSKR__BUS__ENDPOINT";
   "RATATOSKR__BUS__NKEY_SEED_PATH"; "RATATOSKR__SCHEDULE__OWNER_USER_ID"; "RATATOSKR__SCHEDULE__CRON";
   "RATATOSKR__SCHEDULE__ENABLED"; "RATATOSKR__SCHEDULE__OUTPUT_LANGUAGE";
   "RATATOSKR__RETENTION__BODY_DAYS"; "RATATOSKR__RETENTION__SWEEP_INTERVAL_SECONDS"].

(** The closed vocabulary of a role. *)
Definition recognized (role : Role.t) : list string :=
  common_keys ++ match role with Role.Api => api_keys | Role.Worker => worker_keys end.

Lemma recognized_common (key k : string) role :
  bool_decide (key = k) = true → bool_decide (k ∈ common_keys) = true → key ∈ recognized role.
Proof.
  intros ->%bool_decide_eq_true Hk%bool_decide_eq_true. apply elem_of_app. by left.
Qed.

Lemma recognized_of (key k : string) (role r : Role.t) :
  bool_decide (key = k) && bool_decide (role = r) = true →
  bool_decide (k ∈ match r with Role.Api => api_keys | Role.Worker => worker_keys end) = true →
  key ∈ recognized role.
Proof.
  intros [->%bool_decide_eq_true ->%bool_decide_eq_true]%andb_true_iff Hk%bool_decide_eq_true.
  apply elem_of_app. by right.
Qed.

Lemma apply_limit_recognized b key value :
  key ∈ recognized (b_role b) ∨
  apply_limit b key value = Err (ConfigError key "is not recognized for this role").
Proof.
  rewrite /apply_limit. cbv zeta beta.
  repeat lazymatch goal with
  | |- _ ∨ (if ?c then _ else _) = _ =>
      destruct c eqn:?; [left; eapply recognized_common; [eassumption|vm_compute; reflexivity]|]
  end. by right.
Qed.

Lemma apply_recognized b key value :
  key ∈ recognized (b_role b) ∨
  apply b key value = Err (ConfigError key "is not recognized for this role").
Proof.
  rewrite /apply. cbv zeta.
  repeat lazymatch goal with
  | |- _ ∨ (if ?c then _ else _) = _ =>
      destruct c eqn:?;
        [left; first [ eapply recognized_common; [eassumption|vm_compute; reflexivity]
                     | eapply recognized_of; [eassumption|vm_compute; reflexivity] ]|]
  end. apply apply_limit_recognized.
Qed.

(** ** The accepted configuration *)

Definition database_sound (d : database_config) : Prop :=
  dc_url d ≠ EmptyString ∧ dc_max_connections d = 8 ∧ dc_acquire_timeout_ms d = 5000.

Definition reader_sound (k : knowledge_config) : Prop :=
  loopback_origin (kc_base_url k) ∧ kc_service_secret k ≠ EmptyString ∧
  byte_len (kc_service_secret k) ≤ 4096 ∧
  1 ≤ kc_connect_timeout_ms k ≤ kc_request_timeout_ms k ∧ kc_request_timeout_ms k ≤ 30000 ∧
  1 ≤ kc_max_response_bytes k ≤ 65536.

Definition provider_sound (p : provider_config) : Prop :=
  0 < pc_api_id p ≤ i32_max ∧ pc_api_hash p ≠ EmptyString ∧ is_absolute (pc_session_file p) = true ∧
  is_absolute (pc_session_key_file p) = true ∧ pc_max_concurrency p = 2.

Definition bus_sound (b : bus_config) : Prop :=
  bc_endpoint b ≠ EmptyString ∧ holds (bc_nkey_seed_path b) (λ s, is_absolute s = true).

Definition retention_sound (r : retention_config) : Prop :=
  8 ≤ ret_body_days r ≤ 3650 ∧ 60 ≤ ret_sweep_interval_seconds r ≤ 86400.

(** The authority each role holds, and only that. *)
Definition role_sound (c : config) : Prop :=
  match cfg_role c with
  | Role.Api =>
      cfg_provider c = None ∧ cfg_bus c = None ∧ cfg_schedule c = None ∧ cfg_retention c = None ∧
      ∃ k, cfg_knowledge_result_reader c = Some k ∧ reader_sound k
  | Role.Worker =>
      cfg_knowledge_result_reader c = None ∧
      ∃ p b r, cfg_provider c = Some p ∧ provider_sound p ∧ cfg_bus c = Some b ∧ bus_sound b ∧
        cfg_retention c = Some r ∧ retention_sound r
  end.

Record config_sound_for (role : Role.t) (c : config) : Prop := {
  cs_role : cfg_role c = role;
  cs_authority : role_sound c;
  cs_database : database_sound (cfg_database c);
  cs_secret : cfg_service_secret c ≠ EmptyString;
  cs_api : loopback (cfg_api c);
  cs_operator : loopback (cfg_operator c);
  cs_limits : limits_within (cfg_limits c) }.

Lemma required_Ok {A} (o : option A) key a : required o key = Ok a → o = Some a.
Proof. apply ok_or_Ok. Qed.

Lemma finish_api_sound b k : builder_sound b → finish_api b = Ok k → reader_sound k.
Proof.
  intros Hs. rewrite /finish_api. intros (ct&Hct%required_Ok&Hf)%result_bind_Ok.
  apply result_bind_Ok in Hf as (rt&Hrt%required_Ok&Hf).
  destruct (Z.ltb_spec rt ct) as [|Hle]; [done|].
  apply result_bind_Ok in Hf as (u&Hu%required_Ok&Hf). apply result_bind_Ok in Hf as (s&Hsec%required_Ok&Hf).
  apply result_bind_Ok in Hf as (n&Hn%required_Ok&[= <-]).
  assert (1 ≤ ct) by apply (bs_connect _ Hs _ Hct). assert (rt ≤ 30000) by apply (bs_request _ Hs _ Hrt).
  destruct (bs_knowledge _ Hs _ Hsec) as [? ?]. destruct (bs_response _ Hs _ Hn).
  pose proof (bs_base_url _ Hs _ Hu). by split_and!.
Qed.

Lemma finish_worker_sound b p q :
  builder_sound b → finish_worker b = Ok (p, q) → provider_sound p ∧ bus_sound q.
Proof.
  intros Hs. rewrite /finish_worker. intros (i&Hi%required_Ok&Hf)%result_bind_Ok.
  apply result_bind_Ok in Hf as (h&Hh%required_Ok&Hf). apply result_bind_Ok in Hf as (f&Hfile%required_Ok&Hf).
  apply result_bind_Ok in Hf as (k&Hk%required_Ok&Hf).
  apply result_bind_Ok in Hf as (e&He%required_Ok&[= <- <-]).
  split.
  - split; [by apply (bs_api_id _ Hs)|]. split; [by apply (bs_api_hash _ Hs)|].
    split; [by apply (bs_session _ Hs)|]. split; [by apply (bs_session_key _ Hs)|done].
  - split; [by apply (bs_endpoint _ Hs)|apply (bs_seed _ Hs)].
Qed.

Lemma finish_sound b c : builder_sound b → finish b = Ok c → config_sound_for (b_role b) c.
Proof.
  intros Hs. rewrite /finish. intros (s&Hsch&Hf)%result_bind_Ok.
  apply result_bind_Ok in Hf as (u&Hu%required_Ok&Hf). apply result_bind_Ok in Hf as (x&Hx%required_Ok&Hf).
  apply result_bind_Ok in Hf as ([[p q] k]&Harm&[= <-]).
  split; simpl; [done| |by split; [exact (bs_database _ Hs _ Hu)|]|exact (bs_secret _ Hs _ Hx)
    |apply (bs_api_address _ Hs)|apply (bs_operator_address _ Hs)|apply (bs_limits _ Hs)].
  rewrite /role_sound /=. destruct (b_role b) eqn:Hr.
  - apply result_bind_Ok in Harm as (k'&Hk&[= <- <- <-]). split; [done|]. split; [done|].
      split; [|split; [done|]; exists k'; split; [done|by eapply finish_api_sound]].
      destruct (bs_schedule _ Hs Hr) as (Ho&Hc&He&Hl). rewrite /schedule Ho Hc He Hl in Hsch.
      by injection Hsch as <-.
  - apply result_bind_Ok in Harm as ([p' q']&Hk&[= <- <- <-]).
      destruct (finish_worker_sound _ _ _ Hs Hk). split; [done|].
      exists p', q', (b_retention b). by destruct (bs_retention _ Hs).
Qed.

Lemma apply_all_recognized entries b b' :
  apply_all b entries = Ok b' →
  ∀ key value, (key, value) ∈ entries → String.prefix "RATATOSKR__" key = true → key ∈ recognized (b_role b).
Proof.
  revert b. induction entries as [|[k v] l IH]; intros b Hb key value; [by intros ?%elem_of_nil|].
  simpl in Hb. intros [[= -> ->]|Hin]%elem_of_cons Hp.
  - rewrite Hp in Hb. apply result_bind_Ok in Hb as (b1&Hb1&_).
    destruct (apply_recognized b k v) as [?|He]; [done|congruence].
  - destruct (String.prefix "RATATOSKR__" k); [|by eapply IH].
    apply result_bind_Ok in Hb as (b1&Hb1&Hl). rewrite -(apply_role _ _ _ _ Hb1). by eapply IH.
Qed.

Lemma from_environment_sound role entries c :
  from_environment role entries = Ok c → config_sound_for role c.
Proof.
  rewrite /from_environment. intros (b&Hb&Hf)%result_bind_Ok.
  assert (b_role b = role) as Hr.
  { apply (apply_all_inv (λ b, b_role b = role) entries (builder_new role) b); [|done|done].
    intros ???? <-. apply apply_role. }
  rewrite -Hr. apply finish_sound; [|done].
  apply (apply_all_inv builder_sound entries (builder_new role) b);
    [apply apply_sound|apply builder_new_sound|done].
Qed.

(** Configuration is strict and role-scoped.  An accepted environment names no service key
    outside the closed vocabulary of its role; and the configuration has the authority of that role
    and no other (a provider, a bus, retention and a schedule in the worker alone, the Knowledge
    reader in the API alone), loopback listeners and upstreams, non-empty secrets, absolute paths, and
    every limit within its finite bounds. *)
Lemma config_accepted role entries c :
  from_environment role entries = Ok c →
  config_sound_for role c ∧
  ∀ key value, (key, value) ∈ entries → String.prefix "RATATOSKR__" key = true → key ∈ recognized role.
Proof.
  intros Hc. split; [by eapply from_environment_sound|].
  apply result_bind_Ok in Hc as (b&Hb&_). by apply (apply_all_recognized _ (builder_new role) b).
Qed.

(** ** A reference: an entry is one assignment, and assignments to different fields commute *)

Inductive assignment :=
| DatabaseUrl (x : string)
| ServiceSecret (x : string)
| ApiId (x : Z)
| ApiHash (x : string)
| SessionFile (x : string)
| SessionKeyFile (x : string)
| Endpoint (x : string)
| SeedPath (x : string)
| ScheduleOwner (x : uuid)
| ScheduleCron (x : string)
| ScheduleEnabled (x : bool)
| ScheduleLanguage (x : OutputLanguage.t)
| BodyDays (x : Z)
| SweepInterval (x : Z)
| BaseUrl (x : string)
| ReaderSecret (x : string)
| ConnectTimeout (x : Z)
| RequestTimeout (x : Z)
| ResponseBytes (x : Z)
| ApiAddress (x : socket_addr)
| OperatorAddress (x : socket_addr)
| LogFormatIs (x : LogFormat.t)
| LogFilter (x : string)
| RequestBytes (x : Z)
| PageSize (x : Z)
| SourceCount (x : Z)
| ChannelCount (x : Z)
| SourceBytes (x : Z)
| RetryAttempts (x : Z)
| RunDeadlineSeconds (x : Z)
| ShutdownTimeoutMs (x : Z).

(** The key an assignment comes from. *)
Definition key_of (a : assignment) : string :=
  match a with
  | DatabaseUrl _ => "RATATOSKR__DATABASE__URL"
  | ServiceSecret _ => "RATATOSKR__AUTH__SERVICE_SECRET"
  | ApiId _ => "RATATOSKR__PROVIDER__API_ID"
  | ApiHash _ => "RATATOSKR__PROVIDER__API_HASH"
  | SessionFile _ => "RATATOSKR__PROVIDER__SESSION_FILE"
  | SessionKeyFile _ => "RATATOSKR__PROVIDER__SESSION_KEY_FILE"
  | Endpoint _ => "RATATOSKR__BUS__ENDPOINT"
  | SeedPath _ => "RATATOSKR__BUS__NKEY_SEED_PATH"
  | ScheduleOwner _ => "RATATOSKR__SCHEDULE__OWNER_USER_ID"
  | ScheduleCron _ => "RATATOSKR__SCHEDULE__CRON"
  | ScheduleEnabled _ => "RATATOSKR__SCHEDULE__ENABLED"
  | ScheduleLanguage _ => "RATATOSKR__SCHEDULE__OUTPUT_LANGUAGE"
  | BodyDays _ => "RATATOSKR__RETENTION__BODY_DAYS"
  | SweepInterval _ => "RATATOSKR__RETENTION__SWEEP_INTERVAL_SECONDS"
  | BaseUrl _ => "RATATOSKR__KNOWLEDGE__BASE_URL"
  | ReaderSecret _ => "RATATOSKR__KNOWLEDGE__RESULT_READER_SERVICE_SECRET"
  | ConnectTimeout _ => "RATATOSKR__KNOWLEDGE__CONNECT_TIMEOUT_MS"
  | RequestTimeout _ => "RATATOSKR__KNOWLEDGE__REQUEST_TIMEOUT_MS"
  | ResponseBytes _ => "RATATOSKR__KNOWLEDGE__MAX_RESPONSE_BYTES"
  | ApiAddress _ => "RATATOSKR__API__LISTEN_ADDRESS"
  | OperatorAddress _ => "RATATOSKR__OPERATOR__LISTEN_ADDRESS"
  | LogFormatIs _ => "RATATOSKR__TELEMETRY__LOG_FORMAT"
  | LogFilter _ => "RATATOSKR__TELEMETRY__LOG_FILTER"
  | RequestBytes _ => "RATATOSKR__LIMITS__REQUEST_BYTES"
  | PageSize _ => "RATATOSKR__LIMITS__PAGE_SIZE"
  | SourceCount _ => "RATATOSKR__LIMITS__SOURCE_COUNT"
  | ChannelCount _ => "RATATOSKR__LIMITS__CHANNEL_COUNT"
  | SourceBytes _ => "RATATOSKR__LIMITS__SOURCE_BYTES"
  | RetryAttempts _ => "RATATOSKR__LIMITS__RETRY_ATTEMPTS"
  | RunDeadlineSeconds _ => "RATATOSKR__LIMITS__RUN_DEADLINE_SECONDS"
  | ShutdownTimeoutMs _ => "RATATOSKR__LIMITS__SHUTDOWN_TIMEOUT_MS"
  end.

Definition assign (a : assignment) (b : builder) : builder :=
  match a with
  | DatabaseUrl x => set_b_database_url (Some x) b
  | ServiceSecret x => set_b_service_secret (Some x) b
  | ApiId x => set_b_provider_api_id (Some x) b
  | ApiHash x => set_b_provider_api_hash (Some x) b
  | SessionFile x => set_b_session_file (Some x) b
  | SessionKeyFile x => set_b_session_key_file (Some x) b
  | Endpoint x => set_b_bus_endpoint (Some x) b
  | SeedPath x => set_b_bus_nkey_seed_path (Some x) b
  | ScheduleOwner x => set_b_schedule_owner (Some x) b
  | ScheduleCron x => set_b_schedule_cron (Some x) b
  | ScheduleEnabled x => set_b_schedule_enabled (Some x) b
  | ScheduleLanguage x => set_b_schedule_language (Some x) b
  | BodyDays x => set_b_retention (RetentionConfig x (ret_sweep_interval_seconds (b_retention
      b))) b
  | SweepInterval x => set_b_retention (RetentionConfig (ret_body_days (b_retention b)) x) b
  | BaseUrl x => set_b_knowledge_base_url (Some x) b
  | ReaderSecret x => set_b_knowledge_secret (Some x) b
  | ConnectTimeout x => set_b_knowledge_connect_timeout_ms (Some x) b
  | RequestTimeout x => set_b_knowledge_request_timeout_ms (Some x) b
  | ResponseBytes x => set_b_knowledge_max_response_bytes (Some x) b
  | ApiAddress x => set_b_api_listen_address x b
  | OperatorAddress x => set_b_operator_listen_address x b
  | LogFormatIs x => set_b_telemetry (TelemetryConfig x (tel_log_filter (b_telemetry b))) b
  | LogFilter x => set_b_telemetry (TelemetryConfig (tel_log_format (b_telemetry b)) x) b
  | RequestBytes x => set_b_limits (set_lim_request_bytes x (b_limits b)) b
  | PageSize x => set_b_limits (set_lim_page_size x (b_limits b)) b
  | SourceCount x => set_b_limits (set_lim_source_count x (b_limits b)) b
  | ChannelCount x => set_b_limits (set_lim_channel_count x (b_limits b)) b
  | SourceBytes x => set_b_limits (set_lim_source_bytes x (b_limits b)) b
  | RetryAttempts x => set_b_limits (set_lim_retry_attempts x (b_limits b)) b
  | RunDeadlineSeconds x => set_b_limits (set_lim_run_deadline_seconds x (b_limits b)) b
  | ShutdownTimeoutMs x => set_b_limits (set_lim_shutdown_timeout_ms x (b_limits b)) b
  end.

(** The assignment an entry stands for in a role. *)
Definition assignment_of (role : Role.t) (key value : string) : config_result assignment :=
  let worker := bool_decide (role = Role.Worker) in
  let api := bool_decide (role = Role.Api) in
  if bool_decide (key = "RATATOSKR__DATABASE__URL")
  then x ← nonempty_secret key value; Ok (DatabaseUrl x)
  else if bool_decide (key = "RATATOSKR__AUTH__SERVICE_SECRET")
  then x ← nonempty_secret key value; Ok (ServiceSecret x)
  else if bool_decide (key = "RATATOSKR__PROVIDER__API_ID") && worker
  then x ← parse_positive key value; Ok (ApiId x)
  else if bool_decide (key = "RATATOSKR__PROVIDER__API_HASH") && worker
  then x ← nonempty_secret key value; Ok (ApiHash x)
  else if bool_decide (key = "RATATOSKR__PROVIDER__SESSION_FILE") && worker
  then x ← absolute_path key value; Ok (SessionFile x)
  else if bool_decide (key = "RATATOSKR__PROVIDER__SESSION_KEY_FILE") && worker
  then x ← absolute_path key value; Ok (SessionKeyFile x)
  else if bool_decide (key = "RATATOSKR__BUS__ENDPOINT") && worker
  then x ← nonempty key value; Ok (Endpoint x)
  else if bool_decide (key = "RATATOSKR__BUS__NKEY_SEED_PATH") && worker
  then x ← absolute_path key value; Ok (SeedPath x)
  else if bool_decide (key = "RATATOSKR__SCHEDULE__OWNER_USER_ID") && worker
  then x ← ok_or (ConfigError key "must be a canonical user UUID") (parse_user_id value); Ok (ScheduleOwner x)
  else if bool_decide (key = "RATATOSKR__SCHEDULE__CRON") && worker
  then x ← ok_or (ConfigError key "must be a five-field UTC cron expression") (parse_cron value); Ok (ScheduleCron x)
  else if bool_decide (key = "RATATOSKR__SCHEDULE__ENABLED") && worker
  then x ← parse_bool key value; Ok (ScheduleEnabled x)
  else if bool_decide (key = "RATATOSKR__SCHEDULE__OUTPUT_LANGUAGE") && worker
  then x ← parse_language key value; Ok (ScheduleLanguage x)
  else if bool_decide (key = "RATATOSKR__RETENTION__BODY_DAYS") && worker
  then x ← parse_range u32_max key value 8 3650; Ok (BodyDays x)
  else if bool_decide (key = "RATATOSKR__RETENTION__SWEEP_INTERVAL_SECONDS") && worker
  then x ← parse_range u64_max key value 60 86400; Ok (SweepInterval x)
  else if bool_decide (key = "RATATOSKR__KNOWLEDGE__BASE_URL") && api
  then x ← loopback_http_base_url key value; Ok (BaseUrl x)
  else if bool_decide (key = "RATATOSKR__KNOWLEDGE__RESULT_READER_SERVICE_SECRET") && api
  then x ← bounded_secret key value 4096; Ok (ReaderSecret x)
  else if bool_decide (key = "RATATOSKR__KNOWLEDGE__CONNECT_TIMEOUT_MS") && api
  then x ← parse_range u64_max key value 1 10000; Ok (ConnectTimeout x)
  else if bool_decide (key = "RATATOSKR__KNOWLEDGE__REQUEST_TIMEOUT_MS") && api
  then x ← parse_range u64_max key value 1 30000; Ok (RequestTimeout x)
  else if bool_decide (key = "RATATOSKR__KNOWLEDGE__MAX_RESPONSE_BYTES") && api
  then x ← parse_range u64_max key value 1 65536; Ok (ResponseBytes x)
  else if bool_decide (key = "RATATOSKR__API__LISTEN_ADDRESS") && api
  then x ← parse_loopback_address key value; Ok (ApiAddress x)
  else if bool_decide (key = "RATATOSKR__OPERATOR__LISTEN_ADDRESS")
  then x ← parse_loopback_address key value; Ok (OperatorAddress x)
  else if bool_decide (key = "RATATOSKR__TELEMETRY__LOG_FORMAT")
  then x ← parse_log_format key value; Ok (LogFormatIs x)
  else if bool_decide (key = "RATATOSKR__TELEMETRY__LOG_FILTER")
  then x ← parse_log_filter key value; Ok (LogFilter x)
  else if bool_decide (key = "RATATOSKR__LIMITS__REQUEST_BYTES")
  then x ← parse_range u64_max key value 1 1048576; Ok (RequestBytes x)
  else if bool_decide (key = "RATATOSKR__LIMITS__PAGE_SIZE")
  then x ← parse_range u64_max key value 1 100; Ok (PageSize x)
  else if bool_decide (key = "RATATOSKR__LIMITS__SOURCE_COUNT")
  then x ← parse_range u64_max key value 1 100; Ok (SourceCount x)
  else if bool_decide (key = "RATATOSKR__LIMITS__CHANNEL_COUNT")
  then x ← parse_range u64_max key value 1 20; Ok (ChannelCount x)
  else if bool_decide (key = "RATATOSKR__LIMITS__SOURCE_BYTES")
  then x ← parse_range u64_max key value 1 16384; Ok (SourceBytes x)
  else if bool_decide (key = "RATATOSKR__LIMITS__RETRY_ATTEMPTS")
  then x ← parse_range u32_max key value 1 10; Ok (RetryAttempts x)
  else if bool_decide (key = "RATATOSKR__LIMITS__RUN_DEADLINE_SECONDS")
  then x ← parse_range u64_max key value 60 86400; Ok (RunDeadlineSeconds x)
  else if bool_decide (key = "RATATOSKR__LIMITS__SHUTDOWN_TIMEOUT_MS")
  then x ← parse_range u64_max key value 1 130000; Ok (ShutdownTimeoutMs x)
  else Err (ConfigError key "is not recognized for this role").

Lemma apply_assigns b key value :
  apply b key value = (a ← assignment_of (b_role b) key value; Ok (assign a b)).
Proof.
  rewrite /apply /assignment_of /apply_limit. cbv zeta beta.
  repeat lazymatch goal with
  | |- (if ?c then _ else _) = _ =>
      destruct c; [match goal with |- (?r ≫= _) = _ => by destruct r end|]
  end. done.
Qed.

Lemma assignment_of_key role key value a : assignment_of role key value = Ok a → key_of a = key.
Proof.
  rewrite /assignment_of. cbv zeta.
  branches ltac:(intros (x&_&[= <-])%result_bind_Ok;
    repeat match goal with
    | Hc : _ && _ = true |- _ => apply andb_true_iff in Hc as [Hc _]
    end; symmetry; by eapply bool_decide_eq_true).
  done.
Qed.

(** The numbers a role's numeric settings may have. *)
Definition numeric_ranges (role : Role.t) : list (string * (Z * Z)) :=
  match role with
  | Role.Worker =>
      [("RATATOSKR__PROVIDER__API_ID", (1, 2 ^ 31 - 1)); ("RATATOSKR__RETENTION__BODY_DAYS", (8, 3650));
       ("RATATOSKR__RETENTION__SWEEP_INTERVAL_SECONDS", (60, 86400))]
  | Role.Api =>
      [("RATATOSKR__KNOWLEDGE__CONNECT_TIMEOUT_MS", (1, 10000));
       ("RATATOSKR__KNOWLEDGE__REQUEST_TIMEOUT_MS", (1, 30000));
       ("RATATOSKR__KNOWLEDGE__MAX_RESPONSE_BYTES", (1, 65536))]
  end ++
  [("RATATOSKR__LIMITS__REQUEST_BYTES", (1, 1048576)); ("RATATOSKR__LIMITS__PAGE_SIZE", (1, 100));
   ("RATATOSKR__LIMITS__SOURCE_COUNT", (1, 100)); ("RATATOSKR__LIMITS__CHANNEL_COUNT", (1, 20));
   ("RATATOSKR__LIMITS__SOURCE_BYTES", (1, 16384)); ("RATATOSKR__LIMITS__RETRY_ATTEMPTS", (1, 10));
   ("RATATOSKR__LIMITS__RUN_DEADLINE_SECONDS", (60, 86400)); ("RATATOSKR__LIMITS__SHUTDOWN_TIMEOUT_MS", (1, 130000))].

Lemma is_ok_bind {A B} (r : config_result A) (f : A → B) : is_ok (x ← r; Ok (f x)) = is_ok r.
Proof. by destruct r. Qed.

(** A numeric setting takes the text of a number exactly when the number is in its range. *)
Lemma numeric_accepted role key low high n :
  (key, (low, high)) ∈ numeric_ranges role →
  is_ok (assignment_of role key (int_text n)) = true ↔ low ≤ n ≤ high.
Proof.
  intros Hk. destruct role; simpl in Hk;
    repeat (apply elem_of_cons in Hk as [[= -> -> ->]|Hk]; [|]); try by apply elem_of_nil in Hk.
  all: match goal with |- is_ok ?r = true ↔ _ =>
    let r' := eval cbv -[parse_range parse_positive int_text u32_max u64_max Z.le mbind result_bind] in r in change r with r' end.
  all: rewrite is_ok_bind; first [apply parse_positive_int_text|apply parse_range_int_text; [lia|by vm_compute]].
Qed.

Lemma assign_comm a1 a2 b : key_of a1 ≠ key_of a2 → assign a1 (assign a2 b) = assign a2 (assign a1 b).
Proof. destruct a1, a2; first [reflexivity|by intros []]. Qed.

Lemma assign_role a b : b_role (assign a b) = b_role b.
Proof. by destruct a. Qed.


(** Two entries with different keys can be applied in either order. *)
Lemma apply_comm b b1 b2 k1 v1 k2 v2 :
  k1 ≠ k2 → apply b k1 v1 = Ok b1 → apply b1 k2 v2 = Ok b2 →
  ∃ b1', apply b k2 v2 = Ok b1' ∧ apply b1' k1 v1 = Ok b2.
Proof.
  rewrite !apply_assigns. intros Hne (a1&Ha1&[= <-])%result_bind_Ok (a2&Ha2&[= <-])%result_bind_Ok.
  rewrite assign_role in Ha2. exists (assign a2 b). rewrite Ha2 apply_assigns assign_role Ha1 /=.
  split; [done|]. f_equal. apply assign_comm.
  by rewrite (assignment_of_key _ _ _ _ Ha1) (assignment_of_key _ _ _ _ Ha2).
Qed.

Lemma apply_all_perm l1 l2 b b' :
  l1 ≡ₚ l2 → NoDup l1.*1 → apply_all b l1 = Ok b' → apply_all b l2 = Ok b'.
Proof.
  intros Hp. revert b. induction Hp as [|[k v] l l' Hp IH|[k1 v1] [k2 v2] l|l l' l'' Hp1 IH1 Hp2 IH2];
    intros b Hnd; [done| | |].
  - rewrite fmap_cons in Hnd. inv Hnd. simpl. destruct (String.prefix _ _); [|by apply IH].
    intros (b1&->&Hl)%result_bind_Ok. by apply IH.
  - rewrite !fmap_cons in Hnd. simpl in Hnd. apply NoDup_cons in Hnd as [Hk _].
    assert (k2 ≠ k1) as Hne by (intros ->; apply Hk; by left). simpl.
    destruct (String.prefix "RATATOSKR__" k1), (String.prefix "RATATOSKR__" k2); try done.
    intros (b1&Hb1&Hl)%result_bind_Ok. apply result_bind_Ok in Hl as (b2&Hb2&Hl).
    destruct (apply_comm _ _ _ _ _ _ _ Hne Hb1 Hb2) as (b3&->&Hb3). by rewrite /= Hb3.
  - intros Hb. apply IH2; [|by apply IH1]. by rewrite -Hp1.
Qed.

(** A configuration does not depend on the order in which the system lists the environment, nor
    on variables of other programs: environments with the same variables, each named once, and any
    others outside the service's prefix give the same configuration. *)
Lemma environment_order_irrelevant role entries entries' c :
  entries ≡ₚ entries' → NoDup entries.*1 →
  from_environment role entries = Ok c →
  from_environment role entries' = Ok c ∧
  ∀ others, Forall (λ kv : string * string, String.prefix "RATATOSKR__" kv.1 = false) others →
    from_environment role (others ++ entries') = Ok c.
Proof.
  rewrite /from_environment. intros Hp Hnd (b&Hb&Hf)%result_bind_Ok.
  pose proof (apply_all_perm _ _ _ _ Hp Hnd Hb) as Hb'. split; [by rewrite Hb'|].
  intros others Ho. assert (apply_all (builder_new role) (others ++ entries') = Ok b) as ->; [|done].
  induction Ho as [|[k v] l Hk _ IH]; [done|]. simpl in *. by rewrite Hk.
Qed.


(** ** What is accepted *)

(** The entries of the service, and what they assign, in order. *)
Definition service_entries (entries : list (string * string)) : list (string * string) :=
  filter (λ kv : string * string, String.prefix "RATATOSKR__" kv.1 = true) entries.

Definition assignments (role : Role.t) (entries : list (string * string)) : config_result (list assignment) :=
  collect_results (λ kv : string * string, assignment_of role kv.1 kv.2) (service_entries entries).

Definition assign_all (b : builder) (l : list assignment) : builder := foldl (λ b a, assign a b) b l.

Lemma apply_all_assigns b entries :
  apply_all b entries = (l ← assignments (b_role b) entries; Ok (assign_all b l)).
Proof.
  revert b. induction entries as [|[key value] rest IH]; intros b; [done|]. rewrite /assignments /service_entries /apply_all -/apply_all.
  destruct (String.prefix _ _) eqn:Hp; [rewrite filter_cons_True //|rewrite filter_cons_False ?Hp //; apply IH].
  rewrite apply_assigns /=. destruct (assignment_of (b_role b) key value) as [a|]; [|done].
  cbn [mbind result_bind]. rewrite IH assign_role /assignments. by destruct (collect_results _ _).
Qed.

Lemma assignments_role role entries l b : assignments role entries = Ok l → b_role (assign_all b l) = b_role b.
Proof.
  intros _. rewrite /assign_all. revert b. induction l as [|a l IH]; intros b; simpl; [done|]. by rewrite IH assign_role.
Qed.

(** A setting is there when its key was assigned. *)
Lemma assigned_field {A} (f : builder → option A) key :
  (∀ a b, if bool_decide (key_of a = key) then is_Some (f (assign a b)) else f (assign a b) = f b) →
  ∀ l b, f b = None → is_Some (f (assign_all b l)) ↔ key ∈ key_of <$> l.
Proof.
  intros Hf. assert (∀ l b, is_Some (f (assign_all b l)) ↔ is_Some (f b) ∨ key ∈ key_of <$> l) as Hall.
  { induction l as [|a l IH]; intros b; simpl; [rewrite elem_of_nil; tauto|]. rewrite /assign_all /= -/(assign_all _ _).
    rewrite IH elem_of_cons. specialize (Hf a b). case_bool_decide as Hk; [|rewrite Hf]; naive_solver. }
  intros l b Hb. rewrite Hall Hb -not_eq_None_Some. tauto.
Qed.

(** The last assignment of a setting is the one that counts. *)
Lemma last_assigned {A} (f : builder → option A) (pick : assignment → option A) :
  (∀ a b, f (assign a b) = match pick a with Some x => Some x | None => f b end) →
  ∀ l b, f b = None → f (assign_all b l) = last (omap pick l).
Proof.
  intros Hf l b Hb. assert (∀ l b, f (assign_all b l) =
    match last (omap pick l) with Some x => Some x | None => f b end) as ->; [|rewrite Hb; by case_match].
  clear l b Hb. induction l as [|a l IH]; intros b; [done|]. rewrite /assign_all /= -/(assign_all _ _) IH Hf.
  destruct (pick a) as [x|]; [|done]. rewrite last_cons. by destruct (last _).
Qed.

(** What a role cannot do without. *)
Definition role_keys (role : Role.t) : list string :=
  match role with
  | Role.Api =>
      ["RATATOSKR__KNOWLEDGE__CONNECT_TIMEOUT_MS"; "RATATOSKR__KNOWLEDGE__REQUEST_TIMEOUT_MS";
       "RATATOSKR__KNOWLEDGE__BASE_URL"; "RATATOSKR__KNOWLEDGE__RESULT_READER_SERVICE_SECRET";
       "RATATOSKR__KNOWLEDGE__MAX_RESPONSE_BYTES"]
  | Role.Worker =>
      ["RATATOSKR__PROVIDER__API_ID"; "RATATOSKR__PROVIDER__API_HASH"; "RATATOSKR__PROVIDER__SESSION_FILE";
       "RATATOSKR__PROVIDER__SESSION_KEY_FILE"; "RATATOSKR__BUS__ENDPOINT"]
  end.

Definition required_keys (role : Role.t) : list string :=
  "RATATOSKR__DATABASE__URL" :: "RATATOSKR__AUTH__SERVICE_SECRET" :: role_keys role.

(** The settings of a schedule, which needs an owner. *)
Definition schedule_keys : list string :=
  ["RATATOSKR__SCHEDULE__CRON"; "RATATOSKR__SCHEDULE__ENABLED"; "RATATOSKR__SCHEDULE__OUTPUT_LANGUAGE"].

Definition connect_of (a : assignment) : option Z := match a with ConnectTimeout x => Some x | _ => None end.
Definition request_of (a : assignment) : option Z := match a with RequestTimeout x => Some x | _ => None end.

Record acceptable (role : Role.t) (entries : list (string * string)) (l : list assignment) : Prop := {
  ac_valid : Forall2 (λ kv a, assignment_of role kv.1 kv.2 = Ok a) (service_entries entries) l;
  ac_required key : key ∈ required_keys role → key ∈ key_of <$> l;
  ac_schedule key : key ∈ schedule_keys → key ∈ key_of <$> l →
    "RATATOSKR__SCHEDULE__OWNER_USER_ID" ∈ key_of <$> l;
  ac_timeouts ct rt : role = Role.Api →
    last (omap connect_of l) = Some ct → last (omap request_of l) = Some rt → ct ≤ rt }.

(** Whether a field is there, in terms of the key that sets it; and a field as its last assignment. *)
Ltac by_key f key :=
  match goal with |- context [is_Some (f (assign_all ?b ?l))] =>
    assert (is_Some (f (assign_all b l)) ↔ key ∈ key_of <$> l) as ->
      by (apply assigned_field; [intros [] ?; simpl; try reflexivity; by eexists|reflexivity]) end.

Ltac by_last f pick :=
  match goal with |- context [f (assign_all ?b ?l)] =>
    assert (last (omap pick l) = f (assign_all b l)) as ->
      by (symmetry; apply last_assigned; [by intros []|reflexivity]) end.

Lemma finish_worker_Ok b :
  is_ok (finish_worker b) = true ↔ is_Some (b_provider_api_id b) ∧ is_Some (b_provider_api_hash b) ∧
    is_Some (b_session_file b) ∧ is_Some (b_session_key_file b) ∧ is_Some (b_bus_endpoint b).
Proof.
  rewrite /finish_worker /required /ok_or -!not_eq_None_Some.
  destruct (b_provider_api_id b); simpl; [|naive_solver]. destruct (b_provider_api_hash b); simpl; [|naive_solver].
  destruct (b_session_file b); simpl; [|naive_solver]. destruct (b_session_key_file b); simpl; [|naive_solver].
  destruct (b_bus_endpoint b); simpl; naive_solver.
Qed.

Lemma finish_api_Ok b :
  is_ok (finish_api b) = true ↔ is_Some (b_knowledge_connect_timeout_ms b) ∧
    is_Some (b_knowledge_request_timeout_ms b) ∧ is_Some (b_knowledge_base_url b) ∧
    is_Some (b_knowledge_secret b) ∧ is_Some (b_knowledge_max_response_bytes b) ∧
    ∀ ct rt, b_knowledge_connect_timeout_ms b = Some ct → b_knowledge_request_timeout_ms b = Some rt → ct ≤ rt.
Proof.
  rewrite /finish_api /required /ok_or -!not_eq_None_Some.
  destruct (b_knowledge_connect_timeout_ms b) as [ct|]; simpl; [|naive_solver].
  destruct (b_knowledge_request_timeout_ms b) as [rt|]; simpl; [|naive_solver].
  destruct (Z.ltb_spec rt ct); [split; [done|intros (_&_&_&_&_&Hle); specialize (Hle _ _ eq_refl eq_refl); lia]|].
  destruct (b_knowledge_base_url b); simpl; [|naive_solver]. destruct (b_knowledge_secret b); simpl; [|naive_solver].
  destruct (b_knowledge_max_response_bytes b); simpl; naive_solver.
Qed.

Lemma schedule_Ok b :
  is_ok (schedule b) = true ↔
    (is_Some (b_schedule_cron b) ∨ is_Some (b_schedule_enabled b) ∨ is_Some (b_schedule_language b) →
     is_Some (b_schedule_owner b)).
Proof.
  rewrite /schedule. destruct (b_schedule_owner b); simpl; [by split; eauto|].
  destruct (_ || _) eqn:Hb; simpl.
  - rewrite !orb_true_iff !bool_decide_eq_true in Hb. split; [done|]. intros Hs. destruct Hs as [? ?]; [tauto|done].
  - rewrite !orb_false_iff !bool_decide_eq_false in Hb. split; [tauto|done].
Qed.

Lemma finish_Ok b :
  is_ok (finish b) = true ↔ is_Some (b_database_url b) ∧ is_Some (b_service_secret b) ∧
    (is_Some (b_schedule_cron b) ∨ is_Some (b_schedule_enabled b) ∨ is_Some (b_schedule_language b) →
       is_Some (b_schedule_owner b)) ∧
    match b_role b with Role.Api => is_ok (finish_api b) = true | Role.Worker => is_ok (finish_worker b) = true end.
Proof.
  rewrite -schedule_Ok /finish /required /ok_or -!(not_eq_None_Some (b_database_url b)) -!(not_eq_None_Some (b_service_secret b)).
  destruct (schedule b) as [sched|]; simpl; [|naive_solver].
  destruct (b_database_url b); simpl; [|naive_solver]. destruct (b_service_secret b); simpl; [|naive_solver].
  destruct (b_role b); [destruct (finish_api b)|destruct (finish_worker b) as [[]|]]; simpl; naive_solver.
Qed.

(** The answer of a role's own part, in terms of the keys that were assigned. *)
Lemma role_answer role l : let b := assign_all (builder_new role) l in
  match role with Role.Api => is_ok (finish_api b) = true | Role.Worker => is_ok (finish_worker b) = true end ↔
  (∀ key, key ∈ role_keys role → key ∈ key_of <$> l) ∧
  (∀ ct rt, role = Role.Api → last (omap connect_of l) = Some ct → last (omap request_of l) = Some rt → ct ≤ rt).
Proof.
  cbn zeta. rewrite -(Forall_forall (λ key, key ∈ key_of <$> l)). destruct role; simpl role_keys; rewrite !Forall_cons Forall_nil.
  - rewrite finish_api_Ok.
    by_last b_knowledge_connect_timeout_ms connect_of.
    by_last b_knowledge_request_timeout_ms request_of.
    by_key b_knowledge_connect_timeout_ms "RATATOSKR__KNOWLEDGE__CONNECT_TIMEOUT_MS".
    by_key b_knowledge_request_timeout_ms "RATATOSKR__KNOWLEDGE__REQUEST_TIMEOUT_MS".
    by_key b_knowledge_base_url "RATATOSKR__KNOWLEDGE__BASE_URL".
    by_key b_knowledge_secret "RATATOSKR__KNOWLEDGE__RESULT_READER_SERVICE_SECRET".
    by_key b_knowledge_max_response_bytes "RATATOSKR__KNOWLEDGE__MAX_RESPONSE_BYTES".
    naive_solver.
  - rewrite finish_worker_Ok.
    by_key b_provider_api_id "RATATOSKR__PROVIDER__API_ID".
    by_key b_provider_api_hash "RATATOSKR__PROVIDER__API_HASH".
    by_key b_session_file "RATATOSKR__PROVIDER__SESSION_FILE".
    by_key b_session_key_file "RATATOSKR__PROVIDER__SESSION_KEY_FILE".
    by_key b_bus_endpoint "RATATOSKR__BUS__ENDPOINT".
    naive_solver.
Qed.

(** An environment is accepted exactly when it is acceptable. *)
Lemma acceptance role entries :
  is_ok (from_environment role entries) = true ↔ ∃ l, acceptable role entries l.
Proof.
  rewrite /from_environment apply_all_assigns. change (b_role (builder_new role)) with role.
  destruct (assignments role entries) as [l|] eqn:Hl; simpl.
  2:{ split; [done|]. intros (l&[Hv%collect_results_Ok _ _ _]). by rewrite -/(assignments _ _) Hl in Hv. }
  rewrite finish_Ok (assignments_role _ _ _ _ Hl). change (b_role (builder_new role)) with role. rewrite role_answer.
  by_key b_database_url "RATATOSKR__DATABASE__URL".
  by_key b_service_secret "RATATOSKR__AUTH__SERVICE_SECRET".
  by_key b_schedule_cron "RATATOSKR__SCHEDULE__CRON".
  by_key b_schedule_enabled "RATATOSKR__SCHEDULE__ENABLED".
  by_key b_schedule_language "RATATOSKR__SCHEDULE__OUTPUT_LANGUAGE".
  by_key b_schedule_owner "RATATOSKR__SCHEDULE__OWNER_USER_ID".
  split.
  - intros (Hd&Ha&Hs&Hr&Ht). exists l. split; [by apply collect_results_Ok| | |exact Ht]; intros key.
    + rewrite /required_keys !elem_of_cons. intros [->|[->|?]]; auto.
    + rewrite /schedule_keys !elem_of_cons elem_of_nil. intros [->|[->|[->|[]]]]; auto.
  - intros (l'&[Hv%collect_results_Ok Hr Hs Ht]). rewrite -/(assignments _ _) Hl in Hv. injection Hv as <-.
    split_and!; [apply Hr; left|apply Hr; do 2 constructor| |by intros key ?; apply Hr; do 2 right|exact Ht].
    intros [?|[?|?]]; (eapply Hs; [|eassumption]); rewrite /schedule_keys !elem_of_cons; auto.
Qed.

(** C34: Configuration is complete, strict, role-scoped and independent of the environment's order.
    An environment is accepted exactly when each of the service's variables is a valid assignment of
    its role (for the text of a number, exactly when the number is within the setting's range), every
    setting the role requires is assigned, a schedule's settings come with its owner, and the connect
    timeout last assigned is within the request timeout last assigned.  An accepted
    environment names no service key outside the closed vocabulary of its role; the configuration has
    the authority of that role and no other (a provider, a bus, retention and a schedule in the
    worker alone, the Knowledge reader in the API alone), loopback listeners and upstreams, non-empty
    secrets, absolute paths, and every limit within its finite bounds; and environments with the same
    variables in any order, each named once, and any others outside the service's prefix give the
    same configuration. *)
Theorem config_sound role entries :
  (is_ok (from_environment role entries) = true ↔ ∃ l, acceptable role entries l) ∧
  (∀ key low high n, (key, (low, high)) ∈ numeric_ranges role →
     is_ok (assignment_of role key (int_text n)) = true ↔ low ≤ n ≤ high) ∧
  ∀ c, from_environment role entries = Ok c →
    config_sound_for role c ∧
    (∀ key value, (key, value) ∈ entries → String.prefix "RATATOSKR__" key = true → key ∈ recognized role) ∧
    (NoDup entries.*1 → ∀ entries' others, entries ≡ₚ entries' →
       Forall (λ kv : string * string, String.prefix "RATATOSKR__" kv.1 = false) others →
       from_environment role (others ++ entries') = Ok c).
Proof.
  split_and!; [apply acceptance|apply numeric_accepted|]. intros c Hc.
  destruct (config_accepted _ _ _ Hc) as [? ?]. split_and!; [done..|].
  intros Hnd entries' others Hp Ho. by apply (environment_order_irrelevant _ entries entries').
Qed.
End ConfigSpec.

(** ** An API environment *)

Module DemoConfig.
#[local] Existing Instances Demo.external DemoApi.api.

#[local] Instance libraries : ConfigExternal := {|
  parse_socket_addr s :=
    if bool_decide (s = "127.0.0.1:8096") then Some (SocketAddr (V4 2130706433) 8096) else None;
  parse_uri s := Some (Uri (Some "http") (strip_prefix "http://" s) None);
  env_filter_valid _ := true;
|}.

Definition environment : list (string * string) :=
  [("PATH", "/usr/bin"); ("RATATOSKR__DATABASE__URL", "postgres://fixture.invalid/digests");
   ("RATATOSKR__AUTH__SERVICE_SECRET", "secret"); ("RATATOSKR__LIMITS__PAGE_SIZE", "+25");
   ("RATATOSKR__KNOWLEDGE__BASE_URL", "http://127.0.0.1:8096");
   ("RATATOSKR__KNOWLEDGE__RESULT_READER_SERVICE_SECRET", "reader");
   ("RATATOSKR__KNOWLEDGE__CONNECT_TIMEOUT_MS", "100");
   ("RATATOSKR__KNOWLEDGE__REQUEST_TIMEOUT_MS", "200");
   ("RATATOSKR__KNOWLEDGE__MAX_RESPONSE_BYTES", "65536")].

Abbreviation load := (@from_environment Demo.external DemoApi.api libraries Role.Api).

Definition expected : config :=
  Config Role.Api (DatabaseConfig "postgres://fixture.invalid/digests" 8 5000)
    (SocketAddr loopback_v4 8098) (SocketAddr loopback_v4 9469)
    (Limits 262144 25 100 20 16384 3 120000 1800) (TelemetryConfig LogFormat.Json DEFAULT_LOG_FILTER)
    None None None None
    (Some (KnowledgeConfig "http://127.0.0.1:8096" "reader" 100 200 65536)) "secret".

Lemma loaded : load environment = Ok expected.
Proof. vm_compute. reflexivity. Qed.

Lemma names_distinct : NoDup environment.*1.
Proof. apply (bool_decide_unpack _). vm_compute. exact I. Qed.
End DemoConfig.

Lemma config_sound_witness :
  DemoConfig.load DemoConfig.environment = Ok DemoConfig.expected ∧
  (∃ l, @acceptable Demo.external DemoApi.api DemoConfig.libraries Role.Api DemoConfig.environment l) ∧
  is_ok (@assignment_of Demo.external DemoApi.api DemoConfig.libraries Role.Api
    "RATATOSKR__LIMITS__PAGE_SIZE" (int_text 101)) ≠ true ∧
  limits_within (cfg_limits DemoConfig.expected) ∧
  DemoConfig.load (("HOME", "/root") :: reverse DemoConfig.environment) = Ok DemoConfig.expected.
Proof.
  destruct (@config_sound Demo.external DemoApi.api DemoConfig.libraries Role.Api DemoConfig.environment)
    as (Ha&Hn&Hs).
  destruct (Hs _ DemoConfig.loaded) as (Hc&_&Ho).
  split_and!; [exact DemoConfig.loaded|apply Ha; by rewrite DemoConfig.loaded
    |intros Hp%(Hn _ 1 100); [lia|apply (bool_decide_unpack _); vm_compute; exact I]
    |exact (cs_limits _ _ Hc)|].
  apply (Ho DemoConfig.names_distinct (reverse DemoConfig.environment) [("HOME", "/root")]).
  - symmetry. apply reverse_Permutation.
  - by repeat constructor.
Defined.
