(* ===== verification/Session.v ===== *)
(** * Session: [src/src/session.rs], the encrypted provider session

    The file system and the XChaCha20-Poly1305 cipher are parameters.  The metadata of a file and its
    bytes come from two calls, so nothing ties the length that was checked to the bytes that are read.
    [zeroize] has no counterpart; the redacted [Debug] is in [Redaction]. *)

From S2P Require Import Prelude Text External Config.

Module SessionError.
Inductive t := Invalid.
End SessionError.

Definition NONCE_BYTES : nat := 24.
Definition KEY_BYTES : nat := 32.
Definition MAX_SESSION_BYTES : Z := 1048576.
Definition AAD : string := "ratatoskr-channel-digests-session-v1".

(** What [std::fs::metadata] tells of a path: [is_file], [len] and [mode]. *)
Record file_metadata := FileMetadata { fm_is_file : bool; fm_len : Z; fm_mode : Z }.

Class SessionExternal := {
  fs_metadata : string → option file_metadata;
  fs_read : string → option string;
  cipher_key_accepted : string → bool;
  cipher_decrypt (key nonce aad ciphertext : string) : option string;
}.

(** [0o077] and [0o400] *)
Definition GROUP_AND_OTHERS : Z := 63.
Definition OWNER_READ : Z := 256.

(** [split_at] *)
Definition split_at (n : nat) (s : string) : string * string :=
  (String.substring 0 n s, String.substring n (String.length s - n) s).

Section Session.
Context `{!SessionExternal}.

Abbreviation session_result := (result SessionError.t).

Definition invalid {A} (o : option A) : session_result A := ok_or SessionError.Invalid o.

Definition read_private_file (path : string) (maximum : Z) : session_result string :=
  metadata ← invalid (fs_metadata path);
  if negb (fm_is_file metadata)
     || (fm_len metadata =? 0)
     || (maximum <? fm_len metadata)
     || negb (Z.land (fm_mode metadata) GROUP_AND_OTHERS =? 0)
     || (Z.land (fm_mode metadata) OWNER_READ =? 0)
  then Err SessionError.Invalid
  else invalid (fs_read path).

(** [SessionMaterial::load] *)
Definition load (config : provider_config) : session_result string :=
  key ← read_private_file (pc_session_key_file config) (Z.of_nat KEY_BYTES);
  if negb (String.length key =? KEY_BYTES)%nat then Err SessionError.Invalid
  else
    encrypted ← read_private_file (pc_session_file config) MAX_SESSION_BYTES;
    if (String.length encrypted <=? NONCE_BYTES)%nat then Err SessionError.Invalid
    else
      let '(nonce, ciphertext) := split_at NONCE_BYTES encrypted in
      if negb (cipher_key_accepted key) then Err SessionError.Invalid
      else
        plaintext ← invalid (cipher_decrypt key nonce AAD ciphertext);
        if bool_decide (plaintext = EmptyString) then Err SessionError.Invalid else Ok plaintext.

(** ** What is loaded *)

#[local] Arguments Z.testbit : simpl never.
#[local] Arguments Z.land : simpl never.

(** A regular, non-empty file within the bound that its owner may read and nobody else may touch. *)
Definition private (maximum : Z) (m : file_metadata) : Prop :=
  fm_is_file m = true ∧ 0 < fm_len m ≤ maximum ∧
  (∀ bit, 0 ≤ bit < 6 → Z.testbit (fm_mode m) bit = false) ∧ Z.testbit (fm_mode m) 8 = true.

Lemma land_ones_zero mode n :
  0 ≤ n → Z.land mode (Z.ones n) = 0 ↔ ∀ bit, 0 ≤ bit < n → Z.testbit mode bit = false.
Proof.
  intros Hn. split.
  - intros Hl bit Hb. assert (Z.testbit (Z.land mode (Z.ones n)) bit = false) as Ht by by rewrite Hl Z.bits_0.
    rewrite Z.land_spec Z.ones_spec_low in Ht; [|lia]. by rewrite andb_true_r in Ht.
  - intros Hb. apply Z.bits_inj'. intros bit Hbit. rewrite Z.land_spec Z.bits_0.
    destruct (decide (bit < n)); [by rewrite Hb|rewrite Z.ones_spec_high; [by rewrite andb_false_r|lia]].
Qed.

Lemma land_power_zero mode n : 0 ≤ n → Z.land mode (2 ^ n) = 0 ↔ Z.testbit mode n = false.
Proof.
  intros Hn. split.
  - intros Hl. assert (Z.testbit (Z.land mode (2 ^ n)) n = false) as Ht by by rewrite Hl Z.bits_0.
    rewrite Z.land_spec Z.pow2_bits_true in Ht; [|done]. by rewrite andb_true_r in Ht.
  - intros Hb. apply Z.bits_inj'. intros bit Hbit. rewrite Z.land_spec Z.bits_0.
    destruct (decide (bit = n)) as [->|]; [by rewrite Hb|rewrite Z.pow2_bits_false; [by rewrite andb_false_r|lia]].
Qed.

Lemma read_private_file_Ok path maximum bytes :
  (∀ m, fs_metadata path = Some m → 0 ≤ fm_len m) →
  read_private_file path maximum = Ok bytes ↔
    (∃ m, fs_metadata path = Some m ∧ private maximum m) ∧ fs_read path = Some bytes.
Proof.
  intros Hlen. rewrite /read_private_file /invalid /private.
  destruct (fs_metadata path) as [m|]; simpl; [|naive_solver].
  specialize (Hlen m eq_refl).
  pose proof (land_ones_zero (fm_mode m) 6 ltac:(lia)) as Hg.
  pose proof (land_power_zero (fm_mode m) 8 ltac:(lia)) as Ho.
  change (Z.ones 6) with GROUP_AND_OTHERS in Hg. change (2 ^ 8) with OWNER_READ in Ho.
  destruct (_ || _) eqn:Hb.
  - split; [done|]. intros [(m'&[= <-]&Hf&Hl&Hbits&Hr) _]. exfalso.
    apply Hg in Hbits. rewrite Hf Hbits in Hb. simpl in Hb.
    rewrite !orb_true_iff Z.eqb_eq Z.ltb_lt Z.eqb_eq Ho Hr in Hb. intuition (lia || done).
  - rewrite !orb_false_iff !negb_false_iff Z.eqb_neq Z.ltb_ge Z.eqb_eq Z.eqb_neq in Hb.
    destruct Hb as [[[[Hf Hn] Hm] Hz] Hr]. rewrite Hg in Hz.
    assert (Z.testbit (fm_mode m) 8 = true) as Ht by by apply not_false_iff_true; rewrite -Ho.
    rewrite /ok_or. destruct (fs_read path); [|naive_solver].
    split; [|by intros [_ [= ->]]]. intros [= ->]. split; [|done]. exists m. split_and!; try done; lia.
Qed.

Lemma substring_all s : String.substring 0 (String.length s) s = s.
Proof. induction s as [|c s IH]; simpl; [done|by rewrite IH]. Qed.

Lemma split_at_app (a b : string) : split_at (String.length a) (a +:+ b) = (a, b).
Proof.
  rewrite /split_at. f_equal.
  - induction a as [|c a IH]; simpl; [by destruct b|by rewrite IH].
  - induction a as [|c a IH]; simpl; [rewrite Nat.sub_0_r; apply substring_all|exact IH].
Qed.

Lemma split_at_spec n s :
  (n ≤ String.length s)%nat → s = ((split_at n s).1 +:+ (split_at n s).2)%string ∧
    String.length (split_at n s).1 = n.
Proof.
  intros Hn. assert (∃ a b : string, s = (a +:+ b)%string ∧ String.length a = n) as (a&b&->&<-).
  { revert s Hn. induction n as [|n IH]; intros [|c s] Hn; simpl in *; try lia.
    - by exists EmptyString, EmptyString.
    - by exists EmptyString, (String c s).
    - destruct (IH s ltac:(lia)) as (a&b&->&<-). by exists (String c a), b. }
  by rewrite split_at_app.
Qed.

(** C40: A session is loaded from private, authenticated material only.  Loading succeeds exactly when
    both files are regular, non-empty, within their bounds, readable by their owner and closed to
    group and others; the key read is 32 bytes, the session read is a 24-byte nonce and more; and the
    cipher authenticates what follows the nonce, under that key, that nonce and the fixed associated
    data, to a non-empty plaintext, which is the material. *)
Theorem session_load_exact config plaintext :
  (∀ path m, fs_metadata path = Some m → 0 ≤ fm_len m) →
  load config = Ok plaintext ↔
    ∃ key nonce ciphertext : string,
      (∃ m, fs_metadata (pc_session_key_file config) = Some m ∧ private 32 m) ∧
      fs_read (pc_session_key_file config) = Some key ∧ String.length key = 32%nat ∧
      (∃ m, fs_metadata (pc_session_file config) = Some m ∧ private (2 ^ 20) m) ∧
      fs_read (pc_session_file config) = Some (nonce +:+ ciphertext)%string ∧
      String.length nonce = 24%nat ∧ ciphertext ≠ EmptyString ∧ cipher_key_accepted key = true ∧
      cipher_decrypt key nonce "ratatoskr-channel-digests-session-v1" ciphertext = Some plaintext ∧
      plaintext ≠ EmptyString.
Proof.
  intros Hlen.
  assert (∀ path maximum bytes, read_private_file path maximum = Ok bytes ↔
    (∃ m, fs_metadata path = Some m ∧ private maximum m) ∧ fs_read path = Some bytes) as Hread
    by (intros; apply read_private_file_Ok, Hlen).
  rewrite /load /invalid. split.
  - intros (key&Hkey%Hread&Hl)%result_bind_Ok.
    destruct (Nat.eqb_spec (String.length key) KEY_BYTES) as [Hk|]; [simpl in Hl|done].
    apply result_bind_Ok in Hl as (enc&Henc%Hread&Hl).
    destruct (Nat.leb_spec (String.length enc) NONCE_BYTES) as [|He]; [done|].
    destruct (split_at_spec NONCE_BYTES enc ltac:(lia)) as [Heq Hn].
    destruct (cipher_key_accepted key) eqn:Hc; [simpl in Hl|done].
    apply result_bind_Ok in Hl as (p&Hp%ok_or_Ok&Hl). case_bool_decide as Hpe; [done|].
    injection Hl as <-. exists key, (split_at NONCE_BYTES enc).1, (split_at NONCE_BYTES enc).2.
    rewrite -Heq.
    change (Z.of_nat KEY_BYTES) with 32 in Hkey. change MAX_SESSION_BYTES with (2 ^ 20) in Henc.
    destruct Hkey as [Hmk ?], Henc as [Hme ?]. split_and!; try first [done|exact Hmk|exact Hme].
    intros Hct. apply (f_equal String.length) in Heq. rewrite length_text_app Hct Hn Nat.add_0_r in Heq. lia.
  - intros (key&nonce&ct&Hmk&Hrk&Hlk&Hme&Hre&Hln&Hct&Hc&Hd&Hp).
    rewrite (proj2 (Hread _ (Z.of_nat KEY_BYTES) key)) //=. rewrite Hlk /=.
    rewrite (proj2 (Hread _ MAX_SESSION_BYTES (nonce +:+ ct)%string)) //=.
    destruct (Nat.leb_spec (String.length (nonce +:+ ct)) NONCE_BYTES) as [Hle|_].
    { rewrite length_text_app Hln /NONCE_BYTES in Hle. destruct ct; simpl in *; [done|lia]. }
    pose proof (split_at_app nonce ct) as Hsplit. rewrite Hln /split_at in Hsplit.
    injection Hsplit as Hs1 Hs2. rewrite /= /NONCE_BYTES Hs1 Hs2 Hc /= /AAD Hd /=.
    by rewrite bool_decide_eq_false_2.
Qed.
End Session.

(** ** Witness *)

Module DemoSession.
Definition key : string := "0123456789abcdef0123456789abcdef".
Definition nonce : string := "0123456789abcdef01234567".

#[local] Instance files : SessionExternal := {|
  fs_metadata path :=
    if bool_decide (path = "/run/key") then Some (FileMetadata true 32 33152)
    else if bool_decide (path = "/run/session") then Some (FileMetadata true 31 33152) else None;
  fs_read path :=
    if bool_decide (path = "/run/key") then Some key
    else if bool_decide (path = "/run/session") then Some (nonce +:+ "session")%string else None;
  cipher_key_accepted _ := true;
  cipher_decrypt k n a c := if bool_decide (k = key) && bool_decide (n = nonce) then Some c else None;
|}.

Definition provider : provider_config := ProviderConfig 1 "hash" "/run/session" "/run/key" 2.
End DemoSession.

(** A private session is loaded; what was loaded is what the cipher authenticated. *)
Lemma session_load_exact_witness :
  @load DemoSession.files DemoSession.provider = Ok "session" ∧
  ∃ k n c, @cipher_decrypt DemoSession.files k n "ratatoskr-channel-digests-session-v1" c = Some "session" ∧
    String.length n = 24%nat.
Proof.
  split; [vm_compute; reflexivity|].
  destruct (proj1 (@session_load_exact DemoSession.files DemoSession.provider "session"
    ltac:(intros path m; simpl; repeat case_bool_decide; intros; simplify_eq; simpl; lia))
    ltac:(vm_compute; reflexivity)) as (k&n&c&_&_&_&_&_&Hn&_&_&Hd&_).
  exists k, n, c. split; [exact Hd|exact Hn].
Defined.
