(* ===== verification/Supervision.v ===== *)
(** * Supervision: [src/src/runtime.rs] and the loops of [src/src/bus.rs] and [src/src/retention.rs]

    A supervisor is a loop over a [select!]; it is modelled as a function of the list of branches the
    selects take, each with the clock readings and answers of its moment.  A loop that has not ended
    by the end of the list is still waiting.  Tasks, listeners and connections are tokio's, axum's and
    async-nats's. *)

From S2P Require Import Prelude Text External Store Tx Runs Provider Executor Bus Reaper Maintenance.
From S2P Require Import Registration ResultReader Api Config.

Module DatabaseError.
Inductive t := Unavailable | Schema.
End DatabaseError.

Module RuntimeError.
Inductive t := Database (e : DatabaseError.t) | Listener | Signal | ResultReader | Registration | Drain.
End RuntimeError.

(** ** Readiness *)

(** The three atomic booleans of [WorkerReadiness] and its [Lifecycle]. *)
Record readiness := Readiness { rd_bus : bool; rd_provider : bool; rd_ready : bool }.

Definition refresh (r : readiness) : readiness :=
  Readiness (rd_bus r) (rd_provider r) (rd_bus r && rd_provider r).

Definition set_bus (ready : bool) (r : readiness) : readiness :=
  refresh (Readiness ready (rd_provider r) (rd_ready r)).

Definition set_provider (ready : bool) (r : readiness) : readiness :=
  refresh (Readiness (rd_bus r) ready (rd_ready r)).

Definition begin_drain (r : readiness) : readiness := Readiness (rd_bus r) (rd_provider r) false.

(** The operator route [/ready]. *)
Definition operator_ready (r : readiness) : Z := if rd_ready r then OK else SERVICE_UNAVAILABLE.

(** The operator plane of both roles; the worker merges [metrics_router] outside its layer. *)
Inductive operator_route := Live | OperatorReady.

Definition operator_router (rt : operator_route) (r : readiness) : response :=
  no_store (status_response match rt with Live => OK | OperatorReady => operator_ready r end).

Definition metrics_router (metrics : Z * Z) : response :=
  Response OK (Some "text/plain; version=0.0.4") None (Text (render metrics)).

(** ** The JetStream topology *)

Record consumer_config := ConsumerConfig {
  con_durable_name : option string;
  con_filter_subject : string;
  con_ack_explicit : bool;
  con_ack_wait_seconds : Z;
  con_deliver_subject : option string;
  con_deliver_all : bool }.

Definition ACK_WAIT : Z := 30.

(** The consumers of a broker: the configuration of a durable of a stream, when there is one. *)
Definition topology : Type := string → string → option consumer_config.

Definition exact_consumer (broker : topology) (stream durable subject : string)
    : result BusError.t consumer_config :=
  config ← ok_or BusError.Unavailable (broker stream durable);
  if negb (bool_decide (con_durable_name config = Some durable))
     || negb (bool_decide (con_filter_subject config = subject))
     || negb (con_ack_explicit config)
     || negb (con_ack_wait_seconds config =? ACK_WAIT)
     || bool_decide (is_Some (con_deliver_subject config))
     || negb (con_deliver_all config)
  then Err BusError.Unavailable
  else Ok config.

Definition COMMAND_STREAM : string := "ratatoskr_commands".
Definition EVENT_STREAM : string := "ratatoskr_events".
Definition SUBSCRIPTION_DURABLE : string := "ratatoskr_channel_digest_subscriptions".
Definition RUN_DURABLE : string := "ratatoskr_channel_digest_runs".
Definition SCHEDULE_DURABLE : string := "ratatoskr_channel_digest_schedule_occurrences".
Definition COMPLETED_DURABLE : string := "ratatoskr_channel_digest_recap_completed".
Definition FAILED_DURABLE : string := "ratatoskr_channel_digest_recap_failed".

(** ** The broker connection *)

Module Broker.
Definition INBOX_PREFIX : string := "_INBOX_channel_digests".

(** [async_nats::ConnectOptions], as far as the program sets it. *)
Record connect_options := ConnectOptions {
  co_nkey : option string; co_inbox_prefix : option string }.

(** [connect]: [files] is the text of a file, [dial] whether the broker accepts the connection. *)
Definition connect (files : string → option string) (dial : connect_options → string → bool)
    (endpoint : string) (nkey_seed_path : option string) : result BusError.t connect_options :=
  options ← match nkey_seed_path with
            | Some path =>
                seed ← ok_or BusError.Unavailable (files path);
                Ok (ConnectOptions (Some (trim seed)) None)
            | None => Ok (ConnectOptions None None)
            end;
  let options := ConnectOptions (co_nkey options) (Some INBOX_PREFIX) in
  if dial options endpoint then Ok options else Err BusError.Unavailable.

(** [batches]; [opens] says whether the consumer opens a stream of batches of that size. *)
Definition batches (opens : consumer_config → Z → bool) (consumer : consumer_config)
    : result BusError.t unit :=
  if opens consumer 16 then Ok tt else Err BusError.Unavailable.
End Broker.

Record consumer_set := ConsumerSet {
  cset_subscriptions : consumer_config; cset_runs : consumer_config;
  cset_schedules : consumer_config; cset_completed : consumer_config;
  cset_failed : consumer_config }.

Definition verify_consumers (broker : topology) : result BusError.t consumer_set :=
  subscriptions ← exact_consumer broker COMMAND_STREAM SUBSCRIPTION_DURABLE CMD_SUBSCRIPTION;
  runs ← exact_consumer broker COMMAND_STREAM RUN_DURABLE CMD_RUN;
  schedules ← exact_consumer broker COMMAND_STREAM SCHEDULE_DURABLE CMD_SCHEDULE;
  completed ← exact_consumer broker EVENT_STREAM COMPLETED_DURABLE EVT_COMPLETED;
  failed ← exact_consumer broker EVENT_STREAM FAILED_DURABLE EVT_FAILED;
  Ok (ConsumerSet subscriptions runs schedules completed failed).

(** ** The supervisors *)

(** The transaction clock moves between two turns of a loop. *)
Definition at_instant (now : Z) (w : world) : world :=
  World (w_db w) now (w_faults w) (w_uuids w) (w_drawn w) (w_metrics w).

(** What one select of a timer loop takes: the drain, or a tick at an instant of the server with what
    the tick reads. *)
Inductive turn (I : Type) := Drained | Tick (clock : Z) (input : I).
Arguments Drained {I}.
Arguments Tick {I} clock input.

(** [loop { select! { biased; drain => return, tick => ... } }]: the result of a tick is logged and
    dropped. *)
Fixpoint timer_loop {I E A} (tick : I → M E A) (turns : list (turn I)) (w : world) : bool * world :=
  match turns with
  | [] => (false, w)
  | Drained :: _ => (true, w)
  | Tick clock input :: rest => timer_loop tick rest (tick input (at_instant clock w)).2
  end.

Section Supervision.
Context `{External} `{!BusExternal}.

(** [supervise_reaper] and [supervise_retention]; a tick reads the process clock. *)
Definition supervise_reaper (deadline_seconds : Z) : list (turn Z) → world → bool * world :=
  timer_loop (reap_once deadline_seconds).

Definition supervise_retention (body_days : Z) : list (turn Z) → world → bool * world :=
  timer_loop (sweep_once body_days).

(** The execution loop of [supervise_provider] over one connected provider; a tick gets what the
    provider answers. *)
Definition execution_loop (source_count : nat) : list (turn (uuid → provider)) → world → bool * world :=
  timer_loop (λ pv, execute_one pv (clamp_source_count source_count)).

(** One turn of the outer loop: a connection with its execution, or a failed connection. *)
Inductive connection := Connected (turns : list (turn (uuid → provider))) | Refused.

(** [supervise_provider]: [drained] tells what each check of the loop head reads. *)
Fixpoint supervise_provider (source_count : nat) (turns : list (bool * connection))
    (r : readiness) (w : world) : bool * readiness * world :=
  match turns with
  | [] => (false, r, w)
  | (true, _) :: _ => (true, r, w)
  | (false, Connected inner) :: rest =>
      let r := set_provider true r in
      match execution_loop source_count inner w with
      | (false, w) => (false, r, w)
      | (true, w) => supervise_provider source_count rest (set_provider false r) w
      end
  | (false, Refused) :: rest => supervise_provider source_count rest (set_provider false r) w
  end.

(** What one select of [consume_once] takes: the drain, the outbox timer, or a batch stream, with
    what the broker acknowledges, and whether the acknowledgement of the delivery is sent. *)
Inductive consumption :=
| DrainSignal
| OutboxTick (clock : Z) (context : jetstream)
| Next (clock : Z) (context : jetstream) (next : option (option (string * string))) (sent : bool).

(** The loop of [consume_once]; [Ok false] when it still waits. *)
Fixpoint consume_loop (language : OutputLanguage.t) (turns : list consumption) (w : world)
    : result BusError.t bool * world :=
  match turns with
  | [] => (Ok false, w)
  | DrainSignal :: _ => (Ok true, w)
  | OutboxTick clock context :: rest =>
      match publish_outbox (acknowledges context) (at_instant clock w) with
      | (Ok _, w) => consume_loop language rest w
      | (Err e, w) => (Err e, w)
      end
  | Next clock context next sent :: rest =>
      match process_delivery language (acknowledges context) next (at_instant clock w) with
      | (Ok _, w) => if sent : bool then consume_loop language rest w else (Err BusError.Unavailable, w)
      | (Err e, w) => (Err e, w)
      end
  end.

(** One attempt of the bus: the seed file, the broker's answer to the connection, the topology and the
    batch streams it finds, what it answers to the first publication, and the selects. *)
Record attempt := Attempt {
  at_files : string → option string; at_dial : Broker.connect_options → string → bool;
  at_broker : topology; at_opens : consumer_config → Z → bool; at_clock : Z; at_context : jetstream;
  at_turns : list consumption }.

(** [consume_once] up to its batch streams. *)
Definition open_streams (bus : bus_config) (a : attempt) : result BusError.t unit :=
  _ ← Broker.connect (at_files a) (at_dial a) (bc_endpoint bus) (bc_nkey_seed_path bus);
  consumers ← verify_consumers (at_broker a);
  _ ← Broker.batches (at_opens a) (cset_subscriptions consumers);
  _ ← Broker.batches (at_opens a) (cset_runs consumers);
  _ ← Broker.batches (at_opens a) (cset_schedules consumers);
  _ ← Broker.batches (at_opens a) (cset_completed consumers);
  Broker.batches (at_opens a) (cset_failed consumers).

(** [consume_once] *)
Definition consume_once (bus : bus_config) (language : OutputLanguage.t) (a : attempt) (r : readiness)
    (w : world) : result BusError.t bool * readiness * world :=
  match open_streams bus a with
  | Err e => (Err e, r, w)
  | Ok _ =>
      match publish_outbox (acknowledges (at_context a)) (at_instant (at_clock a) w) with
      | (Err e, w) => (Err e, r, w)
      | (Ok _, w) =>
          let r := set_bus true r in
          let '(res, w) := consume_loop language (at_turns a) w in (res, r, w)
      end
  end.

(** [supervise_bus]: each attempt with what the drain reads before it and after it. *)
Fixpoint supervise_bus (bus : bus_config) (language : OutputLanguage.t)
    (attempts : list (bool * attempt * bool)) (r : readiness) (w : world) : bool * readiness * world :=
  match attempts with
  | [] => (false, r, w)
  | (true, _, _) :: _ => (true, r, w)
  | (false, a, drained) :: rest =>
      match consume_once bus language a r w with
      | (Ok false, r, w) => (false, r, w)
      | (_, r, w) =>
          let r := set_bus false r in
          if drained : bool then (true, r, w) else supervise_bus bus language rest r w
      end
  end.
End Supervision.

(** ** Composition from the configuration *)

(** [KnowledgeResultReader::from_config]; [builds] tells whether the HTTP client builds. *)
Definition reader_from_config (c : config) (builds : bool)
    : result KnowledgeResultReadError.t knowledge_result_reader :=
  policy ← ok_or KnowledgeResultReadError.Invalid (cfg_knowledge_result_reader c);
  if negb builds then Err KnowledgeResultReadError.Invalid
  else Ok (KnowledgeResultReader (kc_base_url policy) (kc_service_secret policy)
             (kc_max_response_bytes policy)).

(** The router [run_api] serves. *)
Definition api_of (c : config) (builds : bool) : result RuntimeError.t api_state :=
  reader ← map_err (λ _, RuntimeError.ResultReader) (reader_from_config c builds);
  Ok (ApiState (cfg_service_secret c) (lim_page_size (cfg_limits c)) reader).

(** What [run_worker] hands to its tasks. *)
Record worker_parts := WorkerParts {
  wp_session : string; wp_bus : bus_config; wp_language : OutputLanguage.t; wp_provider : provider_config;
  wp_source_count : nat; wp_deadline_seconds : Z; wp_body_days : Z; wp_sweep_seconds : Z;
  wp_schedule : option schedule_config }.

Definition worker_of (c : config) (session : string) : result RuntimeError.t worker_parts :=
  bus ← ok_or RuntimeError.Listener (cfg_bus c);
  retention ← ok_or RuntimeError.Listener (cfg_retention c);
  provider ← ok_or RuntimeError.Listener (cfg_provider c);
  Ok (WorkerParts session bus
        match cfg_schedule c with Some s => sched_language s | None => DEFAULT_SCHEDULE_LANGUAGE end
        provider (Z.to_nat (lim_source_count (cfg_limits c)))
        (lim_run_deadline_seconds (cfg_limits c)) (ret_body_days retention)
        (ret_sweep_interval_seconds retention) (cfg_schedule c)).

(** ** The database *)

Module Database.
(** [PgPoolOptions] *)
Record pool_options := PoolOptions {
  po_url : string; po_max_connections : Z; po_acquire_timeout_ms : Z }.

(** [Database::connect]; [pool] says whether the server accepts the pool. *)
Definition connect (pool : pool_options → bool) (url : string) (max_connections acquire_timeout_ms : Z)
    : result DatabaseError.t pool_options :=
  let options := PoolOptions url max_connections acquire_timeout_ms in
  if pool options then Ok options else Err DatabaseError.Unavailable.

(** [Database::apply_schema] *)
Definition apply_schema (applies : bool) : result DatabaseError.t unit :=
  if applies then Ok tt else Err DatabaseError.Schema.
End Database.

(** ** The two processes *)

(** What [shutdown_signal] hears: no handler installs, [SIGTERM], or the answer of [ctrl_c]. *)
Inductive shutdown := NoHandler | Terminated | Interrupted (heard : bool).

Definition shutdown_signal (s : shutdown) : result RuntimeError.t unit :=
  match s with
  | NoHandler | Interrupted false => Err RuntimeError.Signal
  | Terminated | Interrupted true => Ok tt
  end.

(** What the environment of a process answers: the server accepts the pool, the schema applies, the
    listeners bind, the HTTP client builds, and the signal that ends it. *)
Record startup := Startup {
  su_pool : Database.pool_options → bool; su_schema : bool; su_binds : socket_addr → bool;
  su_client_builds : bool; su_shutdown : shutdown }.

(** [connect_database] *)
Definition connect_database (c : config) (s : startup) : result RuntimeError.t Database.pool_options :=
  map_err RuntimeError.Database (Database.connect (su_pool s) (dc_url (cfg_database c))
    (dc_max_connections (cfg_database c)) (dc_acquire_timeout_ms (cfg_database c))).

Definition open_database (c : config) (s : startup) : result RuntimeError.t unit :=
  _ ← connect_database c s;
  map_err RuntimeError.Database (Database.apply_schema (su_schema s)).

Definition bind (s : startup) (address : socket_addr) : result RuntimeError.t unit :=
  if su_binds s address then Ok tt else Err RuntimeError.Listener.

(** How a spawned task ended: with its result, with a panic, or not within the shutdown bound. *)
Inductive joined := Finished (r : result RuntimeError.t unit) | Panicked | Hanging.

(** [join_servers]: in order, under one timeout. *)
Fixpoint join_servers (servers : list joined) : result RuntimeError.t unit :=
  match servers with
  | [] => Ok tt
  | Finished (Ok _) :: rest => join_servers rest
  | Finished (Err e) :: _ => Err e
  | Panicked :: _ | Hanging :: _ => Err RuntimeError.Drain
  end.

(** What [drain.changed()] answers: a value was sent, or the sender is gone. *)
Inductive drain_change := Sent (value : bool) | SenderGone.

(** The graceful shutdown of [serve]: whether the changes end it. *)
Fixpoint drains (drain : bool) (changes : list drain_change) : bool :=
  if drain then true
  else match changes with
       | [] => false
       | Sent value :: rest => drains value rest
       | SenderGone :: _ => true
       end.

(** [serve]; [ends_well] is what axum answers once it is drained. *)
Definition serve (changes : list drain_change) (ends_well : bool) : joined :=
  if drains false changes
  then Finished (if ends_well then Ok tt else Err RuntimeError.Listener) else Hanging.

(** [serve_pair]: after the signal both servers are drained and joined. *)
Definition serve_pair (s : shutdown) (servers : list joined) : result RuntimeError.t unit :=
  _ ← shutdown_signal s; join_servers servers.

(** [run_api]; [servers] is how the two listeners end over the router's state. *)
Definition run_api (c : config) (s : startup) (servers : api_state → list joined)
    : result RuntimeError.t unit :=
  state ← api_of c (su_client_builds s);
  _ ← open_database c s;
  _ ← bind s (cfg_api c);
  _ ← bind s (cfg_operator c);
  serve_pair (su_shutdown s) (servers state).

(** [run_worker]; [tasks] is how the five tasks end over their parts, and what they do to the world.
    A worker configuration that loaded has every part, so the tasks are spawned together. *)
Definition run_worker `{External} (c : config) (session : string) (s : startup)
    (tasks : worker_parts → world → list joined * world) (w : world)
    : result RuntimeError.t unit * world :=
  match _ ← open_database c s; _ ← bind s (cfg_operator c); ok_or RuntimeError.Listener (cfg_bus c) with
  | Err e => (Err e, w)
  | Ok _ =>
      match enqueue_schedule_registration (cfg_schedule c) w with
      | (Err _, w) => (Err RuntimeError.Registration, w)
      | (Ok _, w) =>
          match worker_of c session with
          | Err e => (Err e, w)
          | Ok parts =>
              let '(ended, w) := tasks parts w in
              (_ ← shutdown_signal (su_shutdown s); join_servers ended, w)
          end
      end
  end.
