(* ===== verification/SupervisionSpec.v ===== *)
(** * SupervisionSpec: what the supervisors guarantee *)

From S2P Require Import Prelude Text External Store Tx Demo Runs Provider Executor Bus Reaper Maintenance.
From S2P Require Import Revisions MaintenanceSpec System Registration ResultReader Api ApiSpec Config ConfigSpec Supervision.

(** ** The timer loops *)

(** The ticks before the first drain. *)
Fixpoint ticks {I} (turns : list (turn I)) : list (Z * I) :=
  match turns with
  | Tick clock input :: rest => (clock, input) :: ticks rest
  | _ => []
  end.

Definition is_drain {I} (t : turn I) : bool := match t with Drained => true | _ => false end.

Lemma timer_loop_exact {I E A} (tick : I → M E A) turns w :
  timer_loop tick turns w =
    (existsb is_drain turns,
     foldl (λ w ci, (tick ci.2 (at_instant ci.1 w)).2) w (ticks turns)).
Proof.
  revert w. induction turns as [|[|clock input] rest IH]; intros w; simpl; [done|done|apply IH].
Qed.

Section Spec.
Context `{External} `{!BusExternal}.

Lemma timer_loop_steps {I E A} (tick : I → M E A) turns w :
  (∀ i, evolves (rtc step) (tick i)) → rtc step (w_db w) (w_db (timer_loop tick turns w).2).
Proof.
  intros Ht. revert w. induction turns as [|[|clock input] rest IH]; intros w; simpl; [done|done|].
  etrans; [apply (Ht input (at_instant clock w))|apply IH].
Qed.

Lemma supervise_provider_steps n turns r w :
  rtc step (w_db w) (w_db (supervise_provider n turns r w).2).
Proof.
  revert r w. induction turns as [|[[] [inner|]] rest IH]; intros r w; simpl; try done.
  pose proof (timer_loop_steps (λ pv, execute_one pv (clamp_source_count n)) inner w
    (λ pv, execute_one_steps pv _)) as Hs.
  rewrite /execution_loop. destruct (timer_loop _ inner w) as [[] w1]; simpl in *; [|done].
  etrans; [exact Hs|apply IH].
Qed.

Lemma consume_loop_steps language turns w :
  rtc step (w_db w) (w_db (consume_loop language turns w).2).
Proof.
  revert w. induction turns as [|[|clock context|clock context next sent] rest IH]; intros w; simpl; [done|done| |].
  - pose proof (publish_outbox_steps (acknowledges context) (at_instant clock w)) as Hs.
    destruct (publish_outbox _ _) as [[u|e] w1]; simpl in *; [|done]. etrans; [exact Hs|apply IH].
  - pose proof (process_delivery_steps language (acknowledges context) next (at_instant clock w)) as Hs.
    destruct (process_delivery _ _ _ _) as [[u|e] w1]; simpl in *; [|done].
    destruct sent; [|done]. etrans; [exact Hs|apply IH].
Qed.

Lemma consume_once_steps bus language a r w :
  rtc step (w_db w) (w_db (consume_once bus language a r w).2).
Proof.
  rewrite /consume_once. destruct (open_streams bus a); [|done].
  pose proof (publish_outbox_steps (acknowledges (at_context a)) (at_instant (at_clock a) w)) as Hs.
  destruct (publish_outbox _ _) as [[u|e] w1]; simpl in *; [|done].
  pose proof (consume_loop_steps language (at_turns a) w1) as Hl.
  destruct (consume_loop _ _ _) as [res w2]; simpl in *. by etrans.
Qed.

Lemma supervise_bus_steps bus language attempts r w :
  rtc step (w_db w) (w_db (supervise_bus bus language attempts r w).2).
Proof.
  revert r w. induction attempts as [|[[[] a] drained] rest IH]; intros r w; simpl; [done|done|].
  pose proof (consume_once_steps bus language a r w) as Hs.
  destruct (consume_once bus language a r w) as [[[[]|e] r1] w1]; simpl in *; [|done|];
    (destruct drained; [done|]; etrans; [exact Hs|apply IH]).
Qed.

(** ** Readiness *)

(** The five durables, each as it was provisioned. *)
Definition provisioned (broker : topology) : Prop :=
  Forall (λ sds : string * string * string,
    broker sds.1.1 sds.1.2 = Some (ConsumerConfig (Some sds.1.2) sds.2 true 30 None true))
  [(COMMAND_STREAM, SUBSCRIPTION_DURABLE, CMD_SUBSCRIPTION); (COMMAND_STREAM, RUN_DURABLE, CMD_RUN);
   (COMMAND_STREAM, SCHEDULE_DURABLE, CMD_SCHEDULE); (EVENT_STREAM, COMPLETED_DURABLE, EVT_COMPLETED);
   (EVENT_STREAM, FAILED_DURABLE, EVT_FAILED)].

Lemma exact_consumer_Ok broker stream durable subject c :
  exact_consumer broker stream durable subject = Ok c ↔
    broker stream durable = Some c ∧ c = ConsumerConfig (Some durable) subject true 30 None true.
Proof.
  rewrite /exact_consumer /ACK_WAIT. destruct (broker stream durable) as [[n f e a d l]|]; simpl; [|naive_solver].
  split.
  - destruct (_ || _) eqn:Hb; [done|]. intros [= <-]. split; [done|].
    rewrite !orb_false_iff !negb_false_iff !bool_decide_eq_true bool_decide_eq_false in Hb.
    destruct Hb as [[[[[-> ->] ->] Ha] Hd] ->]. destruct d; [by destruct Hd|]. f_equal. lia.
  - intros [[= <-] [= -> -> -> -> -> ->]]. by rewrite !(bool_decide_eq_true_2 (_ = _)) ?(bool_decide_eq_false_2 (is_Some None)) // is_Some_alt.
Qed.

Lemma verify_consumers_Ok broker : is_ok (verify_consumers broker) = true ↔ provisioned broker.
Proof.
  assert (∀ s d j, is_ok (exact_consumer broker s d j) = true ↔
    broker s d = Some (ConsumerConfig (Some d) j true 30 None true)) as He.
  { intros s d j. pose proof (exact_consumer_Ok broker s d j) as Hx.
    destruct (exact_consumer broker s d j) as [c|]; simpl.
    - destruct (Hx c) as [Hx' _]. destruct (Hx' eq_refl) as [-> ->]. done.
    - split; [done|]. intros Hb. discriminate (proj2 (Hx _) (conj Hb eq_refl)). }
  rewrite /provisioned !Forall_cons Forall_nil /= -!He /verify_consumers /mbind /result_bind.
  do 5 (destruct (exact_consumer broker _ _ _); simpl; [|split; intuition congruence]). intuition.
Qed.

(** The connection of an attempt: under the service's own inbox prefix, with the trimmed text of the
    seed file as its key when the configuration names one. *)
Definition connects (bus : bus_config) (a : attempt) : Prop :=
  ∃ key, at_dial a (Broker.ConnectOptions key (Some "_INBOX_channel_digests")) (bc_endpoint bus) = true ∧
    match bc_nkey_seed_path bus with
    | Some path => ∃ text, at_files a path = Some text ∧ key = Some (trim text)
    | None => key = None
    end.

Lemma connect_Ok bus a :
  is_ok (Broker.connect (at_files a) (at_dial a) (bc_endpoint bus) (bc_nkey_seed_path bus)) = true ↔
    connects bus a.
Proof.
  rewrite /Broker.connect /connects /Broker.INBOX_PREFIX. destruct (bc_nkey_seed_path bus) as [path|].
  - destruct (at_files a path) as [text|]; simpl; [|naive_solver].
    destruct (at_dial a _ _) eqn:Hd; simpl; [naive_solver|].
    split; [done|]. intros (key&Hk&text'&[= <-]&->). by rewrite Hd in Hk.
  - simpl. destruct (at_dial a _ _) eqn:Hd; simpl; [naive_solver|].
    split; [done|]. intros (key&Hk&->). by rewrite Hd in Hk.
Qed.

(** All five batch streams open, of sixteen messages each. *)
Definition streams (a : attempt) : Prop :=
  Forall (λ ds : string * string,
    at_opens a (ConsumerConfig (Some ds.1) ds.2 true 30 None true) 16 = true)
  [(SUBSCRIPTION_DURABLE, CMD_SUBSCRIPTION); (RUN_DURABLE, CMD_RUN); (SCHEDULE_DURABLE, CMD_SCHEDULE);
   (COMPLETED_DURABLE, EVT_COMPLETED); (FAILED_DURABLE, EVT_FAILED)].

Lemma verified_consumers broker set :
  verify_consumers broker = Ok set →
  set = ConsumerSet (ConsumerConfig (Some SUBSCRIPTION_DURABLE) CMD_SUBSCRIPTION true 30 None true)
    (ConsumerConfig (Some RUN_DURABLE) CMD_RUN true 30 None true)
    (ConsumerConfig (Some SCHEDULE_DURABLE) CMD_SCHEDULE true 30 None true)
    (ConsumerConfig (Some COMPLETED_DURABLE) EVT_COMPLETED true 30 None true)
    (ConsumerConfig (Some FAILED_DURABLE) EVT_FAILED true 30 None true).
Proof.
  rewrite /verify_consumers. intros Hv.
  do 5 (apply result_bind_Ok in Hv as (?&[_ ->]%exact_consumer_Ok&Hv)). by injection Hv as <-.
Qed.

Lemma open_streams_Ok bus a :
  is_ok (open_streams bus a) = true ↔ connects bus a ∧ provisioned (at_broker a) ∧ streams a.
Proof.
  rewrite -connect_Ok -verify_consumers_Ok /open_streams.
  destruct (Broker.connect _ _ _ _); simpl; [|naive_solver].
  pose proof (verified_consumers (at_broker a)) as Hv.
  destruct (verify_consumers (at_broker a)) as [set|]; simpl; [|naive_solver].
  rewrite (Hv set eq_refl) /streams !Forall_cons Forall_nil /Broker.batches /=.
  destruct (at_opens a (ConsumerConfig (Some SUBSCRIPTION_DURABLE) _ _ _ _ _) 16); simpl; [|naive_solver].
  destruct (at_opens a (ConsumerConfig (Some RUN_DURABLE) _ _ _ _ _) 16); simpl; [|naive_solver].
  destruct (at_opens a (ConsumerConfig (Some SCHEDULE_DURABLE) _ _ _ _ _) 16); simpl; [|naive_solver].
  destruct (at_opens a (ConsumerConfig (Some COMPLETED_DURABLE) _ _ _ _ _) 16); simpl; [|naive_solver].
  destruct (at_opens a (ConsumerConfig (Some FAILED_DURABLE) _ _ _ _ _) 16); simpl; naive_solver.
Qed.

(** ** What the bus supervisor does *)

(** The worker is ready when both dependencies are: the flags with one of them set. *)
Definition with_bus (b : bool) (r : readiness) : readiness :=
  Readiness b (rd_provider r) (b && rd_provider r).

Definition with_provider (b : bool) (r : readiness) : readiness :=
  Readiness (rd_bus r) b (rd_bus r && b).

(** One turn that is not the drain: the timer publishes the due outbox; a delivery is handled, then
    the due outbox is published, then the acknowledgement sent; a stream that ended or fails ends the
    attempt. *)
Inductive turn_done (language : OutputLanguage.t) :
    consumption → world → result BusError.t unit → world → Prop :=
| timer_published clock context w res w' :
    publish_outbox (acknowledges context) (at_instant clock w) = (res, w') →
    turn_done language (OutboxTick clock context) w res w'
| stream_lost clock context next sent w :
    (next = None ∨ next = Some None) →
    turn_done language (Next clock context next sent) w (Err BusError.Unavailable) (at_instant clock w)
| delivery_handled clock context subject bytes sent w disposition w1 res w2 :
    handle language subject bytes (at_instant clock w) = (Ok disposition, w1) →
    publish_outbox (acknowledges context) w1 = (res, w2) →
    turn_done language (Next clock context (Some (Some (subject, bytes))) sent) w
      match res with
      | Ok _ => if sent : bool then Ok tt else Err BusError.Unavailable
      | Err e => Err e
      end w2.

(** Every turn in order, none of them failing. *)
Inductive turns_done (language : OutputLanguage.t) : list consumption → world → world → Prop :=
| no_turn w : turns_done language [] w w
| one_more t rest w w1 w2 :
    turn_done language t w (Ok tt) w1 → turns_done language rest w1 w2 →
    turns_done language (t :: rest) w w2.

(** The turns a connection takes: all of those before the drain, before the first that fails, or all
    so far. *)
Definition consumed (language : OutputLanguage.t) (turns : list consumption) (w : world)
    (res : result BusError.t bool) (w' : world) : Prop :=
  ∃ served rest w1, turns = served ++ rest ∧ turns_done language served w w1 ∧
    match rest with
    | [] => res = Ok false ∧ w' = w1
    | DrainSignal :: _ => res = Ok true ∧ w' = w1
    | t :: _ => ∃ e, turn_done language t w1 (Err e) w' ∧ res = Err e
    end.

Lemma delivery_turn language clock context next sent w :
  ∃ res, turn_done language (Next clock context next sent) w res
      (process_delivery language (acknowledges context) next (at_instant clock w)).2 ∧
    res = match (process_delivery language (acknowledges context) next (at_instant clock w)).1 with
          | Ok _ => if sent then Ok tt else Err BusError.Unavailable
          | Err e => Err e
          end.
Proof.
  destruct next as [[[subject bytes]|]|]; [|eexists; split; [apply stream_lost|done]; auto..].
  destruct (handle language subject bytes (at_instant clock w)) as [[disposition|[]] w1] eqn:Hh.
  destruct (publish_outbox (acknowledges context) w1) as [res w2] eqn:Hp.
  assert (process_delivery language (acknowledges context) (Some (Some (subject, bytes))) (at_instant clock w)
    = (match res with Ok _ => Ok disposition | Err e => Err e end, w2)) as ->.
  { cbv [process_delivery lift on_err mbind M_bind mret M_ret ok_or]. rewrite Hh Hp. by destruct res. }
  eexists. split; [by eapply delivery_handled|by destruct res].
Qed.

Lemma consume_loop_exact language turns w :
  consumed language turns w (consume_loop language turns w).1 (consume_loop language turns w).2.
Proof.
  assert (∀ t rest w w1, turn_done language t w (Ok tt) w1 →
    consumed language rest w1 (consume_loop language rest w1).1 (consume_loop language rest w1).2 →
    consumed language (t :: rest) w (consume_loop language rest w1).1 (consume_loop language rest w1).2)
    as Hmore.
  { intros t rest w0 w1 Ht (served&later&w2&->&Hs&Hl). exists (t :: served), later, w2.
    split; [done|]. split; [by econstructor|done]. }
  assert (∀ t rest w e w', turn_done language t w (Err e) w' → consumed language (t :: rest) w (Err e) w') as Hfail.
  { intros t rest w0 e w' Ht. exists [], (t :: rest), w0. split; [done|]. split; [constructor|].
    destruct t; [by inversion Ht|by eexists..]. }
  revert w. induction turns as [|[|clock context|clock context next sent] rest IH]; intros w; simpl.
  - exists [], [], w. by repeat constructor.
  - exists [], (DrainSignal :: rest), w. by repeat constructor.
  - destruct (publish_outbox _ _) as [[[]|e] w1] eqn:Hp; simpl;
      [apply Hmore; [by constructor|apply IH]|by apply Hfail; constructor].
  - destruct (delivery_turn language clock context next sent w) as (res&Ht&Hres).
    destruct (process_delivery _ _ _ _) as [[d|e] w1]; simpl in *; subst res; [|by apply Hfail].
    destruct sent; [apply Hmore; [done|apply IH]|by apply Hfail].
Qed.

(** One attempt: it fails where it cannot connect, does not find the topology provisioned or opens no
    batches; then it publishes what is due, and only then turns its flag on and consumes. *)
Definition attempted (bus : bus_config) (language : OutputLanguage.t) (a : attempt)
    (r : readiness) (w : world) (res : result BusError.t bool) (r' : readiness) (w' : world) : Prop :=
  let opens := connects bus a ∧ provisioned (at_broker a) ∧ streams a in
  (¬ opens ∧ is_ok res = false ∧ r' = r ∧ w' = w) ∨
  (opens ∧ ∃ published w1,
     publish_outbox (acknowledges (at_context a)) (at_instant (at_clock a) w) = (published, w1) ∧
     match published with
     | Err e => res = Err e ∧ r' = r ∧ w' = w1
     | Ok _ => r' = with_bus true r ∧ consumed language (at_turns a) w1 res w'
     end).

Lemma consume_once_exact bus language a r w :
  let '(res, r', w') := consume_once bus language a r w in attempted bus language a r w res r' w'.
Proof.
  pose proof (open_streams_Ok bus a) as Ho. rewrite /consume_once /attempted.
  destruct (open_streams bus a) as [u|e]; simpl in Ho.
  2:{ left. split; [|done]. intros Hop. by apply Ho in Hop. }
  destruct (publish_outbox _ _) as [[[]|e] w1] eqn:Hp.
  - pose proof (consume_loop_exact language (at_turns a) w1) as Hl.
    destruct (consume_loop _ _ _) as [res w2]. right. split; [by apply Ho|]. by eexists _, _.
  - right. split; [by apply Ho|]. by eexists _, _.
Qed.

(** The supervisor of the bus: attempts one after the other, the flag off after each, until one still
    consumes or the drain is seen before or after it. *)
Inductive bus_served (bus : bus_config) (language : OutputLanguage.t) :
    list (bool * attempt * bool) → readiness → world → bool → readiness → world → Prop :=
| bus_waits r w : bus_served bus language [] r w false r w
| bus_not_started a after rest r w : bus_served bus language ((true, a, after) :: rest) r w true r w
| bus_consumes a after rest r w r' w' :
    attempted bus language a r w (Ok false) r' w' →
    bus_served bus language ((false, a, after) :: rest) r w false r' w'
| bus_stops a rest r w res r' w' :
    attempted bus language a r w res r' w' → res ≠ Ok false →
    bus_served bus language ((false, a, true) :: rest) r w true (with_bus false r') w'
| bus_retries a rest r w res r1 w1 ended r' w' :
    attempted bus language a r w res r1 w1 → res ≠ Ok false →
    bus_served bus language rest (with_bus false r1) w1 ended r' w' →
    bus_served bus language ((false, a, false) :: rest) r w ended r' w'.

Lemma supervise_bus_exact bus language attempts r w :
  let '(ended, r', w') := supervise_bus bus language attempts r w in
  bus_served bus language attempts r w ended r' w'.
Proof.
  revert r w. induction attempts as [|[[[] a] drained] rest IH]; intros r w; simpl; [constructor..|].
  pose proof (consume_once_exact bus language a r w) as Ha.
  destruct (consume_once bus language a r w) as [[[[]|e] r1] w1]; [|by constructor|];
    (destruct drained; [by eapply bus_stops|];
     specialize (IH (with_bus false r1) w1);
     change (set_bus false r1) with (with_bus false r1);
     destruct (supervise_bus bus language rest (with_bus false r1) w1) as [[ended r'] w'];
     by eapply bus_retries).
Qed.

(** The ticks of one connection of the provider, each executing at most one run with the configured
    number of sources, at least one and at most a hundred. *)
Definition executed (n : nat) (turns : list (turn (uuid → provider))) (w : world) : world :=
  foldl (λ w cp, (execute_one cp.2 (Nat.max 1 (Nat.min 100 n)) (at_instant cp.1 w)).2) w (ticks turns).

(** The supervisor of the provider: a refused connection is tried again; a connection executes every
    tick, with the flag on, until the drain is seen. *)
Inductive provider_served (n : nat) :
    list (bool * connection) → readiness → world → bool → readiness → world → Prop :=
| provider_waits r w : provider_served n [] r w false r w
| provider_stops c rest r w : provider_served n ((true, c) :: rest) r w true r w
| provider_refused rest r w ended r' w' :
    provider_served n rest (with_provider false r) w ended r' w' →
    provider_served n ((false, Refused) :: rest) r w ended r' w'
| provider_executes inner rest r w :
    Drained ∉ inner →
    provider_served n ((false, Connected inner) :: rest) r w false (with_provider true r) (executed n inner w)
| provider_drained inner rest r w ended r' w' :
    Drained ∈ inner →
    provider_served n rest (with_provider false r) (executed n inner w) ended r' w' →
    provider_served n ((false, Connected inner) :: rest) r w ended r' w'.

Lemma drained_elem {I} (turns : list (turn I)) : existsb is_drain turns = true ↔ Drained ∈ turns.
Proof.
  rewrite existsb_exists. setoid_rewrite <-list_elem_of_In. split.
  - by intros ([]&?&?).
  - intros Hd. by exists Drained.
Qed.

Lemma supervise_provider_exact n turns r w :
  let '(ended, r', w') := supervise_provider n turns r w in provider_served n turns r w ended r' w'.
Proof.
  revert r w. induction turns as [|[[] [inner|]] rest IH]; intros r w; simpl; try constructor.
  - rewrite /execution_loop timer_loop_exact. change (foldl _ w (ticks inner)) with (executed n inner w).
    destruct (existsb is_drain inner) eqn:Hd.
    + apply drained_elem in Hd.
      specialize (IH (with_provider false r) (executed n inner w)).
      change (set_provider false (set_provider true r)) with (with_provider false r).
      destruct (supervise_provider n rest _ _) as [[ended r'] w']. by constructor.
    + constructor. by rewrite -drained_elem Hd.
  - specialize (IH (with_provider false r) w). change (set_provider false r) with (with_provider false r).
    destruct (supervise_provider n rest _ _) as [[ended r'] w']. by constructor.
Qed.

(** C33: The supervisors keep the workers going and do nothing else.  The reaper and the retention
    loops run every tick until the drain and stop exactly at it, whatever each tick returned.  The
    provider's supervisor tries a refused connection again, and executes on every tick of a connection,
    with its flag on, until the drain.  The supervisor of the bus attempts again and again, with its
    flag off after each attempt, until the drain; an attempt consumes, and says so, exactly when it
    connected (under the service's private inbox prefix, with the seed of the configured file), found
    all five durables with exactly the provisioned settings (name, subject, explicit acknowledgement,
    thirty seconds, pull, from the first message), opened its five batch streams and published the due
    outbox; it then publishes on every timer tick and handles every delivery, publishing what is due
    before its acknowledgement is sent, until the drain or the first failure.  And every supervisor,
    over any connections, topologies, deliveries, acknowledgements and provider answers, changes the
    database by a sequence of atomic units, so what holds of every reachable database holds while they
    run and after. *)
Theorem supervisors_refine w :
  (∀ seconds turns, supervise_reaper seconds turns w =
     (existsb is_drain turns,
      foldl (λ w cn, (reap_once seconds cn.2 (at_instant cn.1 w)).2) w (ticks turns)) ∧
     rtc step (w_db w) (w_db (supervise_reaper seconds turns w).2)) ∧
  (∀ days turns, supervise_retention days turns w =
     (existsb is_drain turns,
      foldl (λ w cn, (sweep_once days cn.2 (at_instant cn.1 w)).2) w (ticks turns)) ∧
     rtc step (w_db w) (w_db (supervise_retention days turns w).2)) ∧
  (∀ n turns r, let '(ended, r', w') := supervise_provider n turns r w in
     provider_served n turns r w ended r' w' ∧ rtc step (w_db w) (w_db w')) ∧
  (∀ bus language attempts r, let '(ended, r', w') := supervise_bus bus language attempts r w in
     bus_served bus language attempts r w ended r' w' ∧ rtc step (w_db w) (w_db w')).
Proof.
  split_and!.
  - intros. split; [apply timer_loop_exact|]. apply timer_loop_steps. intros. apply reap_once_steps.
  - intros. split; [apply timer_loop_exact|]. apply timer_loop_steps. intros. apply sweep_once_steps.
  - intros n turns r. pose proof (supervise_provider_exact n turns r w).
    pose proof (supervise_provider_steps n turns r w). by destruct (supervise_provider n turns r w) as [[??]?].
  - intros bus language attempts r. pose proof (supervise_bus_exact bus language attempts r w).
    pose proof (supervise_bus_steps bus language attempts r w).
    by destruct (supervise_bus bus language attempts r w) as [[??]?].
Qed.

End Spec.

(** ** Composition from the configuration *)

Section Composition.
Context `{External} `{!BusExternal} `{!ApiExternal} `{!ConfigExternal}.

Lemma join_servers_Ok servers :
  join_servers servers = Ok tt ↔ Forall (λ j, j = Finished (Ok tt)) servers.
Proof.
  induction servers as [|[[[]|e]| |] rest IH]; simpl; rewrite ?Forall_nil ?Forall_cons ?IH;
    naive_solver.
Qed.

(** How a process joins its tasks: well when all of them ended well, and otherwise as the first that
    did not, which failed, panicked or did not end in time. *)
Inductive joined_as : list joined → result RuntimeError.t unit → Prop :=
| all_ended servers : Forall (λ j, j = Finished (Ok tt)) servers → joined_as servers (Ok tt)
| task_failed before e after :
    Forall (λ j, j = Finished (Ok tt)) before →
    joined_as (before ++ Finished (Err e) :: after) (Err e)
| task_lost before j after :
    Forall (λ j, j = Finished (Ok tt)) before → j = Panicked ∨ j = Hanging →
    joined_as (before ++ j :: after) (Err RuntimeError.Drain).

Lemma join_servers_exact servers : joined_as servers (join_servers servers).
Proof.
  induction servers as [|[[[]|e]| |] rest IH]; simpl.
  - by apply all_ended.
  - inversion IH; subst.
    + apply all_ended. by constructor.
    + apply (task_failed (Finished (Ok tt) :: before)). by constructor.
    + apply (task_lost (Finished (Ok tt) :: before)); [by constructor|done].
  - by apply (task_failed []).
  - apply (task_lost []); auto.
  - apply (task_lost []); auto.
Qed.

(** The environment of a process answers. *)
Definition answers (c : config) (s : startup) : Prop :=
  su_pool s (Database.PoolOptions (dc_url (cfg_database c)) (dc_max_connections (cfg_database c))
    (dc_acquire_timeout_ms (cfg_database c))) = true ∧
  su_schema s = true ∧ su_binds s (cfg_api c) = true ∧ su_binds s (cfg_operator c) = true ∧
  su_client_builds s = true ∧ (su_shutdown s = Terminated ∨ su_shutdown s = Interrupted true).

Lemma signal_heard s : s = Terminated ∨ s = Interrupted true → shutdown_signal s = Ok tt.
Proof. by intros [->| ->]. Qed.

Lemma database_opens c s : answers c s → open_database c s = Ok tt.
Proof.
  intros (Hp&Hs&_). rewrite /open_database /connect_database /Database.connect Hp /=.
  by rewrite /Database.apply_schema Hs.
Qed.

(** The parts of an API under its configuration: its secret, its page size, and a reader of the
    Knowledge service it names. *)
Definition api_configured (c : config) (a : api_state) : Prop :=
  as_secret a = cfg_service_secret c ∧ as_page_limit a = lim_page_size (cfg_limits c) ∧
  ∃ k, cfg_knowledge_result_reader c = Some k ∧
    kr_base_url (as_result_reader a) = kc_base_url k ∧
    kr_service_secret (as_result_reader a) = kc_service_secret k ∧
    kr_max_response_bytes (as_result_reader a) = kc_max_response_bytes k.

(** The parts of a worker under its configuration; a worker without a schedule summarises in
    Russian. *)
Definition worker_configured (c : config) (p : worker_parts) : Prop :=
  cfg_bus c = Some (wp_bus p) ∧ cfg_provider c = Some (wp_provider p) ∧ cfg_schedule c = wp_schedule p ∧
  wp_language p = match cfg_schedule c with Some s => sched_language s | None => OutputLanguage.Ru end ∧
  Z.of_nat (wp_source_count p) = lim_source_count (cfg_limits c) ∧
  wp_deadline_seconds p = lim_run_deadline_seconds (cfg_limits c) ∧
  ∃ r, cfg_retention c = Some r ∧ wp_body_days p = ret_body_days r ∧
    wp_sweep_seconds p = ret_sweep_interval_seconds r.

(** The parts of an accepted API: a page limit of one to a hundred, a secret, and a reader of a
    loopback origin whose response bound leaves room below the machine's. *)
Definition sound_api (a : api_state) : Prop :=
  1 ≤ as_page_limit a ≤ 100 ∧ as_secret a ≠ EmptyString ∧
  loopback_origin (kr_base_url (as_result_reader a)) ∧
  1 ≤ kr_max_response_bytes (as_result_reader a) < 2 ^ 64 - 1.

(** The parts of an accepted worker: one to a hundred sources, which the executor uses unclamped, a
    deadline of a minute to a day, a retention of eight days or more. *)
Definition sound_worker (p : worker_parts) : Prop :=
  (1 ≤ wp_source_count p ≤ 100)%nat ∧ clamp_source_count (wp_source_count p) = wp_source_count p ∧
  60 ≤ wp_deadline_seconds p ≤ 86400 ∧ 8 ≤ wp_body_days p ≤ 3650 ∧
  60 ≤ wp_sweep_seconds p ≤ 86400 ∧ bus_sound (wp_bus p) ∧ provider_sound (wp_provider p).

(** An accepted configuration runs as the API once its environment answers. *)
Lemma accepted_api_runs entries c s :
  from_environment Role.Api entries = Ok c → answers c s →
  ∃ a, sound_api a ∧ api_configured c a ∧ ∀ servers, run_api c s servers = join_servers (servers a).
Proof.
  intros [Hrole Hauth _ Hsecret _ _ [_ Hpage Hsources _ _ _ _ Hdeadline]]%from_environment_sound Hans.
  pose proof (database_opens c s Hans) as Hdb. destruct Hans as (_&_&Hapi&Hop&Hcl&Hsig%signal_heard).
  rewrite /role_sound Hrole in Hauth. destruct Hauth as (_&Hb&_&_&k&Hk&Horigin&Hks&_&_&_&Hmax).
  rewrite /run_api /bind Hdb Hapi Hop Hcl /serve_pair Hsig /api_of /reader_from_config Hk /=.
  exists (ApiState (cfg_service_secret c) (lim_page_size (cfg_limits c))
    (KnowledgeResultReader (kc_base_url k) (kc_service_secret k) (kc_max_response_bytes k))).
  rewrite /sound_api /api_configured /=. split_and!; try done; [lia..|by exists k].
Qed.

(** The same of the worker, with the session it loaded: it queues the registration of the schedule,
    then starts its tasks on the database that left, and starts none when the registration fails. *)
Lemma accepted_worker_runs entries c session s :
  from_environment Role.Worker entries = Ok c → answers c s →
  ∃ p, sound_worker p ∧ worker_configured c p ∧ wp_session p = session ∧ worker_of c session = Ok p ∧
    ∀ tasks w, let '(registered, w1) := enqueue_schedule_registration (cfg_schedule c) w in
      run_worker c session s tasks w =
        if is_ok registered then (join_servers (tasks p w1).1, (tasks p w1).2)
        else (Err RuntimeError.Registration, w1).
Proof.
  intros [Hrole Hauth _ Hsecret _ _ [_ Hpage Hsources _ _ _ _ Hdeadline]]%from_environment_sound Hans.
  pose proof (database_opens c s Hans) as Hdb. destruct Hans as (_&_&Hapi&Hop&Hcl&Hsig%signal_heard).
  rewrite /role_sound Hrole in Hauth. destruct Hauth as (Hk&p&b&r&Hp&Hps&Hb&Hbs&Hr&[Hdays Hsweep]).
  rewrite /run_worker /bind Hdb Hop /worker_of Hb Hp Hr /=.
  eexists. split; [|split; [|split; [|split; [done|]]]]; [| |done|].
  - rewrite /sound_worker. simpl. rewrite /clamp_source_count /MAX_SOURCE_COUNT. split_and!; try done; lia.
  - rewrite /worker_configured /=. split_and!; try done; [lia|by exists r].
  - intros tasks w. simpl. destruct (enqueue_schedule_registration _ w) as [[o|e] w1]; simpl; [|done].
    rewrite Hsig. by destruct (tasks _ w1).
Qed.

(** A configuration of one role never starts the process of the other. *)
Lemma foreign_role_never_runs entries c s session tasks servers w :
  (from_environment Role.Api entries = Ok c →
   is_ok (run_worker c session s tasks w).1 = false ∧ (run_worker c session s tasks w).2 = w) ∧
  (from_environment Role.Worker entries = Ok c → run_api c s servers = Err RuntimeError.ResultReader).
Proof.
  split; intros [Hrole Hauth _ _ _ _ _]%from_environment_sound; rewrite /role_sound Hrole in Hauth.
  - destruct Hauth as (_&Hb&_). rewrite /run_worker Hb.
    destruct (open_database c s); simpl; [|done]. by destruct (bind s _).
  - destruct Hauth as (Hk&_). by rewrite /run_api /api_of /reader_from_config Hk.
Qed.

(** C37: Retention outlives the digest.  Whatever a worker configuration sets, a sweep takes no body a
    scheduled digest still needs: a post of the run's window, while the process clock, to the
    nanosecond, is within the run deadline of the window's end.  The shortest retention of eight days is
    the longest window of seven and the longest deadline of one, and leaves no room for rounding: the
    cutoff PostgreSQL reads may be up to half a microsecond later than the one that was printed, which
    is still not past a window that begins on a whole microsecond. *)
Theorem retention_outlives_digest entries c session p now w key row activation prior end_ :
  (∀ t b, pg_timestamptz (jiff_text t) = Some b → 1000 * b ≤ t + 500) →
  (∀ a b t, jiff_checked_sub a b = Some t → t = a - b) →
  from_environment Role.Worker entries = Ok c → worker_of c session = Ok p →
  now ≤ 1000 * (end_ + wp_deadline_seconds p * 1000000) →
  revisions (w_db w) !! key = Some row →
  (normalized_window true activation prior end_).1 ≤ rev_published_at row →
  revisions (w_db (sweep_once (wp_body_days p) now w).2) !! key = Some row.
Proof.
  intros Htext Hsub [Hrole Hauth _ _ _ _ Hlim]%from_environment_sound Hp Hnow Hk Hpub.
  apply sweep_once_recent; [|done]. intros cutoff b Hcut Hb%Htext.
  apply Hsub in Hcut as ->. rewrite /role_sound Hrole in Hauth.
  destruct Hauth as (_&pc&bc&rc&Hpc&_&Hbc&_&Hrc&[Hdays _]).
  rewrite /worker_of Hpc Hbc Hrc /= in Hp. injection Hp as <-. simpl in *.
  pose proof (lw_deadline _ Hlim) as Hd. rewrite /normalized_window /hours /= in Hpub.
  rewrite /retention_ns in Hb. lia.
Qed.
End Composition.

(** ** Witnesses *)

Module DemoWorker.
#[local] Existing Instances Demo.external DemoApi.api DemoConfig.libraries.

Definition environment : list (string * string) :=
  [("RATATOSKR__DATABASE__URL", "postgres://fixture.invalid/digests");
   ("RATATOSKR__AUTH__SERVICE_SECRET", "secret"); ("RATATOSKR__PROVIDER__API_ID", "12345");
   ("RATATOSKR__PROVIDER__API_HASH", "hash"); ("RATATOSKR__PROVIDER__SESSION_FILE", "/run/session");
   ("RATATOSKR__PROVIDER__SESSION_KEY_FILE", "/run/key"); ("RATATOSKR__BUS__ENDPOINT", "nats://127.0.0.1:4222");
   ("RATATOSKR__RETENTION__BODY_DAYS", "8"); ("RATATOSKR__LIMITS__RUN_DEADLINE_SECONDS", "86400")].

Definition expected : config :=
  Config Role.Worker (DatabaseConfig "postgres://fixture.invalid/digests" 8 5000)
    (SocketAddr loopback_v4 8098) (SocketAddr loopback_v4 9470)
    (Limits 262144 100 100 20 16384 3 120000 86400) (TelemetryConfig LogFormat.Json DEFAULT_LOG_FILTER)
    (Some (ProviderConfig 12345 "hash" "/run/session" "/run/key" 2))
    (Some (BusConfig "nats://127.0.0.1:4222" None)) None (Some (RetentionConfig 8 3600)) None "secret".

Lemma worker_loaded : from_environment Role.Worker environment = Ok expected.
Proof. vm_compute. reflexivity. Qed.

Definition parts : worker_parts :=
  WorkerParts "session" (BusConfig "nats://127.0.0.1:4222" None) OutputLanguage.Ru
    (ProviderConfig 12345 "hash" "/run/session" "/run/key" 2) 100 86400 8 3600 None.

Lemma composed : worker_of expected "session" = Ok parts.
Proof. vm_compute. reflexivity. Qed.

(** The oldest post of a seven-day window that ended a day ago, at the instant of the sweep. *)
Definition day : Z := 24 * 3600 * 1000000.
Definition post : revision_row := RevisionRow 1 9 (Demo.digest "x") (Some "x") (32 * day) 0 "l" None None.
Definition posted : world := Demo.world (with_revisions empty_db {[101%N := post]}).
End DemoWorker.

Lemma retention_outlives_digest_witness :
  revisions (w_db (@sweep_once Demo.external 8 (40 * DemoWorker.day * 1000) DemoWorker.posted).2)
    !! 101%N = Some DemoWorker.post.
Proof.
  apply (@retention_outlives_digest Demo.external DemoApi.api DemoConfig.libraries DemoWorker.environment
    DemoWorker.expected "session" DemoWorker.parts (40 * DemoWorker.day * 1000) DemoWorker.posted 101%N DemoWorker.post
    0 None (39 * DemoWorker.day)).
  - intros t b. change (Demo.int_of (int_text (t / 1000)) = Some b → 1000 * b ≤ t + 500).
    rewrite Demo.int_of_text. intros [= <-]. pose proof (Z.mul_div_le t 1000). lia.
  - intros a b t. simpl. case_match; [by intros [= <-]|done].
  - exact DemoWorker.worker_loaded.
  - exact DemoWorker.composed.
  - vm_compute. discriminate.
  - reflexivity.
  - vm_compute. discriminate.
Defined.
