(* ===== verification/Advance.v ===== *)
(** * Advance: the executor empties its queue

    [run_advances]: without storage faults, one call of [execute_one] takes the next pending run out
    of the queue, unless the provider of one of its channels asked to wait, and then that wait is
    stored; it touches no other run, so a tick per pending run leaves none pending.  Whatever the
    provider answers, the walks over the channels touch neither runs nor the outbox; then an empty
    selection completes or fails the run, a manifest that cannot be built fails it, and one that can is
    committed: [Staged] says that nothing stands in its way. *)

From S2P Require Import Prelude Text External Store Tx Demo Subscriptions Runs Reports Progress Inbox Manifest.
From S2P Require Import Revisions Provider Acquisition AcquisitionSpec Coordinator Settlement Executor.
From S2P Require Import ExecutorSpec Bus BusSpec Delta Units System Staged Safety Journey Supervision.

(** ** The walks *)

Section Gathering.
Context `{External}.

(** Posts, leases and manifest texts may change, runs and the outbox do not. *)
Record gathered (d d' : db) : Prop := {
  ga_runs : runs d' = runs d;
  ga_outbox : outbox d' = outbox d;
  ga_upstream : upstream d d' }.

(** A walk keeps the checkpoints of the others. *)
Record walks (q : acquisition_request) (d d' : db) : Prop := {
  wa_gathered : gathered d d';
  wa_leases key : key ≠ lease_key q → leases d' !! key = leases d !! key }.

#[export] Instance gathered_preorder : PreOrder gathered.
Proof.
  split; [intros d; by split|]. intros a b c [] []. split; [congruence..|by etrans].
Qed.

#[export] Instance walks_preorder q : PreOrder (walks q).
Proof.
  split; [intros d; by split|]. intros a b c [? Hab] [? Hbc]. split; [by etrans|].
  intros key Hk. by rewrite Hbc ?Hab.
Qed.

Lemma walks_frame q d d' :
  runs d' = runs d → outbox d' = outbox d → manifests d' = manifests d →
  manifest_sources d' = manifest_sources d → leases d' = leases d → walks q d d'.
Proof. intros Hr Ho Hm Hs Hl. split; [split; [done..|by apply upstream_frame]|]. by rewrite Hl. Qed.

Lemma checkpoint_walks q p state wait : evolves (walks q) (checkpoint_lease q p state wait).
Proof.
  rewrite /checkpoint_lease. evolve. intros now d u d' [= _ <-].
  split; [by split; [| |apply upstream_frame]|]. intros key Hk. by rewrite /= lookup_insert_ne.
Qed.

Lemma append_walks q o : evolves (walks q) (append o).
Proof.
  rewrite /append. evolve. apply stmt_evolves_cast; [apply _|]. intros published.
  apply stmt_evolves_cast; [apply _|]. intros observed now d u d'. rewrite /append_revision.
  repeat case_match; intros; simplify_eq; by apply walks_frame.
Qed.

Lemma withdraw_walks q c proved present deleted : evolves (walks q) (withdraw_missing c proved present deleted).
Proof.
  rewrite /withdraw_missing. evolve. intros now d u d' [= _ <-]. split; [split; [done..|]|done].
  transitivity (with_revisions d (update_where (withdraws_revision c proved present deleted) (withdraw_row now)
    (revisions d))); [by apply upstream_frame|by apply (upstream_manifests (with_revisions d _))].
Qed.

Create HintDb walks.
#[local] Hint Resolve checkpoint_walks append_walks withdraw_walks : walks.

Ltac stroll := repeat first [progress intros | solve [auto 2 with walks nocore] | evolve_step].

Lemma resume_walks q : evolves (walks q) (resume q).
Proof. intros w. destruct (resume q w) as [r w'] eqn:Hw. simpl. by apply quiet_resume in Hw as [-> _]. Qed.

Lemma store_page_walks q u win posts stored reached seen :
  evolves (walks q) (store_page q u win posts stored reached seen).
Proof. revert stored reached seen. induction posts; intros; simpl; stroll. Qed.
#[local] Hint Resolve resume_walks store_page_walks : walks.

Lemma take_page_walks q u win p seen page : evolves (walks q) (take_page q u win p seen page).
Proof. rewrite /take_page /withdraw_absent. stroll. Qed.
#[local] Hint Resolve take_page_walks : walks.

Lemma page_loop_walks pv q u c win p seen left_ : evolves (walks q) (page_loop pv q u c win p seen left_).
Proof. apply (page_loop_ind pv q u c win (λ _ _ m, evolves (walks q) m)); rewrite /page_body; intros; stroll. Qed.
#[local] Hint Resolve page_loop_walks : walks.

Lemma execute_walks pv q : evolves (walks q) (execute pv q).
Proof. rewrite /execute /resolve /close_walk. stroll. Qed.

(** The same calls always move on. *)
Lemma checkpoint_smooth q p state wait : smooth (checkpoint_lease q p state wait).
Proof. rewrite /checkpoint_lease. glide. Qed.

Lemma store_page_smooth q u win posts stored reached seen : smooth (store_page q u win posts stored reached seen).
Proof. revert stored reached seen. induction posts; intros; simpl; rewrite /append; glide. Qed.
#[local] Hint Resolve checkpoint_smooth store_page_smooth : smooth.

Lemma take_page_smooth q u win p seen page : smooth (take_page q u win p seen page).
Proof. rewrite /take_page /withdraw_absent /withdraw_missing. glide. Qed.
#[local] Hint Resolve take_page_smooth : smooth.

Lemma page_loop_smooth pv q u c win p seen left_ : smooth (page_loop pv q u c win p seen left_).
Proof. apply (page_loop_ind pv q u c win (λ _ _ m, smooth m)); rewrite /page_body; intros; glide. Qed.
#[local] Hint Resolve page_loop_smooth : smooth.

Lemma execute_smooth pv q : smooth (execute pv q).
Proof. rewrite /execute /resume /resolve /close_walk. glide. Qed.

(** ** Provider waits *)

(** A stored wait of the channel ends the walk at once. *)
Lemma execute_waits pv q w : waiting q (w_now w) (w_db w) → w_db (execute pv q w).2 = w_db w.
Proof.
  intros Hwait. destruct (execute pv q w) as [r w'] eqn:Hw. simpl. revert Hw. rewrite /execute.
  intros [(p&w1&[Hno _]%resume_inv&_)|(e&[Hd _]%quiet_resume&_)]%bind_inv; done.
Qed.

Lemma waiting_held q now d : waiting q now d → held now (aq_run q) d.
Proof. intros (l&Hl&Hs&Hlt). exists (acquisition_kind (aq_channel q)), l.
  split_and!; [exact Hl| |exact Hs|exact Hlt]. rewrite /acquisition_kind /=. by destruct (uuid_text _).
Qed.

Lemma execute_defers pv q w w' :
  execute pv q w = (Err AcquisitionError.Deferred, w') → held (w_now w) (aq_run q) (w_db w').
Proof.
  intros Hw. pose proof (execute_inv pv q w) as Hi. rewrite Hw in Hi. apply waiting_held.
  destruct Hi as [[-> ?]|(p&wait&(holder&Hl)&Hw1&_)]; [done|]. eexists. split; [exact Hl|]. simpl.
  split; [done|]. rewrite /second. lia.
Qed.

Lemma execute_held pv q w run :
  held (w_now w) run (w_db w) → aq_run q = run → held (w_now w) run (w_db (execute pv q w).2).
Proof.
  intros (kind&l&Hl&Hp&Hs&Hlt) Hrun. destruct (decide (lease_key q = (kind, run))) as [Hk|Hk].
  - rewrite execute_waits; [by exists kind, l|]. exists l. by rewrite Hk.
  - exists kind, l. split_and!; try done. by rewrite (wa_leases _ _ _ (execute_walks pv q w)).
Qed.

(** All channels of a run: the walks answer, and a deferral leaves the wait stored. *)
Lemma acquire_each_succeeds pv run l t w :
  calm w → ((0 < tl_deferred t)%nat → held (w_now w) (pend_run_id run) (w_db w)) →
  succeeds (acquire_each pv run l t) w (λ t' w', gathered (w_db w) (w_db w') ∧
    ((0 < tl_deferred t')%nat → held (w_now w) (pend_run_id run) (w_db w'))).
Proof.
  revert t w. induction l as [|c l IH]; intros t w Hc Ht; simpl; [by apply succeeds_ret|].
  eapply succeeds_bind.
  { apply succeeds_observe; [apply execute_smooth|done|].
    instantiate (1 := λ o w', gathered (w_db w) (w_db w') ∧
      ((0 < tl_deferred (count_outcome t o))%nat → held (w_now w) (pend_run_id run) (w_db w'))).
    split; [apply (wa_gathered _ _ _ (execute_walks (pv c.1) (channel_request run c) w))|].
    intros Hd. destruct (execute _ _ w) as [o w'] eqn:Hw. simpl in *. destruct (decide (0 < tl_deferred t)%nat).
    - pose proof (execute_held (pv c.1) (channel_request run c) w (pend_run_id run)) as Hh.
      rewrite Hw in Hh. by apply Hh; [apply Ht|].
    - destruct o as [report|[]]; simpl in Hd; [lia..|]. by apply (execute_defers _ _ _ _ Hw). }
  intros o w1 _ Ho [Hg Hd]. eapply succeeds_mono; [apply IH|].
  - by eapply onward_calm.
  - by rewrite (ow_now _ _ Ho).
  - intros t' w2 _ _ [Hg2 Hd2]. split; [by etrans|]. by rewrite -(ow_now _ _ Ho).
Qed.
End Gathering.

(** ** The decision *)

Section Deciding.
Context `{External}.

(** No faults, and new identities for the outbox and the manifests. *)
Record stocked (w : world) : Prop := {
  sk_able : able w;
  sk_manifests : fresh_in w (manifests (w_db w)) }.

(** The run may be executed, and the store has room for what follows. *)
Record ready (run : pending_run) (r : run_row) (w : world) : Prop := {
  rd_able : able w;
  rd_manifests : fresh_in w (manifests (w_db w));
  rd_staged : staged (w_db w);
  rd_run : runs (w_db w) !! pend_run_id run = Some r;
  rd_owner : run_owner r = pend_owner_id run;
  rd_open : run_state r ∈ open_states }.

(** The report of a run inside its transaction. *)
Lemma owned_report_commits {E A} (f : ReportError.t → E) run_id owner (k : uuid → M E unit) (c : A) w :
  able w → (∀ operation, succeeds (k operation) w (λ _, queued_only w)) →
  succeeds (owned ← on_err f (on_demand_operation run_id owner);
            _ ← match owned with Some operation => k operation | None => mret tt end;
            mret (Commit c)) w (λ t w', ∃ a, t = Commit a ∧ a = c ∧ queued_only w w').
Proof.
  intros Ha Hk. destruct (owned_report_succeeds f run_id owner k w Ha Hk) as (u&w'&Hm&Ho&Hq).
  exists (Commit c), w'. split; [|split; [done|by exists c]].
  revert Hm. rewrite /mbind /M_bind. destruct (on_err _ _ w) as [[owned|e] w1]; [|done]. by intros ->.
Qed.

(** The run left the queue, and another one can be executed. *)
Definition taken (run : pending_run) (w : world) : Prop := dequeued (pend_run_id run) (w_db w) ∧ stocked w.

Lemma finish_dequeued run r w f w' :
  ready run r w → run_state (f (w_now w) r) ∉ open_states → onward w w' →
  queued_only (set_db w (with_runs (w_db w) (<[pend_run_id run := f (w_now w) r]> (runs (w_db w))))) w' →
  taken run w'.
Proof.
  intros Hr Hf How [Ha Hd]. rewrite /taken. split; [|split; [exact Ha|]]; rewrite Hd.
  - eexists. rewrite /= lookup_insert_eq. split; [done|exact Hf].
  - by eapply fresh_in_onward; [|apply Hr].
Qed.

Lemma complete_empty_run_succeeds `{!ReportLaws} run r w :
  ready run r w →
  succeeds (complete_empty_run (pend_run_id run) (pend_owner_id run)) w
    (λ _, taken run).
Proof.
  intros Hr. pose proof Hr as [Ha _ _ Hrun Ho Hs]. rewrite /complete_empty_run.
  apply succeeds_commit; [apply Ha|].
  eapply succeeds_bind_sql; [apply Ha|by apply update_run_in_hit|]. simpl.
  eapply succeeds_mono; [apply owned_report_commits; [by apply able_set_db|]|].
  - intros operation. by apply (plain_report_succeeds _ _ _ _ _ id); [apply able_set_db|..].
  - intros t w' _ How (a&->&_&Hq). exists a. split; [done|].
    eapply finish_dequeued; [exact Hr| |etrans; [apply onward_set_db|exact How]|exact Hq]. rewrite open_rank /=. lia.
Qed.

Lemma fail_run_succeeds `{!ReportLaws} run r failure w :
  ready run r w →
  succeeds (fail_run (pend_run_id run) (pend_owner_id run) failure) w
    (λ _, taken run).
Proof.
  intros Hr. pose proof Hr as [Ha _ _ Hrun Ho Hs]. rewrite /fail_run.
  apply succeeds_commit; [apply Ha|].
  eapply succeeds_bind_sql; [apply Ha|by apply update_run_in_hit|]. simpl.
  eapply succeeds_mono; [apply owned_report_commits; [by apply able_set_db|]|].
  - intros operation.
    edestruct (failed_row_accepted operation (pend_owner_id run) (RunFailure.stage failure)
      (RunFailure.code failure) (RunFailure.message failure) (RunFailure.retryable failure) id)
      as (row0&row&Hrow0&Hrow&Hok); [first [done|by destruct failure]..|].
    eapply succeeds_bind_err_lift; [exact Hrow0|]. eapply succeeds_bind_err_lift; [exact Hrow|].
    apply succeeds_on_err. by apply enqueue_succeeds; [apply able_set_db|].
  - intros t w' _ How (a&->&_&Hq). exists a. split; [done|].
    eapply finish_dequeued; [exact Hr| |etrans; [apply onward_set_db|exact How]|exact Hq]. rewrite open_rank /=. lia.
Qed.

(** ** The commitment *)

(** What the recap contract asks of a request: a window, counts, a digest and a reference of its kinds. *)
Record requestable (run : pending_run) (m : canonical_manifest) : Prop := {
  ra_window : ∃ start end_, wire_parse (pend_window_start run) = Some start ∧
    wire_parse (pend_window_end run) = Some end_ ∧ digest_window_valid start end_ = true;
  ra_sources : (1 ≤ cman_source_count m ≤ 100)%nat;
  ra_channels : (1 ≤ cman_channel_count m ≤ 20)%nat;
  ra_digest : is_Some (parse_digest_hex (cman_sha256 m));
  ra_reference : is_Some (parse_manifest_ref ("channel-digest-manifest:" +:+ uuid_text (cman_id m))%string) }.

(** The members the coordinator compares. *)
Definition compared_keys : list string :=
  ["owner"; "digest_run_id"; "manifest_ref"; "manifest_digest"; "source_count"; "channel_count"].

(** What PostgreSQL, [serde_json] and the recap contract document: the server reads the instants it
    prints, a JSON value serializes, and a request object within the bounds decodes to a valid request
    whose own serialization has the members it was read from; the contract's digest function writes a
    digest, and a digest has at most twenty channels. *)
Class RequestLaws : Prop := {
  instant_reads_back t : is_Some (pg_timestamptz (pg_to_char_seconds t));
  value_serializes v : is_Some (json_to_vec v);
  request_reads_back run m bytes :
    requestable run m → json_to_vec (recap_request_object run m) = Some bytes →
    ∃ q v, decode_recap_requested bytes = Some q ∧ validate_recap_requested q = true ∧
      recap_requested_value q = Some v ∧
      ∀ key, key ∈ compared_keys → json_get key v = json_get key (recap_request_object run m);
  digest_reads_back s : is_Some (parse_digest_hex (sha256_hex s));
  channel_bound : (MAX_CHANNELS ≤ 20)%nat }.

Lemma count_reads_back n : (n ≤ 100)%nat → json_as_u64 (JNum (Z.of_nat n)) = Some (Z.of_nat n).
Proof. intros Hn. simpl. rewrite (proj2 (Z.leb_le 0 _)); [|lia]. by rewrite (proj2 (Z.ltb_lt _ _)); [|lia]. Qed.

Lemma request_checked `{!RequestLaws} run m :
  requestable run m → cman_owner m = pend_owner_id run → cman_run m = pend_run_id run →
  ∃ bytes value operation, recap_request_bytes run m = Ok bytes ∧
    checked_recap_request m bytes = Ok (value, operation).
Proof.
  intros Hq Ho Hr. destruct (value_serializes (recap_request_object run m)) as [bytes Hb].
  destruct (request_reads_back run m bytes Hq Hb) as (q&v&Hdec&Hval&Hv&Hget).
  exists bytes, v, (rq_operation q). split; [by rewrite /recap_request_bytes Hb|].
  rewrite /checked_recap_request Hdec /= Hval /= Hv /=.
  rewrite !Hget; [|rewrite /compared_keys; set_solver..]. rewrite Ho Hr.
  rewrite !bool_decide_eq_true_2 //=; apply count_reads_back; destruct Hq; lia.
Qed.

Lemma smooth_commit_manifest m bytes : smooth (commit_manifest m bytes).
Proof. rewrite /commit_manifest. glide. Qed.

Lemma ready_drawn run r w : ready run r w → ready run r (drawn w).
Proof.
  intros []. split; try done; [by apply able_drawn|]. intros k Hk. apply rd_manifests0. simpl in Hk. lia.
Qed.

Lemma source_bounds (sources : list manifest_source) s :
  (1 ≤ length (channel_ids (s :: sources)))%nat.
Proof.
  rewrite /channel_ids. destruct (remove_dups _) as [|c l] eqn:Hl; [|simpl; lia].
  assert (ms_channel_id s ∈ ([] : list uuid)) as []%elem_of_nil.
  rewrite -Hl elem_of_remove_dups fmap_cons. by left.
Qed.

(** A run that may be executed has nothing in the way of its manifest. *)
Lemma ready_committable `{!ExternalLaws} `{!RequestLaws} run r w sources m :
  ready run r w → sources ≠ [] → (length sources ≤ 100)%nat →
  build (w_uuids w (w_drawn w)) (pend_owner_id run) (pend_run_id run) (pend_window_start run)
    (pend_window_end run) sources = Ok m →
  cman_id m = w_uuids w (w_drawn w) ∧ cman_owner m = pend_owner_id run ∧ cman_run m = pend_run_id run ∧
  requestable run m ∧
  committable m r (w_uuids (drawn w) (w_drawn (drawn w))) (w_db w).
Proof.
  intros Hr Hne Hl Hb. apply build_inv in Hb as (_&Hch&start&end_&sel&mref&drun&Hs&He&Hw&_&Href&_&_&_&Hm).
  pose proof channel_bound as Hcb. destruct sources as [|s0 sources]; [done|].
  pose proof (source_bounds sources s0) as Hc1.
  destruct Hr as [Ha Hman [Gm Gs Gr] Hrun Ho Hopen].
  assert (∀ d, dequeued (pend_run_id run) d → d = w_db w → False) as Hno.
  { intros d (r'&Hr'&Hd) ->. rewrite Hrun in Hr'. by injection Hr' as <-. }
  rewrite Hm /=. do 3 (split; [done|]). split.
  - split; simpl in *; [by exists start, end_|lia|lia|apply digest_reads_back|by eexists].
  - split; simpl in *; try done; try lia.
    + rewrite sha256_agree. apply sha256_digest_length.
    + apply NoDup_distinct_messages.
    + by apply fresh_in_next.
    + intros k x Hk Hx. apply Gm in Hk. rewrite Hx in Hk. by eapply Hno.
    + intros s Hin Heq. apply Gs in Hin as [x Hx]. by rewrite Heq fresh_in_next in Hx.
    + apply Ha. lia.
    + intros k o Hk Hsub Hkey. destruct (Gr _ _ Hk Hsub) as (run'&Hkey'&Hd).
      rewrite Hkey in Hkey'. apply (inj uuid_text) in Hkey' as <-. by eapply Hno.
Qed.

Lemma committed_taken run r w w' m op v :
  ready run r w → cman_id m = w_uuids w (w_drawn w) → cman_run m = pend_run_id run →
  onward (drawn w) w' → w_drawn w' = S (w_drawn (drawn w)) →
  w_db w' = manifest_committed m op v (w_uuids (drawn w) (w_drawn (drawn w))) r (w_now (drawn w)) (w_db w) →
  taken run w'.
Proof.
  intros Hr Hid Hrun How Hn Hd. pose proof Hr as [[Hcalm Hdist Hout] Hman _ _ _ _].
  pose proof How as [Hf _ Hu _]. simpl in *.
  assert (∀ k n, (k ≤ S (w_drawn w))%nat → (w_drawn w' ≤ n)%nat → w_uuids w' n ≠ w_uuids w k) as Hne.
  { intros k n Hk Hle. rewrite Hu. intros Heq%Hdist. lia. }
  split; [|split; [split|]].
  - rewrite Hd -Hrun. eexists. rewrite /= lookup_insert_eq. split; [done|]. rewrite open_rank /=. lia.
  - by rewrite /calm Hf.
  - by rewrite /distinct Hu.
  - intros n Hle. rewrite Hd /= lookup_insert_ne; [|by apply not_eq_sym, Hne]. rewrite Hu. apply Hout. lia.
  - intros n Hle. rewrite Hd /= Hid lookup_insert_ne; [|apply not_eq_sym, Hne; [lia|done]]. rewrite Hu. apply Hman. lia.
Qed.

Lemma commit_succeeds `{!ExternalLaws} `{!ReportLaws} `{!RequestLaws} run r sources incomplete w :
  ready run r w → (length sources ≤ 100)%nat →
  succeeds (commit run sources incomplete) w (λ _, taken run).
Proof.
  intros Hr Hl. rewrite /commit. destruct sources as [|s sources].
  { destruct incomplete; apply succeeds_on_err;
      [by eapply fail_run_succeeds|by eapply complete_empty_run_succeeds]. }
  apply succeeds_bind_now_v7. destruct (build _ _ _ _ _ _) as [m|e] eqn:Hb.
  2: { apply succeeds_on_err. eapply fail_run_succeeds. by apply ready_drawn. }
  destruct (ready_committable _ _ _ (s :: sources) _ Hr ltac:(done) Hl Hb) as (Hid&Ho&Hrun&Hq&Hcom).
  destruct (request_checked run m Hq Ho Hrun) as (bytes&v&op&Hbytes&Hchecked).
  eapply succeeds_bind_lift; [exact Hbytes|].
  destruct (commit_manifest_commits m bytes v op r (drawn w)) as (w'&Hw'&Hdrawn&Hd); [apply Hr|done|done|].
  pose proof (smooth_commit_manifest m bytes (drawn w)) as Hon. rewrite Hw' in Hon.
  assert (onward (drawn w) w') as How by apply Hon, Hr.
  eapply (succeeds_bind _ _ _ (λ _, taken run)); [apply succeeds_on_err; exists IntakeOutcome.Applied, w'; split; [exact Hw'|]|].
  { split; [exact How|]. by apply (committed_taken run r w w' m op v). }
  intros o w2 _ _ Hdq. by apply succeeds_ret.
Qed.

(** ** From the selection on *)

(** The server reads the window of the run. *)
Definition readable (run : pending_run) : Prop :=
  is_Some (pg_timestamptz (pend_window_start run)) ∧ is_Some (pg_timestamptz (pend_window_end run)).

Lemma selection_bounded owner start end_ n d : (length (sel_sources (selection_of owner start end_ n d)) ≤ n)%nat.
Proof.
  destruct (selection_selects owner start end_ n d) as [Hshown _ _ _ _ _ (all&_&_&Hlen&_)].
  rewrite -(Forall2_length _ _ _ Hshown) Hlen. lia.
Qed.

Lemma record_acquisition_succeeds run r b w :
  ready run r w →
  succeeds (record_acquisition (pend_run_id run) b) w
    (λ _ w', ready run (set_incomplete b (w_now w) r) w').
Proof.
  intros Hr. pose proof Hr as [Ha Hman Hg Hrun Ho Hs].
  assert (staged (w_db (record_acquisition (pend_run_id run) b w).2)) as Hg'.
  { eapply step_staged; [|exact Hg]. eapply step_record, performs_at. }
  revert Hg'. rewrite /record_acquisition /exec_sql.
  rewrite (bind_sql_calm _ _ _ _ _ _ (ab_calm _ Ha) eq_refl). simpl. intros Hg'.
  eapply succeeds_bind_sql; [apply Ha|reflexivity|]. apply succeeds_ret.
  split; try done; [by apply able_set_db|]. by rewrite /= lookup_update_where Hrun /= bool_decide_eq_true_2.
Qed.

Lemma settle_sources_succeeds `{!ExternalLaws} `{!ReportLaws} `{!RequestLaws} n run r b w :
  ready run r w → readable run → (n ≤ 100)%nat →
  succeeds (settle_sources n run b) w (λ _, taken run).
Proof.
  intros Hr [[start Hst] [end_ Hen]] Hn. rewrite /settle_sources. eapply succeeds_bind.
  { rewrite /select_sources /exec_sql. eapply succeeds_bind_lift.
    { rewrite /i64_of_nat (proj2 (Z.ltb_lt _ _)); [reflexivity|lia]. }
    eapply succeeds_sql with (Q := λ sel w', w' = w ∧ (length (sel_sources sel) ≤ n)%nat); [apply Hr| |].
    { rewrite /with_cast /cast_timestamptz Hst Hen /=. reflexivity. }
    split; [by destruct w|]. rewrite Nat2Z.id. apply selection_bounded. }
  intros sel w1 _ _ [-> Hl]. cbv zeta. eapply succeeds_bind; [by apply record_acquisition_succeeds|].
  intros u w2 _ _ Hr2. eapply commit_succeeds; [exact Hr2|lia].
Qed.

(** ** One call of the executor *)

(** The run left the queue, or a provider wait of it is stored and it is where it was. *)
Definition advanced (run : pending_run) (r : run_row) (now : Z) (w : world) : Prop :=
  stocked w ∧ (dequeued (pend_run_id run) (w_db w) ∨
    (runs (w_db w) !! pend_run_id run = Some r ∧ held now (pend_run_id run) (w_db w))).

Lemma ready_gathered run r w w' :
  ready run r w → onward w w' → rtc step (w_db w) (w_db w') → gathered (w_db w) (w_db w') → ready run r w'.
Proof.
  intros [Ha Hman Hg Hrun Ho Hs] How Hst [Hr Hout [Hup _ _]]. split; try done.
  - by eapply able_onward.
  - intros k Hk. destruct (manifests (w_db w') !! w_uuids w' k) as [m|] eqn:Hm; [|done].
    apply Hup in Hm as (m0&Hm0&_). by rewrite (fresh_in_onward _ _ _ How Hman k Hk) in Hm0.
  - by eapply steps_staged.
  - by rewrite Hr.
Qed.

Lemma execute_run_succeeds `{!ExternalLaws} `{!ReportLaws} `{!RequestLaws} pv n run r w :
  ready run r w → readable run → (n ≤ 100)%nat →
  succeeds (execute_run pv n run) w (λ b w', b = true ∧ advanced run r (w_now w) w').
Proof.
  intros Hr Hread Hn. rewrite /execute_run. eapply succeeds_bind.
  { rewrite /subscribed_channels /exec_sql.
    eapply succeeds_sql with (Q := λ _ w', w' = w); [apply Hr|reflexivity|by destruct w]. }
  intros subscribed w1 _ _ ->. eapply succeeds_bind.
  { rewrite /acquire. eapply succeeds_bind.
    { apply (acquire_each_succeeds pv run subscribed (Tally 0 0 false)); [apply Hr|simpl; lia]. }
    intros t w2 Ht How [Hg Hheld]. apply succeeds_ret.
    instantiate (1 := λ v w2, ready run r w2 ∧ w_now w2 = w_now w ∧
      (v = Acquired.Deferred → held (w_now w) (pend_run_id run) (w_db w2))). cbv beta.
    pose proof (acquire_each_steps pv run subscribed (Tally 0 0 false) w) as Hst. rewrite Ht in Hst.
    split; [by eapply ready_gathered|]. split; [apply How|]. rewrite /verdict. intros Hv. apply Hheld.
    destruct (Nat.ltb_spec 0 (tl_deferred t)); [done|]. by repeat case_match. }
  assert (∀ w2, taken run w2 → true = true ∧ advanced run r (w_now w) w2) as Hdone
    by (intros w2 [??]; by split; [|split; [|left]]).
  intros v w2 _ _ (Hr2&Hnow&Hheld). destruct v.
  1,2: eapply succeeds_bind; [by eapply settle_sources_succeeds|]; intros u w3 _ _ Hdq; by apply succeeds_ret, Hdone.
  - apply succeeds_ret. split; [done|]. split; [by destruct Hr2|]. right. split; [apply Hr2|by apply Hheld].
  - eapply succeeds_bind; [by apply succeeds_on_err; eapply fail_run_succeeds|].
    intros u w3 _ _ Hdq. by apply succeeds_ret, Hdone.
Qed.

Lemma begin_acquisition_succeeds `{!ReportLaws} run r w :
  ready run r w → run_state r = RunState.Accepted →
  succeeds (begin_acquisition run) w
    (λ b w', b = true ∧ ready run (set_state RunState.Acquiring (w_now w) r) w').
Proof.
  intros Hr Hs. pose proof Hr as [Ha Hman Hg Hrun Ho _].
  assert (staged (w_db (begin_acquisition run w).2)) as Hg'.
  { eapply step_staged; [|exact Hg]. eapply step_begin, performs_at. }
  eapply (succeeds_mono _ _ (λ b w', b = true ∧ able w' ∧ ∃ f, w_db w' = with_outbox (with_runs (w_db w)
    (<[pend_run_id run := set_state RunState.Acquiring (w_now w) r]> (runs (w_db w)))) f)).
  - rewrite /begin_acquisition /exec_sql. apply succeeds_commit; [apply Ha|].
    set (p := λ k r0, bool_decide (k = pend_run_id run) && bool_decide (run_state r0 = RunState.Accepted)).
    assert (∀ k x, p k x = true → k = pend_run_id run) as Hkey by (by intros k x [?%bool_decide_eq_true _]%andb_prop).
    assert (p (pend_run_id run) r = true) as Hp by by rewrite /p Hs !bool_decide_eq_true_2.
    eapply succeeds_bind_sql; [apply Ha| |].
    { rewrite /update_runs (count_where_key _ _ _ Hkey) (update_where_key _ _ _ _ Hkey) Hrun Hp. reflexivity. }
    simpl. eapply succeeds_mono; [apply owned_report_commits; [by apply able_set_db|]|].
    + intros operation. by apply (plain_report_succeeds _ _ _ _ _ id); [apply able_set_db|..].
    + intros t w' _ _ (a&->&->&[Ha' Hd]). exists true. split; [done|]. split; [done|]. split; [done|]. by eexists.
  - intros b w' Hb How (->&Ha'&f&Hd). split; [done|]. rewrite Hb /= in Hg'. rewrite Hd in Hg'.
    split; rewrite ?Hd /=; try done.
    + by eapply fresh_in_onward.
    + by rewrite lookup_insert_eq.
    + set_solver.
Qed.
End Deciding.

(** ** One run at a time *)

Section Apart.
Context `{External}.

(** Neither the row nor the leases of another run change. *)
Record apart (k : uuid) (d d' : db) : Prop := {
  ap_runs j : j ≠ k → runs d' !! j = runs d !! j;
  ap_leases kind j : j ≠ k → leases d' !! (kind, j) = leases d !! (kind, j) }.

#[export] Instance apart_preorder k : PreOrder (apart k).
Proof.
  split; [by split|]. intros a b c [Rab Lab] [Rbc Lbc].
  split; intros; [by rewrite Rbc ?Rab|by rewrite Lbc ?Lab].
Qed.

Lemma apart_same {A} k (s : stmt A) :
  (∀ now d a d', s now d = Ok (a, d') → runs d' = runs d ∧ leases d' = leases d) → stmt_evolves (apart k) s.
Proof. intros Hs now d a d' [Hr Hl]%Hs. split; intros; by rewrite ?Hr ?Hl. Qed.

Lemma apart_update k p f : (∀ j r, p j r = true → j = k) → stmt_evolves (apart k) (update_runs p f).
Proof.
  intros Hp now d n d' [= _ <-]. split; [|done]. intros j Hj. rewrite /= lookup_update_where.
  destruct (runs d !! j) as [r|] eqn:Hr; simpl; [|done]. destruct (p j r) eqn:Hpj; [|done]. by apply Hp in Hpj.
Qed.

Lemma apart_enqueue k row : evolves (apart k) (enqueue row).
Proof.
  rewrite /enqueue. evolve. apply apart_same.
  by intros now d b d' (_&[(_&->&_)|(_&_&->&_)])%insert_outbox_spec.
Qed.

(** A statement that touches neither table. *)
Ltac elsewhere_runs :=
  apply apart_same; intros ????;
  cbv beta zeta delta [insert_manifest insert_manifest_sources insert_outbox_strict insert_outbox read];
  repeat first
    [ progress rewrite /mbind /result_bind /=
    | match goal with
      | |- (match ?x with _ => _ end) = _ → _ => destruct x eqn:?
      | H : (match ?x with _ => _ end) = Ok _ |- _ => destruct x eqn:?
      end
    | progress simplify_eq/=
    | progress intros ];
  done.

Ltac keep_apart :=
  repeat first
    [ apply apart_enqueue
    | evolve_step
    | apply apart_update; intros ? ? ?%run_in_key; done ];
  try elsewhere_runs.

Lemma fail_run_apart k o f : evolves (apart k) (fail_run k o f).
Proof. rewrite /fail_run /report_error. keep_apart. Qed.

Lemma complete_empty_run_apart k o : evolves (apart k) (complete_empty_run k o).
Proof. rewrite /complete_empty_run /report_error. keep_apart. Qed.

Lemma commit_manifest_apart m b : evolves (apart (cman_run m)) (commit_manifest m b).
Proof. rewrite /commit_manifest. keep_apart. Qed.

Lemma begin_acquisition_apart run : evolves (apart (pend_run_id run)) (begin_acquisition run).
Proof.
  rewrite /begin_acquisition /exec_sql /exec_error. keep_apart.
  apply apart_update. by intros j r [?%bool_decide_eq_true _]%andb_prop.
Qed.

Lemma execute_apart pv q : evolves (apart (aq_run q)) (execute pv q).
Proof.
  intros w. destruct (execute_walks pv q w) as [[Hr _ _] Hl]. split; intros; [by rewrite Hr|].
  apply Hl. rewrite /lease_key. congruence.
Qed.

Lemma acquire_each_apart pv run l t : evolves (apart (pend_run_id run)) (acquire_each pv run l t).
Proof.
  revert t. induction l as [|c l IH]; intros t; simpl; [evolve|].
  apply evolves_bind; [apply _|apply evolves_observe, (execute_apart (pv c.1) (channel_request run c))|]. intros o. apply IH.
Qed.

Lemma commit_apart run sources incomplete : evolves (apart (pend_run_id run)) (commit run sources incomplete).
Proof.
  rewrite /commit /exec_error. destruct sources as [|s l].
  { destruct incomplete; apply evolves_on_err; [apply fail_run_apart|apply complete_empty_run_apart]. }
  apply evolves_bind; [apply _|evolve|]. intros mid.
  destruct (build _ _ _ _ _ _) as [m|e] eqn:Hb; [|apply evolves_on_err, fail_run_apart].
  apply evolves_bind; [apply _|evolve|]. intros bytes.
  apply evolves_bind; [apply _| |evolve]. apply evolves_on_err.
  apply build_inv in Hb as (_&_&?&?&?&?&?&_&_&_&_&_&_&_&_&Hm).
  assert (pend_run_id run = cman_run m) as -> by by rewrite Hm. apply commit_manifest_apart.
Qed.

Lemma execute_run_apart pv n run : evolves (apart (pend_run_id run)) (execute_run pv n run).
Proof.
  rewrite /execute_run /acquire /settle_sources /select_sources /record_acquisition /subscribed_channels /exec_sql /exec_error.
  repeat first
    [ apply acquire_each_apart | apply commit_apart | apply fail_run_apart | evolve_step
    | apply apart_update; by intros ? ? ?%bool_decide_eq_true ].
Qed.
End Apart.

(** ** The next pending run *)

Section Advancing.
Context `{External}.

(** The runs the executor may take. *)
Definition pending_runs (now : Z) (d : db) : list (uuid * run_row) := select_where (pending now d) (runs d).

#[export] Instance held_dec now k d : Decision (held now k d).
Proof.
  destruct (waits now k d) eqn:Hw; [left|right]; rewrite -waits_true; [exact Hw|by rewrite Hw].
Defined.

Lemma next_pending_Some now d k r :
  next_pending now d = Some (k, r) → runs d !! k = Some r ∧ run_state r ∈ open_states.
Proof.
  rewrite /next_pending. intros Hh. assert ((k, r) ∈ select_where (pending now d) (runs d)) as Hin.
  { rewrite -(elem_of_sort_on pending_key). destruct (sort_on _ _); [done|]. injection Hh as ->. by left. }
  apply elem_of_select_where in Hin as [Hk Hp]. split; [done|].
  by apply andb_prop in Hp as [?%bool_decide_eq_true _].
Qed.

Lemma next_pending_None now d : next_pending now d = None → pending_runs now d = [].
Proof.
  rewrite /next_pending -/(pending_runs now d) => Hh. apply nil_length_inv.
  rewrite -(length_sort_on pending_key). by destruct (sort_on _ _).
Qed.

Lemma elem_of_pending now d k r :
  (k, r) ∈ pending_runs now d ↔ runs d !! k = Some r ∧ run_state r ∈ open_states ∧ ¬ held now k d.
Proof.
  rewrite /pending_runs elem_of_select_where /pending andb_true_iff bool_decide_eq_true negb_true_iff.
  by rewrite -not_true_iff_false waits_true.
Qed.

(** A run the executor has nothing to do for: its provider's wait is stored, or it left the queue with
    what its state owes. *)
Definition placed (now : Z) (k : uuid) (r : run_row) (d : db) : Prop :=
  match run_state r with
  | RunState.Accepted | RunState.Acquiring => held now k d
  | RunState.WaitingRecap => (∃ mid m, awaits k (run_owner r) r mid m d) ∧ backed k r d
  | _ => run_trigger r = RunTrigger.OnDemand → settled_report r d
  end.

Lemma reachable_placed now k r d :
  reachable d → runs d !! k = Some r → (run_state r ∈ open_states → held now k d) → placed now k r d.
Proof.
  intros Hd Hr Hheld. rewrite /placed. destruct (run_state r) eqn:Hs; try (apply Hheld; set_solver).
  - split; [by apply (waiting_awaits d)|].
    by destruct (dl_waiting _ _ (reachable_delta _ Hd) _ _ Hr Hs) as [(?&?&_)|?].
  - intros. eapply settled_reported; [done..|by rewrite Hs|done].
  - intros. eapply settled_reported; [done..|by rewrite Hs|done].
  - intros. eapply settled_reported; [done..|by rewrite Hs|done].
Qed.

(** What one call does. *)
Definition one_taken (w : world) (busy : bool) (w' : world) : Prop :=
  stocked w' ∧
  match next_pending (w_now w) (w_db w) with
  | None => busy = false ∧ w' = w
  | Some (k, _) => busy = true ∧ apart k (w_db w) (w_db w') ∧
      ∃ r', runs (w_db w') !! k = Some r' ∧ run_state r' ≠ RunState.Accepted ∧
        (run_state r' ∈ open_states → held (w_now w) k (w_db w'))
  end.

Lemma advanced_taken run r w now w' :
  advanced run r now w' → run_state r = RunState.Acquiring → apart (pend_run_id run) (w_db w) (w_db w') →
  stocked w' ∧ true = true ∧ apart (pend_run_id run) (w_db w) (w_db w') ∧
  ∃ r', runs (w_db w') !! pend_run_id run = Some r' ∧ run_state r' ≠ RunState.Accepted ∧
    (run_state r' ∈ open_states → held now (pend_run_id run) (w_db w')).
Proof.
  intros [Hsk Hadv] Hacq Hap. split_and!; [done..|]. destruct Hadv as [(r'&Hr'&Hs)|[Hr' ?]].
  - exists r'. split_and!; [done| |done]. intros Ha. destruct Hs. rewrite Ha. set_solver.
  - exists r. by rewrite Hacq.
Qed.

Lemma execute_one_succeeds `{!ExternalLaws} `{!ReportLaws} `{!RequestLaws} pv n w :
  reachable (w_db w) → stocked w →
  succeeds (execute_one pv (clamp_source_count n)) w (one_taken w).
Proof.
  intros Hreach Hsk. pose proof Hsk as [Ha Hman].
  rewrite /execute_one. eapply succeeds_bind_sql; [apply Ha|reflexivity|].
  replace (set_db w (w_db w)) with w by by destruct w. rewrite /one_taken.
  destruct (next_pending (w_now w) (w_db w)) as [[k r]|] eqn:Hnext; simpl; [|by apply succeeds_ret].
  apply next_pending_Some in Hnext as [Hr Hs]. set (run := PendingRun _ _ _ _ _ _ _).
  assert (readable run) as Hread by by split; apply instant_reads_back.
  assert ((clamp_source_count n ≤ 100)%nat) as Hn by (rewrite /clamp_source_count /MAX_SOURCE_COUNT; lia).
  assert (ready run r w) as Hready by (split; try done; by apply reachable_staged).
  case_bool_decide as Hacc.
  - eapply succeeds_bind; [by apply begin_acquisition_succeeds|].
    intros b w1 Hb How [-> Hr1]. simpl. eapply succeeds_mono; [by eapply execute_run_succeeds|].
    intros b w2 Hw2 _ [-> Hadv]. rewrite (ow_now _ _ How) in Hadv.
    apply (advanced_taken run _ w _ _ Hadv); [done|].
    pose proof (evolves_elim _ _ _ _ _ (begin_acquisition_apart run) Hb).
    pose proof (evolves_elim _ _ _ _ _ (execute_run_apart _ _ _) Hw2). by etrans.
  - assert (run_state r = RunState.Acquiring) as Hacq.
    { rewrite /open_states in Hs. simpl in Hacc. set_solver. }
    eapply succeeds_mono; [by eapply execute_run_succeeds|].
    intros b w2 Hw2 _ [-> Hadv]. apply (advanced_taken run _ w _ _ Hadv); [done|].
    exact (evolves_elim _ _ _ _ _ (execute_run_apart _ _ _) Hw2).
Qed.

(** ** The queue *)

Lemma held_apart now k j d d' : apart k d d' → j ≠ k → held now j d' ↔ held now j d.
Proof. intros Hap Hj. rewrite /held. setoid_rewrite (ap_leases _ _ _ Hap); done. Qed.

(** The run that was taken is pending no more, and no other one is new. *)
Lemma pending_shrinks w w' k r :
  next_pending (w_now w) (w_db w) = Some (k, r) → one_taken w true w' → w_now w' = w_now w →
  (length (pending_runs (w_now w') (w_db w')) ≤ length (pending_runs (w_now w) (w_db w)) - 1)%nat.
Proof.
  intros Hnext [_ Hone] Hnow. rewrite Hnext in Hone. destruct Hone as (_&Hap&r'&Hr'&_&Hheld). rewrite Hnow.
  apply (length_after_batch pending_key 1); [apply NoDup_select_where|].
  assert (take 1 (sort_on pending_key (pending_runs (w_now w) (w_db w))) = [(k, r)]) as ->.
  { change (head (sort_on pending_key (pending_runs (w_now w) (w_db w))) = Some (k, r)) in Hnext.
    destruct (sort_on _ _) as [|x l]; [done|]. by injection Hnext as ->. }
  intros [j x] (Hj&Hs&Hh)%elem_of_pending. destruct (decide (j = k)) as [->|Hne].
  - assert (x = r') as -> by congruence. by destruct Hh; apply Hheld.
  - split; [|by intros [= -> ->]%list_elem_of_singleton]. apply elem_of_pending.
    rewrite (ap_runs _ _ _ Hap) // in Hj. rewrite (held_apart _ _ _ _ _ Hap) // in Hh.
Qed.

Lemma at_instant_now w : at_instant (w_now w) w = w.
Proof. by destruct w. Qed.

Lemma queue_drains `{!ExternalLaws} `{!ReportLaws} `{!RequestLaws} n pvs w :
  reachable (w_db w) → stocked w → (length (pending_runs (w_now w) (w_db w)) ≤ length pvs)%nat →
  let '(drained, w') := execution_loop n (Tick (w_now w) <$> pvs) w in
  drained = false ∧ reachable (w_db w') ∧ pending_runs (w_now w) (w_db w') = [].
Proof.
  rewrite /execution_loop. revert w. induction pvs as [|pv pvs IH]; intros w Hreach Hsk Hlen; simpl.
  { split_and!; [done..|]. apply nil_length_inv. simpl in Hlen. lia. }
  rewrite at_instant_now. destruct (execute_one_succeeds pv n w Hreach Hsk) as (b&w1&Hw1&How&Hone).
  rewrite Hw1 /= -(ow_now _ _ How). apply IH.
  - rewrite /reachable. etrans; [exact Hreach|].
    pose proof (execute_one_steps pv (clamp_source_count n) w) as Hst. by rewrite Hw1 in Hst.
  - apply Hone.
  - destruct (next_pending (w_now w) (w_db w)) as [[k r]|] eqn:Hnext.
    + assert (b = true) as -> by (destruct Hone as [_ Hone]; rewrite Hnext in Hone; apply Hone).
      pose proof (pending_shrinks _ _ _ _ Hnext Hone (ow_now _ _ How)). simpl in Hlen. lia.
    + destruct Hone as [_ Hone]. rewrite Hnext in Hone. destruct Hone as [_ ->].
      rewrite (next_pending_None _ _ Hnext) /=. lia.
Qed.

(** C6: The executor always advances the run it takes, and empties its queue.  In a reachable database,
    without a storage fault and whatever the provider answers, one call of [execute_one] succeeds: it
    reports an idle queue, and then changed nothing, only when no run is pending; otherwise it touched
    no other run, and the pending run it took is no longer accepted: it waits for its recap with a
    manifest of its own and the request queued; or it is settled, with its on-demand operation reported;
    or it is still acquiring because the provider asked to wait, and then that wait is stored, which
    keeps it out of the queue until it is over.  So as many ticks of the execution loop at one instant
    as there are pending runs leave every run in one of those places. *)
Theorem run_advances `{!ExternalLaws} `{!ReportLaws} `{!RequestLaws} pv pvs source_count w :
  reachable (w_db w) → able w → fresh_in w (manifests (w_db w)) →
  succeeds (execute_one pv (clamp_source_count source_count)) w (λ busy w',
    match next_pending (w_now w) (w_db w) with
    | None => busy = false ∧ w_db w' = w_db w
    | Some (k, _) => busy = true ∧ apart k (w_db w) (w_db w') ∧
        ∃ r', runs (w_db w') !! k = Some r' ∧ run_state r' ≠ RunState.Accepted ∧
          placed (w_now w) k r' (w_db w')
    end) ∧
  ((length (pending_runs (w_now w) (w_db w)) ≤ length pvs)%nat →
   let '(drained, w') := execution_loop source_count (Tick (w_now w) <$> pvs) w in
   drained = false ∧ ∀ k r', runs (w_db w') !! k = Some r' → placed (w_now w) k r' (w_db w')).
Proof.
  intros Hreach Ha Hman. split.
  - eapply succeeds_mono; [by apply execute_one_succeeds|]. intros busy w' Hw _ [_ Hone].
    destruct (next_pending _ _) as [[k r]|]; [|by destruct Hone as [-> ->]].
    destruct Hone as (->&Hap&r'&Hr'&Hacc&Hheld). split_and!; [done..|]. exists r'. split_and!; [done..|].
    apply reachable_placed; [|done..]. rewrite /reachable. etrans; [exact Hreach|].
    pose proof (execute_one_steps pv (clamp_source_count source_count) w) as Hst. by rewrite Hw in Hst.
  - intros Hlen. pose proof (queue_drains source_count pvs w Hreach (Build_stocked _ Ha Hman) Hlen) as Hq.
    destruct (execution_loop _ _ w) as [drained w']. destruct Hq as (->&Hreach'&Hnone). split; [done|].
    intros k r' Hr'. apply reachable_placed; [done..|]. intros Hs.
    destruct (decide (held (w_now w) k (w_db w'))) as [?|Hn]; [done|].
    assert ((k, r') ∈ pending_runs (w_now w) (w_db w')) as Hin by by apply elem_of_pending.
    rewrite Hnone in Hin. by apply elem_of_nil in Hin.
Qed.
End Advancing.

(** ** Witness *)

Module DemoAdvance.
#[local] Existing Instance Demo.external.

Lemma request_laws : RequestLaws.
Proof.
  split.
  - intros t. change (is_Some (Demo.int_of (int_text (t / 1000000 * 1000000)))). rewrite Demo.int_of_text. by eexists.
  - intros v. by eexists.
  - intros run m bytes _ [= <-]. exists (RecapRequest (pend_operation_id run) (pend_run_id run) (recap_request_object run m)).
    eexists. split; [|split; [reflexivity|split; [reflexivity|]]].
    + change (match Demo.when (Demo.json_text (recap_request_object run m)) "recap" Demo.recap_fixture with
        | Some q => Some q
        | None => Demo.request_of_text (Demo.json_text (recap_request_object run m)) end =
        Some (RecapRequest (pend_operation_id run) (pend_run_id run) (recap_request_object run m))).
      rewrite /Demo.when bool_decide_eq_false_2; [|by rewrite /Demo.json_text].
      rewrite /Demo.request_of_text Demo.text_json_text /=. by rewrite !Demo.uuid_parse_text.
    + intros key. rewrite /compared_keys. repeat (intros [->|?]%elem_of_cons; revgoals); try set_solver.
  - intros s. by eexists.
  - simpl. lia.
Qed.

(** A channel with one post inside the window. *)
Definition channel : provider :=
  Provider unit (λ _, Some (Ok tt)) (λ _ _ _ _,
    Some (Ok (ProviderPage [ProviderPost 9 "nine" "1900000" false] None))).

(** The provider of a run that must wait. *)
Definition busy : provider :=
  Provider unit (λ _, Some (Err (ProviderError.FloodWait 30))) (λ _ _ _ _, None).

Definition accepted : world := DemoProgress.resumed (w_db Trace.w2).

Lemma accepted_able : able accepted.
Proof. apply DemoProgress.able_resumed. vm_compute. reflexivity. Qed.

Lemma accepted_fresh : fresh_in accepted (manifests (w_db accepted)).
Proof. intros n _. vm_compute. reflexivity. Qed.
End DemoAdvance.

(** The accepted run of the trace: with a channel that answers it waits for its recap, with one that
    asks to wait it is acquiring and the wait is stored; one tick empties the queue. *)
Lemma run_advances_witness :
  (∃ w' r', @execute_one Demo.external (λ _, DemoAdvance.channel) 100 DemoAdvance.accepted = (Ok true, w') ∧
     runs (w_db w') !! 60%N = Some r' ∧ run_state r' = RunState.WaitingRecap ∧
     @backed Demo.external 60%N r' (w_db w')) ∧
  (let '(drained, w') := @execution_loop Demo.external 100 (Tick 10 <$> [λ _, DemoAdvance.busy]) DemoAdvance.accepted in
   drained = false ∧ ∃ r', runs (w_db w') !! 60%N = Some r' ∧ run_state r' = RunState.Acquiring ∧
     held 10 60%N (w_db w')).
Proof.
  split.
  - destruct (@run_advances Demo.external Demo.laws DemoProgress.report_laws DemoAdvance.request_laws
      (λ _, DemoAdvance.channel) [λ _, DemoAdvance.channel] 100 DemoAdvance.accepted trace_accepted
      DemoAdvance.accepted_able DemoAdvance.accepted_fresh) as [(b&w'&Hw&_&Hone) _].
    destruct (next_pending (w_now DemoAdvance.accepted) (w_db DemoAdvance.accepted)) as [[k r]|] eqn:Hnext;
      [|by vm_compute in Hnext].
    assert (k = 60%N) as -> by (vm_compute in Hnext; by injection Hnext as <- _).
    destruct Hone as (->&_&r'&Hr'&_&Hplaced). exists w', r'. split; [exact Hw|]. split; [exact Hr'|].
    assert (run_state r' = RunState.WaitingRecap) as Hst.
    { assert (run_state <$> runs (w_db (@execute_one Demo.external (λ _, DemoAdvance.channel) 100
        DemoAdvance.accepted).2) !! 60%N = Some RunState.WaitingRecap) as Hs by (vm_compute; reflexivity).
      change (clamp_source_count 100) with 100%nat in Hw. rewrite Hw /= Hr' /= in Hs. by injection Hs. }
    rewrite /placed Hst in Hplaced. split; [exact Hst|apply Hplaced].
  - destruct (@run_advances Demo.external Demo.laws DemoProgress.report_laws DemoAdvance.request_laws
      (λ _, DemoAdvance.busy) [λ _, DemoAdvance.busy] 100 DemoAdvance.accepted trace_accepted
      DemoAdvance.accepted_able DemoAdvance.accepted_fresh) as [_ Hloop].
    assert (run_state <$> runs (w_db (@execution_loop Demo.external 100 (Tick 10 <$> [λ _, DemoAdvance.busy])
      DemoAdvance.accepted).2) !! 60%N = Some RunState.Acquiring) as Hs by (vm_compute; reflexivity).
    specialize (Hloop ltac:(vm_compute; lia)). change (w_now DemoAdvance.accepted) with 10 in Hloop.
    destruct (execution_loop _ _ _) as [drained w']. destruct Hloop as [-> Hall]. split; [reflexivity|].
    simpl in Hs. destruct (runs (w_db w') !! 60%N) as [r'|] eqn:Hr'; [|done]. injection Hs as Hs.
    exists r'. split; [reflexivity|]. split; [exact Hs|].
    specialize (Hall _ _ Hr'). by rewrite /placed Hs in Hall.
Defined.
