(* ===== verification/EmptyDigest.v ===== *)
(** * EmptyDigest: what a run may become, and what completes one without a recap

    One call of [execute_one] over the whole database: no run becomes partial, and one becomes completed
    only after every subscribed channel was walked to its end and the window holds no eligible post. *)

From S2P Require Import Prelude Text External Store Tx Demo Subscriptions Runs Reports Progress Inbox Manifest.
From S2P Require Import Revisions Provider Acquisition AcquisitionSpec Coordinator Settlement Executor.
From S2P Require Import ExecutorSpec Units System Delta Staged Safety Advance.

Section EmptyDigest.
Context `{External}.

(** ** What a settlement makes of an open run *)

(** Subscriptions, channels and posts stay. *)
Definition posts_kept (d d' : db) : Prop :=
  subscriptions d' = subscriptions d ∧ channels d' = channels d ∧ revisions d' = revisions d.

#[export] Instance posts_kept_preorder : PreOrder posts_kept.
Proof. split; [intros d; by split_and!|]. intros a b c (?&?&?) (?&?&?). split_and!; congruence. Qed.

Lemma eligible_kept owner start end_ d d' k r :
  posts_kept d d' → eligible owner start end_ d' k r ↔ eligible owner start end_ d k r.
Proof. intros (Hs&Hc&Hr). rewrite /eligible /candidate Hs Hc Hr. done. Qed.

(** A run that was open: unchanged in kind, failed, waiting, or completed under the condition. *)
Definition disposed (P : Prop) (r1 : run_row) : Prop :=
  run_state r1 ∈ open_states ∨ run_state r1 = RunState.Failed ∨ run_state r1 = RunState.WaitingRecap ∨
  (run_state r1 = RunState.Completed ∧ P).

Lemma disposed_mono (P Q : Prop) r1 : (P → Q) → disposed P r1 → disposed Q r1.
Proof. rewrite /disposed. tauto. Qed.

Lemma run_finished_state run_id owner f status d d' r1 :
  run_finished run_id owner f status d d' → runs d' !! run_id = Some r1 →
  posts_kept d d' ∧ ∃ r, r1 = f r.
Proof.
  intros (r&_&_&_&Hd&_) Hr. rewrite Hd /posts_kept /= in Hr |- *. rewrite lookup_insert_eq in Hr.
  split; [done|]. exists r. by injection Hr.
Qed.

Lemma fail_disposed run failure w res w' r0 r1 P :
  exec_error (fail_run (pend_run_id run) (pend_owner_id run) failure) w = (res, w') →
  runs (w_db w) !! pend_run_id run = Some r0 → run_state r0 ∈ open_states →
  runs (w_db w') !! pend_run_id run = Some r1 → disposed P r1.
Proof.
  rewrite /exec_error /on_err. destruct (fail_run _ _ _ _) as [x w1] eqn:Hf. intros He Hr0 Hs Hr1.
  assert (w1 = w') as -> by (destruct x; by simplify_eq).
  apply fail_run_inv in Hf as [[_ Hf]|[Hd _]].
  - destruct (run_finished_state _ _ _ _ _ _ _ Hf Hr1) as [_ [? ->]]. by right; left.
  - left. rewrite Hd in Hr1. by simplify_eq.
Qed.

Lemma commit_disposed run sources incomplete w res w' r0 r1 :
  commit run sources incomplete w = (res, w') →
  runs (w_db w) !! pend_run_id run = Some r0 → run_state r0 ∈ open_states →
  runs (w_db w') !! pend_run_id run = Some r1 →
  disposed (sources = [] ∧ incomplete = false ∧ posts_kept (w_db w) (w_db w')) r1.
Proof.
  intros Hw Hr0 Hs Hr1. rewrite /commit in Hw. destruct sources as [|s l].
  - destruct incomplete; [by eapply fail_disposed|].
    revert Hw. rewrite /exec_error /on_err. destruct (complete_empty_run _ _ _) as [x w1] eqn:Hf. intros He.
    assert (w1 = w') as -> by (destruct x; by simplify_eq).
    apply complete_empty_run_inv in Hf as [[_ Hf]|[Hd _]].
    + destruct (run_finished_state _ _ _ _ _ _ _ Hf Hr1) as [? [? ->]]. by right; right; right.
    + left. rewrite Hd in Hr1. by simplify_eq.
  - rewrite bind_now_v7 in Hw. destruct (build _ _ _ _ _ _) as [m|e] eqn:Hb; [|by eapply fail_disposed].
    apply bind_inv in Hw as [(bytes&w1&[_ ->]%lift_inv&Hw)|(e&Hl&_)].
    2: { apply quiet_lift in Hl as [Hd _]. left. rewrite Hd /= in Hr1. by simplify_eq. }
    destruct (commit_manifest m bytes (drawn w)) as [x w1] eqn:Hx.
    assert (w1 = w') as ->.
    { revert Hw. rewrite /exec_error /on_err /mbind /M_bind Hx.
      destruct x; rewrite /mret /M_ret; by intros [= _ ->]. }
    apply commit_manifest_inv in Hx as [(_&v&op&oid&r&_&_&_&_&_&_&_&_&_&Hd)|[Hd _]].
    + rewrite Hd /= in Hr1. apply lookup_insert_Some in Hr1 as [[_ <-]|[_ Hr1]]; [by right; right; left|].
      left. rewrite /= Hr0 in Hr1. by simplify_eq.
    + left. rewrite Hd /= in Hr1. by simplify_eq.
Qed.

Lemma record_acquisition_inv run_id incomplete w u w' :
  record_acquisition run_id incomplete w = (Ok u, w') →
  w_db w' = with_runs (w_db w) (update_where (λ k _, bool_decide (k = run_id))
              (set_incomplete incomplete (w_now w)) (runs (w_db w))).
Proof.
  rewrite /record_acquisition /exec_sql. intros Hw. step_sql Hw as n w1 Hu Hn.
  apply ret_inv in Hw as [_ ->]. rewrite /update_runs in Hu. by injection Hu.
Qed.

(** The window of the run holds no eligible post. *)
Definition window_empty (run : pending_run) (d : db) : Prop :=
  ∃ start end_, pg_timestamptz (pend_window_start run) = Some start ∧
    pg_timestamptz (pend_window_end run) = Some end_ ∧
    ∀ k r, ¬ eligible (pend_owner_id run) start end_ d k r.

Lemma settle_sources_disposed n run acquired_incomplete w res w' r0 r1 :
  n ≠ 0%nat → settle_sources n run acquired_incomplete w = (res, w') →
  runs (w_db w) !! pend_run_id run = Some r0 → run_state r0 ∈ open_states →
  runs (w_db w') !! pend_run_id run = Some r1 →
  disposed (acquired_incomplete = false ∧ posts_kept (w_db w) (w_db w') ∧ window_empty run (w_db w')) r1.
Proof.
  intros Hn Hw Hr0 Hs Hr1. rewrite /settle_sources in Hw.
  assert (w_db w' = w_db w → disposed (acquired_incomplete = false ∧ posts_kept (w_db w) (w_db w') ∧ window_empty run (w_db w')) r1) as Hidle
    by (intros Hd; left; rewrite Hd in Hr1; by simplify_eq).
  apply bind_inv in Hw as [(sel&w1&Hsel&Hw)|(e&Hsel&_)].
  2: { apply Hidle. revert Hsel. rewrite /select_sources.
       intros [(?&?&[_ ->]%lift_inv&?%sql_Err_db)|(?&Hl&_)]%bind_inv; [tauto|]. by apply quiet_lift in Hl as [? _]. }
  apply select_sources_inv in Hsel as (Hd1&start&end_&rows&Hst&Hen&Hsel&Htr). cbv zeta in Hw.
  apply bind_inv in Hw as [(u&w2&Hrec%record_acquisition_inv&Hw)|(e&Hrec&_)].
  2: { apply Hidle. revert Hrec. rewrite /record_acquisition /exec_sql.
       intros [(?&?&_&Hm)|(?&?%sql_Err_db&_)]%bind_inv; [by apply ret_eq in Hm as [? _]|].
       rewrite -Hd1. tauto. }
  assert (runs (w_db w2) !! pend_run_id run =
    Some (set_incomplete (acquired_incomplete || (length (sel_sources sel) <? sel_eligible sel)%nat) (w_now w1) r0)) as Hr2
    by by rewrite Hrec Hd1 /= lookup_update_where Hr0 /= bool_decide_eq_true_2.
  pose proof (commit_disposed _ _ _ _ _ _ _ _ Hw Hr2 Hs Hr1) as Hdisp. eapply disposed_mono; [|exact Hdisp].
  intros (Hnil&[-> Htrunc]%orb_false_iff&Hkept). assert (posts_kept (w_db w) (w_db w')) as Hkept'.
  { etrans; [|exact Hkept]. by rewrite Hrec Hd1. }
  split; [done|]. split; [done|]. exists start, end_. split_and!; [done..|].
  intros k r Hel. rewrite (eligible_kept _ _ _ _ _ _ _ Hkept') in Hel.
  assert (rows = []) as -> by (pose proof (sl_shown _ _ _ _ _ _ _ Hsel) as Hf; rewrite Hnil in Hf; by inversion Hf).
  assert ((length (sel_sources sel) <? sel_eligible sel)%nat = true) as Ht; [|congruence].
  apply (Htr Hn). exists k, r. split; [done|]. by intros ?%elem_of_nil.
Qed.

(** ** One call of the executor *)

(** Every channel was read to its end. *)
Definition read_to_end (o : result AcquisitionError.t acquisition_report) : Prop :=
  ∃ pages revisions, o = Ok (AcquisitionReport pages revisions false).

Lemma acquire_each_answers pv run l t w : is_ok (acquire_each pv run l t w).1 = true.
Proof.
  revert t w. induction l as [|c l IH]; intros t w; simpl; [done|].
  rewrite /mbind /M_bind /observe. destruct (execute _ _ w) as [o w1]. apply IH.
Qed.

Lemma acquire_answers pv run l w res w' :
  acquire pv run l w = (res, w') →
  ∃ v os, res = Ok v ∧ walked pv run l w os w' ∧ (v = Acquired.Complete → Forall read_to_end os).
Proof.
  intros Hw. destruct res as [v|e].
  - exists v. apply acquire_exact in Hw as (os&?&_&_&Hc). exists os. split_and!; [done..|].
    intros Hv. apply Forall_forall. by apply Hc.
  - exfalso. revert Hw. pose proof (acquire_each_answers pv run l (Tally 0 0 false) w) as Ha.
    rewrite /acquire /mbind /M_bind. by destruct (acquire_each _ _ _ _ w) as [[]].
Qed.

Lemma walked_gathered pv run l w os w' : walked pv run l w os w' → gathered (w_db w) (w_db w').
Proof.
  induction 1 as [w|c l w o w1 os w2 Ho _ IH]; [done|]. etrans; [|exact IH].
  pose proof (execute_walks (pv c.1) (channel_request run c) w) as Hx. rewrite Ho in Hx. apply Hx.
Qed.

(** The channels subscribed by the owner, at most twenty, were all read to their end, one after
    the other; nothing changed the posts since; and the window holds no eligible one. *)
Definition nothing_to_digest (pv : uuid → provider) (run : pending_run) (w w' : world) : Prop :=
  (∃ w0 os w1, posts_kept (w_db w) (w_db w0) ∧
    walked pv run (take CHANNEL_LIMIT (sort_on username_key (subscribed_rows (pend_owner_id run) (w_db w)))) w0 os w1 ∧
    Forall read_to_end os ∧ posts_kept (w_db w1) (w_db w')) ∧
  window_empty run (w_db w').

Lemma execute_run_disposed pv n run w res w' r0 r1 :
  n ≠ 0%nat → execute_run pv n run w = (res, w') →
  runs (w_db w) !! pend_run_id run = Some r0 → run_state r0 ∈ open_states →
  runs (w_db w') !! pend_run_id run = Some r1 →
  disposed (nothing_to_digest pv run w w') r1.
Proof.
  intros Hn Hw Hr0 Hs Hr1. rewrite /execute_run in Hw.
  apply bind_inv in Hw as [(subscribed&w0&[Hsub _]%sql_inv&Hw)|(e&[Hd _]%sql_Err_db&_)];
    [|left; rewrite Hd in Hr1; by simplify_eq].
  injection Hsub as Hsub Hd0.
  apply bind_inv in Hw as [(v&w1&Hacq&Hw)|(e&Hacq&_)];
    [|by apply acquire_answers in Hacq as (?&?&?&_)].
  apply acquire_answers in Hacq as (v'&os&[= <-]&Hwalk&Hfull).
  assert (runs (w_db w1) !! pend_run_id run = Some r0) as Hr01
    by by rewrite (ga_runs _ _ (walked_gathered _ _ _ _ _ _ Hwalk)) -Hd0.
  assert (∀ b res1, settle_sources n run b w1 = (res1, w') → (b = false → v = Acquired.Complete) →
    disposed (nothing_to_digest pv run w w') r1) as Hsettle.
  { intros b res1 Hset Hb. eapply disposed_mono; [|by eapply settle_sources_disposed].
    intros (->&Hposts&Hempty). split; [|done]. exists w0, os, w1. rewrite -Hd0. split_and!; [done| |auto|done]. by rewrite Hsub. }
  destruct v.
  - apply bind_inv in Hw as [(u&w2&Hset&[_ ->]%ret_eq)|(e&Hset&_)]; by eapply Hsettle.
  - apply bind_inv in Hw as [(u&w2&Hset&[_ ->]%ret_eq)|(e&Hset&_)]; by eapply Hsettle.
  - apply ret_eq in Hw as [_ ->]. left. by simplify_eq.
  - apply bind_inv in Hw as [(u&w2&Hf&[_ ->]%ret_eq)|(e&Hf&_)]; by eapply fail_disposed.
Qed.

(** The begin of an acquisition keeps the subscriptions and posts, and every open run open. *)
Record opened (d d' : db) : Prop := {
  op_posts : posts_kept d d';
  op_runs k r : runs d !! k = Some r → run_state r ∈ open_states →
    ∃ r', runs d' !! k = Some r' ∧ run_state r' ∈ open_states }.

#[export] Instance opened_preorder : PreOrder opened.
Proof.
  split; [intros d; split; eauto; done|]. intros a b c [Pab Rab] [Pbc Rbc]. split; [by etrans|].
  intros k r Hk Hs. destruct (Rab k r Hk Hs) as (r1&Hk1&Hs1). by eapply Rbc.
Qed.

Lemma opened_outbox d o : opened d (with_outbox d o).
Proof. split; [done|]. eauto. Qed.

Lemma opened_enqueue row : evolves opened (enqueue row).
Proof.
  rewrite /enqueue. evolve.
  intros now d b d' (_&[(_&->&_)|(_&_&->&_)])%insert_outbox_spec; [done|apply opened_outbox].
Qed.

Lemma begin_acquisition_opened run : evolves opened (begin_acquisition run).
Proof.
  rewrite /begin_acquisition /exec_sql /exec_error. evolve; [|apply opened_enqueue].
  intros now d n d' [= _ <-]. split; [done|]. intros k r Hk Hs. rewrite /= lookup_update_where Hk /=.
  eexists. split; [reflexivity|]. case_match; [|done]. set_solver.
Qed.

(** A run as the executor takes it. *)
Definition taken_run (k : uuid) (r : run_row) : pending_run :=
  PendingRun k (run_owner r) (pg_to_char_seconds (run_window_start r)) (pg_to_char_seconds (run_window_end r))
    (run_language r) (run_state r) (run_operation r).

Lemma nothing_kept pv run w w1 w' :
  posts_kept (w_db w) (w_db w1) → nothing_to_digest pv run w1 w' → nothing_to_digest pv run w w'.
Proof.
  intros Hk [(w0&os&w2&Hk0&Hwalk&Hend&Hp) He]. split; [|done]. exists w0, os, w2.
  split_and!; [by etrans| |done..]. destruct Hk as (Hs&Hc&_). rewrite /subscribed_rows Hs Hc in Hwalk. exact Hwalk.
Qed.

(** What one call leaves of a run that was open. *)
Lemma execute_one_disposed pv n w res w' k r0 r1 :
  n ≠ 0%nat → execute_one pv n w = (res, w') →
  runs (w_db w) !! k = Some r0 → run_state r0 ∈ open_states →
  runs (w_db w') !! k = Some r1 →
  disposed (next_pending (w_now w) (w_db w) = Some (k, r0) ∧ nothing_to_digest pv (taken_run k r0) w w') r1.
Proof.
  intros Hn Hw Hr0 Hs Hr1. rewrite /execute_one in Hw.
  assert (w_db w' = w_db w → run_state r1 ∈ open_states) as Hidle
    by (intros Hd; rewrite Hd in Hr1; by simplify_eq).
  apply bind_inv in Hw as [(found&w0&[Hsel Hn0]%sql_inv&Hw)|(e&[? _]%sql_Err_db&_)]; [|left; auto].
  injection Hsel as Hfound Hd0. symmetry in Hd0.
  destruct (next_pending (w_now w) (w_db w)) as [[j r]|] eqn:Hnext; simpl in Hfound; subst found;
    [|apply ret_eq in Hw as [? ->]; left; apply Hidle; congruence].
  rewrite -/(taken_run j r) in Hw.
  assert (apart j (w_db w) (w_db w')) as Hap.
  { rewrite -Hd0. change j with (pend_run_id (taken_run j r)). case_bool_decide.
    - apply bind_inv in Hw as [(b&w1&Hb&Hw)|(e&Hb&_)]; [|exact (evolves_elim _ _ _ _ _ (begin_acquisition_apart _) Hb)].
      etrans; [exact (evolves_elim _ _ _ _ _ (begin_acquisition_apart _) Hb)|].
      destruct b; [exact (evolves_elim _ _ _ _ _ (execute_run_apart _ _ _) Hw)|by apply ret_eq in Hw as [_ ->]].
    - exact (evolves_elim _ _ _ _ _ (execute_run_apart _ _ _) Hw). }
  destruct (decide (k = j)) as [->|Hne].
  2: { left. rewrite (ap_runs _ _ _ Hap) // in Hr1. by simplify_eq. }
  apply next_pending_Some in Hnext as [Hr _]. assert (r = r0) as -> by congruence. rewrite -Hd0 in Hr0.
  eapply (disposed_mono (nothing_to_digest pv (taken_run j r0) w0 w')).
  { intros Hno. split; [done|]. eapply nothing_kept; [|exact Hno]. by rewrite Hd0. }
  case_bool_decide.
  - apply bind_inv in Hw as [(b&w1&Hb&Hw)|(e&Hb&_)];
      pose proof (evolves_elim _ _ _ _ _ (begin_acquisition_opened _) Hb) as [Hkept Hopen];
      destruct (Hopen _ _ Hr0 Hs) as (r2&Hr2&Hs2); [|left; by simplify_eq].
    destruct b; [|apply ret_eq in Hw as [_ ->]; left; by simplify_eq].
    simpl in Hw. eapply disposed_mono; [by apply nothing_kept|].
    eapply (execute_run_disposed pv n (taken_run j r0)); [done|exact Hw|exact Hr2|exact Hs2|exact Hr1].
  - eapply (execute_run_disposed pv n (taken_run j r0)); [done|exact Hw|exact Hr0|exact Hs|exact Hr1].
Qed.

(** C12: An empty digest is never a guess.  Whatever the provider answers and whichever statement fails,
    one call of the executor leaves an open run open, failed, waiting for its recap, or completed; and
    it completes it without a recap only when it took that run, every channel its owner subscribes to
    (at most twenty) was reported in that call as read to its end for the run, and the window holds no eligible post
    at all.  After a partial acquisition, or when a post was left out, the run is therefore not
    completed; and with working storage a taken run always gets that far: it is failed, waits for its
    recap, is completed under these conditions, or stays acquiring under a stored provider wait. *)
Theorem empty_digest_justified pv source_count w k r0 :
  runs (w_db w) !! k = Some r0 → run_state r0 ∈ open_states →
  let justified w' := next_pending (w_now w) (w_db w) = Some (k, r0) ∧
    nothing_to_digest pv (taken_run k r0) w w' in
  (∀ res w' r1, execute_one pv (clamp_source_count source_count) w = (res, w') →
     runs (w_db w') !! k = Some r1 → disposed (justified w') r1) ∧
  (ExternalLaws → ReportLaws → RequestLaws → reachable (w_db w) → able w → fresh_in w (manifests (w_db w)) →
   next_pending (w_now w) (w_db w) = Some (k, r0) →
   succeeds (execute_one pv (clamp_source_count source_count)) w (λ _ w',
     ∃ r1, runs (w_db w') !! k = Some r1 ∧ disposed (justified w') r1 ∧
       (run_state r1 ∈ open_states → run_state r1 = RunState.Acquiring ∧ held (w_now w) k (w_db w')))).
Proof.
  intros Hr0 Hs justified. split.
  - intros res w' r1 Hw Hr1. eapply execute_one_disposed; [|done..].
    rewrite /clamp_source_count /MAX_SOURCE_COUNT. lia.
  - intros ??? Hreach Ha Hf Hnext. eapply succeeds_mono; [by apply execute_one_succeeds|].
    intros busy w' Hw _ [_ Hone]. rewrite Hnext in Hone. destruct Hone as (_&_&r1&Hr1&Hacc&Hheld).
    exists r1. split; [done|]. split.
    + eapply execute_one_disposed; [|done..]. rewrite /clamp_source_count /MAX_SOURCE_COUNT. lia.
    + intros Hopen. split; [|auto]. rewrite /open_states in Hopen. set_solver.
Qed.
End EmptyDigest.

(** ** Witness *)

Module DemoEmpty.
#[local] Existing Instance Demo.external.

(** A channel without posts. *)
Definition silent : provider :=
  Provider unit (λ _, Some (Ok tt)) (λ _ _ _ _, Some (Ok (ProviderPage [] None))).
End DemoEmpty.

(** The accepted run of the trace, with a channel that has no posts, is completed without a recap. *)
Lemma empty_digest_justified_witness :
  ∃ w' r1, @execute_one Demo.external (λ _, DemoEmpty.silent) 100 DemoAdvance.accepted = (Ok true, w') ∧
    runs (w_db w') !! 60%N = Some r1 ∧ run_state r1 = RunState.Completed ∧
    ∃ r0, @nothing_to_digest Demo.external (λ _, DemoEmpty.silent) (@taken_run Demo.external 60%N r0)
      DemoAdvance.accepted w'.
Proof.
  destruct (runs (w_db DemoAdvance.accepted) !! 60%N) as [r0|] eqn:Hr0; [|by vm_compute in Hr0].
  destruct (@empty_digest_justified Demo.external (λ _, DemoEmpty.silent) 100 DemoAdvance.accepted 60%N r0 Hr0)
    as [Hany _]; [vm_compute in Hr0; injection Hr0 as <-; set_solver|].
  destruct (execute_one (λ _, DemoEmpty.silent) 100 DemoAdvance.accepted) as [res w'] eqn:Hw.
  destruct (runs (w_db w') !! 60%N) as [r1|] eqn:Hr1; [|by vm_compute in Hw; injection Hw as _ <-].
  assert (run_state r1 = RunState.Completed ∧ res = Ok true) as [Hst ->].
  { split; [|vm_compute in Hw; by injection Hw as <-].
    vm_compute in Hw. injection Hw as _ <-. vm_compute in Hr1. by injection Hr1 as <-. }
  exists w', r1. split; [reflexivity|]. split; [exact Hr1|]. split; [exact Hst|]. exists r0.
  destruct (Hany _ _ _ Hw Hr1) as [Ho|[Hf|[Hf|(_&_&Hno)]]]; [|by rewrite Hst in Hf..|exact Hno].
  rewrite Hst in Ho. by apply (bool_decide_eq_true_2 _) in Ho.
Defined.
