(* ===== verification/Liveness.v ===== *)
(** * Liveness: every run is settled and every operation answered

    The safety theorems say that nothing wrong is ever stored; these say that the reaper and the
    publisher, left alone with a storage and a broker that work, bring every open run and every queued
    message to its end, in a number of ticks their batches determine. *)

From S2P Require Import Prelude Text External Store Tx Demo Runs Reports Progress Delta Bus BusSpec.
From S2P Require Import Reaper ReaperSpec System Queue Safety Supervision SupervisionSpec.

Section Liveness.
Context `{External} `{!BusExternal} `{!ReportLaws} `{!EnvelopeLaws}.

Definition open_runs (d : db) : list (uuid * run_row) :=
  select_where (λ _ r, negb (terminal (run_state r))) (runs d).

Definition unsent (d : db) : list (uuid * outbox_row) :=
  select_where (λ _ o, bool_decide (out_published_at o = None)) (outbox d).

Lemma elem_of_open_runs k r d :
  (k, r) ∈ open_runs d ↔ runs d !! k = Some r ∧ terminal (run_state r) = false.
Proof. by rewrite elem_of_select_where negb_true_iff. Qed.

Lemma elem_of_unsent k o d :
  (k, o) ∈ unsent d ↔ outbox d !! k = Some o ∧ out_published_at o = None.
Proof. by rewrite elem_of_select_where bool_decide_eq_true. Qed.

(** ** The reaper *)

(** A tick comes when every open run is past its deadline. *)
Definition past_deadline (deadline : Z) (d : db) (tick : Z * Z) : Prop :=
  ∃ at_, pg_timestamptz (jiff_text tick.2) = Some at_ ∧
    ∀ k r, (k, r) ∈ open_runs d → run_updated_at r < at_ - deadline * 1000000.

Lemma open_run_terminal r : open_run r = true ↔ terminal (run_state r) = false.
Proof. rewrite /open_run bool_decide_eq_true. destruct (run_state r); simpl; set_solver. Qed.

(** One reaping settles a batch of the open runs and leaves the others as they are. *)
Lemma reap_shrinks deadline tick w :
  able w → past_deadline deadline (w_db w) tick →
  let w' := (reap_once deadline tick.2 (at_instant tick.1 w)).2 in
  able w' ∧ (length (open_runs (w_db w')) ≤ length (open_runs (w_db w)) - 100)%nat ∧
  ∀ k r, (k, r) ∈ open_runs (w_db w') → (k, r) ∈ open_runs (w_db w).
Proof.
  intros Ha (at_&Hat&Hlate). cbv zeta.
  destruct (reap_once_succeeds deadline tick.2 (at_instant tick.1 w)) as (n&w'&Hw&_&Ha').
  { destruct Ha. by split. } { by eexists. }
  rewrite Hw /=. split; [done|].
  apply reap_once_inv in Hw as [(at1&Hat1&_&[Hruns _ _ _])|[_ ?]]; [|done].
  rewrite Hat in Hat1. injection Hat1 as <-. simpl in Hruns.
  set (threshold := at_ - deadline * 1000000) in *.
  assert (∀ k r, (k, r) ∈ open_runs (w_db w') → (k, r) ∈ open_runs (w_db w) ∧
    (k, r) ∉ reap_batch threshold (w_db w)) as Hold.
  { intros k r [Hk Ho]%elem_of_open_runs. rewrite Hruns in Hk.
    apply lookup_update_where_Some in Hk as (r0&Hk0&->).
    destruct (bool_decide (k ∈ _)) eqn:Hb; [done|]. apply bool_decide_eq_false in Hb.
    split; [by apply elem_of_open_runs|]. intros Hin. apply Hb, list_elem_of_fmap. by exists (k, r0). }
  split; [|by intros k r [? _]%Hold].
  apply (length_after_batch reap_key 100); [by apply NoDup_select_where|].
  intros [k r] [Hin Hout]%Hold. split; [done|]. revert Hout. rewrite /reap_batch /open_runs.
  rewrite (select_where_ext (overdue threshold) (λ _ r, negb (terminal (run_state r)))); [done|].
  intros k1 r1 Hk1. apply eq_true_iff_eq. rewrite overdue_true open_run_terminal negb_true_iff.
  split; [by intros [? _]|]. intros Ht. split; [done|]. eapply (Hlate k1). by apply elem_of_open_runs.
Qed.

(** Enough ticks settle every run. *)
Lemma reaper_settles deadline ticks w :
  able w → (∀ tick, tick ∈ ticks → past_deadline deadline (w_db w) tick) →
  (length (open_runs (w_db w)) ≤ 100 * length ticks)%nat →
  let w' := (supervise_reaper deadline ((λ t, Tick t.1 t.2) <$> ticks) w).2 in
  able w' ∧ open_runs (w_db w') = [].
Proof.
  rewrite /supervise_reaper.
  revert w. induction ticks as [|tick ticks IH]; intros w Ha Hlate Hlen; simpl in *.
  { split; [done|]. apply nil_length_inv. lia. }
  destruct (reap_shrinks deadline tick w) as (Ha'&Hshrink&Hsub); [done|apply Hlate; by left|].
  apply IH; [done| |lia]. intros t Ht. destruct (Hlate t) as (at_&Hat&Hl); [by right|].
  exists at_. split; [done|]. intros k r Hk. by apply (Hl k), Hsub.
Qed.

(** ** The publisher *)

(** The row can be sent at each of the instants. *)
Definition sendable (clocks : list Z) (o : outbox_row) : Prop :=
  is_Some (jiff_parse (pg_to_char_micros (out_created_at o))) ∧
  ∀ clock, clock ∈ clocks → out_next_attempt_at o ≤ clock.

(** A broker that acknowledges everything. *)
Definition accepting : jetstream := λ _, Acked.

Definition willing : outbound_message → bool := acknowledges accepting.

(** One publication sends a batch of the unsent rows. *)
Lemma publication_shrinks clock w :
  calm w → reachable (w_db w) →
  (∀ k o, outbox (w_db w) !! k = Some o → sendable [clock] o) →
  ∃ w', publish_outbox willing (at_instant clock w) = (Ok tt, w') ∧ calm w' ∧
    w_db w' = with_outbox (w_db w) (outbox (w_db w')) ∧
    (length (unsent (w_db w')) ≤ length (unsent (w_db w)) - 32)%nat ∧
    ∀ k o', outbox (w_db w') !! k = Some o' → ∃ o, outbox (w_db w) !! k = Some o ∧
      (o' = o ∨ o' = set_published clock o).
Proof.
  intros Hc Hr Hs.
  destruct (publication_exact willing (at_instant clock w)) as (w'&Hw&Hc'&Hfr&Hok&Hrows&Hpub);
    [done|done|by intros k o [? _]%Hs|].
  simpl in *. set (batch := publish_batch clock (w_db w)) in *.
  assert (∀ ko, ko ∈ batch → accepted willing ko = true) as Hacc.
  { intros ko Hin. specialize (Hok ko Hin). rewrite /accepted. by destruct (stored_row ko ≫= wrap_outbox_row). }
  assert (forallb (accepted willing) batch = true) as Hall.
  { apply forallb_forall. intros ko Hin%list_elem_of_In. by apply Hacc. }
  rewrite Hall in Hw. exists w'. split; [done|]. split; [done|]. split; [done|].
  assert (∀ k o', outbox (w_db w') !! k = Some o' → ∃ o, outbox (w_db w) !! k = Some o ∧
    ((k, o) ∉ batch ∧ o' = o ∨ (k, o) ∈ batch ∧ o' = set_published clock o)) as Hold.
  { intros k o' Hk. rewrite Hrows in Hk. destruct (outbox (w_db w) !! k) as [o|] eqn:Hk0; simplify_eq/=.
    exists o. split; [done|]. case_decide as Hin.
    - apply list_elem_of_fmap in Hin as ([k1 o1]&->&Hin). simpl in *.
      destruct (elem_of_publish_batch _ _ _ _ Hin) as [Hk1 _]. simplify_eq.
      right. by rewrite Hacc.
    - left. split; [|done]. intros Hin'. apply Hin, list_elem_of_fmap. by exists (k, o). }
  split; [|intros k o' (o&?&[[_ ->]|[_ ->]])%Hold; eauto].
  apply (length_after_batch publish_key 32); [by apply NoDup_select_where|].
  intros [k o'] [Hk Hu]%elem_of_unsent. destruct (Hold k o' Hk) as (o&Hk0&[[Hout ->]|[_ ->]]); [|done].
  split; [by apply elem_of_unsent|]. revert Hout. rewrite /batch /publish_batch /unsent.
  rewrite (select_where_ext (publishable clock) (λ _ o, bool_decide (out_published_at o = None))); [done|].
  intros k1 o1 Hk1. rewrite /publishable. destruct (Hs k1 o1 Hk1) as [_ Hdue].
  rewrite (proj2 (Z.leb_le _ _)); [by rewrite andb_true_r|apply Hdue; by left].
Qed.

(** Enough ticks send every row. *)
Lemma publisher_drains language clocks w :
  calm w → reachable (w_db w) →
  (∀ k o, outbox (w_db w) !! k = Some o → sendable clocks o) →
  (length (unsent (w_db w)) ≤ 32 * length clocks)%nat →
  ∃ w', consume_loop language ((λ c, OutboxTick c accepting) <$> clocks) w = (Ok false, w') ∧
    w_db w' = with_outbox (w_db w) (outbox (w_db w')) ∧ reachable (w_db w') ∧ unsent (w_db w') = [].
Proof.
  revert w. induction clocks as [|clock clocks IH]; intros w Hc Hr Hs Hlen; simpl in *.
  { exists w. split_and!; [done|by destruct (w_db w)|done|apply nil_length_inv; lia]. }
  destruct (publication_shrinks clock w) as (w1&Hw1&Hc1&Hd1&Hlen1&Hrows); [done|done| |].
  { intros k o [Hp Hdue]%Hs. split; [done|]. intros c ->%list_elem_of_singleton. apply Hdue. by left. }
  rewrite Hw1. assert (reachable (w_db w1)) as Hr1.
  { rewrite /reachable. etrans; [exact Hr|]. pose proof (publish_outbox_steps willing (at_instant clock w)) as Hst. by rewrite Hw1 in Hst. }
  destruct (IH w1) as (w'&Hl&Hd'&Hr'&Hu'); [done|done| |lia|].
  - intros k o' (o&[Hp Hdue]%Hs&Ho')%Hrows. destruct Ho' as [->| ->]; (split; [done|]);
      intros c Hin; apply Hdue; by right.
  - exists w'. split; [done|]. split; [by rewrite Hd' Hd1|done].
Qed.

(** C19: Every operation is answered.  From any reachable database, whatever the workers did before,
    once the deadline of the open runs has passed, [ceil(runs / 100)] ticks of the reaper settle all of
    them, and [ceil(rows / 32)] publications to a broker that accepts send everything that is queued:
    then no run is open, no message is unsent, and the operation of every on-demand run has been
    reported to the platform with a terminal status. *)
Theorem operations_answered deadline ticks language clocks w :
  reachable (w_db w) → able w →
  (∀ tick, tick ∈ ticks → past_deadline deadline (w_db w) tick) →
  (length (open_runs (w_db w)) ≤ 100 * length ticks)%nat →
  let w1 := (supervise_reaper deadline ((λ t, Tick t.1 t.2) <$> ticks) w).2 in
  (∀ k o, outbox (w_db w1) !! k = Some o → sendable clocks o) →
  (length (unsent (w_db w1)) ≤ 32 * length clocks)%nat →
  ∃ w2, consume_loop language ((λ c, OutboxTick c accepting) <$> clocks) w1 = (Ok false, w2) ∧
    (∀ k r, runs (w_db w2) !! k = Some r → terminal (run_state r) = true) ∧
    (∀ k o, outbox (w_db w2) !! k = Some o → is_Some (out_published_at o)) ∧
    ∀ k r, runs (w_db w2) !! k = Some r → run_trigger r = RunTrigger.OnDemand →
      ∃ status j o,
        status ∈ [OperationStatus.Succeeded; OperationStatus.PartiallySucceeded; OperationStatus.Failed] ∧
        outbox (w_db w2) !! j = Some o ∧ out_subject o = REPORT_SUBJECT ∧
        out_semantic_key o = report_key (run_operation r) status ∧ is_Some (out_published_at o).
Proof.
  intros Hr Ha Hlate Hruns w1 Hsend Hrows.
  destruct (reaper_settles deadline ticks w Ha Hlate Hruns) as [Ha1 Hnone]. fold w1 in Ha1, Hnone.
  assert (reachable (w_db w1)) as Hr1.
  { rewrite /reachable. etrans; [exact Hr|].
    apply timer_loop_steps. intros n. apply reap_once_steps. }
  destruct (publisher_drains language clocks w1) as (w2&Hw2&Hd2&Hr2&Hsent); [apply Ha1|done..|].
  exists w2. split; [done|].
  assert (∀ k r, runs (w_db w2) !! k = Some r → terminal (run_state r) = true) as Hterm.
  { intros k r. rewrite Hd2 /=. intros Hk. apply not_false_is_true. intros Ht.
    assert ((k, r) ∈ open_runs (w_db w1)) as Hin by by apply elem_of_open_runs. by rewrite Hnone in Hin; inv Hin. }
  assert (∀ k o, outbox (w_db w2) !! k = Some o → is_Some (out_published_at o)) as Hpub.
  { intros k o Hk. destruct (out_published_at o) eqn:Ho; [by eexists|].
    assert ((k, o) ∈ unsent (w_db w2)) as Hin by by apply elem_of_unsent. by rewrite Hsent in Hin; inv Hin. }
  split; [done|]. split; [done|]. intros k r Hk Htr.
  destruct (settled_reported _ _ _ Hr2 Hk (Hterm _ _ Hk) Htr) as (status&Hst&j&o&Hj&?&?).
  exists status, j, o. split_and!; eauto.
Qed.
End Liveness.

(** ** Witness *)

Module DemoLiveness.
#[local] Existing Instance Demo.external.

(** The accepted run of [DemoQueue], with identities of its own for the workers that follow. *)
Definition waiting : world :=
  DemoProgress.resumed (w_db DemoQueue.accepted_run).

Definition ticks : list (Z * Z) := [(20, 1000000000)].
Definition clocks : list Z := [2000000].

Definition settled : world :=
  (@supervise_reaper Demo.external 0 ((λ t, Tick t.1 t.2) <$> ticks) waiting).2.

Lemma waiting_able : able waiting.
Proof. apply DemoProgress.able_resumed. vm_compute. reflexivity. Qed.

Lemma waiting_late tick : tick ∈ ticks → @past_deadline Demo.external 0 (w_db waiting) tick.
Proof.
  intros ->%list_elem_of_singleton. exists 1000000. split; [vm_compute; reflexivity|].
  intros k r [Hk _]%elem_of_open_runs. apply Z.ltb_lt.
  apply (DemoProgress.all_rows (λ _ r, run_updated_at r <? 1000000 - 0 * 1000000) (runs (w_db waiting)) ltac:(vm_compute; reflexivity) _ _ Hk).
Qed.

Lemma settled_sendable k o :
  outbox (w_db settled) !! k = Some o → @sendable Demo.external DemoBus.bus clocks o.
Proof.
  intros Hk. split.
  - change (is_Some (Demo.instant_parse (int_text (out_created_at o)))).
    rewrite /Demo.instant_parse Demo.int_of_text. by eexists.
  - intros c ->%list_elem_of_singleton. apply Z.leb_le.
    apply (DemoProgress.all_rows (λ _ o, out_next_attempt_at o <=? 2000000) (outbox (w_db settled)) ltac:(vm_compute; reflexivity) _ _ Hk).
Qed.
End DemoLiveness.

Lemma operations_answered_witness :
  (length (open_runs (w_db DemoLiveness.waiting)) = 1 ∧
   length (@unsent (w_db DemoLiveness.settled)) = 2)%nat ∧
  ∃ w2, @consume_loop Demo.external DemoBus.bus OutputLanguage.En
      ((λ c, OutboxTick c accepting) <$> DemoLiveness.clocks) DemoLiveness.settled = (Ok false, w2) ∧
    ∀ k r, runs (w_db w2) !! k = Some r → terminal (run_state r) = true.
Proof.
  split; [split; vm_compute; reflexivity|].
  destruct (@operations_answered Demo.external DemoBus.bus DemoProgress.report_laws DemoQueue.queue_laws
    0 DemoLiveness.ticks OutputLanguage.En DemoLiveness.clocks DemoLiveness.waiting
    DemoQueue.accepted_run_reachable DemoLiveness.waiting_able DemoLiveness.waiting_late
    ltac:(vm_compute; lia) DemoLiveness.settled_sendable ltac:(vm_compute; lia)) as (w2&Hw2&Hterm&_).
  exists w2. split; [exact Hw2|exact Hterm].
Defined.
