(* ===== verification/Readiness.v ===== *)
(** * Readiness: the concurrent readiness of [src/src/runtime.rs]

    [WorkerReadiness] is three atomic booleans shared by the bus task, the provider task, the main task
    that drains them, and the operator route that reads the third.  [set_bus] and [set_provider] are not
    atomic: a store of the task's own flag, the loads of [refresh] (the second one only when the first
    read [true]) and a store of their conjunction, each one a step here.  The steps of the two tasks
    and of the main task interleave in any order; the tasks of [Supervision] are seen as what they do
    to readiness, with everything else they do left open as a choice. *)

From S2P Require Import Prelude Api Supervision.

Inductive task := BusTask | ProviderTask.

#[export] Instance task_eq_dec : EqDecision task.
Proof. solve_decision. Defined.

(** Where a supervisor is: at the loop head, connecting, inside [set_x v], serving after [set_x true],
    or done with [set_x false]. *)
Inductive phase :=
| Head
| Attempting
| Storing (v : bool)
| LoadingBus (v : bool)
| LoadingProvider (v : bool)
| Publishing (v x : bool)
| Serving
| Resting
| Joined.

(** Where [run_worker] is: awaiting the signal, between [begin_drain] and [drain_tx.send], joining the
    tasks, or past the join. *)
Inductive main_phase := Awaiting | Announced | Draining | Stopped.

#[export] Instance phase_eq_dec : EqDecision phase.
Proof. solve_decision. Defined.
#[export] Instance main_phase_eq_dec : EqDecision main_phase.
Proof. solve_decision. Defined.

Record worker := Worker {
  wk_flags : readiness; wk_bus : phase; wk_provider : phase; wk_main : main_phase }.

Definition phase_of (t : task) (s : worker) : phase :=
  match t with BusTask => wk_bus s | ProviderTask => wk_provider s end.

Definition with_phase (t : task) (p : phase) (s : worker) : worker :=
  match t with
  | BusTask => Worker (wk_flags s) p (wk_provider s) (wk_main s)
  | ProviderTask => Worker (wk_flags s) (wk_bus s) p (wk_main s)
  end.

Definition flag (t : task) (r : readiness) : bool :=
  match t with BusTask => rd_bus r | ProviderTask => rd_provider r end.

Definition store_flag (t : task) (v : bool) (r : readiness) : readiness :=
  match t with
  | BusTask => Readiness v (rd_provider r) (rd_ready r)
  | ProviderTask => Readiness (rd_bus r) v (rd_ready r)
  end.

(** [Lifecycle::set_ready] *)
Definition set_ready (x : bool) (r : readiness) : readiness :=
  Readiness (rd_bus r) (rd_provider r) x.

(** The value of the drain channel. *)
Definition drained (m : main_phase) : bool :=
  match m with Draining | Stopped => true | Awaiting | Announced => false end.

(** One step of a supervisor; [choice] is whether a connection succeeds, or whether consuming fails.
    Only the drain ends the provider's execution loop. *)
Definition task_next (t : task) (choice drain : bool) (r : readiness) (p : phase)
    : option (phase * readiness) :=
  match p with
  | Head => Some (if drain then Joined else Attempting, r)
  | Attempting => Some (Storing choice, r)
  | Storing v => Some (LoadingBus v, store_flag t v r)
  | LoadingBus v => Some (if rd_bus r then LoadingProvider v else Publishing v false, r)
  | LoadingProvider v => Some (Publishing v (rd_provider r), r)
  | Publishing v x => Some (if v : bool then Serving else Resting, set_ready x r)
  | Serving =>
      if match t with BusTask => drain || choice | ProviderTask => drain end
      then Some (Storing false, r) else None
  | Resting =>
      Some (match t with BusTask => if drain then Joined else Head | ProviderTask => Head end, r)
  | Joined => None
  end.

(** One step of [run_worker] from the signal on. *)
Definition main_next (s : worker) : option worker :=
  match wk_main s with
  | Awaiting => Some (Worker (begin_drain (wk_flags s)) (wk_bus s) (wk_provider s) Announced)
  | Announced => Some (Worker (wk_flags s) (wk_bus s) (wk_provider s) Draining)
  | Draining =>
      if decide (wk_bus s = Joined ∧ wk_provider s = Joined)
      then Some (Worker (wk_flags s) Joined Joined Stopped) else None
  | Stopped => None
  end.

Inductive event := Main | Task (t : task) (choice : bool).

Definition perform (e : event) (s : worker) : option worker :=
  match e with
  | Main => main_next s
  | Task t choice =>
      '(p, r) ← task_next t choice (drained (wk_main s)) (wk_flags s) (phase_of t s);
      Some (with_phase t p (Worker r (wk_bus s) (wk_provider s) (wk_main s)))
  end.

Definition moves (s s' : worker) : Prop := ∃ e, perform e s = Some s'.

(** A schedule; [None] when an event of it cannot happen. *)
Fixpoint schedule_run (es : list event) (s : worker) : option worker :=
  match es with
  | [] => Some s
  | e :: es => s ← perform e s; schedule_run es s
  end.

(** [WorkerReadiness::new] with both supervisors spawned. *)
Definition started : worker := Worker (Readiness false false false) Head Head Awaiting.

(** ** Runs *)

Lemma schedule_run_moves es s s' : schedule_run es s = Some s' → rtc moves s s'.
Proof.
  revert s. induction es as [|e es IH]; simpl; intros s; [by intros [= ->]|].
  destruct (perform e s) as [s1|] eqn:He; simpl; [|done].
  intros Hr. eapply rtc_l; [by exists e|by apply IH].
Qed.

(** A task alone: its call is [set_bus] or [set_provider] as one step. *)
Lemma alone t v s :
  phase_of t s = Storing v →
  ∃ n, schedule_run (replicate n (Task t false)) s =
    Some (with_phase t (if v then Serving else Resting)
      (Worker (match t with BusTask => set_bus v | ProviderTask => set_provider v end (wk_flags s))
         (wk_bus s) (wk_provider s) (wk_main s))).
Proof.
  destruct s as [[b p r] pb pp m], t; simpl; intros ->.
  - exists (if v then 4 else 3)%nat. by destruct v.
  - exists (if b then 4 else 3)%nat. by destruct b, v.
Qed.

(** ** The invariant *)

(** Own flag of a task as its phase tells it: [set_x] has stored past [Storing]. *)
Definition own_flag (p : phase) (f : bool) : Prop :=
  match p with
  | Head | Attempting | Resting | Joined | Storing true => f = false
  | Serving => f = true
  | Storing false => True
  | LoadingBus v | LoadingProvider v | Publishing v _ => f = v
  end.

(** A task that is setting its flag to [false] cannot publish [true]; the bus task, whose flag is
    read first, does not even read the other. *)
Definition honest (t : task) (p : phase) : Prop :=
  match p with
  | Publishing false x => x = false
  | LoadingProvider false => t = ProviderTask
  | _ => True
  end.

(** A task that has published [true] since it last published [false], perhaps. *)
Definition live (p : phase) : bool :=
  match p with
  | Serving | Storing false | LoadingBus false | LoadingProvider false | Publishing false _ => true
  | _ => false
  end.

Record coherent (s : worker) : Prop := {
  coh_flag t : own_flag (phase_of t s) (flag t (wk_flags s));
  coh_honest t : honest t (phase_of t s);
  coh_ready : rd_ready (wk_flags s) = true → live (wk_bus s) || live (wk_provider s) = true;
  coh_stopped : wk_main s = Stopped → wk_bus s = Joined ∧ wk_provider s = Joined }.

Lemma started_coherent : coherent started.
Proof. by split; intros; try destruct t. Qed.


Ltac settled :=
  repeat match goal with
  | |- coherent _ => split; [intros []|intros []| |]
  | H : _ ∧ _ |- _ => destruct H
  | _ => progress (simpl in *; intros; simplify_eq)
  | H : ?x = ?x → _ |- _ => specialize (H eq_refl)
  | H : ?P → _, H' : ?P |- _ => specialize (H H')
  | H : _ || _ = true |- _ => apply orb_true_iff in H as [H|H]
  | |- context [if ?b then _ else _] => destruct b
  | v : bool |- _ => destruct v
  | _ => done
  | _ => solve [apply orb_true_iff; auto]
  end.

Lemma moves_coherent s s' : moves s s' → coherent s → coherent s'.
Proof.
  destruct s as [[b p r] pb pp m].
  intros [e He] [Hf Hh Hr Hs]. pose proof (Hf BusTask) as Hb. pose proof (Hf ProviderTask) as Hp.
  pose proof (Hh BusTask) as Hhb. pose proof (Hh ProviderTask) as Hhp. clear Hf Hh. simpl in *.
  destruct e as [|[] choice]; simpl in He.
  - rewrite /main_next /= in He. destruct m; [| |case_decide as Hj; [destruct Hj as [-> ->]|]|]; settled.
  - destruct pb, m; settled.
  - destruct pp, m; settled.
Qed.

Lemma reachable_coherent s : rtc moves started s → coherent s.
Proof.
  intros Hr. remember started as s0 eqn:H0. assert (coherent s0) as Hc by (subst; apply started_coherent).
  clear H0. induction Hr; eauto using moves_coherent.
Qed.

(** ** The drain *)

(** The steps a supervisor has left once the drain is sent. *)
Definition work (p : phase) : nat :=
  match p with
  | Attempting => 12
  | Storing true => 11 | LoadingBus true => 10 | LoadingProvider true => 9 | Publishing true _ => 8
  | Serving => 7
  | Storing false => 6 | LoadingBus false => 5 | LoadingProvider false => 4 | Publishing false _ => 3
  | Resting => 2
  | Head => 1
  | Joined => 0
  end.

Definition remaining (s : worker) : nat :=
  (work (wk_bus s) + work (wk_provider s) + if decide (wk_main s = Stopped) then 0 else 1)%nat.

Lemma moves_remaining s s' :
  drained (wk_main s) = true → moves s s' →
  drained (wk_main s') = true ∧ (remaining s' < remaining s)%nat.
Proof.
  destruct s as [[b p r] pb pp m]. intros Hm [e He]. destruct m; try done;
    (destruct e as [|t choice]; simpl in He;
      [rewrite /main_next /= in He; try (case_decide as Hj; [destruct Hj as [-> ->]|]);
       simplify_eq/=; (split; [done|vm_compute; lia])|]).
  all: destruct t; [destruct pb|destruct pp]; simplify_eq/=; (split; [done|]).
  all: rewrite /remaining /=; repeat match goal with v : bool |- _ => destruct v end; simpl; lia.
Qed.

Lemma remaining_bound s : (remaining s ≤ 25)%nat.
Proof.
  assert (∀ p, work p ≤ 12)%nat as Hw by (intros [| |[]|[]|[]|[]| | |]; simpl; lia).
  rewrite /remaining. pose proof (Hw (wk_bus s)). pose proof (Hw (wk_provider s)). case_decide; lia.
Qed.

(** Once the drain is sent, a worker that cannot move has joined its tasks. *)
Lemma drained_stuck s :
  coherent s → drained (wk_main s) = true → (∀ s', ¬ moves s s') →
  s = Worker (Readiness false false false) Joined Joined Stopped.
Proof.
  intros Hc Hm Hs.
  assert (∀ e, perform e s = None) as Hn by (intros e; destruct (perform e s) eqn:He; [by edestruct Hs; eexists|done]).
  pose proof (Hn (Task BusTask false)) as Hb. pose proof (Hn (Task ProviderTask false)) as Hp.
  pose proof (Hn Main) as Hmn. destruct Hc as [Hf _ Hr _].
  pose proof (Hf BusTask) as Hfb. pose proof (Hf ProviderTask) as Hfp. clear Hf Hs Hn.
  destruct s as [[b p r] pb pp m]; simpl in *. rewrite Hm in Hb Hp.
  destruct pb; simplify_eq/=. destruct pp; simplify_eq/=.
  rewrite /main_next /= in Hmn. destruct r; [by specialize (Hr eq_refl)|]. by destruct m.
Qed.

(** C39: The drain ends the worker.  From any state the worker reaches, in any interleaving of its tasks,
    once the drain is sent the supervisors take at most 25 more steps around readiness, whatever
    their connections and deliveries do; and when no step is left both are joined, the main task is
    past its join, and the readiness the operator route reports is off with both flags. *)
Theorem drain_joins s :
  rtc moves started s → drained (wk_main s) = true →
  (∀ n s', nsteps moves n s s' → (n ≤ 25)%nat) ∧
  (∀ s', rtc moves s s' → (∀ s'', ¬ moves s' s'') →
     s' = Worker (Readiness false false false) Joined Joined Stopped ∧
     operator_ready (wk_flags s') = SERVICE_UNAVAILABLE).
Proof.
  intros Hr Hm. split.
  - intros n s' Hn. pose proof (remaining_bound s).
    enough (n + remaining s' ≤ remaining s)%nat by lia.
    clear Hr H. induction Hn as [|n s s1 s' Hmv Hn IH]; [lia|].
    destruct (moves_remaining _ _ Hm Hmv) as [Hm1 ?]. specialize (IH Hm1). lia.
  - intros s' Hr' Hs. assert (drained (wk_main s') = true) as Hm'.
    { clear Hr Hs. induction Hr' as [|s s1 s' Hmv _ IH]; [done|]. by apply IH, (moves_remaining s). }
    rewrite (drained_stuck s') //. eapply reachable_coherent. by etrans.
Qed.

(** ** Exactness and its limits *)

(** Outside of a [set_x]. *)
Definition idle (p : phase) : bool :=
  match p with Head | Attempting | Serving | Resting | Joined => true | _ => false end.

(** A step that does not overlap two [set_x] calls and comes before the signal. *)
Definition apart (s s' : worker) : Prop :=
  moves s s' ∧ idle (wk_bus s') || idle (wk_provider s') = true ∧ wk_main s' = Awaiting.

(** What a call in progress has seen is what the flags are. *)
Definition current (r : readiness) (p : phase) : Prop :=
  match p with
  | Publishing _ x => x = rd_bus r && rd_provider r
  | LoadingProvider _ => rd_bus r = true
  | _ => True
  end.

Definition truthful (s : worker) : Prop :=
  wk_main s = Awaiting ∧ current (wk_flags s) (wk_bus s) ∧ current (wk_flags s) (wk_provider s) ∧
  (idle (wk_bus s) = true → idle (wk_provider s) = true →
   rd_ready (wk_flags s) = rd_bus (wk_flags s) && rd_provider (wk_flags s)).

Lemma idle_current r p : idle p = true → current r p.
Proof. by destruct p. Qed.

Lemma apart_truthful s s' :
  apart s s' → idle (wk_bus s) || idle (wk_provider s) = true → coherent s → truthful s → truthful s'.
Proof.
  destruct s as [[b p r] pb pp m]. intros [[e He] [Ha Hm']] Hi Hc [Hm [Hb [Hp Hr]]]. simpl in *. subst m.
  pose proof (coh_flag _ Hc BusTask) as Hfb. pose proof (coh_flag _ Hc ProviderTask) as Hfp. clear Hc.
  simpl in *. destruct e as [|[] choice]; simpl in He; [by rewrite /main_next in He; simplify_eq/=| |].
  - destruct pb; simplify_eq/=; unfold truthful; simpl; split_and!; settled; by apply idle_current.
  - destruct pp; simplify_eq/=; unfold truthful; simpl; split_and!; settled; by apply idle_current.
Qed.

Lemma apart_reachable s s' :
  rtc apart s s' →
  coherent s ∧ truthful s ∧ idle (wk_bus s) || idle (wk_provider s) = true →
  coherent s' ∧ truthful s' ∧ idle (wk_bus s') || idle (wk_provider s') = true.
Proof.
  induction 1 as [s|s s1 s' Ha _ IH]; [done|]. intros (Hm & Ht & Hi). apply IH.
  split_and!; [by eapply moves_coherent; [apply Ha|]|by eapply apart_truthful|apply Ha].
Qed.

(** C38: Readiness is exact while its updates do not overlap.  Before the signal, whenever the calls of
    [set_bus] and [set_provider] have not overlapped and none is in progress, what the operator
    route answers, never to be cached, is exactly the conjunction of what the two supervisors last set, each flag
    being [true] exactly while its supervisor is serving. *)
Theorem readiness_exact s :
  rtc apart started s → idle (wk_bus s) = true → idle (wk_provider s) = true →
  operator_router OperatorReady (wk_flags s) =
    no_store (status_response
      (if decide (wk_bus s = Serving ∧ wk_provider s = Serving) then OK else SERVICE_UNAVAILABLE)).
Proof.
  intros Hr. destruct (apart_reachable _ _ Hr) as (Hm & (_ & _ & _ & Ht) & _);
    [by split; [apply started_coherent|repeat split]|].
  intros Hb Hp.
  pose proof (coh_flag _ Hm BusTask) as Hfb. pose proof (coh_flag _ Hm ProviderTask) as Hfp.
  rewrite /operator_router /operator_ready Ht //. clear Ht Hm Hr. destruct s as [r pb pp m]; simpl in *.
  destruct pb, pp; try done; simpl in *; by rewrite Hfb Hfp.
Qed.

(** [n] steps of a task, every choice of them taken as true. *)
Definition steps_of (t : task) (n : nat) : list event := replicate n (Task t true).

(** Readiness can be stale, in two ways.  When the two updates overlap, a provider that read the
    bus flag before it went down publishes [true] after it: the route then reports ready with the bus
    down and no update in progress, until the next attempt of the bus ends.  And a provider that was
    connecting when the signal came publishes [true] after [begin_drain] and after the drain was sent,
    with no overlap at all. *)
Theorem readiness_stale :
  (∃ s, rtc moves started s ∧ wk_main s = Awaiting ∧ wk_bus s = Resting ∧ wk_provider s = Serving ∧
     rd_bus (wk_flags s) = false ∧ operator_ready (wk_flags s) = OK) ∧
  (∃ s, rtc moves started s ∧ wk_main s = Draining ∧
     idle (wk_bus s) = true ∧ idle (wk_provider s) = true ∧ operator_ready (wk_flags s) = OK).
Proof.
  assert (∀ es, ∃ s, default started (schedule_run es started) = s ∧ rtc moves started s) as Hr.
  { intros es. destruct (schedule_run es started) eqn:Hs; eexists; split; try done; by eapply schedule_run_moves. }
  split.
  - destruct (Hr (steps_of BusTask 6 ++ steps_of ProviderTask 5 ++ steps_of BusTask 4 ++
      steps_of ProviderTask 1)) as (s & <- & Hs). eexists. split; [exact Hs|]. by vm_compute; split_and!.
  - destruct (Hr (steps_of BusTask 6 ++ steps_of ProviderTask 1 ++ [Main; Main] ++
      steps_of ProviderTask 5)) as (s & <- & Hs). eexists. split; [exact Hs|]. by vm_compute; split_and!.
Qed.

Lemma drain_joins_witness :
  ∃ s, schedule_run [Task BusTask true; Main; Main] started = Some s ∧
    (∀ s', rtc moves s s' → (∀ s'', ¬ moves s' s'') →
       s' = Worker (Readiness false false false) Joined Joined Stopped ∧
       operator_ready (wk_flags s') = SERVICE_UNAVAILABLE).
Proof.
  eexists. split; [reflexivity|]. eapply drain_joins; [|reflexivity].
  by apply (schedule_run_moves [Task BusTask true; Main; Main]).
Defined.

(** A schedule whose states all keep one of the supervisors outside of its call. *)
Fixpoint apart_run (es : list event) (s : worker) : option worker :=
  match es with
  | [] => Some s
  | e :: es =>
      s ← perform e s;
      if (idle (wk_bus s) || idle (wk_provider s)) && bool_decide (wk_main s = Awaiting)
      then apart_run es s else None
  end.

Lemma apart_run_apart es s s' : apart_run es s = Some s' → rtc apart s s'.
Proof.
  revert s. induction es as [|e es IH]; simpl; intros s; [by intros [= ->]|].
  destruct (perform e s) as [s1|] eqn:He; simpl; [|done].
  destruct (_ && _) eqn:Ha; [|done]. apply andb_true_iff in Ha as [Hi Ha]. apply bool_decide_eq_true in Ha.
  intros Hr. eapply rtc_l; [|by apply IH]. split; [by exists e|done].
Qed.

Lemma readiness_exact_witness :
  let s := Worker (Readiness true true true) Serving Serving Awaiting in
  apart_run (steps_of BusTask 6 ++ steps_of ProviderTask 6) started = Some s ∧
  operator_router OperatorReady (wk_flags s) = no_store (status_response OK).
Proof.
  intros s. split; [reflexivity|]. apply (readiness_exact s); [|reflexivity..].
  by apply (apart_run_apart (steps_of BusTask 6 ++ steps_of ProviderTask 6)).
Defined.
