(* ===== verification/Process.v ===== *)
(** * Process: the two executables, [src/services/api/src/main.rs] and
    [src/services/worker/src/main.rs], with the log subscriber of [src/src/telemetry.rs]

    A process reads its configuration, installs the subscriber and, in the worker, loads the provider
    session; asked to check its configuration it stops there, otherwise it runs.  What the system
    gives the process (environment, arguments, the global subscriber, files, the answers of its
    start) are parameters.  The format of log lines is the subscriber library's. *)

From S2P Require Import Prelude Text External Store Tx Demo Registration Api ApiSpec Config ConfigSpec.
From S2P Require Import Session Supervision SupervisionSpec.

Module TelemetryError.
Inductive t := Unavailable.
End TelemetryError.

(** The layers of the log subscriber: the filter, and the format of the lines on standard output. *)
Record subscriber := Subscriber { sub_filter : string; sub_format : LogFormat.t }.

(** What a process ends with: [Box<dyn Error>] holds one of the errors of its calls. *)
Inductive main_error :=
| ConfigRefused (e : config_error)
| TelemetryRefused (e : TelemetryError.t)
| ProviderAbsent
| SessionRefused (e : SessionError.t)
| RunFailed (e : RuntimeError.t).

(** [Ok(())] after [check-config], and after the role ran. *)
Inductive exit := Checked | Ended.

Section Process.
Context `{External} `{!BusExternal} `{!ApiExternal} `{!ConfigExternal} `{!SessionExternal}.

(** The variables of the process, whether [try_init] finds no other subscriber in its place, and the
    answers of the start. *)
Variables (environment : list (string * string)) (try_init : subscriber → bool) (start : startup).

(** [install_subscriber] *)
Definition install_subscriber (c : config) : result TelemetryError.t subscriber :=
  filter ← (if env_filter_valid (tel_log_filter (cfg_telemetry c))
            then Ok (tel_log_filter (cfg_telemetry c)) else Err TelemetryError.Unavailable);
  let layers := Subscriber filter (tel_log_format (cfg_telemetry c)) in
  if try_init layers then Ok layers else Err TelemetryError.Unavailable.

(** [std::env::args().nth(1).as_deref() == Some("check-config")] *)
Definition check_config (arguments : list string) : bool :=
  bool_decide (arguments !! 1%nat = Some "check-config").

(** [Config::load] and [install_subscriber], as both processes begin. *)
Definition configured (role : Role.t) : result main_error config :=
  c ← map_err ConfigRefused (from_environment role environment);
  _ ← map_err TelemetryRefused (install_subscriber c);
  Ok c.

(** [main] of the API *)
Definition api_main (arguments : list string) (servers : api_state → list joined)
    : result main_error exit :=
  c ← configured Role.Api;
  if check_config arguments then Ok Checked
  else
    _ ← map_err RunFailed (run_api c start servers);
    Ok Ended.

(** What [main] of the worker needs before it runs. *)
Definition worker_material : result main_error (config * string) :=
  c ← configured Role.Worker;
  provider ← ok_or ProviderAbsent (cfg_provider c);
  session ← map_err SessionRefused (load provider);
  Ok (c, session).

(** [main] of the worker *)
Definition worker_main (arguments : list string)
    (tasks : worker_parts → world → list joined * world) (w : world) : result main_error exit * world :=
  match worker_material with
  | Err e => (Err e, w)
  | Ok (c, session) =>
      if check_config arguments then (Ok Checked, w)
      else
        let '(r, w) := run_worker c session start tasks w in
        (_ ← map_err RunFailed r; Ok Ended, w)
  end.

(** ** What a checked process does *)

(** How a process ends after its tasks did. *)
Definition ends (servers : list joined) (r : result main_error exit) : Prop :=
  ∃ res, joined_as servers res ∧ r = match res with Ok _ => Ok Ended | Err e => Err (RunFailed e) end.

Lemma run_ends servers : ends servers (_ ← map_err RunFailed (join_servers servers); Ok Ended).
Proof. exists (join_servers servers). split; [apply join_servers_exact|]. by destruct (join_servers _). Qed.

Lemma env_filter_accepted role c :
  from_environment role environment = Ok c → env_filter_valid (tel_log_filter (cfg_telemetry c)) = true →
  configured role = if try_init (Subscriber (tel_log_filter (cfg_telemetry c)) (tel_log_format (cfg_telemetry c)))
                    then Ok c else Err (TelemetryRefused TelemetryError.Unavailable).
Proof.
  intros Hc Hf. rewrite /configured Hc /install_subscriber /= Hf /=. by destruct (try_init _).
Qed.

Lemma configured_Ok role c : configured role = Ok c → from_environment role environment = Ok c.
Proof.
  rewrite /configured. destruct (from_environment role environment) as [c'|]; simpl; [|done].
  destruct (install_subscriber c'); simpl; [|done]. by intros [= <-].
Qed.

Lemma worker_provider c : configured Role.Worker = Ok c → is_Some (cfg_provider c).
Proof.
  intros [Hrole Hauth _ _ _ _ _]%configured_Ok%from_environment_sound.
  rewrite /role_sound Hrole in Hauth. destruct Hauth as (_&p&_&_&Hp&_). by eexists.
Qed.

Lemma worker_material_Ok c session :
  worker_material = Ok (c, session) ↔
    configured Role.Worker = Ok c ∧ ∃ provider, cfg_provider c = Some provider ∧ load provider = Ok session.
Proof.
  rewrite /worker_material. destruct (configured Role.Worker) as [c'|]; simpl; [|by split; [|intros [? _]]].
  destruct (cfg_provider c') as [p|] eqn:Hp; simpl.
  2:{ split; [done|]. intros [[= <-] (p&Hp'&_)]. by rewrite Hp in Hp'. }
  destruct (load p) eqn:Hl; simpl.
  - split; [intros [= <- <-]; eauto|]. intros [[= <-] (p'&Hp'&Hl')]. assert (p = p') as -> by congruence. congruence.
  - split; [done|]. intros [[= <-] (p'&Hp'&Hl')]. assert (p = p') as -> by congruence. congruence.
Qed.

(** C36: A checked process starts.  The argument [check-config] answers for the run without it.  When
    the check of a process fails, its run fails with the very same error, starts nothing and changes
    nothing, and a worker is never refused for an absent provider.  When it succeeds and the
    environment of the process then answers, the run serves, as the API, a router whose parts are those
    of the configuration (secret, page size, reader) and sound, and, as the worker, queues the
    registration of the configured schedule and starts its tasks with the session the check decrypted
    and sound parts, each as configured (bus, provider, schedule and its language, source count,
    deadline, retention), unless the registration fails; either ends exactly as the tasks it joined
    did.  The check itself changes nothing. *)
Theorem checked_process_starts checking running servers tasks w :
  checking !! 1%nat = Some "check-config" → running !! 1%nat ≠ Some "check-config" →
  match api_main checking servers with
  | Err e => api_main running servers = Err e ∧ (∀ r, e ≠ RunFailed r)
  | Ok r => r = Checked ∧ ∃ c, from_environment Role.Api environment = Ok c ∧
      (answers c start → ∃ a, sound_api a ∧ api_configured c a ∧
         ends (servers a) (api_main running servers))
  end ∧
  let '(checked, w') := worker_main checking tasks w in
  w' = w ∧
  match checked with
  | Err e => worker_main running tasks w = (Err e, w) ∧ e ≠ ProviderAbsent ∧ (∀ r, e ≠ RunFailed r)
  | Ok r => r = Checked ∧ ∃ c provider session,
      from_environment Role.Worker environment = Ok c ∧ cfg_provider c = Some provider ∧
      load provider = Ok session ∧
      (answers c start → ∃ p, sound_worker p ∧ worker_configured c p ∧ wp_session p = session ∧
         let '(registered, w1) := enqueue_schedule_registration (cfg_schedule c) w in
         if is_ok registered
         then ends (tasks p w1).1 (worker_main running tasks w).1 ∧
              (worker_main running tasks w).2 = (tasks p w1).2
         else worker_main running tasks w = (Err (RunFailed RuntimeError.Registration), w1))
  end.
Proof.
  intros Hcheck%(bool_decide_eq_true_2 _) Hrun%(bool_decide_eq_false_2 _).
  fold (check_config checking) in Hcheck. fold (check_config running) in Hrun. split.
  - rewrite /api_main Hcheck Hrun. destruct (configured Role.Api) as [c|e] eqn:Hc; simpl.
    + split; [done|]. exists c. apply configured_Ok in Hc. split; [done|]. intros Hans.
      destruct (accepted_api_runs _ _ _ Hc Hans) as (a&Ha&Hac&Hr). exists a. split_and!; try done. rewrite Hr. apply run_ends.
    + split; [done|]. revert Hc. rewrite /configured.
      destruct (from_environment _ _); simpl; [|by intros [= <-]].
      destruct (install_subscriber _); simpl; [done|by intros [= <-]].
  - rewrite /worker_main Hcheck Hrun.
    destruct worker_material as [[c session]|e] eqn:Hm; (split; [done|]).
    + split; [done|]. apply worker_material_Ok in Hm as [Hc (provider&Hp&Hl)].
      apply configured_Ok in Hc. exists c, provider, session. split_and!; try done. intros Hans.
      destruct (accepted_worker_runs _ _ session _ Hc Hans) as (p&Hps&Hpc&Hss&_&Hr). exists p.
      split_and!; try done.
      specialize (Hr tasks w). destruct (enqueue_schedule_registration _ w) as [registered w1].
      rewrite Hr. destruct registered; simpl; [|done]. split; [apply run_ends|done].
    + split; [done|]. revert Hm. rewrite /worker_material.
      destruct (configured Role.Worker) as [c|e'] eqn:Hc; simpl.
      * destruct (worker_provider c Hc) as [p ->]. simpl. destruct (load p); simpl; [done|by intros [= <-]].
      * intros [= <-]. revert Hc. rewrite /configured.
        destruct (from_environment _ _); simpl; [|by intros [= <-]].
        destruct (install_subscriber _); simpl; [done|by intros [= <-]].
Qed.
End Process.

(** ** Witness *)

Module DemoProcess.
#[local] Existing Instances Demo.external DemoApi.api DemoConfig.libraries DemoSession.files.

Definition start : startup := Startup (λ _, true) true (λ _, true) true Terminated.
Definition tasks (_ : worker_parts) (w : world) : list joined * world := ([Finished (Ok tt); Hanging], w).
Definition worker (arguments : list string) : result main_error exit * world :=
  worker_main DemoWorker.environment (λ _, true) start arguments tasks DemoWorker.posted.
End DemoProcess.

(** The worker of [DemoWorker] over the files of [DemoSession]: the check passes; the run starts its
    tasks, and ends as the first that does not join in time. *)
Lemma checked_process_starts_witness :
  (DemoProcess.worker ["worker"; "check-config"]).1 = Ok Checked ∧
  ends [Finished (Ok tt); Hanging] (DemoProcess.worker ["worker"]).1 ∧
  (DemoProcess.worker ["worker"]).1 = Err (RunFailed RuntimeError.Drain).
Proof.
  destruct (@checked_process_starts Demo.external DemoApi.api DemoConfig.libraries DemoSession.files
    DemoWorker.environment (λ _, true) DemoProcess.start ["worker"; "check-config"] ["worker"] (λ _, [])
    DemoProcess.tasks DemoWorker.posted eq_refl ltac:(done)) as [_ Hw].
  fold (DemoProcess.worker ["worker"; "check-config"]) in Hw. fold (DemoProcess.worker ["worker"]) in Hw.
  destruct (DemoProcess.worker ["worker"; "check-config"]) as [checked w0] eqn:Hc.
  assert (checked = Ok Checked) as ->.
  { apply (f_equal fst) in Hc. rewrite -[checked]/(fst (checked, w0)) -Hc. vm_compute. reflexivity. }
  split; [reflexivity|].
  destruct Hw as [_ [_ (c&provider&session&Hload&_&_&Hans)]].
  rewrite DemoWorker.worker_loaded in Hload. injection Hload as <-.
  destruct Hans as (p&_&_&_&Hrun); [by repeat split; left|].
  assert ((DemoProcess.worker ["worker"]).1 = Err (RunFailed RuntimeError.Drain)) as Hend
    by (vm_compute; reflexivity).
  split; [|exact Hend].
  destruct (enqueue_schedule_registration _ _) as [[o|e] w1]; [exact (proj1 Hrun)|].
  exfalso. rewrite Hrun in Hend. discriminate.
Defined.
